(* ===== verification/_CoqProject ===== *)
-Q . S2P
Prelude.v
GoFmt.v
Version.v
GoTime.v
GoFloat.v
GoCrypto.v
GoJson.v
GoPath.v
GoJsonText.v
GoIndent.v
GoJsonInj.v
GoJsonAny.v
GoJsonRead.v
Webhost.v
GoNet.v
Config.v
Types.v
Signer.v
Keystore.v
Vc.v
Did.v
Status.v
Scalar.v
Policy.v
Meaning.v
Macaroon.v
Agreement.v
Credential.v
Randomkeys.v
Chain.v
AuditLog.v
Signerd.v
Peercred.v
Export.v
Texts.v
Genfixtures.v
Conformance.v
Enroll.v
Enclave.v
Issuer.v
Verifier.v
Auditsink.v
Sinks.v
Wal.v
Enforce.v
Opaeval.v
Ingress.v
Listeners.v
Issuercmd.v
Flags.v
Http.v
Proxycmd.v
Mcp.v
Honest.v
Attempts.v
Agent.v
Verifycmd.v
Issuermain.v
EndToEnd.v
Runcmd.v
Daemon.v
Sockets.v
Shadow.v
Shadowcmd.v
Reusetoml.v
Reuse.v
Stories.v
