(* ===== verification/Prelude.v ===== *)
(** * Kessa: a verified model of delegated authority, enforcement and evidence

    Kessa puts an enforcement point in front of an agent's actions.  An agent
    acts under a chain of credentials that starts at a trust anchor; each
    credential carries a macaroon whose caveats only narrow.  The enforcement
    point decides each attempted action, records the decision in a signed hash
    chain before answering, and exports the record together with the evidence
    it decided on.  An independent verifier re-derives every verdict of such an
    export from public documents.  This development models that program (the Go
    sources under src/) and proves what makes it correct.

    ** The files, and the code each one models

    Go and its standard library, as far as the program relies on it:
    - [Prelude] bytes, options, lists, decidable equality, tactics;
    - [GoFmt] strings, strconv, fmt, and the texts of errors; [Flags] the
      key=value flags the commands share;
    - [GoTime] RFC3339 instants; [GoFloat] float64 and ParseFloat;
    - [GoCrypto] base64, SHA-256, HMAC (executable), and the class [Crypto] of
      the two signature algorithms (a parameter);
    - [GoJson], [GoJsonText], [GoIndent], [GoJsonInj] the encodings json.Marshal
      and json.MarshalIndent write, and that an encoding determines its value;
      [GoJsonRead] reading the documents of a fixed shape back; [GoJsonAny] what a
      value is after passing through map[string]any;
    - [GoPath], [GoNet] paths, URLs, hosts, IP addresses, media types, headers.

    The program, bottom up:
    - [Version] internal/version; [Webhost] internal/webhost; [Config]
      internal/config; [Types] pkg/types; [Signer] internal/signer; [Keystore]
      internal/keystore; [Did] internal/did; [Status] internal/status; [Vc]
      internal/vc;
    - [Scalar] internal/scalar; [Policy] internal/policy; [Meaning] what a policy
      says, as rules of inference over exact numbers; [Macaroon]
      internal/macaroon; [Agreement] the vocabulary the last two share;
      [Conformance] internal/policy/conformance, the contract of an evaluator;
    - [Credential] internal/credential; [Randomkeys] what internal/signer and
      internal/credential draw at random; [Chain] internal/chain;
    - [AuditLog] internal/audit; [Export] internal/export/export.go;
      [Texts] the published texts of all of these and the files they go to;
    - [Signerd] internal/signerd, the daemon's protocol, server and client;
      [Peercred] who the system says is at the other end of its socket;
    - [Verifier] internal/export/verify.go; [Auditsink], [Sinks] auditsink;
      [Wal] internal/enforce/wal.go; [Enforce] internal/enforce/enforce.go;
    - [Ingress], [Http], [Mcp] the two listeners of internal/enforce;
    - [Enroll] internal/enroll; [Enclave] internal/signer/enclave; [Shadow]
      internal/shadow; [Opaeval] experimental/policy-opa, the evaluator over a
      third-party engine;
    - [Honest] the composition of enforcement point and verifier, [Attempts]
      what one proof of possession can come to in it, [EndToEnd] the path from
      the start of the proxy command to the exit code of the verifier command,
      [Runcmd] the same for the proxy's batch command, with its report.

    The commands, each from its parsed flags to its exit code:
    - [Listeners], [Proxycmd] cmd/proxy; [Agent] cmd/agent; [Verifycmd]
      cmd/verify; [Shadowcmd] cmd/shadow;
    - [Issuer] cmd/issuer/publish.go; [Issuercmd] the publish, revoke and enroll
      commands; [Daemon] the keys of the signing daemon, [Sockets] its socket and
      the daemon command; [Issuermain] the dispatch, what each command prints and
      the static server up to its first request.

    The repository's own tools:
    - [Reusetoml], [Reuse] scripts/reusecheck, the licence check; [Genfixtures]
      scripts/genfixtures; [Stories] scripts/stories/render.go.

    A module has the name of the Go package, a record the name and fields of the
    Go struct, a definition the name of the Go function.  A Go method [T.f] is
    [f] or [T_f]; a loop body or a branch that has a life of its own is a
    definition the map points to by line.

    ** State and effects

    Operations are functions from a state to a state and an answer.  The state
    of the enforcement point ([enforce.Proxy]) is its log, its evidence set and
    its write-ahead log; one [Handle] call is one atomic step, which the mutex
    that Handle holds from reading the tip to committing the entry justifies.
    Telemetry is outside the lock and is modelled as a list of dispatched writes.
    The operating system answers each file, disk and keychain operation: those
    answers are arguments, so a theorem about errors quantifies over them.  Where
    a moment between two calls matters (the daemon's socket between its bind and
    its chmod) the state keeps every tree it went through.  Errors
    are values of a sum; an error text is kept as its format and operands where
    the program only prints it, and in full where it becomes part of a record.

    ** The theorems

    - Composition ([Honest], [EndToEnd], [Runcmd], [Verifier]): every export of an
      enforcement point that runs the code, whatever the requests and disk
      failures, passes the independent verifier, and kessa verify, pointed at the
      documents the proxy was started with, prints PASS and exits with 0 (a
      verifier that knows more documents never says less); so does the command a
      batch run prints; the clean verdict is equivalent to every entry being
      re-derived from evidence; in a passing export every allowed action lies
      within the authority of every hop; no entry can be removed or added.
    - Enforcement ([Enforce], [Wal], [Honest]): an action is allowed exactly when
      every gate passes; a request adds one entry or leaves everything alone; the
      entry is durable before the answer; restarting from the file resumes the
      same state; what a failed sync leaves behind.
    - Listeners ([Ingress], [Http], [Mcp]): the transports change the proxy only
      through Handle, guard first, and agree with one another.
    - Attempts ([Attempts], [Agent]): a proof of possession is allowed once, in
      one slot; an attempt of the bound holder at the current tip is answered;
      the agent's exit code is the proxy's decision.
    - Commands ([Proxycmd], [Listeners], [Verifycmd], [Daemon], [Sockets],
      [Issuercmd], [Issuermain], [Shadowcmd]): a revocation takes effect in a running proxy, a
      check predicts the start, no listener leaves loopback unasked, the verdict
      printed is the exit code, who may be contacted, which keys a daemon brokers
      and where its socket can be reached, what a run writes, and that the
      command publish prints verifies against the list it published.
    - Configuration ([Config]): which documents are accepted, and that the walk
      over them returns.
    - Log and evidence ([AuditLog], [Export]): the tip commits to the log,
      identifiers bind their content, approvals bind their position.
    - Authority ([Macaroon], [Scalar], [Policy], [Meaning], [Agreement],
      [Conformance], [Credential], [Chain]): narrowing is sound, orders are exact,
      the evaluator decides what the rules of a policy mean over the rational
      numbers and is silent about NaN, the conformance suite fails no evaluator
      that does, a verified chain only narrows.
    - Documents ([Did], [Status], [Texts], [Issuer], [Enroll]): resolution is
      confined to its root or hosts, signed lists are framed, what is published
      verifies, enrollment publishes what it claims, and what a rejected
      enrollment leaves in the files and in the keychain, a refused deletion
      included.
    - Keys ([Keystore], [Signerd], [Peercred], [Enclave], [Randomkeys]): signing through the daemon is signing
      with the key it holds, and what a connection can obtain; a peer the
      kernel does not name is refused; a fresh holder answers a fresh challenge;
      references to keys
      of the secure element are balanced, and what an enrollment gets from it.
    - Forwarded records ([Sinks]): what reaches a sink's file when writes fail.
    - Foreign engines ([Opaeval]): a policy handed to another engine as a module
      loses nothing on the way, what parses loads, and an engine that errs, is
      late or answers out of shape denies.
    - Tuning ([Shadow]): replaying an honest log shows no difference.
    - Tools ([Reuse], [Genfixtures], [Stories]): the licence check is clean
      exactly when every tracked file states one licence that has its text, what
      its patterns match; the second implementation of the fixtures agrees with
      internal/did; a line of the agent is read back as its outcome, and nothing
      drawn is lost by wrapping or opens markup.

    ** Fuel and bounds

    Recursion is structural wherever the code's loop consumes a list.  Where it is
    not (percent decoding, media type parameters, the seeded stream, redirects,
    division loops of numeric rendering), the fuel is a length or a bound computed
    from the input, and a lemma of the same file shows it is never used up.  The
    walk over a configuration's tokens is the exception: it does not return on one
    class of malformed text, twice the tokens are enough on every other, and both
    are theorems of [Config].  [GoJsonRead] reads to the depth it is given, which
    is 100 for the policies of [Conformance].
    Integers are Z; where the code's width matters (float64, nanosecond
    arithmetic, 64-bit counters, big-endian sizes) the wrap or the rounding is
    written out.

    ** Parameters

    Code that is not in the repository is an argument: the signature algorithms
    ([Crypto]), Unicode tables ([UnicodeTables], [CaseTables]), the decoders of
    encoding/json into the program's structs ([StdDecode], [mcp.Decoders],
    [wal.decoder] and the like), the secure element ([Platform]), the Rego engine.  What a theorem
    needs of them is a named hypothesis, and its witness instantiates them by a
    concrete function.  [GoNet] follows the host syntax of Go 1.26.1 and later.

    ** Not modelled, and why

    - The parsing of command lines (package flag), signal handling, accept
      loops, timeouts and the static file server itself: effects of the runtime.
      Of the printed lines those of the signing daemon, those of the proxy while it
      serves and the messages of a refused command are not modelled.
    - The Security framework behind the C functions of [Enclave], a record of
      answers there and the [Platform] parameter of [Enroll].
    - What Rego means by the module [Opaeval] writes: the engine is a third-party
      library and a parameter.
    - What git answers in [Reuse] is an argument.  internal/licensing and
      scripts/release hold a package comment each, and shell scripts.
    - Nil pointers inside decoded employee records are not represented; MCP
      replies are structured values, not their JSON text; the text of time.Parse's
      error is only its beginning. *)
From Stdlib Require Export ZArith Lia Ascii.
From Stdlib.Strings Require Export Byte.
From stdpp Require Export base gmap strings list numbers sorting.

#[global] Open Scope Z_scope.

(** ** Bytes *)

Abbreviation bytes := (list Byte.byte).

#[global] Instance byte_eq_dec : EqDecision Byte.byte := Byte.byte_eq_dec.

(** Go's [string] is a byte sequence, like Rocq's [string]; a [[]byte] is a
    list of bytes.  The two conversions of the language. *)
Definition s2b (s : string) : bytes := String.list_byte_of_string s.
Definition b2s (b : bytes) : string := String.string_of_list_byte b.

Lemma b2s_s2b s : b2s (s2b s) = s.
Proof. apply String.string_of_list_byte_of_string. Qed.

Lemma s2b_b2s b : s2b (b2s b) = b.
Proof. apply String.list_byte_of_string_of_list_byte. Qed.

#[export] Instance s2b_inj : Inj (=) (=) s2b.
Proof. intros x y H. by rewrite <- (b2s_s2b x), H, b2s_s2b. Qed.

#[export] Instance b2s_inj : Inj (=) (=) b2s.
Proof. intros x y H. by rewrite <- (s2b_b2s x), H, s2b_b2s. Qed.

Lemma s2b_append a b : s2b (a +:+ b) = s2b a ++ s2b b.
Proof.
  induction a as [|c a IH]; [done|]. change (s2b (String c a +:+ b)) with (byte_of_ascii c :: s2b (a +:+ b)).
  by rewrite IH.
Qed.

Definition Z_of_byte (b : Byte.byte) : Z := Z.of_N (Byte.to_N b).
Definition byte_of_Z (z : Z) : Byte.byte :=
  default Byte.x00 (Byte.of_N (Z.to_N (z mod 256))).

Lemma Z_of_byte_range b : 0 <= Z_of_byte b < 256.
Proof. unfold Z_of_byte. pose proof (Byte.to_N_bounded b). lia. Qed.

Lemma byte_of_Z_of_byte b : byte_of_Z (Z_of_byte b) = b.
Proof.
  unfold byte_of_Z. pose proof (Z_of_byte_range b).
  rewrite Z.mod_small by lia. unfold Z_of_byte. rewrite N2Z.id.
  by rewrite Byte.of_to_N.
Qed.

Lemma Z_of_byte_of_Z z : Z_of_byte (byte_of_Z z) = z mod 256.
Proof.
  unfold byte_of_Z, Z_of_byte. pose proof (Z.mod_pos_bound z 256 ltac:(lia)).
  destruct (Byte.of_N (Z.to_N (z mod 256))) as [b|] eqn:E; simpl.
  - apply Byte.to_of_N in E. rewrite E. lia.
  - apply Byte.of_N_None_iff in E. lia.
Qed.

#[export] Instance Z_of_byte_inj : Inj (=) (=) Z_of_byte.
Proof. intros a b H. by rewrite <- (byte_of_Z_of_byte a), H, byte_of_Z_of_byte. Qed.

(** [binary.BigEndian.PutUint64]. *)
Definition be64 (n : Z) : bytes :=
  map (fun i => byte_of_Z (Z.shiftr n (8 * i))) [7; 6; 5; 4; 3; 2; 1; 0].

Lemma length_be64 n : length (be64 n) = 8%nat.
Proof. reflexivity. Qed.

(** ** Slices

    A Go slice distinguishes [nil] from an empty slice only where it is
    encoded (JSON [null] against [[]]).  [slice] keeps the distinction for the
    fields that are hashed or signed. *)
Definition slice (A : Type) : Type := option (list A).
Definition elems {A} (s : slice A) : list A := default [] s.

(** ** Errors

    An error value is the format string and operands of the [fmt.Errorf] or
    [errors.New] call that made it; its text is [Go.Error], in GoFmt. *)
Inductive error : Type :=
| Errorf (format : string) (args : list fmtarg)
with fmtarg : Type :=
| AStr (s : string)
| AInt (z : Z)
| ABool (b : bool)
| AErr (e : error).

Definition New (msg : string) : error := Errorf msg [].

(** The pair of a value and an error that a fallible function returns. *)
Inductive result (A : Type) : Type :=
| Ok (a : A)
| Err (e : error).
Arguments Ok {A} _.
Arguments Err {A} _.

Lemma Ok_inj {A} (a b : A) : Ok a = Ok b -> a = b.
Proof. congruence. Qed.

Definition rbind {A B} (c : result A) (k : A -> result B) : result B :=
  match c with Ok a => k a | Err e => Err e end.

(** [if err != nil { return fmt.Errorf("...: %w", err) }] *)
Definition wrap {A} (f : error -> error) (c : result A) : result A :=
  match c with Ok a => Ok a | Err e => Err (f e) end.

(** [if cond { return err }] *)
Definition reject_if (cond : bool) (e : error) : result unit :=
  if cond then Err e else Ok tt.

Definition is_ok {A} (c : result A) : bool :=
  match c with Ok _ => true | Err _ => false end.

Declare Scope go_scope.
Delimit Scope go_scope with go.
Notation "'let!' x ':=' c 'in' k" := (rbind c (fun x => k))
  (at level 10, x binder, c at level 100, k at level 200) : go_scope.
Notation "'check!' c ';' k" := (rbind c (fun _ : unit => k))
  (at level 10, c at level 100, k at level 200) : go_scope.
#[global] Open Scope go_scope.

Section ResultLaws.
Context {A B : Type}.
Implicit Types (c : result A) (k : A -> result B).

Lemma rbind_Ok c k b : rbind c k = Ok b <-> exists a, c = Ok a /\ k a = Ok b.
Proof. destruct c; simpl; naive_solver. Qed.

Lemma wrap_Ok f c a : wrap f c = Ok a <-> c = Ok a.
Proof. destruct c; simpl; naive_solver. Qed.

Lemma reject_if_Ok b e u : reject_if b e = Ok u <-> b = false.
Proof. destruct b, u; simpl; naive_solver. Qed.

Lemma is_ok_true c : is_ok c = true <-> exists a, c = Ok a.
Proof. destruct c; simpl; naive_solver. Qed.
End ResultLaws.

(** [for _, x := range l { if err := f(x); err != nil { return err } }] *)
Fixpoint check_all {A} (f : A -> result unit) (l : list A) : result unit :=
  match l with
  | [] => Ok tt
  | x :: l => check! f x; check_all f l
  end.

(** [check_all] with the loop index, counted from [i]. *)
Fixpoint check_alli {A} (f : Z -> A -> result unit) (i : Z) (l : list A) : result unit :=
  match l with
  | [] => Ok tt
  | x :: l => check! f i x; check_alli f (i + 1) l
  end.

Lemma check_all_Ok {A} (f : A -> result unit) l u :
  check_all f l = Ok u <-> Forall (fun x => f x = Ok tt) l.
Proof.
  destruct u. induction l as [|x l IH]; simpl; [done|].
  rewrite rbind_Ok, Forall_cons, <- IH. split.
  - intros ([] & ? & ?); done.
  - intros [? ?]; exists tt; done.
Qed.

Lemma check_alli_Ok {A} (f : Z -> A -> result unit) i l u :
  check_alli f i l = Ok u <-> forall n x, l !! n = Some x -> f (i + Z.of_nat n) x = Ok tt.
Proof.
  destruct u. revert i. induction l as [|x l IH]; intros i; simpl; [done|].
  rewrite rbind_Ok. split.
  - intros ([] & Hx & Hl) [|n] y Hn; simplify_eq/=.
    + by rewrite Z.add_0_r.
    + replace (i + Z.of_nat (S n)) with (i + 1 + Z.of_nat n) by lia.
      by eapply (proj1 (IH _)).
  - intros H. exists tt. split.
    + rewrite <- (Z.add_0_r i). by apply (H 0%nat).
    + apply IH. intros n y Hn.
      replace (i + 1 + Z.of_nat n) with (i + Z.of_nat (S n)) by lia. by apply H.
Qed.

(** ** Boolean tests used by the models *)
Definition str_eqb (a b : string) : bool := bool_decide (a = b).
Definition bytes_eqb (a b : bytes) : bool := bool_decide (a = b).
Notation "a =?s b" := (str_eqb a b) (at level 70) : go_scope.
Notation "a =?b b" := (bytes_eqb a b) (at level 70) : go_scope.

Lemma str_eqb_true a b : (a =?s b) = true <-> a = b.
Proof. apply bool_decide_eq_true. Qed.
Lemma str_eqb_false a b : (a =?s b) = false <-> a <> b.
Proof. apply bool_decide_eq_false. Qed.
Lemma str_eqb_refl a : (a =?s a) = true.
Proof. by apply str_eqb_true. Qed.
Lemma bytes_eqb_true a b : (a =?b b) = true <-> a = b.
Proof. apply bool_decide_eq_true. Qed.
Lemma bytes_eqb_false a b : (a =?b b) = false <-> a <> b.
Proof. apply bool_decide_eq_false. Qed.
Lemma bytes_eqb_refl a : (a =?b a) = true.
Proof. by apply bytes_eqb_true. Qed.
Create Rewrite HintDb gobool.
#[export] Hint Rewrite str_eqb_true str_eqb_false bytes_eqb_true bytes_eqb_false
  orb_true_iff orb_false_iff andb_true_iff andb_false_iff negb_true_iff negb_false_iff : gobool.

(** ** Tactics *)

(** [gosimp H] turns the success of a pipeline of checks into its parts. *)
Ltac gosimp H :=
  lazymatch type of H with
  | rbind ?c ?k = Ok _ =>
      let a := fresh "a" in let Ha := fresh "Ha" in
      apply rbind_Ok in H as (a & Ha & H);
      lazymatch type of a with unit => destruct a | _ => idtac end;
      gosimp Ha; gosimp H
  | wrap _ _ = Ok _ => apply wrap_Ok in H; gosimp H
  | reject_if _ _ = Ok _ => apply reject_if_Ok in H; autorewrite with gobool in H
  | _ => idtac
  end.

(** Case analysis on the first match of a hypothesis or of the goal. *)
Ltac case_in H :=
  match type of H with
  | context [match ?x with _ => _ end] =>
      lazymatch x with context [match _ with _ => _ end] => fail | _ => idtac end;
      let E := fresh "E" in destruct x eqn:E
  end.
Ltac case_goal :=
  match goal with
  | |- context [match ?x with _ => _ end] =>
      lazymatch x with context [match _ with _ => _ end] => fail | _ => idtac end;
      let E := fresh "E" in destruct x eqn:E
  end.

(** Length as a Go [int]. *)
Definition len {A} (l : list A) : Z := Z.of_nat (length l).
Lemma len_nonneg {A} (l : list A) : 0 <= len l.
Proof. unfold len. lia. Qed.
Lemma len_app {A} (l k : list A) : len (l ++ k) = len l + len k.
Proof. unfold len. rewrite length_app. lia. Qed.
Lemma len_cons {A} (x : A) l : len (x :: l) = len l + 1.
Proof. unfold len. simpl. lia. Qed.
Lemma len_zero {A} (l : list A) : len l = 0 <-> l = [].
Proof. unfold len. destruct l; simpl; split; [done..|lia|done]. Qed.

(** Framing by a separator that occurs in neither prefix. *)
Lemma sep_split {A} (sep : A) (a b x y : list A) :
  sep ∉ a -> sep ∉ b -> a ++ sep :: x = b ++ sep :: y -> a = b /\ x = y.
Proof.
  revert b. induction a as [|c a IH]; intros [|d b]; simpl; rewrite ?not_elem_of_cons;
    intros Ha Hb [=]; subst; try tauto.
  destruct (IH b) as [-> ->]; tauto.
Qed.

Lemma cons_tail {A} (a b : A) x y : a :: x = b :: y -> x = y.
Proof. congruence. Qed.

(** Framing by fixed-length fields. *)
Lemma app_inj_length {A} (a b x y : list A) :
  length a = length b -> a ++ x = b ++ y -> a = b /\ x = y.
Proof. intros Hl. by apply app_inj_1. Qed.

(** Framing from the right: the last zero byte before a zero-free tail. *)
Lemma sep_split_r {A} (sep : A) (a b x y : list A) :
  sep ∉ x -> sep ∉ y -> a ++ sep :: x = b ++ sep :: y -> a = b /\ x = y.
Proof.
  intros Hx Hy H. apply (f_equal (@rev A)) in H. rewrite !rev_app_distr in H. simpl in H.
  rewrite <- !app_assoc in H. simpl in H.
  assert (Hr : forall l : list A, sep ∉ l -> sep ∉ rev l) by (intros l; by rewrite !list_elem_of_In, <- in_rev).
  apply sep_split in H as [H1 H2]; [|by apply Hr..].
  split; [rewrite <- (rev_involutive a), H2|rewrite <- (rev_involutive x), H1]; apply rev_involutive.
Qed.

(** The eight bytes determine a 64-bit number. *)
Lemma be64_value n :
  0 <= n < 2 ^ 64 -> fold_left (fun a c => a * 256 + Z_of_byte c) (be64 n) 0 = n.
Proof.
  intros Hn. unfold be64. cbn [map fold_left]. rewrite !Z_of_byte_of_Z, !Z.shiftr_div_pow2 by lia.
  change (8 * 7) with 56. change (8 * 6) with 48. change (8 * 5) with 40. change (8 * 4) with 32.
  change (8 * 3) with 24. change (8 * 2) with 16. change (8 * 1) with 8. change (8 * 0) with 0.
  cbn [Z.pow Z.pow_pos Pos.iter Z.mul Pos.mul]. Z.div_mod_to_equations. lia.
Qed.
Lemma be64_inj n m : 0 <= n < 2 ^ 64 -> 0 <= m < 2 ^ 64 -> be64 n = be64 m -> n = m.
Proof. intros Hn Hm H. rewrite <- (be64_value n Hn), <- (be64_value m Hm). by rewrite H. Qed.
