(* ===== verification/GoFmt.v ===== *)
(** Strings and formatting, as the program uses them from Go's [strings],
    [strconv], [unicode] and [fmt] packages: trimming, splitting and joining,
    decimal and quoted renderings, and the text of an error value. *)
From S2P Require Import Prelude.

(** ** Characters *)

Definition bz (b : Byte.byte) : Z := Z_of_byte b.
Definition byte_is (b : Byte.byte) (z : Z) : bool := Z.eqb (bz b) z.
Definition byte_in (b : Byte.byte) (lo hi : Z) : bool := (lo <=? bz b) && (bz b <=? hi).
Definition is_digit (b : Byte.byte) : bool := byte_in b 48 57.
Definition is_upper (b : Byte.byte) : bool := byte_in b 65 90.

(** ** strings.TrimSpace

    The UTF-8 encodings of the code points [unicode.IsSpace] accepts. *)
Definition space_encodings : list (list Z) :=
  [[9]; [10]; [11]; [12]; [13]; [32]; [194; 133]; [194; 160]; [225; 154; 128]]
  ++ map (fun z => [226; 128; z]) [128; 129; 130; 131; 132; 133; 134; 135; 136; 137; 138; 168; 169; 175]
  ++ [[226; 129; 159]; [227; 128; 128]].

Fixpoint strip_prefix (p : list Z) (b : bytes) : option bytes :=
  match p, b with
  | [], _ => Some b
  | z :: p, x :: b => if byte_is x z then strip_prefix p b else None
  | _ :: _, [] => None
  end.

Fixpoint first_strip (ps : list (list Z)) (b : bytes) : option bytes :=
  match ps with
  | [] => None
  | p :: ps => match strip_prefix p b with Some r => Some r | None => first_strip ps b end
  end.

Fixpoint trim_with (ps : list (list Z)) (fuel : nat) (b : bytes) : bytes :=
  match fuel with
  | O => b
  | S fuel => match first_strip ps b with Some r => trim_with ps fuel r | None => b end
  end.

Definition trim_left (b : bytes) : bytes := trim_with space_encodings (length b) b.
Definition trim_right (b : bytes) : bytes :=
  rev (trim_with (map (@rev Z) space_encodings) (length b) (rev b)).
Definition TrimSpace (s : string) : string := b2s (trim_right (trim_left (s2b s))).

(** ** strings.Split on a one-byte separator, strings.Join *)
Fixpoint split_bytes (sep : Byte.byte) (b : bytes) : list bytes :=
  match b with
  | [] => [[]]
  | x :: b =>
      if bool_decide (x = sep) then [] :: split_bytes sep b
      else match split_bytes sep b with
           | [] => [[x]]
           | w :: ws => (x :: w) :: ws
           end
  end.
Definition Split (s : string) (sep : Byte.byte) : list string :=
  map b2s (split_bytes sep (s2b s)).

Fixpoint Join (l : list string) (sep : string) : string :=
  match l with
  | [] => ""
  | [x] => x
  | x :: l => x +:+ sep +:+ Join l sep
  end.

Fixpoint has_prefix (p b : bytes) : bool :=
  match p, b with
  | [], _ => true
  | x :: p, y :: b => bool_decide (x = y) && has_prefix p b
  | _ :: _, [] => false
  end.
Definition HasPrefix (s p : string) : bool := has_prefix (s2b p) (s2b s).
Definition HasSuffix (s p : string) : bool := has_prefix (rev (s2b p)) (rev (s2b s)).
Definition TrimPrefix (s p : string) : string :=
  if HasPrefix s p then b2s (drop (length (s2b p)) (s2b s)) else s.
Definition contains_byte (s : string) (b : Byte.byte) : bool := bool_decide (b ∈ s2b s).

Definition lower_byte (b : Byte.byte) : Byte.byte :=
  if is_upper b then byte_of_Z (bz b + 32) else b.

(** ** Decimal rendering *)
Definition digit_char (d : Z) : ascii := Ascii.ascii_of_N (Z.to_N (48 + d)).

Fixpoint dec_digits (fuel : nat) (n : Z) (acc : string) : string :=
  match fuel with
  | O => acc
  | S fuel =>
      let acc := String (digit_char (n mod 10)) acc in
      if n / 10 =? 0 then acc else dec_digits fuel (n / 10) acc
  end.
Definition dec_nat (n : Z) : string := dec_digits (S (Z.to_nat (Z.log2 n))) n "".
Definition Itoa (z : Z) : string := if z <? 0 then "-" +:+ dec_nat (- z) else dec_nat z.

Definition hex_char (d : Z) : ascii :=
  Ascii.ascii_of_N (Z.to_N (if d <? 10 then 48 + d else 87 + d)).
Fixpoint hex_fixed (w : nat) (n : Z) : string :=
  match w with
  | O => ""
  | S w => String (hex_char ((n / 16 ^ Z.of_nat w) mod 16)) (hex_fixed w n)
  end.

(** ** UTF-8 decoding: [utf8.DecodeRune].

    The rune at the front of [b] and its width; [None] for an invalid
    encoding, which Go decodes as U+FFFD of width one. *)
Definition cont (b : Byte.byte) : bool := byte_in b 128 191.
Definition decode_rune (b : bytes) : option (Z * nat) :=
  match b with
  | [] => None
  | b0 :: r =>
      let x := bz b0 in
      if x <? 128 then Some (x, 1%nat)
      else match r with
      | b1 :: r1 =>
          if byte_in b0 194 223 && cont b1 then Some ((x - 192) * 64 + (bz b1 - 128), 2%nat)
          else match r1 with
          | b2 :: r2 =>
              let lo := if x =? 224 then 160 else 128 in
              let hi := if x =? 237 then 159 else 191 in
              if byte_in b0 224 239 && byte_in b1 lo hi && cont b2
              then Some ((x - 224) * 4096 + (bz b1 - 128) * 64 + (bz b2 - 128), 3%nat)
              else match r2 with
              | b3 :: _ =>
                  let lo := if x =? 240 then 144 else 128 in
                  let hi := if x =? 244 then 143 else 191 in
                  if byte_in b0 240 244 && byte_in b1 lo hi && cont b2 && cont b3
                  then Some ((x - 240) * 262144 + (bz b1 - 128) * 4096
                             + (bz b2 - 128) * 64 + (bz b3 - 128), 4%nat)
                  else None
              | [] => None
              end
          | [] => None
          end
      | [] => None
      end
  end.

(** ** strconv.Quote

    [IsPrint] above ASCII is decided by the generated tables of strconv. *)
Class UnicodeTables := { IsPrint : Z -> bool }.

Definition backslash : ascii := "092"%char.
Definition dquote : ascii := "034"%char.
(** A literal between double quotes. *)
Definition dq (s : string) : string := String dquote (s +:+ String dquote EmptyString).

Section Quote.
Context {UT : UnicodeTables}.

Definition esc (c : ascii) : string := String backslash (String c EmptyString).

Definition quote_ascii (x : Z) (c : ascii) : string :=
  if (x =? 34) || (x =? 92) then esc c
  else if (32 <=? x) && (x <? 127) then String c EmptyString
  else if x =? 7 then esc "a" else if x =? 8 then esc "b"
  else if x =? 12 then esc "f" else if x =? 10 then esc "n"
  else if x =? 13 then esc "r" else if x =? 9 then esc "t"
  else if x =? 11 then esc "v"
  else esc "x" +:+ hex_fixed 2 x.

Fixpoint quote_body (fuel : nat) (b : bytes) : string :=
  match fuel, b with
  | S fuel, b0 :: r =>
      match decode_rune b with
      | None => esc "x" +:+ hex_fixed 2 (bz b0) +:+ quote_body fuel r
      | Some (rune, w) =>
          (if rune <? 128 then quote_ascii rune (Ascii.ascii_of_byte b0)
           else if IsPrint rune then b2s (take w b)
           else if rune <? 65536 then esc "u" +:+ hex_fixed 4 rune
           else esc "U" +:+ hex_fixed 8 rune)
          +:+ quote_body fuel (drop w b)
      end
  | _, _ => ""
  end.
Definition Quote (s : string) : string :=
  dq (quote_body (String.length s) (s2b s)).

(** ** fmt.Sprintf and error.Error, for the verbs the program uses *)
Definition format_verb (err : error -> string) (v : ascii) (a : fmtarg) : string :=
  match a with
  | AStr s => if Ascii.eqb v "q" then Quote s else s
  | AInt z => Itoa z
  | ABool b => if b then "true" else "false"
  | AErr e => err e
  end.

Fixpoint format_with (err : error -> string) (f : string) (args : list fmtarg) : string :=
  match f with
  | EmptyString => ""
  | String "%" (String v f') =>
      match args with
      | a :: args => format_verb err v a +:+ format_with err f' args
      | [] => String "%" (String v (format_with err f' []))
      end
  | String c f' => String c (format_with err f' args)
  end.

Fixpoint render (fuel : nat) (e : error) : string :=
  match fuel, e with
  | S fuel, Errorf f args => format_with (render fuel) f args
  | O, _ => ""
  end.

Fixpoint err_depth (e : error) : nat :=
  match e with
  | Errorf _ args =>
      S ((fix go (l : list fmtarg) : nat :=
            match l with
            | [] => O
            | AErr e :: l => Nat.max (err_depth e) (go l)
            | _ :: l => go l
            end) args)
  end.

Definition Sprintf (f : string) (args : list fmtarg) : string :=
  render (err_depth (Errorf f args)) (Errorf f args).
Definition Error (e : error) : string := render (err_depth e) e.
End Quote.

(** ** Facts about splitting and trimming used by the set operators *)

Lemma split_bytes_nonempty sep b : split_bytes sep b <> [].
Proof. destruct b as [|x b]; simpl; [done|]. case_bool_decide; [done|]. by destruct (split_bytes sep b). Qed.

Lemma split_bytes_no_sep sep b w : w ∈ split_bytes sep b -> sep ∉ w.
Proof.
  revert w. induction b as [|x b IH]; simpl; intros w.
  { rewrite list_elem_of_singleton. intros ->. apply not_elem_of_nil. }
  case_bool_decide as Hx.
  { rewrite elem_of_cons. intros [->|Hw]; [apply not_elem_of_nil|by apply IH]. }
  destruct (split_bytes sep b) as [|w' ws] eqn:E.
  { by destruct (split_bytes_nonempty sep b). }
  rewrite elem_of_cons. intros [->|Hw].
  - rewrite not_elem_of_cons. split; [congruence|]. apply IH. by left.
  - apply IH. by right.
Qed.

Lemma length_strip_prefix p b r : strip_prefix p b = Some r -> (length p + length r = length b)%nat.
Proof.
  revert b. induction p as [|z p IH]; intros [|x b] Hp; simplify_eq/=; [done..|].
  case_in Hp; [|done]. apply IH in Hp. lia.
Qed.

(** ** strings.LastIndexByte *)
Fixpoint last_index (x : Byte.byte) (i : nat) (b : bytes) : option nat :=
  match b with
  | [] => None
  | y :: r => match last_index x (S i) r with
              | Some j => Some j
              | None => if bool_decide (y = x) then Some i else None
              end
  end.

Lemma last_index_lookup x i b j :
  last_index x i b = Some j -> (i <= j)%nat /\ b !! (j - i)%nat = Some x.
Proof.
  revert i. induction b as [|y b IH]; simpl; intros i; [done|].
  destruct (last_index x (S i) b) as [k|] eqn:E.
  - intros [=->]. apply IH in E as [Hle Hk]. split; [lia|].
    by replace (j - i)%nat with (S (j - S i)) by lia.
  - case_bool_decide; [|done]. intros [=->]. subst y. split; [lia|]. by rewrite Nat.sub_diag.
Qed.

(** ** The two shapes of a decoded rune *)

Lemma byte_in_true b lo hi : byte_in b lo hi = true <-> lo <= bz b <= hi.
Proof. unfold byte_in. rewrite andb_true_iff, !Z.leb_le. done. Qed.

Lemma decode_rune_cases b rune w :
  decode_rune b = Some (rune, w) ->
  (exists b0 r, b = b0 :: r /\ rune = bz b0 /\ bz b0 < 128 /\ w = 1%nat)
  \/ (128 <= rune /\ (1 <= w)%nat /\ Forall (fun c => 128 <= bz c) (take w b)).
Proof.
  destruct b as [|b0 r]; [done|]. cbn [decode_rune]. intros H.
  destruct (bz b0 <? 128) eqn:E0.
  { left. simplify_eq. exists b0, r. split_and!; [done..|lia|done]. }
  right. apply Z.ltb_ge in E0. unfold cont in H.
  destruct r as [|b1 r]; [done|]. destruct (byte_in b0 194 223 && _) eqn:E1.
  { rewrite andb_true_iff, !byte_in_true in E1. simplify_eq. split_and!; [lia|lia|]. simpl.
    repeat constructor; lia. }
  destruct r as [|b2 r]; [done|]. destruct (_ && _ && _) eqn:E2 in H.
  { rewrite !andb_true_iff, !byte_in_true in E2. simplify_eq.
    destruct (Z.eqb_spec (bz b0) 224), (Z.eqb_spec (bz b0) 237); split_and!; try lia; simpl; repeat constructor; lia. }
  destruct r as [|b3 r]; [done|]. destruct (_ && _ && _ && _) eqn:E3 in H; [|done].
  rewrite !andb_true_iff, !byte_in_true in E3. simplify_eq.
  destruct (Z.eqb_spec (bz b0) 240), (Z.eqb_spec (bz b0) 244); split_and!; try lia; simpl; repeat constructor; lia.
Qed.

(** ** bufio: reading up to a newline

    [ReadString] and [ReadBytes]: up to and with the newline, or to the end of
    the input, and whether the newline was there. *)
Fixpoint read_line (b : bytes) : bytes * bool :=
  match b with
  | [] => ([], false)
  | c :: r => if byte_is c 10 then ([c], true) else let '(l, found) := read_line r in (c :: l, found)
  end.
(** All the lines a reader gives, the unterminated last one included. *)
Fixpoint read_lines (b : bytes) : list bytes :=
  match b with
  | [] => []
  | c :: r =>
      if byte_is c 10 then [c] :: read_lines r
      else match read_lines r with [] => [[c]] | l :: ls => (c :: l) :: ls end
  end.

Lemma newline_is c : byte_is c 10 = true <-> c = Byte.x0a.
Proof.
  unfold byte_is. rewrite Z.eqb_eq. split; [|by intros ->]. intros H. apply (inj Z_of_byte). exact H.
Qed.
Lemma read_line_newline b r : Byte.x0a ∉ b -> read_line (b ++ Byte.x0a :: r) = (b ++ [Byte.x0a], true).
Proof.
  induction b as [|c b IH]; [done|]. rewrite not_elem_of_cons. intros [Hc Hb]. cbn [app read_line].
  destruct (byte_is c 10) eqn:E; [apply newline_is in E; congruence|]. by rewrite IH.
Qed.
Lemma read_line_end b : Byte.x0a ∉ b -> read_line b = (b, false).
Proof.
  induction b as [|c b IH]; [done|]. rewrite not_elem_of_cons. intros [Hc Hb]. cbn [read_line].
  destruct (byte_is c 10) eqn:E; [apply newline_is in E; congruence|]. by rewrite IH.
Qed.
(** The lines are what reading one after another gives. *)
Lemma read_lines_step b l found :
  b <> [] -> read_line b = (l, found) ->
  read_lines b = l :: (if found then read_lines (drop (length l) b) else []).
Proof.
  revert l found. induction b as [|c b IH]; intros l found Hne H; [done|]. cbn [read_line] in H. cbn [read_lines].
  destruct (byte_is c 10); [by injection H as <- <-|].
  destruct (read_line b) as [l' f] eqn:E. injection H as <- <-. destruct b as [|d b]; [by injection E as <- <-|].
  rewrite (IH _ _ ltac:(done) eq_refl). by destruct f.
Qed.
Lemma concat_read_lines b : concat (read_lines b) = b.
Proof.
  induction b as [|c b IH]; [done|]. cbn [read_lines]. destruct (byte_is c 10); simpl; [by rewrite IH|].
  destruct (read_lines b) as [|l ls]; simpl in *; by rewrite <- IH.
Qed.
