(* ===== verification/Version.v ===== *)
(** internal/version: the identity a binary reports.  The toolchain's stamps are
    what [debug.ReadBuildInfo] answers. *)
From S2P Require Import Prelude GoFmt.

Module version.

Definition Version : string := "0.2.0".

Record Build := mkBuild { Version_ : string; Commit : string; Modified : bool; Go : string }.

(** The build settings that are read; the last one under a key prevails. *)
Fixpoint settings (b : Build) (l : list (string * string)) : Build :=
  match l with
  | [] => b
  | (key, value) :: l =>
      settings
        (if key =?s "vcs.revision" then mkBuild (Version_ b) value (Modified b) (Go b)
         else if key =?s "vcs.modified" then mkBuild (Version_ b) (Commit b) (value =?s "true") (Go b)
         else b) l
  end.
Definition Current (runtime_Version : string) (info : option (list (string * string))) : Build :=
  let b := mkBuild Version "" false runtime_Version in
  match info with None => b | Some l => settings b l end.

Definition shortCommit (c : string) : string := if 12 <? Z.of_nat (String.length c) then String.substring 0 12 c else c.

Definition String_ (b : Build) (binary : string) : string :=
  binary +:+ " " +:+ Version_ b +:+ " (commit "
  +:+ (if Commit b =?s "" then "unknown" else shortCommit (Commit b) +:+ (if Modified b then "-dirty" else ""))
  +:+ ", " +:+ Go b +:+ ")".

Definition Requested (args : list string) : bool :=
  match args with
  | [] => false
  | a :: _ => (a =?s "--version") || (a =?s "-version") || (a =?s "version")
  end.

(** ** Facts *)

Lemma shortCommit_length c : (String.length (shortCommit c) <= 12)%nat.
Proof.
  unfold shortCommit. destruct (Z.ltb_spec 12 (Z.of_nat (String.length c))) as [H|H]; [|lia].
  enough (forall n s, (String.length (String.substring 0 n s) <= n)%nat) by auto. clear. intros n. induction n as [|n IH]; intros s; destruct s; cbn; try lia.
  specialize (IH s). lia.
Qed.

(** The version is the source's: no stamp changes it, nor the toolchain's name. *)
Lemma settings_frame l b : Version_ (settings b l) = Version_ b /\ Go (settings b l) = Go b.
Proof.
  revert b. induction l as [|[k v] l IH]; intros b; [done|]. cbn [settings]. 
  match goal with |- context [settings ?x l] => destruct (IH x) as [-> ->] end. by destruct (k =?s "vcs.revision"), (k =?s "vcs.modified").
Qed.
Lemma Current_version go info : Version_ (Current go info) = Version /\ Go (Current go info) = go.
Proof. unfold Current. destruct info as [l|]; [|done]. apply (settings_frame l (mkBuild Version "" false go)). Qed.

(** Without a stamped commit the line is the same for every tree, modified or not. *)
Lemma unstamped b m binary : Commit b = ""%string -> String_ (mkBuild (Version_ b) (Commit b) m (Go b)) binary = String_ b binary.
Proof. intros H. unfold String_. cbn [Version_ Commit Modified Go]. by rewrite H. Qed.

Example a_build :
  String_ (Current "go1.26.3" (Some [("vcs.revision"%string, "1a2b3c4d5e6f7a8b9c0d"%string); ("vcs.modified"%string, "true"%string)])) "kessa"
  = "kessa 0.2.0 (commit 1a2b3c4d5e6f-dirty, go1.26.3)"%string
  /\ Requested ["verify"; "--version"]%string = false.
Proof. split; vm_compute; reflexivity. Qed.
End version.
