(* ===== verification/GoTime.v ===== *)
(** Instants, as the program uses Go's [time.Time]: civil dates, the RFC3339
    layouts it formats and parses, and the order on instants. *)
From S2P Require Import Prelude GoFmt.

(** An instant: seconds since the Unix epoch, nanoseconds within the second,
    and the offset in seconds of the zone it is displayed in. *)
Record time := mkTime { unix : Z; nsec : Z; zone : Z }.

#[global] Instance time_eq_dec : EqDecision time.
Proof. solve_decision. Defined.

Definition UTC (t : time) : time := mkTime (unix t) (nsec t) 0.
Definition UnixNano_exact (t : time) : Z := unix t * 1000000000 + nsec t.
Definition Before (t u : time) : bool := UnixNano_exact t <? UnixNano_exact u.
Definition After (t u : time) : bool := UnixNano_exact u <? UnixNano_exact t.
(** The zero [time.Time]: January 1 of year 1, UTC. *)
Definition zero_time : time := mkTime (-62135596800) 0 0.
Definition IsZero (t : time) : bool := (unix t =? -62135596800) && (nsec t =? 0).

(** ** Civil dates (proleptic Gregorian calendar) *)

Definition days_from_civil (y m d : Z) : Z :=
  let y' := if m <=? 2 then y - 1 else y in
  let era := y' / 400 in
  let yoe := y' mod 400 in
  let doy := (153 * (if 2 <? m then m - 3 else m + 9) + 2) / 5 + d - 1 in
  let doe := yoe * 365 + yoe / 4 - yoe / 100 + doy in
  era * 146097 + doe - 719468.

Definition civil_from_days (z0 : Z) : Z * Z * Z :=
  let z := z0 + 719468 in
  let era := z / 146097 in
  let doe := z mod 146097 in
  let yoe := (doe - doe / 1460 + doe / 36524 - doe / 146096) / 365 in
  let doy := doe - (365 * yoe + yoe / 4 - yoe / 100) in
  let mp := (5 * doy + 2) / 153 in
  let d := doy - (153 * mp + 2) / 5 + 1 in
  let m := if mp <? 10 then mp + 3 else mp - 9 in
  let y := yoe + era * 400 in
  (if m <=? 2 then y + 1 else y, m, d).

Definition is_leap (y : Z) : bool :=
  (y mod 4 =? 0) && (negb (y mod 100 =? 0) || (y mod 400 =? 0)).
Definition days_in (m y : Z) : Z :=
  if m =? 2 then (if is_leap y then 29 else 28)
  else if (m =? 4) || (m =? 6) || (m =? 9) || (m =? 11) then 30 else 31.

(** [time.Date(y, mo, d, h, mi, s, ns, UTC)] on normalised fields. *)
Definition Date (y mo d h mi s ns : Z) : time :=
  mkTime (days_from_civil y mo d * 86400 + h * 3600 + mi * 60 + s) ns 0.

(** ** Format(time.RFC3339Nano) *)

Definition dig (n : Z) : Byte.byte := byte_of_Z (48 + n mod 10).
Definition pad2 (n : Z) : bytes := [dig (n / 10); dig n].
Definition pad4 (n : Z) : bytes := [dig (n / 1000); dig (n / 100); dig (n / 10); dig n].
(** [appendInt(b, year, 4)] *)
Definition fmt_year (y : Z) : bytes :=
  if y <? 0 then s2b "-" ++ (if y <=? -10000 then s2b (dec_nat (- y)) else pad4 (- y))
  else if 10000 <=? y then s2b (dec_nat y) else pad4 y.

(** The fraction to [n] digits with its trailing zeros removed. *)
Fixpoint frac_digits (n : nat) (ns : Z) : bytes :=
  match n with
  | O => []
  | S n => dig (ns / 10 ^ Z.of_nat n) :: frac_digits n ns
  end.
Fixpoint drop_zeros (b : bytes) : bytes :=
  match b with
  | x :: r => if byte_is x 48 then drop_zeros r else b
  | [] => []
  end.
Definition fmt_frac (ns : Z) : bytes :=
  match rev (drop_zeros (rev (frac_digits 9 ns))) with
  | [] => []
  | ds => s2b "." ++ ds
  end.
Definition fmt_zone (off : Z) : bytes :=
  if off =? 0 then s2b "Z"
  else let mins := Z.quot off 60 in
       (if mins <? 0 then s2b "-" else s2b "+")
       ++ pad2 (Z.abs mins / 60) ++ s2b ":" ++ pad2 (Z.abs mins mod 60).

Definition local_seconds (t : time) : Z := unix t + zone t.
Definition year_of (t : time) : Z := (civil_from_days (local_seconds t / 86400)).1.1.
Definition format_RFC3339Nano (t : time) : bytes :=
  let '(y, m, d) := civil_from_days (local_seconds t / 86400) in
  let s := local_seconds t mod 86400 in
  fmt_year y ++ s2b "-" ++ pad2 m ++ s2b "-" ++ pad2 d ++ s2b "T"
  ++ pad2 (s / 3600) ++ s2b ":" ++ pad2 (s / 60 mod 60) ++ s2b ":" ++ pad2 (s mod 60)
  ++ fmt_frac (nsec t) ++ fmt_zone (zone t).

(** [Time.MarshalJSON] fails outside the range RFC3339 can express. *)
Definition marshal_time (t : time) : result bytes :=
  if negb ((0 <=? year_of t) && (year_of t <=? 9999))
  then Err (New "Time.MarshalJSON: year outside of range [0,9999]")
  else if 24 <=? Z.abs (Z.quot (zone t) 60) / 60
  then Err (New "Time.MarshalJSON: timezone hour outside of range [0,23]")
  else Ok (Byte.x22 :: format_RFC3339Nano t ++ [Byte.x22]).

(** ** Parse(time.RFC3339, s)

    Go's layout parser: four-digit year, two-digit month, day, minute and
    second, a one- or two-digit hour, an optional fraction introduced by a
    period or a comma, and a zone. *)

Definition dval (b : Byte.byte) : Z := bz b - 48.
(** [getnum(s, fixed)] *)
Definition getnum (fixed : bool) (b : bytes) : option (Z * bytes) :=
  match b with
  | x :: r =>
      if is_digit x then
        match r with
        | y :: r' => if is_digit y then Some (dval x * 10 + dval y, r')
                     else if fixed then None else Some (dval x, r)
        | [] => if fixed then None else Some (dval x, [])
        end
      else None
  | [] => None
  end.

Definition skip (z : Z) (b : bytes) : option bytes :=
  match b with x :: r => if byte_is x z then Some r else None | [] => None end.

Definition parse_year (b : bytes) : option (Z * bytes) :=
  match b with
  | a :: b :: c :: d :: r =>
      if is_digit a && is_digit b && is_digit c && is_digit d
      then Some (dval a * 1000 + dval b * 100 + dval c * 10 + dval d, r) else None
  | _ => None
  end.

(** The run of digits at the front of [b]. *)
Fixpoint digits_of (b : bytes) : bytes * bytes :=
  match b with
  | x :: r => if is_digit x then let '(ds, r') := digits_of r in (x :: ds, r') else ([], b)
  | [] => ([], [])
  end.
Definition digits_val (ds : bytes) : Z := fold_left (fun a x => a * 10 + dval x) ds 0.

(** [parseNanoseconds]: digits beyond the ninth are dropped. *)
Definition parse_frac (b : bytes) : Z * bytes :=
  match b with
  | p :: d :: r =>
      if (byte_is p 46 || byte_is p 44) && is_digit d then
        let '(ds, rest) := digits_of (d :: r) in
        let ds := take 9 ds in
        (digits_val ds * 10 ^ (9 - len ds), rest)
      else (0, b)
  | _ => (0, b)
  end.

(** The zone designator; the offsets 24 hours and 60 minutes are accepted. *)
Definition parse_zone (b : bytes) : option (Z * bytes) :=
  match b with
  | z :: r =>
      if byte_is z 90 then Some (0, r)
      else match b with
      | sg :: h1 :: h2 :: c :: m1 :: m2 :: r =>
          if byte_is c 58 then
            match getnum true [h1; h2], getnum true [m1; m2] with
            | Some (hr, _), Some (mm, _) =>
                if (24 <? hr) || (60 <? mm) then None
                else let off := (hr * 60 + mm) * 60 in
                     if byte_is sg 43 then Some (off, r)
                     else if byte_is sg 45 then Some (- off, r) else None
            | _, _ => None
            end
          else None
      | _ => None
      end
  | [] => None
  end.

Definition parse_RFC3339 (s : string) : option time :=
  '(y, b) ← parse_year (s2b s);
  b ← skip 45 b; '(mo, b) ← getnum true b;
  b ← skip 45 b; '(d, b) ← getnum true b;
  b ← skip 84 b; '(h, b) ← getnum false b;
  b ← skip 58 b; '(mi, b) ← getnum true b;
  b ← skip 58 b; '(sec, b) ← getnum true b;
  let '(ns, b) := parse_frac b in
  '(off, b) ← parse_zone b;
  if (1 <=? mo) && (mo <=? 12) && (h <? 24) && (mi <? 60) && (sec <? 60)
     && (1 <=? d) && (d <=? days_in mo y) && bool_decide (b = [])
  then let t := Date y mo d h mi sec ns in Some (mkTime (unix t - off) ns off)
  else None.

Example format_example :
  b2s (format_RFC3339Nano (mkTime 1783598400 120000000 (-16200))) = "2026-07-09T07:30:00.12-04:30"%string.
Proof. vm_compute. reflexivity. Qed.
Example parse_example :
  parse_RFC3339 "2026-07-09T7:30:00,12-04:30" = Some (mkTime 1783598400 120000000 (-16200)).
Proof. vm_compute. reflexivity. Qed.
