(* ===== verification/GoFloat.v ===== *)
(** float64 values and [strconv.ParseFloat].

    A float64 is NaN, an infinity, or the dyadic number [m * 2^e]; the program
    only compares, truncates and subtracts such values, so the sign of zero is
    not represented.  [ParseFloat] is Go's grammar (decimal and hexadecimal
    literals, underscores, inf, infinity and nan) with rounding to nearest,
    ties to even. *)
From S2P Require Import Prelude GoFmt.

Inductive float64 : Type :=
| FNaN
| FInf (neg : bool)
| FFin (m e : Z).

#[global] Instance float64_eq_dec : EqDecision float64.
Proof. solve_decision. Defined.

(** ** Comparison and integer parts *)

(** The dyadic [m * 2^e] scaled by [2^(-k)], exact when [k <= e]. *)
Definition scaled (m e k : Z) : Z := m * 2 ^ (e - k).
Definition cmp_dyadic (m1 e1 m2 e2 : Z) : comparison :=
  let k := Z.min e1 e2 in scaled m1 e1 k ?= scaled m2 e2 k.

Arguments cmp_dyadic : simpl never.

Definition fcompare (a b : float64) : option comparison :=
  match a, b with
  | FNaN, _ | _, FNaN => None
  | FInf s, FInf s' => Some (if s then (if s' then Eq else Lt) else (if s' then Gt else Eq))
  | FInf s, FFin _ _ => Some (if s then Lt else Gt)
  | FFin _ _, FInf s => Some (if s then Gt else Lt)
  | FFin m1 e1, FFin m2 e2 => Some (cmp_dyadic m1 e1 m2 e2)
  end.
Definition flt (a b : float64) : bool :=
  match fcompare a b with Some Lt => true | _ => false end.
Definition fge (a b : float64) : bool :=
  match fcompare a b with Some Gt | Some Eq => true | _ => false end.
Definition IsNaN (a : float64) : bool := match a with FNaN => true | _ => false end.
Definition IsInf (a : float64) : bool := match a with FInf _ => true | _ => false end.
Definition of_int (z : Z) : float64 := FFin z 0.

(** [int64(math.Trunc(f))], for a finite [f]. *)
Definition trunc_Z (f : float64) : Z :=
  match f with
  | FFin m e => if 0 <=? e then m * 2 ^ e else Z.quot m (2 ^ (- e))
  | _ => 0
  end.
Definition Trunc (f : float64) : float64 :=
  match f with FFin _ _ => FFin (trunc_Z f) 0 | _ => f end.
(** [f - math.Trunc(f)], exact in float64. *)
Definition frac_part (f : float64) : float64 :=
  match f with
  | FFin m e => if 0 <=? e then FFin 0 0 else FFin (Z.rem m (2 ^ (- e))) e
  | _ => FNaN
  end.

(** ** Rounding a positive rational [num / den] to the nearest float64 *)

(** [q + 1] when the remainder [r] of the division by [den] calls for it. *)
Definition round_even (q r den : Z) : Z :=
  match 2 * r ?= den with
  | Lt => q
  | Gt => q + 1
  | Eq => if Z.even q then q else q + 1
  end.

Definition div_pow2 (num den e : Z) : Z * Z :=
  if 0 <=? e then (num / (den * 2 ^ e), num mod (den * 2 ^ e))
  else (num * 2 ^ (- e) / den, (num * 2 ^ (- e)) mod den).
Definition den_pow2 (den e : Z) : Z := if 0 <=? e then den * 2 ^ e else den.

(** The exponent of the last mantissa bit: the quotient then has 53 bits, or
    the value is subnormal and the exponent is -1074. *)
Definition round_exp (num den : Z) : Z :=
  let e := Z.log2 num - Z.log2 den - 53 in
  let e := if fst (div_pow2 num den (e + 1)) <? 2 ^ 52 then e else e + 1 in
  Z.max e (-1074).

(** [None] is the overflow that ParseFloat reports as ErrRange. *)
Definition round64 (neg : bool) (num den : Z) : option float64 :=
  if num =? 0 then Some (FFin 0 0)
  else
    let e := round_exp num den in
    let '(q, r) := div_pow2 num den e in
    let m := round_even q r (den_pow2 den e) in
    if 1024 <=? Z.log2 m + e then None
    else Some (FFin (if neg then - m else m) e).

(** ** strconv.ParseFloat *)

(** [underscoreOK], after the optional sign; [saw] is the class of the last
    character: '0' a digit, '_' an underscore, '!' anything else, '^' none. *)
Definition lower_is (b : Byte.byte) (z : Z) : bool := Z.eqb (bz (lower_byte b)) z.
Definition is_hex (b : Byte.byte) : bool := is_digit b || byte_in (lower_byte b) 97 102.

Inductive saw_class := SawNone | SawDigit | SawUnderscore | SawOther.

Fixpoint underscore_scan (hex : bool) (saw : saw_class) (b : bytes) : bool :=
  match b with
  | [] => match saw with SawUnderscore => false | _ => true end
  | x :: r =>
      if is_digit x || (hex && is_hex x) then underscore_scan hex SawDigit r
      else if byte_is x 95 then
        match saw with SawDigit => underscore_scan hex SawUnderscore r | _ => false end
      else match saw with SawUnderscore => false | _ => underscore_scan hex SawOther r end
  end.
Definition underscoreOK (b : bytes) : bool :=
  match b with
  | z :: p :: r =>
      if byte_is z 48 && (lower_is p 98 || lower_is p 111 || lower_is p 120)
      then underscore_scan (lower_is p 120) SawDigit r
      else underscore_scan false SawNone b
  | _ => underscore_scan false SawNone b
  end.

(** The digits of the mantissa: their value, how many followed the point, and
    whether a digit, a point or an underscore was seen. *)
Record mantissa := mkMantissa
  { m_val : Z; m_frac : Z; m_digits : bool; m_dot : bool; m_under : bool }.

Definition hex_val (b : Byte.byte) : Z :=
  if is_digit b then bz b - 48 else bz (lower_byte b) - 87.

Fixpoint read_mantissa (hex : bool) (st : mantissa) (b : bytes) : mantissa * bytes :=
  match b with
  | [] => (st, [])
  | x :: r =>
      if byte_is x 95 then
        read_mantissa hex (mkMantissa (m_val st) (m_frac st) (m_digits st) (m_dot st) true) r
      else if byte_is x 46 then
        if m_dot st then (st, b)
        else read_mantissa hex (mkMantissa (m_val st) (m_frac st) (m_digits st) true (m_under st)) r
      else if is_digit x || (hex && is_hex x) then
        read_mantissa hex
          (mkMantissa (m_val st * (if hex then 16 else 10) + hex_val x)
             (if m_dot st then m_frac st + 1 else m_frac st) true (m_dot st) (m_under st)) r
      else (st, b)
  end.

(** The digits of the exponent, accumulated while below 10000. *)
Fixpoint read_exp (e : Z) (under : bool) (b : bytes) : Z * bool * bytes :=
  match b with
  | x :: r =>
      if byte_is x 95 then read_exp e true r
      else if is_digit x then read_exp (if e <? 10000 then e * 10 + (bz x - 48) else e) under r
      else (e, under, b)
  | [] => (e, under, [])
  end.

Definition read_exp_signed (b : bytes) : option (Z * bool * bytes) :=
  let '(sg, b) := match b with
                  | x :: r => if byte_is x 43 then (1, r) else if byte_is x 45 then (-1, r) else (1, b)
                  | [] => (1, [])
                  end in
  match b with
  | x :: _ => if is_digit x
              then let '(e, u, r) := read_exp 0 false b in Some (sg * e, u, r)
              else None
  | [] => None
  end.

Definition split_sign (b : bytes) : bool * bytes :=
  match b with
  | x :: r => if byte_is x 43 then (false, r) else if byte_is x 45 then (true, r) else (false, b)
  | [] => (false, [])
  end.
Definition split_hex (b : bytes) : bool * bytes :=
  match b with
  | z :: p :: x :: r => if byte_is z 48 && lower_is p 120 then (true, x :: r) else (false, b)
  | _ => (false, b)
  end.

(** [special]: the whole of [b] spells an infinity or, unsigned, NaN. *)
Definition special (b : bytes) : option float64 :=
  let low r := map lower_byte r in
  let '(neg, r) := split_sign b in
  if bool_decide (low r = s2b "inf") || bool_decide (low r = s2b "infinity") then Some (FInf neg)
  else if bool_decide (low b = s2b "nan") then Some FNaN
  else None.

(** The number of decimal digits of [n]. *)
Definition ndigits (n : Z) : Z := Z.of_nat (String.length (dec_nat n)).

(** The decimal [v * 10^e]; the cut-offs are those of [decimal.floatBits]. *)
Definition decimal_value (neg : bool) (v e : Z) : option float64 :=
  if v =? 0 then Some (FFin 0 0)
  else if 310 <? ndigits v + e then None
  else if ndigits v + e <? -330 then Some (FFin 0 0)
  else if 0 <=? e then round64 neg (v * 10 ^ e) 1
  else round64 neg v (10 ^ (- e)).

(** The hexadecimal [v * 2^e]. *)
Definition hex_value (neg : bool) (v e : Z) : option float64 :=
  if v =? 0 then Some (FFin 0 0)
  else if 1100 <? Z.log2 v + e then None
  else if Z.log2 v + e <? -1200 then Some (FFin 0 0)
  else if 0 <=? e then round64 neg (v * 2 ^ e) 1
  else round64 neg v (2 ^ (- e)).

Definition ParseFloat (s : string) : option float64 :=
  let b := s2b s in
  match special b with
  | Some f => Some f
  | None =>
      let '(neg, b1) := split_sign b in
      let '(hex, b2) := split_hex b1 in
      let '(st, b3) := read_mantissa hex (mkMantissa 0 0 false false false) b2 in
      if negb (m_digits st) then None
      else
        let exp :=
          match b3 with
          | x :: r =>
              if lower_is x (if hex then 112 else 101) then read_exp_signed r
              else if hex then None else Some (0, false, b3)
          | [] => if hex then None else Some (0, false, [])
          end in
        match exp with
        | Some (e, under, []) =>
            if (m_under st || under) && negb (underscoreOK b1) then None
            else if hex then hex_value neg (m_val st) (e - 4 * m_frac st)
            else decimal_value neg (m_val st) (e - m_frac st)
        | _ => None
        end
  end.

(** ** The order *)

Lemma scaled_shift m e k j : j <= k -> k <= e -> scaled m e j = scaled m e k * 2 ^ (k - j).
Proof.
  intros Hj Hk. unfold scaled. rewrite <- Z.mul_assoc, <- Z.pow_add_r by lia.
  f_equal. f_equal. lia.
Qed.

(** Comparing at any common scale gives the same answer. *)
Lemma cmp_dyadic_at m1 e1 m2 e2 k :
  k <= e1 -> k <= e2 -> cmp_dyadic m1 e1 m2 e2 = (scaled m1 e1 k ?= scaled m2 e2 k).
Proof.
  intros H1 H2. unfold cmp_dyadic. set (j := Z.min e1 e2).
  rewrite (scaled_shift m1 e1 j k), (scaled_shift m2 e2 j k) by lia.
  rewrite !(Z.mul_comm _ (2 ^ (j - k))).
  apply Zmult_compare_compat_l. lia.
Qed.

Lemma cmp_dyadic_antisym m1 e1 m2 e2 : cmp_dyadic m2 e2 m1 e1 = CompOpp (cmp_dyadic m1 e1 m2 e2).
Proof. unfold cmp_dyadic. rewrite Z.min_comm. apply Z.compare_antisym. Qed.

Lemma fcompare_antisym a b : fcompare b a = CompOpp <$> fcompare a b.
Proof.
  destruct a as [|[]|m e], b as [|[]|m' e']; simpl; try done.
  by rewrite cmp_dyadic_antisym.
Qed.

(** Transitivity, with the strictness of the two steps combined. *)
Definition comp2 (c1 c2 : comparison) : option comparison :=
  match c1, c2 with
  | Eq, c | c, Eq => Some c
  | Lt, Lt => Some Lt
  | Gt, Gt => Some Gt
  | _, _ => None
  end.

Lemma Zcompare_comp2 a b c r :
  comp2 (a ?= b) (b ?= c) = Some r -> (a ?= c) = r.
Proof.
  destruct (Z.compare_spec a b) as [E1|E1|E1], (Z.compare_spec b c) as [E2|E2|E2];
    simpl; intros Hr; simplify_eq Hr; intros <-;
    destruct (Z.compare_spec a c); first [done | exfalso; lia].
Qed.

Lemma fcompare_trans a b c x y r :
  fcompare a b = Some x -> fcompare b c = Some y -> comp2 x y = Some r ->
  fcompare a c = Some r.
Proof.
  destruct a as [|[]|m1 e1], b as [|[]|m2 e2], c as [|[]|m3 e3]; simpl;
    intros Hx Hy Hr; simplify_eq/=; try done.
  all: try (by destruct (cmp_dyadic m1 e1 m2 e2); simplify_eq/=).
  all: try (by destruct (cmp_dyadic m2 e2 m3 e3); simplify_eq/=).
  set (k := Z.min e1 (Z.min e2 e3)).
  rewrite (cmp_dyadic_at m1 e1 m2 e2 k), (cmp_dyadic_at m2 e2 m3 e3 k) in Hr by lia.
  rewrite (cmp_dyadic_at m1 e1 m3 e3 k) by lia. f_equal. by eapply Zcompare_comp2.
Qed.

Lemma fcompare_refl a : IsNaN a = false -> fcompare a a = Some Eq.
Proof.
  destruct a as [|[]|m e]; simpl; try done. intros _.
  unfold cmp_dyadic. by rewrite Z.compare_refl.
Qed.

Lemma fcompare_None a b : fcompare a b = None <-> IsNaN a = true \/ IsNaN b = true.
Proof. destruct a, b; simpl; naive_solver. Qed.

Example pf1 : ParseFloat "0.1" = Some (FFin 7205759403792794 (-56)). Proof. vm_compute. reflexivity. Qed.
Example pf2 : ParseFloat "1e400" = None. Proof. vm_compute. reflexivity. Qed.
Example pf3 : ParseFloat "-Infinity" = Some (FInf true). Proof. vm_compute. reflexivity. Qed.
Example pf4 : ParseFloat "1_000.5" = Some (FFin 8800491068719104 (-43)). Proof. vm_compute. reflexivity. Qed.
Example pf5 : ParseFloat "0x1p-2" = Some (FFin 4503599627370496 (-54)). Proof. vm_compute. reflexivity. Qed.
Example pf6 : ParseFloat "1_" = None. Proof. vm_compute. reflexivity. Qed.
Example pf7 : ParseFloat "500" = Some (FFin 8796093022208000 (-44)). Proof. vm_compute. reflexivity. Qed.
Example pf8 : ParseFloat "5e-324" = Some (FFin 1 (-1074)). Proof. vm_compute. reflexivity. Qed.
Example pf9 : ParseFloat "1.7976931348623159e308" = None. Proof. vm_compute. reflexivity. Qed.
