(* ===== verification/GoCrypto.v ===== *)
(** encoding/base64, crypto/sha256, crypto/hmac, and the interface of the two
    signature algorithms.

    SHA-256 and HMAC are executable definitions (FIPS 180-4, RFC 2104).
    Ed25519 and ECDSA verification are parameters: the development uses of
    them only that verification is a function of key, message and signature,
    and, where it says so, that a signer's own signatures verify. *)
From S2P Require Import Prelude GoFmt.

(** ** base64 *)

Definition std_alphabet : string :=
  "ABCDEFGHIJKLMNOPQRSTUVWXYZabcdefghijklmnopqrstuvwxyz0123456789+/".
Definition url_alphabet : string :=
  "ABCDEFGHIJKLMNOPQRSTUVWXYZabcdefghijklmnopqrstuvwxyz0123456789-_".

Definition b64_char (alpha : bytes) (v : Z) : Byte.byte := nth (Z.to_nat v) alpha Byte.x3d.

Fixpoint b64_encode (alpha : bytes) (pad : bool) (b : bytes) : bytes :=
  match b with
  | x :: y :: z :: r =>
      let v := bz x * 65536 + bz y * 256 + bz z in
      b64_char alpha (v / 262144) :: b64_char alpha (v / 4096 mod 64)
      :: b64_char alpha (v / 64 mod 64) :: b64_char alpha (v mod 64) :: b64_encode alpha pad r
  | [x; y] =>
      let v := bz x * 1024 + bz y * 4 in
      [b64_char alpha (v / 4096); b64_char alpha (v / 64 mod 64); b64_char alpha (v mod 64)]
      ++ (if pad then [Byte.x3d] else [])
  | [x] =>
      let v := bz x * 16 in
      [b64_char alpha (v / 64); b64_char alpha (v mod 64)]
      ++ (if pad then [Byte.x3d; Byte.x3d] else [])
  | [] => []
  end.

Definition StdEncoding (b : bytes) : bytes := b64_encode (s2b std_alphabet) true b.
Definition RawURLEncoding (b : bytes) : string := b2s (b64_encode (s2b url_alphabet) false b).

Fixpoint index_of (i : Z) (x : Byte.byte) (alpha : bytes) : option Z :=
  match alpha with
  | [] => None
  | y :: r => if bool_decide (x = y) then Some i else index_of (i + 1) x r
  end.

(** Decoding skips carriage returns and newlines, accepts non-zero trailing
    bits (the encodings are not strict), and with padding requires it. *)
Fixpoint b64_quads (alpha : bytes) (b : bytes) : option bytes :=
  match b with
  | a :: b :: c :: d :: r =>
      va ← index_of 0 a alpha; vb ← index_of 0 b alpha;
      vc ← index_of 0 c alpha; vd ← index_of 0 d alpha;
      let v := va * 262144 + vb * 4096 + vc * 64 + vd in
      rest ← b64_quads alpha r;
      Some (byte_of_Z (v / 65536) :: byte_of_Z (v / 256) :: byte_of_Z v :: rest)
  | [a; b; c] =>
      va ← index_of 0 a alpha; vb ← index_of 0 b alpha; vc ← index_of 0 c alpha;
      let v := va * 262144 + vb * 4096 + vc * 64 in
      Some [byte_of_Z (v / 65536); byte_of_Z (v / 256)]
  | [a; b] =>
      va ← index_of 0 a alpha; vb ← index_of 0 b alpha;
      Some [byte_of_Z ((va * 262144 + vb * 4096) / 65536)]
  | [_] => None
  | [] => Some []
  end.

Definition no_newlines (b : bytes) : bytes :=
  filter (fun x => x <> Byte.x0a /\ x <> Byte.x0d) b.
Definition RawURLDecode (s : string) : option bytes :=
  b64_quads (s2b url_alphabet) (no_newlines (s2b s)).
(** With padding: a multiple of four characters, the last one or two of
    which may be the padding character. *)
Definition URLDecode (s : string) : option bytes :=
  let b := no_newlines (s2b s) in
  if negb (len b mod 4 =? 0) then None
  else match rev b with
       | Byte.x3d :: Byte.x3d :: r => b64_quads (s2b url_alphabet) (rev r)
       | Byte.x3d :: r => b64_quads (s2b url_alphabet) (rev r)
       | _ => b64_quads (s2b url_alphabet) b
       end.

(** [StdEncoding.DecodeString]. *)
Definition StdDecode (s : string) : option bytes :=
  let b := no_newlines (s2b s) in
  if negb (len b mod 4 =? 0) then None
  else match rev b with
       | Byte.x3d :: Byte.x3d :: r => b64_quads (s2b std_alphabet) (rev r)
       | Byte.x3d :: r => b64_quads (s2b std_alphabet) (rev r)
       | _ => b64_quads (s2b std_alphabet) b
       end.

(** *** The unpadded URL encoding is inverted by its decoder *)

Definition url_char_ok (v : Z) : bool :=
  let c := b64_char (s2b url_alphabet) v in
  bool_decide (index_of 0 c (s2b url_alphabet) = Some v)
  && bool_decide (c <> Byte.x0a) && bool_decide (c <> Byte.x0d).

Lemma url_chars_ok : forallb (fun n => url_char_ok (Z.of_nat n)) (seq 0 64) = true.
Proof. vm_compute. reflexivity. Qed.

Lemma url_char_spec v :
  0 <= v < 64 ->
  index_of 0 (b64_char (s2b url_alphabet) v) (s2b url_alphabet) = Some v
  /\ b64_char (s2b url_alphabet) v <> Byte.x0a /\ b64_char (s2b url_alphabet) v <> Byte.x0d.
Proof.
  intros Hv. pose proof url_chars_ok as H. rewrite forallb_forall in H.
  specialize (H (Z.to_nat v)). rewrite Z2Nat.id in H by lia.
  unfold url_char_ok in H. rewrite !andb_true_iff, !bool_decide_eq_true in H.
  destruct H as [[? ?] ?]; [apply in_seq; lia|done].
Qed.

Lemma sextets v :
  0 <= v < 16777216 ->
  0 <= v / 262144 < 64 /\ 0 <= v / 4096 mod 64 < 64 /\ 0 <= v / 64 mod 64 < 64 /\ 0 <= v mod 64 < 64
  /\ v / 262144 * 262144 + v / 4096 mod 64 * 4096 + v / 64 mod 64 * 64 + v mod 64 = v.
Proof. intros Hv. Z.div_mod_to_equations. lia. Qed.

Lemma byte_of_Z_mod z b : z mod 256 = bz b -> byte_of_Z z = b.
Proof. intros H. apply (inj Z_of_byte). rewrite Z_of_byte_of_Z. exact H. Qed.

Lemma octets x y z v :
  v = bz x * 65536 + bz y * 256 + bz z ->
  byte_of_Z (v / 65536) = x /\ byte_of_Z (v / 256) = y /\ byte_of_Z v = z.
Proof.
  unfold bz. pose proof (Z_of_byte_range x). pose proof (Z_of_byte_range y). pose proof (Z_of_byte_range z).
  intros ->. split_and!; apply byte_of_Z_mod; unfold bz; Z.div_mod_to_equations; lia.
Qed.

Lemma no_newlines_id b :
  Forall (fun c => c <> Byte.x0a /\ c <> Byte.x0d) b -> no_newlines b = b.
Proof.
  unfold no_newlines. induction 1 as [|c b Hc _ IH]; [done|].
  rewrite filter_cons_True by done. by rewrite IH.
Qed.

Ltac b64_chars :=
  repeat match goal with
  | |- context [index_of 0 (b64_char (s2b url_alphabet) ?v) (s2b url_alphabet)] =>
      rewrite (proj1 (url_char_spec v ltac:(lia))); cbn [mbind option_bind]
  end.

Lemma b64_url_roundtrip n b :
  (length b <= n)%nat ->
  let e := b64_encode (s2b url_alphabet) false b in
  b64_quads (s2b url_alphabet) e = Some b
  /\ Forall (fun c => c <> Byte.x0a /\ c <> Byte.x0d) e.
Proof.
  revert b. induction n as [|n IH]; intros b Hn; [by destruct b; [|simpl in Hn; lia]|].
  assert (Hb : forall x, 0 <= bz x < 256) by (intros x; apply Z_of_byte_range).
  destruct b as [|x [|y [|z r]]]; cbn [b64_encode].
  - done.
  - pose proof (Hb x). assert (0 <= bz x * 16 / 64 < 64 /\ 0 <= (bz x * 16) mod 64 < 64
      /\ bz x * 16 / 64 * 262144 + (bz x * 16) mod 64 * 4096 = bz x * 65536) as (S1 & S2 & E)
      by (Z.div_mod_to_equations; lia).
    cbn [app b64_quads]. b64_chars. split.
    + rewrite E. do 2 f_equal. apply byte_of_Z_mod. Z.div_mod_to_equations; lia.
    + repeat constructor; by apply url_char_spec.
  - pose proof (Hb x). pose proof (Hb y). set (v := bz x * 1024 + bz y * 4).
    assert (0 <= v / 4096 < 64 /\ 0 <= v / 64 mod 64 < 64 /\ 0 <= v mod 64 < 64
      /\ v / 4096 * 262144 + v / 64 mod 64 * 4096 + v mod 64 * 64 = v * 64) as (S1 & S2 & S3 & E)
      by (unfold v; Z.div_mod_to_equations; lia).
    cbn [app b64_quads]. b64_chars. split.
    + rewrite E. unfold v. do 3 f_equal; [|f_equal]; apply byte_of_Z_mod; Z.div_mod_to_equations; lia.
    + repeat constructor; by apply url_char_spec.
  - pose proof (Hb x). pose proof (Hb y). pose proof (Hb z).
    set (v := bz x * 65536 + bz y * 256 + bz z).
    destruct (sextets v ltac:(unfold v; lia)) as (S1 & S2 & S3 & S4 & E).
    destruct (IH r ltac:(simpl in Hn; lia)) as [IH1 IH2].
    cbn [b64_quads]. b64_chars. rewrite IH1. cbn [mbind option_bind]. split.
    + rewrite E. by destruct (octets x y z v eq_refl) as (-> & -> & ->).
    + repeat (constructor; [by apply url_char_spec|]). done.
Qed.

Lemma RawURL_roundtrip b : RawURLDecode (RawURLEncoding b) = Some b.
Proof.
  unfold RawURLDecode, RawURLEncoding. rewrite s2b_b2s.
  destruct (b64_url_roundtrip (length b) b) as [Hr Hn]; [lia|]. by rewrite no_newlines_id.
Qed.

#[export] Instance RawURLEncoding_inj : Inj (=) (=) RawURLEncoding.
Proof. intros a b H. apply (f_equal RawURLDecode) in H. rewrite !RawURL_roundtrip in H. congruence. Qed.

(** The padded standard encoding is the URL encoding with two characters
    renamed and the padding added, so it is injective as well. *)
Definition std_to_url (b : bytes) : bytes :=
  map (fun c => if byte_is c 43 then Byte.x2d else if byte_is c 47 then Byte.x5f else c)
    (List.filter (fun c => negb (byte_is c 61)) b).

Lemma std_chars v t :
  0 <= v < 64 ->
  std_to_url (b64_char (s2b std_alphabet) v :: t) = b64_char (s2b url_alphabet) v :: std_to_url t.
Proof.
  intros Hv.
  assert (H : forallb (fun i => bool_decide (std_to_url [b64_char (s2b std_alphabet) (Z.of_nat i)]
                                  = [b64_char (s2b url_alphabet) (Z.of_nat i)])) (seq 0 64) = true)
    by (vm_compute; reflexivity).
  rewrite forallb_forall in H. specialize (H (Z.to_nat v) ltac:(apply in_seq; lia)).
  rewrite bool_decide_eq_true, Z2Nat.id in H by lia.
  unfold std_to_url in *. cbn [List.filter map] in *. destruct (negb _); [|done]. cbn [map] in *. congruence.
Qed.

Lemma b64_std_url n b :
  (length b <= n)%nat -> std_to_url (b64_encode (s2b std_alphabet) true b) = b64_encode (s2b url_alphabet) false b.
Proof.
  revert b. induction n as [|n IH]; intros b Hn; [by destruct b; [|simpl in Hn; lia]|].
  assert (Hb : forall x, 0 <= bz x < 256) by (intros x; apply Z_of_byte_range).
  destruct b as [|x [|y [|z r]]]; cbn [b64_encode app].
  - done.
  - pose proof (Hb x). rewrite !std_chars by (Z.div_mod_to_equations; lia). done.
  - pose proof (Hb x). pose proof (Hb y). rewrite !std_chars by (Z.div_mod_to_equations; lia). done.
  - pose proof (Hb x). pose proof (Hb y). pose proof (Hb z).
    destruct (sextets (bz x * 65536 + bz y * 256 + bz z)) as (S1 & S2 & S3 & S4 & _); [lia|].
    rewrite !std_chars by done. rewrite IH by (simpl in Hn; lia). done.
Qed.

#[export] Instance StdEncoding_inj : Inj (=) (=) StdEncoding.
Proof.
  intros a b H. apply (f_equal std_to_url) in H. unfold StdEncoding in H.
  rewrite !(b64_std_url _ _ (le_n _)) in H. apply (inj RawURLEncoding). unfold RawURLEncoding. congruence.
Qed.

(** ** SHA-256 *)
Module sha256.

Definition w32 (z : Z) : Z := Z.land z 4294967295.
Definition rotr (x n : Z) : Z := Z.lor (Z.shiftr x n) (w32 (Z.shiftl x (32 - n))).
Definition lnot32 (x : Z) : Z := Z.lxor x 4294967295.
Definition Ch x y z := Z.lxor (Z.land x y) (Z.land (lnot32 x) z).
Definition Maj x y z := Z.lxor (Z.lxor (Z.land x y) (Z.land x z)) (Z.land y z).
Definition Sigma0 x := Z.lxor (Z.lxor (rotr x 2) (rotr x 13)) (rotr x 22).
Definition Sigma1 x := Z.lxor (Z.lxor (rotr x 6) (rotr x 11)) (rotr x 25).
Definition sigma0 x := Z.lxor (Z.lxor (rotr x 7) (rotr x 18)) (Z.shiftr x 3).
Definition sigma1 x := Z.lxor (Z.lxor (rotr x 17) (rotr x 19)) (Z.shiftr x 10).

(** The constants: the first 32 bits of the fractional parts of the cube roots
    of the first 64 primes, and of the square roots of the first eight. *)
Definition is_prime (n : Z) : bool :=
  forallb (fun d => negb (n mod Z.of_nat d =? 0)) (seq 2 (Z.to_nat (Z.sqrt n) - 1)).
Definition primes : list Z :=
  List.filter is_prime (map Z.of_nat (seq 2 310)).
Fixpoint cbrt_bits (n : nat) (x acc : Z) : Z :=
  match n with
  | O => acc
  | S n => let c := acc + 2 ^ Z.of_nat n in cbrt_bits n x (if c * c * c <=? x then c else acc)
  end.
Definition K : list Z :=
  Eval vm_compute in map (fun p => w32 (cbrt_bits 36 (p * 2 ^ 96) 0)) primes.

Record state := mkState { sa : Z; sb : Z; sc : Z; sd : Z; se : Z; sf : Z; sg : Z; sh : Z }.
Definition iv (i : nat) : Z := w32 (Z.sqrt (nth i primes 0 * 2 ^ 64)).
Definition H0 : state :=
  Eval vm_compute in mkState (iv 0) (iv 1) (iv 2) (iv 3) (iv 4) (iv 5) (iv 6) (iv 7).

(** The message schedule, as a window of the last sixteen words, newest
    first: the next word is computed from positions 1, 6, 14 and 15. *)
Definition next_w (win : list Z) : Z :=
  w32 (sigma1 (nth 1 win 0) + nth 6 win 0 + sigma0 (nth 14 win 0) + nth 15 win 0).

Definition step (s : state) (k w : Z) : state :=
  let t1 := w32 (sh s + Sigma1 (se s) + Ch (se s) (sf s) (sg s) + k + w) in
  let t2 := w32 (Sigma0 (sa s) + Maj (sa s) (sb s) (sc s)) in
  mkState (w32 (t1 + t2)) (sa s) (sb s) (sc s) (w32 (sd s + t1)) (se s) (sf s) (sg s).

(** Rounds over the constants [ks]; [pending] are the block's words not yet
    consumed, [win] the window. *)
Fixpoint rounds (ks pending win : list Z) (s : state) : state :=
  match ks with
  | [] => s
  | k :: ks =>
      match pending with
      | w :: pending => rounds ks pending (w :: win) (step s k w)
      | [] => let w := next_w win in rounds ks [] (take 16 (w :: win)) (step s k w)
      end
  end.

Definition compress (s : state) (block : list Z) : state :=
  let r := rounds K block [] s in
  mkState (w32 (sa s + sa r)) (w32 (sb s + sb r)) (w32 (sc s + sc r)) (w32 (sd s + sd r))
          (w32 (se s + se r)) (w32 (sf s + sf r)) (w32 (sg s + sg r)) (w32 (sh s + sh r)).

Fixpoint words (b : bytes) : list Z :=
  match b with
  | x :: y :: z :: t :: r => (bz x * 16777216 + bz y * 65536 + bz z * 256 + bz t) :: words r
  | _ => []
  end.

Definition pad (b : bytes) : bytes :=
  b ++ Byte.x80 :: repeat Byte.x00 (Z.to_nat ((55 - len b) mod 64)) ++ be64 (8 * len b).

Fixpoint blocks (fuel : nat) (ws : list Z) (s : state) : state :=
  match fuel, ws with
  | S fuel, _ :: _ => blocks fuel (drop 16 ws) (compress s (take 16 ws))
  | _, _ => s
  end.

Definition be32 (n : Z) : bytes :=
  map (fun i => byte_of_Z (Z.shiftr n (8 * i))) [3; 2; 1; 0].

Definition Sum256 (b : bytes) : bytes :=
  let ws := words (pad b) in
  let s := blocks (length ws) ws H0 in
  concat (map be32 [sa s; sb s; sc s; sd s; se s; sf s; sg s; sh s]).

Definition Size : Z := 32.

Lemma length_Sum256 b : length (Sum256 b) = 32%nat.
Proof. reflexivity. Qed.
End sha256.

(** ** HMAC-SHA-256 (64-byte blocks) *)
Definition xor_pad (v : Z) (b : bytes) : bytes := map (fun x => byte_of_Z (Z.lxor (bz x) v)) b.
Definition hmac_key (key : bytes) : bytes :=
  let k := if 64 <? len key then sha256.Sum256 key else key in
  k ++ repeat Byte.x00 (64 - length k).
Definition hmac_sha256 (key msg : bytes) : bytes :=
  let k := hmac_key key in
  sha256.Sum256 (xor_pad 0x5c k ++ sha256.Sum256 (xor_pad 0x36 k ++ msg)).

(** ** Public keys and signature verification

    [crypto.PublicKey]: an Ed25519 key is a byte string; an ECDSA key has a
    curve and two integer coordinates; anything else is an unsupported type. *)
Inductive curve := P256 | OtherCurve.
Inductive PublicKey : Type :=
| Ed25519Key (k : bytes)
| EcdsaKey (c : curve) (x y : Z)
| UnsupportedKey.

#[global] Instance curve_eq_dec : EqDecision curve.
Proof. solve_decision. Defined.
#[global] Instance PublicKey_eq_dec : EqDecision PublicKey.
Proof. solve_decision. Defined.

(** [ed25519.Verify], [ecdsa.VerifyASN1] on P-256 (given the digest), and the
    acceptance of [ecdh.P256().NewPublicKey] for an uncompressed point. *)
Class Crypto := {
  ed25519_Verify : bytes -> bytes -> bytes -> bool;
  ecdsa_VerifyASN1 : Z -> Z -> bytes -> bytes -> bool;
  p256_NewPublicKey_ok : bytes -> bool
}.

Example sha_abc :
  RawURLEncoding (sha256.Sum256 (s2b "abc")) = "ungWv48Bz-pBQUDeXa4iI7ADYaOWF3qctBD_YfIAFa0"%string.
Proof. vm_compute. reflexivity. Qed.
