(* ===== verification/GoJson.v ===== *)
(** encoding/json: the compact encoding [json.Marshal] writes.

    A value is a tree whose members are already in the order Go emits them
    (struct fields in declaration order, map keys sorted).  Strings are
    escaped as Go does with HTML escaping on; a byte sequence that is not valid
    UTF-8 is replaced by the escape of U+FFFD. *)
From S2P Require Import Prelude GoFmt GoTime GoCrypto.

Inductive json : Type :=
| JNull
| JBool (b : bool)
| JInt (z : Z)
| JStr (s : string)
| JArr (l : list json)
| JObj (l : list (string * json))
| JRaw (b : bytes).

Definition quote_byte : Byte.byte := Byte.x22.
Definition backslash_byte : Byte.byte := Byte.x5c.

Definition u_escape (r : Z) : bytes := backslash_byte :: Byte.x75 :: s2b (hex_fixed 4 r).

(** One ASCII character inside a JSON string. *)
Definition json_ascii (b : Byte.byte) : bytes :=
  let x := bz b in
  if (x =? 34) || (x =? 92) then [backslash_byte; b]
  else if x =? 8 then [backslash_byte; Byte.x62]
  else if x =? 12 then [backslash_byte; Byte.x66]
  else if x =? 10 then [backslash_byte; Byte.x6e]
  else if x =? 13 then [backslash_byte; Byte.x72]
  else if x =? 9 then [backslash_byte; Byte.x74]
  else if (x <? 32) || (x =? 60) || (x =? 62) || (x =? 38) then u_escape x
  else [b].

Fixpoint json_string_body (fuel : nat) (b : bytes) : bytes :=
  match fuel, b with
  | S fuel, b0 :: r =>
      match decode_rune b with
      | None => u_escape 65533 ++ json_string_body fuel r
      | Some (rune, w) =>
          (if rune <? 128 then json_ascii b0
           else if (rune =? 8232) || (rune =? 8233) then u_escape rune
           else take w b)
          ++ json_string_body fuel (drop w b)
      end
  | _, _ => []
  end.
Definition json_string (s : string) : bytes :=
  let b := s2b s in quote_byte :: json_string_body (length b) b ++ [quote_byte].

Definition comma : Byte.byte := Byte.x2c.
Definition colon : Byte.byte := Byte.x3a.

Fixpoint sep_by (sep : Byte.byte) (l : list bytes) : bytes :=
  match l with
  | [] => []
  | [x] => x
  | x :: l => x ++ sep :: sep_by sep l
  end.

Fixpoint encode (j : json) : bytes :=
  match j with
  | JNull => s2b "null"
  | JBool b => s2b (if b then "true" else "false")
  | JInt z => s2b (Itoa z)
  | JStr s => json_string s
  | JArr l => Byte.x5b :: sep_by comma (map encode l) ++ [Byte.x5d]
  | JObj l => Byte.x7b :: sep_by comma (map (fun kv => json_string kv.1 ++ colon :: encode kv.2) l)
              ++ [Byte.x7d]
  | JRaw b => b
  end.

(** ** Struct fields *)

(** A field without [omitempty], and one with it: the zero value is left out. *)
Definition field (k : string) (v : json) : list (string * json) := [(k, v)].
Definition omit_if (cond : bool) (k : string) (v : json) : list (string * json) :=
  if cond then [] else [(k, v)].
Definition str_field_omit (k s : string) : list (string * json) := omit_if (s =?s "") k (JStr s).

(** [[]byte] is encoded as padded base64. *)
Definition j_bytes (b : bytes) : json := JStr (b2s (StdEncoding b)).
Definition j_slice {A} (f : list A -> json) (s : slice A) : json :=
  match s with None => JNull | Some l => f l end.
Definition bytes_field_omit (k : string) (b : bytes) : list (string * json) :=
  omit_if (bool_decide (b = [])) k (j_bytes b).
Definition j_strings (l : list string) : json := JArr (map JStr l).

(** A map with string keys is written in ascending byte order of its keys. *)
Definition key_leb (a b : string * json) : bool := String.leb a.1 b.1.
Fixpoint insert_key (x : string * json) (l : list (string * json)) : list (string * json) :=
  match l with
  | [] => [x]
  | y :: l => if key_leb x y then x :: y :: l else y :: insert_key x l
  end.
Definition j_map (m : gmap string json) : json :=
  JObj (foldr insert_key [] (map_to_list m)).
Definition j_string_map (m : gmap string string) : json := j_map (JStr <$> m).

(** [Time.MarshalJSON], an encoder that can fail.  The quoted text it writes has
    no character to escape, so it is the string form of the instant. *)
Definition j_time (t : time) : result json :=
  let! _ := marshal_time t in Ok (JStr (b2s (format_RFC3339Nano t))).

Definition Marshal (j : result json) : result bytes :=
  let! j := j in Ok (encode j).

(** ** No encoded string, number or structure contains a NUL byte *)

Definition nul_free (b : bytes) : Prop := Byte.x00 ∉ b.

Lemma nul_free_nil : nul_free [].
Proof. apply not_elem_of_nil. Qed.
Lemma nul_free_cons x b : nul_free (x :: b) <-> x <> Byte.x00 /\ nul_free b.
Proof. unfold nul_free. rewrite not_elem_of_cons. naive_solver. Qed.
Lemma nul_free_app a b : nul_free (a ++ b) <-> nul_free a /\ nul_free b.
Proof. unfold nul_free. rewrite not_elem_of_app. done. Qed.

#[export] Instance nul_free_dec b : Decision (nul_free b).
Proof. unfold nul_free. apply _. Defined.

Lemma nul_free_byte_of_Z z : z mod 256 <> 0 -> byte_of_Z z <> Byte.x00.
Proof. intros H E. apply H. rewrite <- Z_of_byte_of_Z, E. reflexivity. Qed.

Example json_example :
  b2s (encode (JObj [("a", JStr "x<y"); ("b", JArr [JInt (-12); JNull])]))
  = b2s (Byte.x7b :: Byte.x22 :: s2b "a" ++ Byte.x22 :: Byte.x3a :: Byte.x22
         :: s2b "x\u003cy" ++ Byte.x22 :: Byte.x2c :: Byte.x22 :: s2b "b" ++ Byte.x22
         :: s2b ":[-12,null]}").
Proof. vm_compute. reflexivity. Qed.
