(* ===== verification/GoPath.v ===== *)
(** Paths and URLs, as the program uses them from Go's [path/filepath],
    [net/url], [strings] and [math/big] packages: percent decoding, the lexical
    cleaning of a joined path, the rendering of a URL, the host and port of an
    authority, lower casing, and unsigned big-endian integers. *)
From S2P Require Import Prelude GoFmt.

(** ** net/url: percent decoding and encoding *)

Definition ishex (c : Byte.byte) : bool := byte_in c 48 57 || byte_in c 97 102 || byte_in c 65 70.
Definition unhex (c : Byte.byte) : Z :=
  if byte_in c 48 57 then bz c - 48 else if byte_in c 97 102 then bz c - 87 else bz c - 55.

Definition EscapeError (b : bytes) : error := Errorf "invalid URL escape %q" [AStr (b2s (take 3 b))].

Fixpoint PathUnescape (b : bytes) : result bytes :=
  match b with
  | [] => Ok []
  | c :: r =>
      if byte_is c 37 then
        match r with
        | h :: l :: r' =>
            if ishex h && ishex l then
              let! t := PathUnescape r' in Ok (byte_of_Z (16 * unhex h + unhex l) :: t)
            else Err (EscapeError b)
        | _ => Err (EscapeError b)
        end
      else let! t := PathUnescape r in Ok (c :: t)
  end.

Lemma PathUnescape_nonempty b t : PathUnescape b = Ok t -> b <> [] -> t <> [].
Proof.
  destruct b as [|c b]; [done|]. simpl. intros H _. destruct (byte_is c 37).
  - destruct b as [|h [|l b]]; try done. destruct (ishex h && ishex l); [|done]. gosimp H. by simplify_eq.
  - gosimp H. by simplify_eq.
Qed.

(** Without an escape nothing is decoded. *)
Lemma PathUnescape_plain b : Byte.x25 ∉ b -> PathUnescape b = Ok b.
Proof.
  induction b as [|c b IH]; simpl; [done|]. rewrite not_elem_of_cons. intros [Hc Hb].
  replace (byte_is c 37) with false by (destruct c; done).
  rewrite IH by done. done.
Qed.

Definition alnum (c : Byte.byte) : bool := byte_in c 48 57 || byte_in c 97 122 || byte_in c 65 90.
Inductive encoding := encodePath | encodeHost.
Definition shouldEscape (m : encoding) (c : Byte.byte) : bool :=
  if alnum c then false
  else if bool_decide (c ∈ s2b "-_.~") then false
  else match m with
       | encodeHost => negb (bool_decide (c ∈ Byte.x22 :: s2b "!$&'()*+,;=:[]<>"))
       | encodePath => negb (bool_decide (c ∈ s2b "$&+,/:;=@"))
       end.
Definition upperhex (d : Z) : Byte.byte := byte_of_Z (if d <? 10 then 48 + d else 55 + d).
Definition escape (m : encoding) (b : bytes) : bytes :=
  concat (map (fun c => if shouldEscape m c
                        then [Byte.x25; upperhex (bz c / 16); upperhex (bz c mod 16)] else [c]) b).

(** The part of a [url.URL] the program builds or reads. *)
Record URL := mkURL { Scheme : string; Host : bytes; Path : bytes }.
#[global] Instance URL_eq_dec : EqDecision URL.
Proof. solve_decision. Defined.

(** [URL.String], for a URL without query, fragment and user. *)
Definition URL_String (u : URL) : bytes :=
  (if Scheme u =?s "" then [] else s2b (Scheme u) ++ s2b ":")
  ++ (if (Scheme u =?s "") && bool_decide (Host u = []) then []
      else (if bool_decide (Host u = []) && bool_decide (Path u = []) then [] else s2b "//")
           ++ escape encodeHost (Host u))
  ++ (match escape encodePath (Path u) with
      | [] => []
      | c :: r => (if negb (byte_is c 47) && negb (bool_decide (Host u = [])) then [Byte.x2f] else [])
                  ++ c :: r
      end).

(** [splitHostPort] of net/url: [Hostname] and [Port]. *)
Definition validOptionalPort (p : bytes) : bool :=
  match p with [] => true | c :: r => byte_is c 58 && forallb is_digit r end.
Definition splitHostPort (hostPort : bytes) : bytes * bytes :=
  let '(host, port) :=
    match last_index Byte.x3a 0 hostPort with
    | Some i => if validOptionalPort (drop i hostPort)
                then (take i hostPort, drop (S i) hostPort) else (hostPort, [])
    | None => (hostPort, [])
    end in
  (if has_prefix (s2b "[") host && has_prefix (s2b "]") (rev host)
   then removelast (tail host) else host, port).
Definition Hostname (u : URL) : bytes := (splitHostPort (Host u)).1.
Definition Port (u : URL) : bytes := (splitHostPort (Host u)).2.

(** ** strings.ToLower

    Above ASCII the mapping is a table of the unicode package; a byte that is
    no UTF-8 becomes U+FFFD. *)
Class CaseTables := { UnicodeLower : Z -> Z }.

Definition encode_rune (r : Z) : bytes :=
  map byte_of_Z
    (if (0 <=? r) && (r <? 128) then [r]
     else if (0 <=? r) && (r <? 2048) then [192 + r / 64; 128 + r mod 64]
     else if (r <? 0) || (1114111 <? r) || ((55296 <=? r) && (r <=? 57343)) then [239; 191; 189]
     else if r <? 65536 then [224 + r / 4096; 128 + r / 64 mod 64; 128 + r mod 64]
     else [240 + r / 262144; 128 + r / 4096 mod 64; 128 + r / 64 mod 64; 128 + r mod 64]).

Section Lower.
Context {CT : CaseTables}.
Fixpoint lower_body (fuel : nat) (b : bytes) : bytes :=
  match fuel, b with
  | S fuel, c :: r =>
      match decode_rune b with
      | None => encode_rune (UnicodeLower 65533) ++ lower_body fuel r
      | Some (rune, w) =>
          (if rune <? 128 then [lower_byte c] else encode_rune (UnicodeLower rune))
          ++ lower_body fuel (drop w b)
      end
  | _, _ => []
  end.
Definition ToLower (b : bytes) : bytes := lower_body (length b) b.

Lemma ToLower_ascii b : Forall (fun c => bz c < 128) b -> ToLower b = map lower_byte b.
Proof.
  unfold ToLower. induction 1 as [|c b Hc _ IH]; [done|]. cbn [lower_body length decode_rune map].
  destruct (bz c <? 128) eqn:E; [|lia]. simpl. rewrite E, drop_0, IH. done.
Qed.
End Lower.

(** ** path/filepath, on Unix *)

(** The elements of a path, [..] resolved against the elements before it. *)
Fixpoint clean_elems (rooted : bool) (stack : list bytes) (l : list bytes) : list bytes :=
  match l with
  | [] => rev stack
  | e :: l =>
      if bool_decide (e = []) || bool_decide (e = s2b ".") then clean_elems rooted stack l
      else if bool_decide (e = s2b "..") then
        match stack with
        | top :: below =>
            if bool_decide (top = s2b "..") then clean_elems rooted (e :: stack) l
            else clean_elems rooted below l
        | [] => clean_elems rooted (if rooted then [] else [e]) l
        end
      else clean_elems rooted (e :: stack) l
  end.

Fixpoint join_bytes (sep : Byte.byte) (l : list bytes) : bytes :=
  match l with
  | [] => []
  | [x] => x
  | x :: l => x ++ sep :: join_bytes sep l
  end.
Definition slash : Byte.byte := Byte.x2f.
Definition is_rooted (p : bytes) : bool := has_prefix [slash] p.
Definition path_elems (p : bytes) : list bytes :=
  clean_elems (is_rooted p) [] (split_bytes slash p).
Definition Clean (p : bytes) : bytes :=
  match (if is_rooted p then [slash] else []) ++ join_bytes slash (path_elems p) with
  | [] => s2b "."
  | q => q
  end.
(** [filepath.Dir]: what stands before the last separator, cleaned. *)
Fixpoint drop_elem (b : bytes) : bytes :=
  match b with c :: r => if byte_is c 47 then b else drop_elem r | [] => [] end.
Definition filepath_Dir (p : bytes) : bytes := Clean (rev (drop_elem (rev p))).
Fixpoint filepath_Join (l : list bytes) : bytes :=
  match l with
  | [] => []
  | e :: r => if bool_decide (e = []) then filepath_Join r else Clean (join_bytes slash l)
  end.

(** An element that cleaning keeps as it is. *)
Definition plain_elem (e : bytes) : Prop :=
  e <> [] /\ e <> s2b "." /\ e <> s2b ".." /\ slash ∉ e.

Lemma split_join sep l :
  l <> [] -> Forall (fun e => sep ∉ e) l -> split_bytes sep (join_bytes sep l) = l.
Proof.
  intros Hne H. induction H as [|e l He Hl IH]; [done|].
  assert (Happ : forall r, split_bytes sep (e ++ sep :: r) = e :: split_bytes sep r).
  { intros r. clear -He. induction e as [|c e IHe]; simpl.
    - rewrite bool_decide_true by done. done.
    - apply not_elem_of_cons in He as [Hc He]. rewrite bool_decide_false by congruence.
      rewrite IHe by done. done. }
  assert (Hone : split_bytes sep e = [e]).
  { clear -He. induction e as [|c e IHe]; simpl; [done|].
    apply not_elem_of_cons in He as [Hc He]. rewrite bool_decide_false by congruence.
    rewrite IHe by done. done. }
  destruct l as [|e' l]; [done|].
  change (join_bytes sep (e :: e' :: l)) with (e ++ sep :: join_bytes sep (e' :: l)).
  rewrite Happ, IH by done. done.
Qed.

Lemma split_app sep a b : split_bytes sep (a ++ sep :: b) = split_bytes sep a ++ split_bytes sep b.
Proof.
  induction a as [|c a IH]; simpl; [by rewrite bool_decide_true|]. rewrite IH.
  destruct (split_bytes sep a) eqn:E; [by destruct (split_bytes_nonempty sep a)|].
  case_bool_decide; done.
Qed.

Lemma clean_elems_plain rooted st l :
  Forall plain_elem l -> clean_elems rooted st l = rev st ++ l.
Proof.
  intros H. revert st. induction H as [|e l (He & Hd & Hdd & _) _ IH]; intros st; simpl.
  { by rewrite app_nil_r. }
  rewrite !bool_decide_false by done. simpl. rewrite IH. simpl. by rewrite <- app_assoc.
Qed.

Lemma clean_elems_app rooted st l k :
  clean_elems rooted st (l ++ k) = clean_elems rooted (rev (clean_elems rooted st l)) k.
Proof.
  revert st. induction l as [|e l IH]; intros st; simpl; [by rewrite rev_involutive|].
  repeat case_match; by rewrite IH.
Qed.

(** Joining plain elements below a root keeps the root's own elements and
    appends exactly those. *)
Lemma path_elems_under root l :
  root <> [] -> l <> [] -> Forall plain_elem l ->
  path_elems (root ++ slash :: join_bytes slash l) = path_elems root ++ l
  /\ is_rooted (root ++ slash :: join_bytes slash l) = is_rooted root.
Proof.
  intros Hr Hl Hp.
  assert (Hroot : is_rooted (root ++ slash :: join_bytes slash l) = is_rooted root)
    by (unfold is_rooted; destruct root; simpl; [done|]; by rewrite !andb_true_r).
  split; [|done]. unfold path_elems. rewrite Hroot, split_app, clean_elems_app.
  rewrite split_join; [|done|eapply Forall_impl; [exact Hp|]; by intros e (_ & _ & _ & ?)].
  rewrite clean_elems_plain, rev_involutive by done. done.
Qed.

(** Cleaning is idempotent on the elements. *)
Definition clean_form (rooted : bool) (l : list bytes) : Prop :=
  exists n ps, l = repeat (s2b "..") n ++ ps /\ Forall plain_elem ps /\ (rooted = true -> n = 0%nat).

Lemma rev_repeat {A} (x : A) n : rev (repeat x n) = repeat x n.
Proof.
  induction n as [|n IH]; simpl; [done|]. rewrite IH. clear IH. induction n; simpl; congruence.
Qed.

Lemma clean_elems_form rooted st l :
  clean_form rooted (rev st) -> Forall (fun e => slash ∉ e) l -> clean_form rooted (clean_elems rooted st l).
Proof.
  intros Hst H. revert st Hst. induction H as [|e l He Hl IH]; intros st Hst; simpl; [done|].
  destruct (bool_decide (e = []) || bool_decide (e = s2b ".")) eqn:E1; [by apply IH|].
  apply orb_false_iff in E1 as [Hn Hd]. apply bool_decide_eq_false in Hn, Hd.
  destruct Hst as (n & ps & Hst & Hps & Hr). case_bool_decide as Hdd.
  - destruct st as [|top below].
    + apply IH. destruct rooted; [by exists 0%nat, []|]. subst e. by exists 1%nat, [].
    + simpl in Hst. destruct ps as [|p ps _] using rev_ind.
      * rewrite app_nil_r in Hst.
        assert (top = s2b "..") as ->.
        { destruct n as [|n]; [by destruct (rev below)|].
          rewrite <- repeat_cons, app_nil_r in Hst || idtac.
          apply (f_equal last) in Hst. rewrite last_snoc in Hst.
          rewrite <- rev_repeat in Hst. simpl in Hst. rewrite last_snoc in Hst. congruence. }
        rewrite bool_decide_true by done. apply IH. exists (S n), []. split_and!; [|done|].
        -- subst e. change (rev (s2b ".." :: s2b ".." :: below)) with ((rev below ++ [s2b ".."]) ++ [s2b ".."]).
           rewrite Hst, app_nil_r. apply eq_sym, repeat_cons.
        -- intros Hroot. apply Hr in Hroot as ->. by destruct (rev below).
      * rewrite app_assoc in Hst. apply app_inj_tail in Hst as [Hst ->].
        apply Forall_app in Hps as [Hps Hp]. apply Forall_singleton in Hp as (_ & _ & Hp & _).
        rewrite bool_decide_false by done. apply IH. by exists n, ps.
  - apply IH. exists n, (ps ++ [e]). simpl. rewrite Hst, app_assoc. split_and!; [done| |done].
    apply Forall_app. split; [done|]. by apply Forall_singleton.
Qed.

Lemma clean_elems_dots n st :
  (forall x, x ∈ st -> x = s2b "..") -> clean_elems false st (repeat (s2b "..") n) = rev st ++ repeat (s2b "..") n.
Proof.
  revert st. induction n as [|n IH]; intros st Hst; simpl; [by rewrite app_nil_r|].
  replace (match st with [] => _ | _ => _ end)
    with (clean_elems false (s2b ".." :: st) (repeat (s2b "..") n)).
  2: { destruct st as [|t st]; [done|]. rewrite bool_decide_true by (apply Hst; left). done. }
  rewrite IH; [|intros x [->|Hx]%elem_of_cons; [done|by apply Hst]].
  simpl. by rewrite <- app_assoc.
Qed.

Lemma clean_elems_id rooted l : clean_form rooted l -> clean_elems rooted [] l = l.
Proof.
  intros (n & ps & -> & Hps & Hr). rewrite clean_elems_app.
  assert (Hd : clean_elems rooted [] (repeat (s2b "..") n) = repeat (s2b "..") n).
  { destruct rooted; [by rewrite (Hr eq_refl)|]. rewrite clean_elems_dots; [done|].
    intros x Hx. by apply elem_of_nil in Hx. }
  rewrite Hd, clean_elems_plain, rev_involutive by done. done.
Qed.

Lemma split_no_sep sep b : Forall (fun e => sep ∉ e) (split_bytes sep b).
Proof. apply Forall_forall. intros w. apply split_bytes_no_sep. Qed.

Lemma path_elems_form p : clean_form (is_rooted p) (path_elems p).
Proof. apply clean_elems_form; [by exists 0%nat, []|apply split_no_sep]. Qed.

Lemma clean_form_no_slash rooted l : clean_form rooted l -> Forall (fun e => slash ∉ e) l.
Proof.
  intros (n & ps & -> & Hps & _). apply Forall_app. split.
  - apply Forall_forall. intros x Hx. apply list_elem_of_In, repeat_spec in Hx as ->.
    apply (bool_decide_unpack (slash ∉ s2b "..")). vm_compute. exact I.
  - eapply Forall_impl; [exact Hps|]. by intros e (_ & _ & _ & ?).
Qed.

Lemma is_rooted_join l : Forall (fun e => slash ∉ e) l -> is_rooted (join_bytes slash l) = true -> exists r, l = [] :: r.
Proof.
  intros Hl Hr. destruct l as [|e l]; [done|]. destruct e as [|c e]; [by exists l|]. exfalso.
  apply Forall_cons in Hl as [He _]. rewrite not_elem_of_cons in He.
  unfold is_rooted in Hr. destruct l; simpl in Hr; rewrite andb_true_r, bool_decide_eq_true in Hr; naive_solver.
Qed.

(** The elements of a cleaned path are the elements the cleaning computed. *)
Lemma path_elems_Clean p : path_elems (Clean p) = path_elems p /\ is_rooted (Clean p) = is_rooted p.
Proof.
  pose proof (path_elems_form p) as Hf. pose proof (clean_form_no_slash _ _ Hf) as Hs.
  pose proof (clean_elems_id _ _ Hf) as Hid. unfold Clean.
  destruct (is_rooted p) eqn:Hr.
  - change ([slash] ++ join_bytes slash (path_elems p)) with (slash :: join_bytes slash (path_elems p)).
    split; [|done]. cbv iota. unfold path_elems at 1. change (is_rooted (slash :: _)) with true.
    change (split_bytes slash (slash :: ?b)) with ([] :: split_bytes slash b). cbn -[split_bytes].
    destruct (path_elems p) as [|e l] eqn:El; [done|]. rewrite split_join by done. exact Hid.
  - change ([] ++ join_bytes slash (path_elems p)) with (join_bytes slash (path_elems p)).
    destruct (path_elems p) as [|e l] eqn:El; [done|].
    assert (Hne : e <> []).
    { destruct Hf as (n & ps & Hl & Hps & _). destruct n; simpl in Hl; [|by simplify_eq].
      subst ps. apply Forall_cons in Hps as [(? & _) _]. done. }
    assert (Hr' : is_rooted (join_bytes slash (e :: l)) = false).
    { destruct (is_rooted (join_bytes slash (e :: l))) eqn:E; [|done].
      apply is_rooted_join in E as [r ?]; [|done]. congruence. }
    destruct (join_bytes slash (e :: l)) as [|c q] eqn:Ej.
    { destruct e; [done|]. by destruct l. }
    rewrite <- Ej. split; [|by rewrite Ej]. unfold path_elems at 1.
    rewrite Ej, Hr', <- Ej, split_join by done. exact Hid.
Qed.

(** Joining plain elements to a root. *)
Lemma filepath_Join_under root l :
  root <> [] -> l <> [] -> Forall plain_elem l ->
  path_elems (filepath_Join (root :: l)) = path_elems root ++ l
  /\ is_rooted (filepath_Join (root :: l)) = is_rooted root.
Proof.
  intros Hr Hl Hp. destruct l as [|e l]; [done|]. cbn [filepath_Join].
  rewrite bool_decide_false by done.
  change (join_bytes slash (root :: e :: l)) with (root ++ slash :: join_bytes slash (e :: l)).
  pose proof (path_elems_Clean (root ++ slash :: join_bytes slash (e :: l))) as [-> ->].
  by apply path_elems_under.
Qed.

(** ** math/big: [SetBytes], and [Bytes] of the absolute value *)
Definition SetBytes (b : bytes) : Z := fold_left (fun a c => a * 256 + bz c) b 0.
Fixpoint big_bytes_loop (fuel : nat) (z : Z) (acc : bytes) : bytes :=
  match fuel with
  | O => acc
  | S fuel => if z =? 0 then acc else big_bytes_loop fuel (z / 256) (byte_of_Z z :: acc)
  end.
Definition big_Bytes (z : Z) : bytes := big_bytes_loop (S (Z.to_nat (Z.log2 (Z.abs z)))) (Z.abs z) [].

Lemma byte_of_Z_mod_bz z c : byte_of_Z (z * 256 + bz c) = c.
Proof.
  apply (inj Z_of_byte). rewrite Z_of_byte_of_Z. pose proof (Z_of_byte_range c). unfold bz.
  rewrite Z.add_comm, Z_mod_plus_full. by apply Z.mod_small.
Qed.

Fixpoint strip_zeros (b : bytes) : bytes :=
  match b with [] => [] | c :: r => if byte_is c 0 then strip_zeros r else b end.

Lemma SetBytes_snoc b c : SetBytes (b ++ [c]) = SetBytes b * 256 + bz c.
Proof. unfold SetBytes. by rewrite fold_left_app. Qed.

Lemma SetBytes_bound b : 0 <= SetBytes b < 256 ^ len b.
Proof.
  induction b as [|c b IH] using rev_ind; [by vm_compute|].
  rewrite SetBytes_snoc, len_app. change (len [c]) with 1.
  rewrite Z.pow_add_r by (pose proof (len_nonneg b); lia).
  pose proof (Z_of_byte_range c). unfold bz. lia.
Qed.

Lemma strip_zeros_snoc b c :
  strip_zeros (b ++ [c]) = match strip_zeros b with [] => if byte_is c 0 then [] else [c] | s => s ++ [c] end.
Proof.
  induction b as [|d b IH]; simpl; [done|]. destruct (byte_is d 0); [exact IH|]. done.
Qed.

Lemma strip_zeros_nil b : strip_zeros b = [] <-> SetBytes b = 0.
Proof.
  induction b as [|c b IH] using rev_ind; [done|].
  rewrite strip_zeros_snoc, SetBytes_snoc. pose proof (SetBytes_bound b). pose proof (Z_of_byte_range c).
  unfold byte_is, bz in *. destruct (strip_zeros b) as [|d l] eqn:E.
  - rewrite (proj1 IH) by done. destruct (Z.eqb_spec (Z_of_byte c) 0); split; intros; try done; lia.
  - split; [by destruct l|]. intros Hz. destruct IH as [_ IH]. discriminate IH. lia.
Qed.

Lemma big_bytes_loop_SetBytes b fuel acc :
  SetBytes b < 2 ^ Z.of_nat fuel -> big_bytes_loop fuel (SetBytes b) acc = strip_zeros b ++ acc.
Proof.
  revert fuel acc. induction b as [|c b IH] using rev_ind; intros fuel acc Hf.
  { by destruct fuel. }
  rewrite strip_zeros_snoc. rewrite SetBytes_snoc in *.
  pose proof (SetBytes_bound b). pose proof (Z_of_byte_range c) as Hc. fold (bz c) in Hc.
  pose proof (strip_zeros_nil b) as Hn.
  destruct fuel as [|fuel].
  { change (2 ^ Z.of_nat 0) with 1 in Hf. rewrite (proj2 Hn) by lia.
    unfold byte_is. destruct (Z.eqb_spec (bz c) 0); [done|lia]. }
  simpl. destruct (Z.eqb_spec (SetBytes b * 256 + bz c) 0) as [E|E].
  { rewrite (proj2 Hn) by lia. unfold byte_is. destruct (Z.eqb_spec (bz c) 0); [done|lia]. }
  replace ((SetBytes b * 256 + bz c) / 256) with (SetBytes b)
    by (apply Z.div_unique with (bz c); lia).
  rewrite (byte_of_Z_mod_bz (SetBytes b) c).
  rewrite IH.
  - destruct (strip_zeros b) as [|d l] eqn:Es; [|simpl; by rewrite <- app_assoc].
    unfold byte_is. destruct (Z.eqb_spec (bz c) 0); [|done].
    rewrite (proj1 Hn) in E by done. lia.
  - rewrite Nat2Z.inj_succ, Z.pow_succ_r in Hf by lia. lia.
Qed.

Lemma big_Bytes_SetBytes b : big_Bytes (SetBytes b) = strip_zeros b.
Proof.
  unfold big_Bytes. pose proof (SetBytes_bound b). rewrite Z.abs_eq by lia.
  rewrite big_bytes_loop_SetBytes; [apply app_nil_r|]. rewrite Nat2Z.inj_succ, Z2Nat.id by apply Z.log2_nonneg.
  destruct (Z.eq_dec (SetBytes b) 0) as [->|]; [done|]. apply Z.log2_spec. lia.
Qed.

Lemma length_strip_zeros b : (length (strip_zeros b) <= length b)%nat.
Proof. induction b as [|c b IH]; simpl; [done|]. destruct (byte_is c 0); simpl; lia. Qed.

Lemma strip_zeros_pad b : repeat Byte.x00 (length b - length (strip_zeros b)) ++ strip_zeros b = b.
Proof.
  induction b as [|c b IH]; simpl; [done|]. destruct (byte_is c 0) eqn:E.
  - pose proof (length_strip_zeros b).
    replace (S (length b) - length (strip_zeros b))%nat with (S (length b - length (strip_zeros b))) by lia.
    simpl. rewrite IH. f_equal. by destruct c.
  - by rewrite Nat.sub_diag.
Qed.
