(* ===== verification/GoJsonText.v ===== *)
(** encoding/json: raw messages.

    [json.Marshal] checks the syntax of a raw message and writes it in compact
    form, with the HTML-sensitive characters escaped; an encoding never
    contains a zero byte. *)
From S2P Require Import Prelude GoFmt GoTime GoCrypto GoJson.

(** ** Compaction *)

Definition is_ws (c : Byte.byte) : bool :=
  byte_is c 32 || byte_is c 9 || byte_is c 10 || byte_is c 13.
Fixpoint skip_ws (b : bytes) : bytes :=
  match b with c :: r => if is_ws c then skip_ws r else b | [] => [] end.

Definition is_hex (c : Byte.byte) : bool := is_digit c || byte_in c 97 102 || byte_in c 65 70.

(** A string after its opening quote: the text written, and what follows. *)
Fixpoint string_text (fuel : nat) (b : bytes) : option (bytes * bytes) :=
  match fuel, b with
  | S fuel, c :: r =>
      if byte_is c 34 then Some ([c], r)
      else if byte_is c 92 then
        match r with
        | e :: r' =>
            if byte_is e 117 then
              match r' with
              | h1 :: h2 :: h3 :: h4 :: r'' =>
                  if is_hex h1 && is_hex h2 && is_hex h3 && is_hex h4 then
                    '(t, rest) ← string_text fuel r''; Some (c :: e :: h1 :: h2 :: h3 :: h4 :: t, rest)
                  else None
              | _ => None
              end
            else if bool_decide (e ∈ Byte.x22 :: s2b "\/bfnrt") then
              '(t, rest) ← string_text fuel r'; Some (c :: e :: t, rest)
            else None
        | [] => None
        end
      else if bz c <? 32 then None
      else
        '(t, rest) ← string_text fuel r;
        if byte_is c 60 || byte_is c 62 || byte_is c 38 then Some (u_escape (bz c) ++ t, rest)
        else
          match c, t with
          | Byte.xe2, Byte.x80 :: Byte.xa8 :: t' => Some (u_escape 8232 ++ t', rest)
          | Byte.xe2, Byte.x80 :: Byte.xa9 :: t' => Some (u_escape 8233 ++ t', rest)
          | _, _ => Some (c :: t, rest)
          end
  | _, _ => None
  end.

Fixpoint span_digits (b : bytes) : bytes * bytes :=
  match b with
  | c :: r => if is_digit c then let '(d, rest) := span_digits r in (c :: d, rest) else ([], b)
  | [] => ([], [])
  end.

(** A number: sign, integer part without leading zeros, fraction, exponent. *)
Definition number_text (b : bytes) : option (bytes * bytes) :=
  let '(sign, b) := match b with c :: r => if byte_is c 45 then ([c], r) else ([], b) | [] => ([], []) end in
  let '(ip, b) := match b with
                  | c :: r => if byte_is c 48 then ([c], r) else span_digits b
                  | [] => ([], [])
                  end in
  if bool_decide (ip = []) then None
  else
    '(fp, b) ← (match b with
               | c :: r => if byte_is c 46 then
                             let '(d, rest) := span_digits r in
                             if bool_decide (d = []) then None else Some (c :: d, rest)
                           else Some ([], b)
               | [] => Some ([], [])
               end);
    '(ep, b) ← (match b with
               | c :: r => if byte_is c 101 || byte_is c 69 then
                             let '(s, r) := match r with
                                            | x :: r' => if byte_is x 43 || byte_is x 45 then ([x], r') else ([], r)
                                            | [] => ([], [])
                                            end in
                             let '(d, rest) := span_digits r in
                             if bool_decide (d = []) then None else Some (c :: s ++ d, rest)
                           else Some ([], b)
               | [] => Some ([], [])
               end);
    Some (sign ++ ip ++ fp ++ ep, b).

Definition literal_text (w : string) (b : bytes) : option (bytes * bytes) :=
  if has_prefix (s2b w) b then Some (s2b w, drop (String.length w) b) else None.

(** The members of an array or an object, after the opening bracket; [vt]
    reads a value without leading white space, [fuel] bounds the members. *)
Section Members.
Context (vt : bytes -> option (bytes * bytes)).

Fixpoint elements_text (fuel : nat) (b : bytes) : option (bytes * bytes) :=
  match fuel with
  | O => None
  | S fuel =>
      '(v, b) ← vt (skip_ws b);
      match skip_ws b with
      | c :: r => if byte_is c 44 then '(t, rest) ← elements_text fuel r; Some (v ++ c :: t, rest)
                  else if byte_is c 93 then Some (v ++ [c], r) else None
      | [] => None
      end
  end.

Definition member_text (b : bytes) : option (bytes * bytes) :=
  match skip_ws b with
  | q :: r =>
      if byte_is q 34 then
        '(k, b) ← string_text (S (length r)) r;
        match skip_ws b with
        | c :: r => if byte_is c 58 then '(v, rest) ← vt (skip_ws r); Some (q :: k ++ c :: v, rest) else None
        | [] => None
        end
      else None
  | [] => None
  end.

Fixpoint members_text (fuel : nat) (b : bytes) : option (bytes * bytes) :=
  match fuel with
  | O => None
  | S fuel =>
      '(v, b) ← member_text b;
      match skip_ws b with
      | c :: r => if byte_is c 44 then '(t, rest) ← members_text fuel r; Some (v ++ c :: t, rest)
                  else if byte_is c 125 then Some (v ++ [c], r) else None
      | [] => None
      end
  end.
End Members.

(** A literal or a number, by its first character. *)
Definition scalar_text (c : Byte.byte) (b : bytes) : option (bytes * bytes) :=
  if byte_is c 116 then literal_text "true" b
  else if byte_is c 102 then literal_text "false" b
  else if byte_is c 110 then literal_text "null" b
  else number_text b.

(** A value without leading white space.  [depth] bounds the nesting, whose
    limit in the scanner is 10000. *)
Fixpoint value_text (depth : nat) (b : bytes) : option (bytes * bytes) :=
  match b with
  | [] => None
  | c :: r =>
      if byte_is c 34 then '(t, rest) ← string_text (S (length r)) r; Some (c :: t, rest)
      else if byte_is c 91 then
        match depth, skip_ws r with
        | S depth, d :: r' =>
            if byte_is d 93 then Some ([c; d], r')
            else '(t, rest) ← elements_text (value_text depth) (length r) r; Some (c :: t, rest)
        | _, _ => None
        end
      else if byte_is c 123 then
        match depth, skip_ws r with
        | S depth, d :: r' =>
            if byte_is d 125 then Some ([c; d], r')
            else '(t, rest) ← members_text (value_text depth) (length r) r; Some (c :: t, rest)
        | _, _ => None
        end
      else scalar_text c b
  end.

Definition max_depth : nat := 10000.
Definition compact (b : bytes) : option bytes :=
  match value_text (Nat.min max_depth (length b)) (skip_ws b) with
  | Some (t, rest) => if bool_decide (skip_ws rest = []) then Some t else None
  | None => None
  end.

(** A [json.RawMessage] field: nil is written [null]. *)
Definition j_raw (raw : option bytes) : result json :=
  match raw with
  | None => Ok JNull
  | Some b => match compact b with
              | Some t => Ok (JRaw t)
              | None => Err (New "json: error calling MarshalJSON for type json.RawMessage")
              end
  end.

Example compact_example :
  compact (s2b "  {  } ") = Some (s2b "{}")
  /\ compact (s2b "[1 , -0.5e3,  true]") = Some (s2b "[1,-0.5e3,true]")
  /\ compact (s2b "[01]") = None /\ compact (s2b "") = None.
Proof. vm_compute. done. Qed.

(** ** Encodings hold no zero byte *)

Lemma nul_free_u_escape r : nul_free (u_escape r).
Proof.
  assert (Hh : forall n, Ascii.byte_of_ascii (hex_char (n mod 16)) <> Byte.x00).
  { intros n. pose proof (Z.mod_pos_bound n 16 ltac:(lia)) as Hr.
    assert (H : forallb (fun i => negb (bool_decide (Ascii.byte_of_ascii (hex_char (Z.of_nat i)) = Byte.x00))) (seq 0 16) = true)
      by (vm_compute; reflexivity).
    rewrite forallb_forall in H. specialize (H (Z.to_nat (n mod 16)) ltac:(apply in_seq; lia)).
    rewrite Z2Nat.id, negb_true_iff, bool_decide_eq_false in H by lia. exact H. }
  unfold u_escape, s2b. cbn [hex_fixed String.list_byte_of_string String.list_ascii_of_string map].
  repeat (apply nul_free_cons; split; [first [done|apply Hh]|]). apply nul_free_nil.
Qed.

Lemma byte_not_nul c z : byte_is c z = true -> z <> 0 -> c <> Byte.x00.
Proof. unfold byte_is. intros E%Z.eqb_eq Hz ->. apply Hz. rewrite <- E. reflexivity. Qed.

Lemma byte_in_not_nul c lo hi : byte_in c lo hi = true -> 0 < lo -> c <> Byte.x00.
Proof.
  unfold byte_in. rewrite andb_true_iff, Z.leb_le. intros [H _] Hl ->. change (bz Byte.x00) with 0 in H. lia.
Qed.

Lemma is_hex_not_nul c : is_hex c = true -> c <> Byte.x00.
Proof.
  unfold is_hex, is_digit. rewrite !orb_true_iff. intros [[H|H]|H]; eapply byte_in_not_nul; eauto; lia.
Qed.

Lemma nul_free_tail c b : nul_free (c :: b) -> nul_free b.
Proof. by intros [_ ?]%nul_free_cons. Qed.

Lemma nul_free_string_text fuel b t rest : string_text fuel b = Some (t, rest) -> nul_free t.
Proof.
  revert b t rest. induction fuel as [|fuel IH]; intros b t rest H; [done|].
  destruct b as [|c r]; [done|]. cbn [string_text] in H.
  destruct (byte_is c 34) eqn:E1.
  { simplify_eq. apply nul_free_cons. split; [by eapply byte_not_nul|apply nul_free_nil]. }
  destruct (byte_is c 92) eqn:E2.
  { assert (c <> Byte.x00) by by eapply byte_not_nul. destruct r as [|e r']; [done|].
    destruct (byte_is e 117) eqn:E3.
    - do 4 (destruct r' as [|? r']; [done|]).
      destruct (_ && _) eqn:E4 in H; [|done]. rewrite !andb_true_iff in E4. destruct E4 as [[[? ?] ?] ?].
      apply bind_Some in H as ([t' rest'] & Ht & [= <- <-]). rewrite !nul_free_cons.
      split_and!; try (by apply is_hex_not_nul); [done|by eapply byte_not_nul|by eapply IH].
    - destruct (bool_decide _) eqn:E4 in H; [|done]. apply bool_decide_eq_true in E4.
      apply bind_Some in H as ([t' rest'] & Ht & [= <- <-]). rewrite !nul_free_cons.
      split_and!; [done| |by eapply IH]. intros ->. vm_compute in E4. clear -E4.
      by repeat (apply elem_of_cons in E4 as [E4|E4]; [done|]); apply elem_of_nil in E4. }
  destruct (bz c <? 32) eqn:E3; [done|]. apply Z.ltb_ge in E3.
  assert (c <> Byte.x00) by (intros ->; vm_compute in E3; done).
  apply bind_Some in H as ([t' rest'] & Ht & H). apply IH in Ht.
  assert (Hp : nul_free (c :: t')) by (by apply nul_free_cons).
  destruct (_ || _) eqn:E4 in H.
  { simplify_eq. apply nul_free_app. split; [apply nul_free_u_escape|done]. }
  repeat case_match; simplify_eq; try done;
    (apply nul_free_app; split; [apply nul_free_u_escape|by do 2 apply nul_free_tail in Ht]).
Qed.

Lemma is_digit_not_nul c : is_digit c = true -> c <> Byte.x00.
Proof. intros H. eapply byte_in_not_nul; [exact H|lia]. Qed.

Lemma nul_free_span_digits b d rest : span_digits b = (d, rest) -> nul_free d.
Proof.
  revert d rest. induction b as [|c b IH]; simpl; intros d rest H; [simplify_eq; apply nul_free_nil|].
  destruct (is_digit c) eqn:E; [|simplify_eq; apply nul_free_nil].
  destruct (span_digits b) as [d' rest']. simplify_eq. apply nul_free_cons.
  split; [by apply is_digit_not_nul|by eapply IH].
Qed.

(** The three parts of a number that follow one another. *)
Lemma nul_free_number_text b t rest : number_text b = Some (t, rest) -> nul_free t.
Proof.
  unfold number_text. intros H.
  destruct (match b with [] => _ | _ => _ end) as [sign b1] eqn:Es.
  assert (Hs : nul_free sign).
  { destruct b as [|c b]; [simplify_eq; apply nul_free_nil|]. destruct (byte_is c 45) eqn:E; simplify_eq;
      [apply nul_free_cons; split; [by eapply byte_not_nul|]|]; apply nul_free_nil. }
  destruct (match b1 with [] => _ | _ => _ end) as [ip b2] eqn:Ei.
  assert (Hi : nul_free ip).
  { destruct b1 as [|c b1]; [simplify_eq; apply nul_free_nil|].
    destruct (byte_is c 48) eqn:E; [simplify_eq; apply nul_free_cons; split; [by eapply byte_not_nul|apply nul_free_nil]|].
    by eapply nul_free_span_digits. }
  case_bool_decide; [done|].
  apply bind_Some in H as ([fp b3] & Hf & H). apply bind_Some in H as ([ep b4] & He & [= <- <-]).
  rewrite !nul_free_app. split_and!; [done|done| |].
  - destruct b2 as [|c b2]; [simplify_eq; apply nul_free_nil|].
    destruct (byte_is c 46) eqn:E; [|simplify_eq; apply nul_free_nil].
    destruct (span_digits b2) as [d r] eqn:Ed. case_bool_decide; simplify_eq.
    apply nul_free_cons. split; [by eapply byte_not_nul|by eapply nul_free_span_digits].
  - destruct b3 as [|c b3]; [simplify_eq; apply nul_free_nil|].
    destruct (byte_is c 101 || byte_is c 69) eqn:E; [|simplify_eq; apply nul_free_nil].
    assert (c <> Byte.x00) by (apply orb_true_iff in E as [E|E]; by eapply byte_not_nul).
    destruct (match b3 with [] => _ | _ => _ end) as [s r] eqn:Er.
    assert (nul_free s).
    { destruct b3 as [|x b3]; [simplify_eq; apply nul_free_nil|].
      destruct (byte_is x 43 || byte_is x 45) eqn:Ex; simplify_eq; [|apply nul_free_nil].
      apply nul_free_cons. split; [|apply nul_free_nil].
      apply orb_true_iff in Ex as [Ex|Ex]; by eapply byte_not_nul. }
    destruct (span_digits r) as [d r'] eqn:Ed. case_bool_decide; simplify_eq.
    apply nul_free_cons. split; [done|]. apply nul_free_app. split; [done|]. by eapply nul_free_span_digits.
Qed.

Lemma nul_free_literal_text w b t rest :
  bool_decide (nul_free (s2b w)) = true -> literal_text w b = Some (t, rest) -> nul_free t.
Proof. unfold literal_text. intros Hw%bool_decide_eq_true H. case_match; by simplify_eq. Qed.

Lemma nul_free_scalar_text c b t rest : scalar_text c b = Some (t, rest) -> nul_free t.
Proof.
  unfold scalar_text. intros H.
  repeat case_match; first [by eapply nul_free_number_text|eapply nul_free_literal_text; [|exact H]; reflexivity].
Qed.

Lemma nul_free_snoc v c t : nul_free v -> c <> Byte.x00 -> nul_free t -> nul_free (v ++ c :: t).
Proof. intros. apply nul_free_app. split; [done|]. by apply nul_free_cons. Qed.

Section MemberText.
Context (vt : bytes -> option (bytes * bytes)).
Context (Hvt : forall b t rest, vt b = Some (t, rest) -> nul_free t).

Lemma nul_free_elements fuel b t rest : elements_text vt fuel b = Some (t, rest) -> nul_free t.
Proof.
  revert b t rest. induction fuel as [|fuel IH]; intros b t rest H; [done|]. simpl in H.
  apply bind_Some in H as ([v b'] & Hv & H). apply Hvt in Hv.
  destruct (skip_ws b') as [|c r]; [done|]. destruct (byte_is c 44) eqn:E1.
  - apply bind_Some in H as ([t' rest'] & Ht & [= <- <-]). apply IH in Ht.
    apply nul_free_snoc; [done| |done]. by eapply byte_not_nul.
  - destruct (byte_is c 93) eqn:E2; [|done]. simplify_eq.
    apply nul_free_snoc; [done| |apply nul_free_nil]. by eapply byte_not_nul.
Qed.

Lemma nul_free_member b t rest : member_text vt b = Some (t, rest) -> nul_free t.
Proof.
  unfold member_text. intros H. destruct (skip_ws b) as [|q r]; [done|].
  destruct (byte_is q 34) eqn:Eq; [|done]. apply bind_Some in H as ([k b'] & Hk & H).
  apply nul_free_string_text in Hk. destruct (skip_ws b') as [|c r']; [done|].
  destruct (byte_is c 58) eqn:Ec; [|done]. apply bind_Some in H as ([v rest'] & Hv & [= <- <-]).
  apply Hvt in Hv. apply nul_free_cons. split; [by eapply byte_not_nul|].
  apply nul_free_snoc; [done| |done]. by eapply byte_not_nul.
Qed.

Lemma nul_free_members fuel b t rest : members_text vt fuel b = Some (t, rest) -> nul_free t.
Proof.
  revert b t rest. induction fuel as [|fuel IH]; intros b t rest H; [done|]. simpl in H.
  apply bind_Some in H as ([v b'] & Hv & H). apply nul_free_member in Hv.
  destruct (skip_ws b') as [|c r]; [done|]. destruct (byte_is c 44) eqn:E1.
  - apply bind_Some in H as ([t' rest'] & Ht & [= <- <-]). apply IH in Ht.
    apply nul_free_snoc; [done| |done]. by eapply byte_not_nul.
  - destruct (byte_is c 125) eqn:E2; [|done]. simplify_eq.
    apply nul_free_snoc; [done| |apply nul_free_nil]. by eapply byte_not_nul.
Qed.
End MemberText.

Lemma nul_free_value_text depth b t rest : value_text depth b = Some (t, rest) -> nul_free t.
Proof.
  revert b t rest. induction depth as [|depth IH]; intros b t rest H;
    (destruct b as [|c r]; [done|]); cbn [value_text] in H.
  all: destruct (byte_is c 34) eqn:E1;
    [apply bind_Some in H as ([t' rest'] & Ht & [= <- <-]); apply nul_free_string_text in Ht;
     apply nul_free_cons; split; [by eapply byte_not_nul|done]|].
  - destruct (byte_is c 91), (byte_is c 123); try done. by eapply nul_free_scalar_text.
  - destruct (byte_is c 91) eqn:E2; [|destruct (byte_is c 123) eqn:E3].
    + assert (c <> Byte.x00) by by eapply byte_not_nul.
      destruct (skip_ws r) as [|d r']; [done|]. destruct (byte_is d 93) eqn:Ed.
      * simplify_eq. rewrite !nul_free_cons. split_and!; [done|by eapply byte_not_nul|apply nul_free_nil].
      * apply bind_Some in H as ([t' rest'] & Ht & [= <- <-]). apply nul_free_elements in Ht; [|done].
        by apply nul_free_cons.
    + assert (c <> Byte.x00) by by eapply byte_not_nul.
      destruct (skip_ws r) as [|d r']; [done|]. destruct (byte_is d 125) eqn:Ed.
      * simplify_eq. rewrite !nul_free_cons. split_and!; [done|by eapply byte_not_nul|apply nul_free_nil].
      * apply bind_Some in H as ([t' rest'] & Ht & [= <- <-]). apply nul_free_members in Ht; [|done].
        by apply nul_free_cons.
    + by eapply nul_free_scalar_text.
Qed.

Lemma nul_free_compact b t : compact b = Some t -> nul_free t.
Proof.
  unfold compact. destruct (value_text _ _) as [[t' rest]|] eqn:E; [|done].
  case_match; [|done]. intros [= ->]. by eapply nul_free_value_text.
Qed.

(** *** Encoded values

    The raw parts of a tree, which come from [compact] and from the encoding of
    instants, are the only bytes it copies. *)
Fixpoint raw_free (j : json) : Prop :=
  match j with
  | JArr l => foldr (fun x P => raw_free x /\ P) True l
  | JObj l => foldr (fun kv P => raw_free kv.2 /\ P) True l
  | JRaw b => nul_free b
  | _ => True
  end.

Lemma foldr_and {A} (P : A -> Prop) l : foldr (fun x Q => P x /\ Q) True l <-> Forall P l.
Proof. induction l; simpl; [done|]. rewrite Forall_cons. tauto. Qed.

(** Induction over trees, through their lists of members. *)
Lemma json_induction (P : json -> Prop) :
  P JNull -> (forall b, P (JBool b)) -> (forall z, P (JInt z)) -> (forall s, P (JStr s)) ->
  (forall l, Forall P l -> P (JArr l)) -> (forall l, Forall (fun kv => P kv.2) l -> P (JObj l)) ->
  (forall b, P (JRaw b)) -> forall j, P j.
Proof.
  intros H1 H2 H3 H4 H5 H6 H7. fix IH 1.
  intros [|b|z|s|l|l|b]; [exact H1|apply H2|apply H3|apply H4| | |apply H7].
  - apply H5. induction l; constructor; [apply IH|done].
  - apply H6. induction l; constructor; [apply IH|done].
Qed.

Lemma nul_free_sep_by sep l : sep <> Byte.x00 -> Forall nul_free l -> nul_free (sep_by sep l).
Proof.
  intros Hs H. induction H as [|x l Hx Hl IH]; simpl; [apply nul_free_nil|].
  destruct l; [done|]. by apply nul_free_snoc.
Qed.

Lemma nul_free_s2b_cons c s : nul_free (s2b (String c s)) <-> Ascii.byte_of_ascii c <> Byte.x00 /\ nul_free (s2b s).
Proof. apply nul_free_cons. Qed.

Lemma digit_char_not_nul n : 0 <= n < 10 -> Ascii.byte_of_ascii (digit_char n) <> Byte.x00.
Proof.
  intros Hn.
  assert (H : forallb (fun i => negb (bool_decide (Ascii.byte_of_ascii (digit_char (Z.of_nat i)) = Byte.x00))) (seq 0 10) = true)
    by (vm_compute; reflexivity).
  rewrite forallb_forall in H. specialize (H (Z.to_nat n) ltac:(apply in_seq; lia)).
  by rewrite Z2Nat.id, negb_true_iff, bool_decide_eq_false in H by lia.
Qed.

Lemma nul_free_dec_digits fuel n acc : nul_free (s2b acc) -> nul_free (s2b (dec_digits fuel n acc)).
Proof.
  revert n acc. induction fuel as [|fuel IH]; intros n acc H; simpl; [done|].
  assert (nul_free (s2b (String (digit_char (n mod 10)) acc))).
  { apply nul_free_s2b_cons. split; [|done]. apply digit_char_not_nul, Z.mod_pos_bound. lia. }
  destruct (n / 10 =? 0); [done|]. by apply IH.
Qed.

Lemma nul_free_Itoa z : nul_free (s2b (Itoa z)).
Proof.
  unfold Itoa, dec_nat. destruct (z <? 0); [rewrite s2b_append, nul_free_app; split; [by apply (bool_decide_unpack _)|]|];
    apply nul_free_dec_digits, nul_free_nil.
Qed.

Lemma nul_free_json_ascii b : nul_free (json_ascii b).
Proof.
  unfold json_ascii.
  repeat case_match; first [apply nul_free_u_escape
    |repeat (apply nul_free_cons; split; [first [done|intros ->; discriminate]|]); apply nul_free_nil].
Qed.

Lemma nul_free_json_string s : nul_free (json_string s).
Proof.
  unfold json_string. apply nul_free_cons. split; [done|].
  apply nul_free_app. split; [|apply nul_free_cons; split; [done|apply nul_free_nil]].
  generalize (length (s2b s)). intros fuel. generalize (s2b s). clear s.
  induction fuel as [|fuel IH]; intros b; [apply nul_free_nil|].
  destruct b as [|b0 r]; [apply nul_free_nil|]. cbn [json_string_body].
  destruct (decode_rune (b0 :: r)) as [[rune w]|] eqn:E; apply nul_free_app; (split; [|apply IH]);
    [|apply nul_free_u_escape].
  apply decode_rune_cases in E as [(c & r' & [= <- <-] & -> & Hc & ->)|(Hr & _ & Hw)].
  - rewrite (proj2 (Z.ltb_lt _ _) Hc). apply nul_free_json_ascii.
  - rewrite (proj2 (Z.ltb_ge _ _) Hr). destruct (_ || _); [apply nul_free_u_escape|].
    intros Hin. rewrite Forall_forall in Hw. apply Hw in Hin. by vm_compute in Hin.
Qed.

(** A string written without a backslash is written as it is. *)
Lemma json_body_plain fuel b :
  (length b <= fuel)%nat -> backslash_byte ∉ json_string_body fuel b ->
  json_string_body fuel b = b /\ quote_byte ∉ b.
Proof.
  revert b. induction fuel as [|fuel IH]; intros b Hl Hb.
  { destruct b; simpl in Hl; [|lia]. split; [done|apply not_elem_of_nil]. }
  destruct b as [|b0 r]; [split; [done|apply not_elem_of_nil]|].
  cbn [json_string_body] in *. cbn [length] in Hl.
  destruct (decode_rune (b0 :: r)) as [[rune w]|] eqn:E.
  2: { exfalso. apply Hb. left. }
  apply not_elem_of_app in Hb as [Hp Hb].
  apply decode_rune_cases in E as [(c & r' & [= <- <-] & -> & Hc & ->)|(Hr & Hw & Hf)].
  - rewrite (proj2 (Z.ltb_lt _ _) Hc) in *. simpl drop in *. rewrite drop_0 in *.
    destruct (IH r) as [-> Hq]; [lia|done|]. unfold json_ascii in *.
    repeat case_match; try (exfalso; apply Hp; left); [].
    split; [done|]. rewrite not_elem_of_cons. split; [|done]. intros <-. done.
  - rewrite (proj2 (Z.ltb_ge _ _) Hr) in *.
    destruct (IH (drop w (b0 :: r))) as [-> Hq]; [rewrite length_drop; simpl; lia|done|].
    destruct (_ || _) in *; [exfalso; apply Hp; left|]. rewrite take_drop. split; [done|].
    rewrite <- (take_drop w (b0 :: r)). apply not_elem_of_app. split; [|done].
    intros Hin. rewrite Forall_forall in Hf. apply Hf in Hin. vm_compute in Hin. done.
Qed.

Lemma json_string_plain s :
  backslash_byte ∉ json_string s ->
  json_string s = quote_byte :: s2b s ++ [quote_byte] /\ quote_byte ∉ s2b s.
Proof.
  unfold json_string. rewrite not_elem_of_cons, not_elem_of_app. intros (_ & Hb & _).
  destruct (json_body_plain _ _ (le_n _) Hb) as [-> ?]. done.
Qed.

(** An encoding whose raw parts hold no zero byte holds none. *)
Lemma nul_free_encode j : raw_free j -> nul_free (encode j).
Proof.
  induction j as [|b|z|s|l IH|l IH|b] using json_induction; simpl; intros Hr.
  - by apply (bool_decide_unpack _).
  - destruct b; by apply (bool_decide_unpack _).
  - apply nul_free_Itoa.
  - apply nul_free_json_string.
  - apply nul_free_cons. split; [done|]. apply nul_free_snoc; [|done|apply nul_free_nil].
    apply nul_free_sep_by; [done|]. rewrite foldr_and in Hr. apply Forall_map.
    rewrite !Forall_forall in *. intros x Hx. by apply IH, Hr.
  - apply nul_free_cons. split; [done|]. apply nul_free_snoc; [|done|apply nul_free_nil].
    apply nul_free_sep_by; [done|]. apply (proj1 (foldr_and (fun kv => raw_free kv.2) l)) in Hr. apply Forall_map.
    rewrite !Forall_forall in *. intros kv Hkv.
    apply (nul_free_snoc (json_string kv.1)); [apply nul_free_json_string|done|]. by apply IH, Hr.
  - done.
Qed.

Lemma raw_free_time t j : j_time t = Ok j -> raw_free j.
Proof. unfold j_time. intros H. gosimp H. by injection H as <-. Qed.

Lemma raw_free_raw b j : j_raw b = Ok j -> raw_free j.
Proof.
  unfold j_raw. destruct b as [b|]; [|by intros [= <-]].
  destruct (compact b) eqn:E; [|done]. intros [= <-]. by eapply nul_free_compact.
Qed.

Lemma raw_free_obj l : Forall (fun kv => raw_free kv.2) l -> raw_free (JObj l).
Proof. apply (proj2 (foldr_and (fun kv => raw_free kv.2) l)). Qed.
Lemma raw_free_arr l : Forall raw_free l -> raw_free (JArr l).
Proof. apply foldr_and. Qed.

Lemma raw_free_string_map m : raw_free (j_string_map m).
Proof.
  apply raw_free_obj. rewrite Forall_forall. intros [k v] Hin. simpl.
  assert (H : Forall (fun kv => raw_free kv.2) (map_to_list (JStr <$> m))).
  { apply Forall_forall. intros [k' v'] Hk%elem_of_map_to_list. simpl.
    rewrite lookup_fmap in Hk. destruct (m !! k'); by simplify_eq/=. }
  revert H Hin. generalize (map_to_list (JStr <$> m)) as l. intros l H.
  assert (Hi : forall x l, raw_free x.2 -> Forall (fun kv => raw_free kv.2) l -> Forall (fun kv => raw_free kv.2) (insert_key x l)).
  { clear. intros x l Hx H. induction H as [|y l Hy Hl IH]; simpl; [by repeat constructor|].
    case_match; by repeat constructor. }
  assert (Hf : Forall (fun kv => raw_free kv.2) (foldr insert_key [] l)).
  { induction H; simpl; [constructor|]. by apply Hi. }
  rewrite Forall_forall in Hf. apply Hf.
Qed.

Lemma raw_free_omit c k v l : (c = false -> raw_free v) -> Forall (fun kv => raw_free kv.2) l ->
  Forall (fun kv => raw_free kv.2) (omit_if c k v ++ l).
Proof. intros Hv Hl. destruct c; simpl; [done|]. constructor; [by apply Hv|done]. Qed.
Lemma raw_free_omit_last c k v : (c = false -> raw_free v) -> Forall (fun kv => raw_free kv.2) (omit_if c k v).
Proof. intros Hv. destruct c; repeat constructor. by apply Hv. Qed.
Lemma raw_free_strings l : raw_free (j_strings l).
Proof. apply raw_free_arr, Forall_map, Forall_forall. done. Qed.

(** Splits the members of a struct. *)
Ltac raw_fields :=
  unfold field, str_field_omit, bytes_field_omit; cbn [app snd];
  repeat first [apply Forall_nil_2
               |apply Forall_cons; split; [cbn [snd]|]
               |apply raw_free_omit; [intros _; cbn [snd]|]
               |apply raw_free_omit_last; intros _; cbn [snd]
               |apply Forall_app; split].

(** *** Text that needs no escape: the base64url alphabet *)

Definition safe_byte (c : Byte.byte) : bool :=
  (bz c <? 128) && bool_decide (json_ascii c = [c]) && negb (bool_decide (c = backslash_byte)).

Lemma json_string_safe s :
  Forall (fun c => safe_byte c = true) (s2b s) ->
  json_string s = quote_byte :: s2b s ++ [quote_byte] /\ backslash_byte ∉ json_string s.
Proof.
  intros H. assert (Hb : json_string_body (length (s2b s)) (s2b s) = s2b s).
  { induction H as [|c b Hc _ IH]; [done|]. cbn [json_string_body length decode_rune].
    unfold safe_byte in Hc. rewrite !andb_true_iff, bool_decide_eq_true in Hc. destruct Hc as [[Hc Hj] _]. rewrite !Hc.
    cbn [drop]. rewrite drop_0, Hj, IH. done. }
  unfold json_string. rewrite Hb. split; [done|].
  rewrite not_elem_of_cons, not_elem_of_app, list_elem_of_singleton. split_and!; [done| |done].
  intros Hin. rewrite Forall_forall in H. apply H in Hin. by vm_compute in Hin.
Qed.

(** *** Instants are written as [Time.MarshalJSON] writes them *)

Lemma safe_literal s : forallb safe_byte s = true -> Forall (fun c => safe_byte c = true) s.
Proof. rewrite forallb_forall, Forall_forall. intros H c Hc. apply H. by apply list_elem_of_In. Qed.

Lemma safe_digit d : 0 <= d < 10 -> safe_byte (byte_of_Z (48 + d)) = true.
Proof.
  intros Hd.
  assert (H : forallb (fun i => safe_byte (byte_of_Z (48 + Z.of_nat i))) (seq 0 10) = true) by (vm_compute; reflexivity).
  rewrite forallb_forall in H. specialize (H (Z.to_nat d) ltac:(apply in_seq; lia)). by rewrite Z2Nat.id in H by lia.
Qed.

Lemma safe_digs l : Forall (fun c => safe_byte c = true) (map dig l).
Proof. induction l; simpl; constructor; [|done]. apply safe_digit, Z.mod_pos_bound. lia. Qed.

Lemma safe_dec_digits fuel n acc :
  Forall (fun c => safe_byte c = true) (s2b acc) -> Forall (fun c => safe_byte c = true) (s2b (dec_digits fuel n acc)).
Proof.
  revert n acc. induction fuel as [|fuel IH]; intros n acc H; simpl; [done|].
  assert (Forall (fun c => safe_byte c = true) (s2b (String (digit_char (n mod 10)) acc))).
  { constructor; [|done]. pose proof (Z.mod_pos_bound n 10 ltac:(lia)) as Hd. revert Hd. generalize (n mod 10).
    intros d Hd.
    assert (Hs : forallb (fun i => safe_byte (Ascii.byte_of_ascii (digit_char (Z.of_nat i)))) (seq 0 10) = true)
      by (vm_compute; reflexivity).
    rewrite forallb_forall in Hs. specialize (Hs (Z.to_nat d) ltac:(apply in_seq; lia)). by rewrite Z2Nat.id in Hs by lia. }
  destruct (n / 10 =? 0); [done|]. by apply IH.
Qed.

Lemma safe_fmt_frac ns : Forall (fun c => safe_byte c = true) (fmt_frac ns).
Proof.
  assert (Hf : forall n, Forall (fun c => safe_byte c = true) (frac_digits n ns)).
  { induction n as [|n IH]; simpl; constructor; [|done]. apply safe_digit, Z.mod_pos_bound. lia. }
  assert (Hr : forall l, Forall (fun c => safe_byte c = true) l -> Forall (fun c => safe_byte c = true) (rev l)).
  { intros l. by apply Forall_rev. }
  assert (Hd : forall l, Forall (fun c => safe_byte c = true) l -> Forall (fun c => safe_byte c = true) (drop_zeros l)).
  { induction 1 as [|c l Hc Hl IH]; simpl; [constructor|]. case_match; [done|by constructor]. }
  unfold fmt_frac. specialize (Hr _ (Hd _ (Hr _ (Hf 9%nat)))). destruct (rev _); [constructor|]. by constructor.
Qed.

Lemma safe_format t : Forall (fun c => safe_byte c = true) (format_RFC3339Nano t).
Proof.
  assert (H2 : forall n, Forall (fun c => safe_byte c = true) (pad2 n)) by (intros n; apply (safe_digs [n / 10; n])).
  assert (H4 : forall n, Forall (fun c => safe_byte c = true) (pad4 n))
    by (intros n; apply (safe_digs [n / 1000; n / 100; n / 10; n])).
  assert (Hd : forall n, Forall (fun c => safe_byte c = true) (s2b (dec_nat n)))
    by (intros n; apply safe_dec_digits; constructor).
  unfold format_RFC3339Nano. destruct (civil_from_days _) as [[y m] d].
  repeat (apply Forall_app; split); try apply H2; try apply safe_fmt_frac; try (by apply safe_literal).
  - unfold fmt_year. repeat case_match; repeat (apply Forall_app; split);
      first [apply H4|apply Hd|by apply safe_literal].
  - unfold fmt_zone. repeat case_match; repeat (apply Forall_app; split); first [apply H2|by apply safe_literal].
Qed.

Lemma j_time_str t j : j_time t = Ok j -> j = JStr (b2s (format_RFC3339Nano t)).
Proof. unfold j_time. intros H. gosimp H. by injection H as <-. Qed.

Lemma j_time_text t j : j_time t = Ok j -> marshal_time t = Ok (encode j).
Proof.
  unfold j_time, marshal_time. intros H. gosimp H. injection H as <-. repeat case_match; try done.
  pose proof (json_string_safe (b2s (format_RFC3339Nano t))) as Hs. rewrite s2b_b2s in Hs.
  destruct (Hs (safe_format t)) as [E _]. cbn [encode]. by rewrite E.
Qed.

Lemma b64_char_safe v : safe_byte (b64_char (s2b url_alphabet) v) = true.
Proof.
  assert (H : forallb safe_byte (Byte.x3d :: s2b url_alphabet) = true) by (vm_compute; reflexivity).
  rewrite forallb_forall in H. apply H. unfold b64_char.
  destruct (nth_in_or_default (Z.to_nat v) (s2b url_alphabet) Byte.x3d) as [Hin| ->]; [by right|by left].
Qed.

Lemma b64_encode_safe n b :
  (length b <= n)%nat -> Forall (fun c => safe_byte c = true) (b64_encode (s2b url_alphabet) false b).
Proof.
  revert b. induction n as [|n IH]; intros b Hl.
  { destruct b; simpl in Hl; [constructor|lia]. }
  destruct b as [|x [|y [|z b]]]; cbn [b64_encode app]; repeat (constructor; [apply b64_char_safe|]); try constructor.
  apply IH. simpl in Hl. lia.
Qed.

Lemma RawURL_safe b : Forall (fun c => safe_byte c = true) (s2b (RawURLEncoding b)).
Proof. unfold RawURLEncoding. rewrite s2b_b2s. by apply (b64_encode_safe (length b)). Qed.

Lemma Marshal_nul_free r b : (forall j, r = Ok j -> raw_free j) -> Marshal r = Ok b -> nul_free b.
Proof.
  intros Hr H. unfold Marshal in H. apply rbind_Ok in H as (j & Hj & [= <-]). by apply nul_free_encode, Hr.
Qed.
