(* ===== verification/GoIndent.v ===== *)
(** encoding/json: the indented text [json.MarshalIndent] writes (no prefix,
    two spaces a level), from the compact one. *)
From S2P Require Import Prelude GoFmt GoTime GoCrypto GoJson GoJsonText.

Definition indent_newline (depth : nat) : bytes := Byte.x0a :: repeat Byte.x20 (2 * depth).
Definition is_closing (c : Byte.byte) : bool := byte_is c 125 || byte_is c 93.
Definition is_opening (c : Byte.byte) : bool := byte_is c 123 || byte_is c 91.

(** [need]: an opening bracket was written and nothing since; [instr] and
    [escd]: inside a string, and after a backslash of it. *)
Fixpoint indent_from (depth : nat) (need instr escd : bool) (b : bytes) : bytes :=
  match b with
  | [] => []
  | c :: r =>
      if instr then c :: indent_from depth need (negb (byte_is c 34) || escd) (byte_is c 92 && negb escd) r
      else if is_ws c then indent_from depth need false false r
      else if is_closing c then
        if need then c :: indent_from depth false false false r
        else indent_newline (pred depth) ++ c :: indent_from (pred depth) false false false r
      else
        let depth := if need then S depth else depth in
        (if need then indent_newline depth else [])
        ++ (if is_opening c then c :: indent_from depth true false false r
            else if byte_is c 44 then c :: indent_newline depth ++ indent_from depth false false false r
            else if byte_is c 58 then c :: Byte.x20 :: indent_from depth false false false r
            else c :: indent_from depth false (byte_is c 34) false r)
  end.
Definition Indent (b : bytes) : bytes := indent_from 0 false false false b.
Definition MarshalIndent (j : result json) : result bytes := let! b := Marshal j in Ok (Indent b).

(** The text without the white space outside its strings. *)
Fixpoint strip_ws (instr escd : bool) (b : bytes) : bytes :=
  match b with
  | [] => []
  | c :: r =>
      if instr then c :: strip_ws (negb (byte_is c 34) || escd) (byte_is c 92 && negb escd) r
      else if is_ws c then strip_ws false false r
      else c :: strip_ws (byte_is c 34) false r
  end.

Lemma strip_spaces n b : strip_ws false false (repeat Byte.x20 n ++ b) = strip_ws false false b.
Proof. induction n as [|n IH]; [done|]. exact IH. Qed.
Lemma strip_newline d b : strip_ws false false (indent_newline d ++ b) = strip_ws false false b.
Proof. unfold indent_newline. exact (strip_spaces (2 * d) b). Qed.

(** Indentation changes nothing but white space outside strings. *)
Lemma strip_indent d n i e b : strip_ws i e (indent_from d n i e b) = strip_ws i e b.
Proof.
  revert d n i e. induction b as [|c b IH]; intros d n i e; [done|]. cbn [indent_from strip_ws].
  destruct i; [cbn [strip_ws]; by rewrite IH|]. 
  assert (He : forall x, strip_ws false e x = strip_ws false false x).
  { intros x. induction x as [|y x IHx]; [done|]. cbn [strip_ws]. by destruct (is_ws y). }
  destruct (is_ws c) eqn:Ew; rewrite He; [apply IH|].
  assert (Hc : forall x q, byte_is c 34 = q -> strip_ws false false (c :: x) = c :: strip_ws q false x).
  { intros x q <-. cbn [strip_ws]. by rewrite Ew. }
  destruct (is_closing c) eqn:Ecl.
  { assert (Eq : byte_is c 34 = false) by (clear -Ecl; by destruct c).
    destruct n; [|rewrite strip_newline]; rewrite (Hc _ _ Eq), IH, Eq; done. }
  assert (Hpre : forall x k, strip_ws false false ((if n then indent_newline k else []) ++ x) = strip_ws false false x)
    by (intros x k; destruct n; [apply strip_newline|done]).
  rewrite Hpre. destruct (is_opening c) eqn:Eo.
  { assert (Eq : byte_is c 34 = false) by (clear -Eo; by destruct c). by rewrite (Hc _ _ Eq), IH, Eq. }
  destruct (byte_is c 44) eqn:E1.
  { assert (Eq : byte_is c 34 = false) by (clear -E1; by destruct c). by rewrite (Hc _ _ Eq), strip_newline, IH, Eq. }
  destruct (byte_is c 58) eqn:E2.
  { assert (Eq : byte_is c 34 = false) by (clear -E2; by destruct c). rewrite (Hc _ _ Eq), Eq.
    f_equal. exact (IH (if n then S d else d) false false false). }
  rewrite (Hc _ _ eq_refl). by rewrite IH.
Qed.

Lemma MarshalIndent_text j b : MarshalIndent j = Ok b -> exists m, Marshal j = Ok m /\ strip_ws false false b = strip_ws false false m.
Proof. unfold MarshalIndent. intros H. gosimp H. apply Ok_inj in H. subst b. exists a. split; [done|]. apply strip_indent. Qed.

Example Indent_example :
  Indent (encode (JObj [("a", JArr [JInt 1; JStr "x:[ ,"]); ("b", JObj [])]))
  = s2b "{" ++ Byte.x0a :: s2b "  " ++ s2b (dq "a") ++ s2b ": [" ++ Byte.x0a :: s2b "    1," ++ Byte.x0a
    :: s2b "    " ++ s2b (dq "x:[ ,") ++ Byte.x0a :: s2b "  ]," ++ Byte.x0a :: s2b "  " ++ s2b (dq "b") ++ s2b ": {}"
    ++ Byte.x0a :: s2b "}".
Proof. vm_compute. reflexivity. Qed.
