(* ===== verification/GoJsonInj.v ===== *)
(** encoding/json: an encoding determines the value it encodes.

    A JSON text is read back token by token: for values without raw parts
    whose strings are valid UTF-8 the compact encoding is a prefix code.  This
    is what turns a signature or a hash over an encoded struct into a statement
    about every one of its fields. *)
From S2P Require Import Prelude GoFmt GoPath GoTime GoCrypto GoJson GoJsonText.

(** ** Decimal integers *)

Definition digits_value (ds : bytes) : Z := fold_left (fun a c => a * 10 + (bz c - 48)) ds 0.

Lemma digits_value_snoc ds c : digits_value (ds ++ [c]) = digits_value ds * 10 + (bz c - 48).
Proof. unfold digits_value. by rewrite fold_left_app. Qed.

Lemma digit_char_byte d :
  0 <= d < 10 -> bz (Ascii.byte_of_ascii (digit_char d)) = 48 + d /\ is_digit (Ascii.byte_of_ascii (digit_char d)) = true.
Proof.
  intros Hd.
  assert (H : forallb (fun i => let c := Ascii.byte_of_ascii (digit_char (Z.of_nat i)) in
                                (bz c =? 48 + Z.of_nat i) && is_digit c) (seq 0 10) = true)
    by (vm_compute; reflexivity).
  rewrite forallb_forall in H. specialize (H (Z.to_nat d) ltac:(apply in_seq; lia)).
  rewrite Z2Nat.id in H by lia. cbn zeta in H. rewrite andb_true_iff, Z.eqb_eq in H. exact H.
Qed.

Lemma dec_digits_spec fuel n acc :
  (0 < fuel)%nat -> 0 <= n < 2 ^ Z.of_nat fuel ->
  exists ds, s2b (dec_digits fuel n acc) = ds ++ s2b acc /\ ds <> []
    /\ Forall (fun c => is_digit c = true) ds /\ digits_value ds = n.
Proof.
  revert n acc. induction fuel as [|fuel IH]; intros n acc Hf Hn; [lia|]. cbn [dec_digits].
  pose proof (Z.mod_pos_bound n 10 ltac:(lia)) as Hm. destruct (digit_char_byte _ Hm) as [Hv Hd].
  destruct (Z.eqb_spec (n / 10) 0) as [E|E].
  - exists [Ascii.byte_of_ascii (digit_char (n mod 10))]. split_and!; [done|done|by repeat constructor|].
    unfold digits_value. simpl. rewrite Hv. pose proof (Z.div_mod n 10). lia.
  - destruct fuel as [|fuel].
    { change (2 ^ Z.of_nat 1) with 2 in Hn. exfalso. apply E. apply Z.div_small. lia. }
    destruct (IH (n / 10) (String (digit_char (n mod 10)) acc)) as (ds & Hs & Hne & Hds & Hval); [lia| |].
    { rewrite Nat2Z.inj_succ, Z.pow_succ_r in Hn by lia. split; [apply Z.div_pos; lia|].
      apply Z.div_lt_upper_bound; lia. }
    exists (ds ++ [Ascii.byte_of_ascii (digit_char (n mod 10))]). rewrite Hs, <- app_assoc. split_and!; [done| | |].
    + by destruct ds.
    + apply Forall_app. split; [done|]. by repeat constructor.
    + rewrite digits_value_snoc, Hval, Hv. pose proof (Z.div_mod n 10). lia.
Qed.

Lemma dec_nat_spec n :
  0 <= n -> s2b (dec_nat n) <> [] /\ Forall (fun c => is_digit c = true) (s2b (dec_nat n))
            /\ digits_value (s2b (dec_nat n)) = n.
Proof.
  intros Hn. destruct (dec_digits_spec (S (Z.to_nat (Z.log2 n))) n "") as (ds & Hs & ?); [lia| |].
  - split; [done|]. rewrite Nat2Z.inj_succ, Z2Nat.id by apply Z.log2_nonneg.
    destruct (Z.eq_dec n 0) as [->|]; [done|]. apply Z.log2_spec. lia.
  - unfold dec_nat. rewrite Hs, app_nil_r. done.
Qed.

(** What may follow a number. *)
Definition delim (r : bytes) : Prop := match r with [] => True | c :: _ => is_digit c = false end.

Lemma digits_span d1 d2 r1 r2 :
  Forall (fun c => is_digit c = true) d1 -> Forall (fun c => is_digit c = true) d2 -> delim r1 -> delim r2 ->
  d1 ++ r1 = d2 ++ r2 -> d1 = d2 /\ r1 = r2.
Proof.
  intros H1. revert d2. induction H1 as [|c d1 Hc H1 IH]; intros d2 H2 D1 D2 H.
  - destruct H2 as [|c d2 Hc H2]; [done|]. simpl in H. subst r1. simpl in D1. congruence.
  - destruct H2 as [|c2 d2 Hc2 H2]; [simpl in H; subst r2; simpl in D2; congruence|].
    simpl in H. injection H as -> H. destruct (IH d2) as [-> ->]; done.
Qed.

Lemma Itoa_span z1 z2 r1 r2 :
  delim r1 -> delim r2 -> s2b (Itoa z1) ++ r1 = s2b (Itoa z2) ++ r2 -> z1 = z2 /\ r1 = r2.
Proof.
  intros D1 D2. unfold Itoa. pose proof (dec_nat_spec (Z.abs z1) ltac:(lia)) as (N1 & F1 & V1).
  pose proof (dec_nat_spec (Z.abs z2) ltac:(lia)) as (N2 & F2 & V2).
  assert (Hminus : forall n r1 r2, s2b (dec_nat n) <> [] -> Forall (fun c => is_digit c = true) (s2b (dec_nat n)) ->
            Byte.x2d :: r1 = s2b (dec_nat n) ++ r2 -> False).
  { intros n q1 q2 Hne Hf H. destruct (s2b (dec_nat n)) as [|c ds]; [done|]. injection H as <- _.
    by inversion Hf. }
  destruct (z1 <? 0) eqn:E1, (z2 <? 0) eqn:E2; rewrite ?s2b_append; change (s2b "-") with [Byte.x2d]; cbn [app].
  - intros H%cons_tail. rewrite Z.abs_neq in * by lia. apply digits_span in H as [H ?]; [|done..].
    rewrite H, V2 in V1. split; [lia|done].
  - intros H. rewrite Z.abs_eq in F2, N2 by lia. by apply Hminus in H.
  - intros H. rewrite Z.abs_eq in F1, N1 by lia. symmetry in H. by apply Hminus in H.
  - intros H. rewrite Z.abs_eq in * by lia. apply digits_span in H as [H ?]; [|done..].
    rewrite H, V2 in V1. split; [lia|done].
Qed.

(** ** Strings, rune by rune

    [None] stands for a byte that is no UTF-8, which is encoded as the escape
    of U+FFFD. *)
Fixpoint runes (fuel : nat) (b : bytes) : list (option Z) :=
  match fuel, b with
  | S fuel, _ :: r =>
      match decode_rune b with
      | None => None :: runes fuel r
      | Some (rune, w) => Some rune :: runes fuel (drop w b)
      end
  | _, _ => []
  end.
Definition string_runes (s : string) : list (option Z) := runes (length (s2b s)) (s2b s).
Definition valid_utf8 (s : string) : bool :=
  forallb (fun t => match t with Some _ => true | None => false end) (string_runes s).

Definition rune_text (t : option Z) : bytes :=
  match t with
  | None => u_escape 65533
  | Some r => if r <? 128 then json_ascii (byte_of_Z r)
              else if (r =? 8232) || (r =? 8233) then u_escape r else encode_rune r
  end.

(** Decoding is inverted by encoding. *)
Lemma byte_eq_of c z : bz c = z -> byte_of_Z z = c.
Proof. intros <-. apply byte_of_Z_of_byte. Qed.

Lemma encode_decode b rune w : decode_rune b = Some (rune, w) -> encode_rune rune = take w b.
Proof.
  destruct b as [|b0 r]; [done|]. cbn [decode_rune]. intros H. pose proof (Z_of_byte_range b0) as R0. fold (bz b0) in R0.
  destruct (Z.ltb_spec (bz b0) 128) as [E0|E0].
  { simplify_eq. unfold encode_rune. rewrite (proj2 (Z.leb_le _ _)), (proj2 (Z.ltb_lt _ _)) by lia. simpl.
    by rewrite (byte_eq_of b0). }
  unfold cont in H. destruct r as [|b1 r]; [done|]. destruct (byte_in b0 194 223 && _) eqn:E1.
  { rewrite andb_true_iff, !byte_in_true in E1. simplify_eq. unfold encode_rune.
    set (v := (bz b0 - 192) * 64 + (bz b1 - 128)).
    replace ((0 <=? v) && (v <? 128)) with false by (unfold v; lia).
    replace ((0 <=? v) && (v <? 2048)) with true by (unfold v; lia). simpl.
    f_equal; [|f_equal]; apply byte_eq_of; unfold v; Z.div_mod_to_equations; lia. }
  destruct r as [|b2 r]; [done|]. destruct (_ && _ && _) eqn:E2 in H.
  { rewrite !andb_true_iff, !byte_in_true in E2. simplify_eq. unfold encode_rune.
    set (v := (bz b0 - 224) * 4096 + (bz b1 - 128) * 64 + (bz b2 - 128)).
    assert (Hv : 2048 <= v < 65536 /\ ~ (55296 <= v <= 57343)).
    { unfold v. destruct (Z.eqb_spec (bz b0) 224), (Z.eqb_spec (bz b0) 237); lia. }
    replace ((0 <=? v) && (v <? 128)) with false by lia.
    replace ((0 <=? v) && (v <? 2048)) with false by lia.
    replace ((v <? 0) || (1114111 <? v) || ((55296 <=? v) && (v <=? 57343))) with false by lia.
    replace (v <? 65536) with true by lia. simpl.
    assert (128 <= bz b1 <= 191) by (destruct (Z.eqb_spec (bz b0) 224), (Z.eqb_spec (bz b0) 237); lia).
    f_equal; [|f_equal; [|f_equal]]; apply byte_eq_of; unfold v; clear -E2 H; Z.div_mod_to_equations; lia. }
  destruct r as [|b3 r]; [done|]. destruct (_ && _ && _ && _) eqn:E3 in H; [|done].
  rewrite !andb_true_iff, !byte_in_true in E3. simplify_eq. unfold encode_rune.
  set (v := (bz b0 - 240) * 262144 + (bz b1 - 128) * 4096 + (bz b2 - 128) * 64 + (bz b3 - 128)).
  assert (Hv : 65536 <= v <= 1114111).
  { unfold v. destruct (Z.eqb_spec (bz b0) 240), (Z.eqb_spec (bz b0) 244); lia. }
  replace ((0 <=? v) && (v <? 128)) with false by lia.
  replace ((0 <=? v) && (v <? 2048)) with false by lia.
  replace ((v <? 0) || (1114111 <? v) || ((55296 <=? v) && (v <=? 57343))) with false by lia.
  replace (v <? 65536) with false by lia. simpl.
  assert (128 <= bz b1 <= 191) by (destruct (Z.eqb_spec (bz b0) 240), (Z.eqb_spec (bz b0) 244); lia).
  f_equal; [|f_equal; [|f_equal; [|f_equal]]]; apply byte_eq_of; unfold v; clear -E3 H; Z.div_mod_to_equations; lia.
Qed.

Lemma decode_width b rune w : decode_rune b = Some (rune, w) -> (1 <= w <= length b)%nat.
Proof. unfold decode_rune. intros H. repeat case_match; simplify_eq/=; lia. Qed.

(** Only the bytes of the rune matter. *)
Lemma decode_prefix b rune w t : decode_rune b = Some (rune, w) -> decode_rune (take w b ++ t) = Some (rune, w).
Proof.
  destruct b as [|b0 r]; [done|]. cbn [decode_rune]. intros H.
  destruct (bz b0 <? 128) eqn:E0; [simplify_eq; simpl; by rewrite E0|].
  destruct r as [|b1 r]; [done|]. destruct (_ && _) eqn:E1 in H; [simplify_eq; simpl; by rewrite E0, E1|].
  destruct r as [|b2 r]; [done|]. destruct (_ && _ && _) eqn:E2 in H; [simplify_eq; simpl; by rewrite E0, E1, E2|].
  destruct r as [|b3 r]; [done|]. destruct (_ && _ && _ && _) eqn:E3 in H; [|done].
  simplify_eq. simpl. by rewrite E0, E1, E2, E3.
Qed.

(** The runes decoding yields. *)
Definition is_rune (r : Z) : Prop := exists b w, decode_rune b = Some (r, w).

Lemma body_runes fuel b :
  (length b <= fuel)%nat -> json_string_body fuel b = concat (map rune_text (runes fuel b)).
Proof.
  revert b. induction fuel as [|fuel IH]; intros b Hl; [done|]. destruct b as [|b0 r]; [done|].
  cbn [json_string_body runes]. cbn [length] in Hl.
  destruct (decode_rune (b0 :: r)) as [[rune w]|] eqn:E; cbn [map concat rune_text].
  2: { rewrite IH by lia. done. }
  pose proof (decode_width _ _ _ E) as Hw.
  rewrite IH by (rewrite length_drop; simpl; lia). f_equal.
  pose proof (encode_decode _ _ _ E) as Hed.
  apply decode_rune_cases in E as [(c & r' & [= <- <-] & -> & Hc & ->)|(Hr & _ & _)].
  - rewrite (proj2 (Z.ltb_lt _ _) Hc). by rewrite (byte_eq_of b0).
  - rewrite (proj2 (Z.ltb_ge _ _) Hr), Hed. done.
Qed.

Lemma runes_bytes fuel b :
  (length b <= fuel)%nat ->
  forallb (fun t => match t with Some _ => true | None => false end) (runes fuel b) = true ->
  concat (map (fun t => match t with Some r => encode_rune r | None => [] end) (runes fuel b)) = b.
Proof.
  revert b. induction fuel as [|fuel IH]; intros b Hl Hv; [by destruct b; simpl in *; [|lia]|].
  destruct b as [|b0 r]; [done|]. cbn [runes] in *. cbn [length] in Hl.
  destruct (decode_rune (b0 :: r)) as [[rune w]|] eqn:E; [|done]. cbn [map concat forallb] in *.
  pose proof (decode_width _ _ _ E) as Hw.
  rewrite IH; [|rewrite length_drop; simpl; lia|done]. rewrite (encode_decode _ _ _ E). apply take_drop.
Qed.

Lemma runes_are_runes fuel b : Forall (fun t => match t with Some r => is_rune r | None => True end) (runes fuel b).
Proof.
  revert b. induction fuel as [|fuel IH]; intros b; [constructor|]. destruct b as [|b0 r]; [constructor|].
  cbn [runes]. destruct (decode_rune (b0 :: r)) as [[rune w]|] eqn:E; constructor; try done. by eexists _, _.
Qed.

(** Reading back one rune. *)
Definition short_escape (e : Byte.byte) : Z :=
  if byte_is e 98 then 8 else if byte_is e 102 then 12 else if byte_is e 110 then 10
  else if byte_is e 114 then 13 else if byte_is e 116 then 9 else bz e.
Definition read_rune (b : bytes) : option (option Z * bytes) :=
  match b with
  | [] => None
  | c :: r =>
      if bool_decide (c = backslash_byte) then
        match r with
        | e :: r' =>
            if byte_is e 117 then
              match r' with
              | h1 :: h2 :: h3 :: h4 :: rest =>
                  let v := unhex h1 * 4096 + unhex h2 * 256 + unhex h3 * 16 + unhex h4 in
                  Some (if v =? 65533 then None else Some v, rest)
              | _ => None
              end
            else Some (Some (short_escape e), r')
        | [] => None
        end
      else match decode_rune b with Some (rune, w) => Some (Some rune, drop w b) | None => None end
  end.

Lemma unhex_char d : 0 <= d < 16 -> unhex (Ascii.byte_of_ascii (hex_char d)) = d.
Proof.
  intros Hd.
  assert (H : forallb (fun i => unhex (Ascii.byte_of_ascii (hex_char (Z.of_nat i))) =? Z.of_nat i) (seq 0 16) = true)
    by (vm_compute; reflexivity).
  rewrite forallb_forall in H. specialize (H (Z.to_nat d) ltac:(apply in_seq; lia)).
  rewrite Z2Nat.id in H by lia. by apply Z.eqb_eq.
Qed.

Lemma read_u_escape r rest :
  0 <= r < 65536 -> read_rune (u_escape r ++ rest) = Some (if r =? 65533 then None else Some r, rest).
Proof.
  intros Hr. unfold u_escape, s2b.
  cbn [hex_fixed String.list_byte_of_string String.list_ascii_of_string map app read_rune].
  rewrite bool_decide_true by done. change (byte_is Byte.x75 117) with true. cbv iota zeta.
  rewrite !unhex_char by (apply Z.mod_pos_bound; lia).
  change (Z.of_nat 3) with 3. change (Z.of_nat 2) with 2. change (Z.of_nat 1) with 1. change (Z.of_nat 0) with 0.
  change (16 ^ 3) with 4096. change (16 ^ 2) with 256. change (16 ^ 1) with 16. change (16 ^ 0) with 1.
  replace (_ + _ + _ + _) with r by (Z.div_mod_to_equations; lia). done.
Qed.

Definition token_ok (t : option Z) : Prop := match t with Some r => is_rune r | None => True end.

Lemma is_rune_cases r : is_rune r -> (0 <= r < 128) \/ (128 <= r /\ exists b w, decode_rune b = Some (r, w) /\ encode_rune r = take w b
   /\ Forall (fun c => 128 <= bz c) (take w b) /\ (1 <= w <= length b)%nat).
Proof.
  intros (b & w & H). pose proof (encode_decode _ _ _ H) as He. pose proof (decode_width _ _ _ H) as Hw.
  destruct (decode_rune_cases _ _ _ H) as [(c & r' & -> & -> & Hc & ->)|(Hr & _ & Hf)].
  - left. pose proof (Z_of_byte_range c). unfold bz in *. lia.
  - right. split; [done|]. by exists b, w.
Qed.

Lemma bz_byte_of_Z z : 0 <= z < 256 -> bz (byte_of_Z z) = z.
Proof. intros H. unfold bz. rewrite Z_of_byte_of_Z. by apply Z.mod_small. Qed.

(** ASCII: every character is read back from its text. *)
Lemma read_ascii c rest : bz c < 128 -> read_rune (json_ascii c ++ rest) = Some (Some (bz c), rest).
Proof.
  intros Hc. pose proof (Z_of_byte_range c) as Hr. fold (bz c) in Hr. unfold json_ascii.
  destruct ((bz c =? 34) || (bz c =? 92)) eqn:E1.
  { cbn [app read_rune]. rewrite bool_decide_true by done.
    replace (byte_is c 117) with false by (unfold byte_is; lia).
    unfold short_escape, byte_is. repeat case_match; try lia; done. }
  repeat match goal with
  | |- context [if bz c =? ?n then [backslash_byte; _] else _] =>
      destruct (Z.eqb_spec (bz c) n) as [->|?]; [by vm_compute|]
  end.
  destruct ((bz c <? 32) || (bz c =? 60) || (bz c =? 62) || (bz c =? 38)) eqn:E2.
  { rewrite read_u_escape by lia. by replace (bz c =? 65533) with false by lia. }
  cbn [app read_rune decode_rune]. rewrite (proj2 (Z.ltb_lt _ _) Hc). rewrite bool_decide_false; [done|].
  intros ->. by vm_compute in E1.
Qed.

Lemma read_rune_text t rest : token_ok t -> read_rune (rune_text t ++ rest) = Some (t, rest).
Proof.
  destruct t as [r|]; [|intros _; by rewrite (read_u_escape 65533)]. intros Hr. simpl in *.
  destruct (is_rune_cases r Hr) as [Ha|(Hh & b & w & Hd & He & Hf & Hw)].
  - rewrite (proj2 (Z.ltb_lt r 128)) by lia.
    rewrite read_ascii by (rewrite bz_byte_of_Z; lia). by rewrite bz_byte_of_Z by lia.
  - rewrite (proj2 (Z.ltb_ge _ _) Hh).
    destruct ((r =? 8232) || (r =? 8233)) eqn:E; [rewrite read_u_escape by lia; by replace (r =? 65533) with false by lia|].
    rewrite He. pose proof (decode_prefix _ _ _ rest Hd) as Hp.
    assert (Hlen : length (take w b) = w) by (rewrite length_take; lia).
    destruct (take w b) as [|c q] eqn:Et; [simpl in Hlen; lia|].
    apply Forall_cons in Hf as [Hc _].
    change ((c :: q) ++ rest) with (c :: q ++ rest) in *. unfold read_rune. rewrite bool_decide_false.
    2: { intros ->. by vm_compute in Hc. }
    rewrite Hp. change (c :: q ++ rest) with ((c :: q) ++ rest). rewrite <- Hlen at 1. by rewrite drop_app_length.
Qed.

Lemma json_ascii_no_quote c q : json_ascii c <> quote_byte :: q.
Proof. destruct c; vm_compute; congruence. Qed.

Lemma rune_text_head t : token_ok t -> exists c q, rune_text t = c :: q /\ c <> quote_byte.
Proof.
  intros Ht. pose proof (read_rune_text t [] Ht) as H. rewrite app_nil_r in H.
  destruct (rune_text t) as [|c q] eqn:E; [done|]. exists c, q. split; [done|]. intros ->.
  destruct t as [r|]; [|done]. simpl in *.
  destruct (is_rune_cases r Ht) as [Ha|(Hh & b & w & Hd & He & Hf & Hw)].
  - rewrite (proj2 (Z.ltb_lt r 128)) in E by lia. by apply json_ascii_no_quote in E.
  - rewrite (proj2 (Z.ltb_ge _ _) Hh) in E. destruct (_ || _); [done|]. rewrite He in E. rewrite E in Hf.
    apply Forall_cons in Hf as [Hc _]. by vm_compute in Hc.
Qed.

Lemma runes_inj l1 l2 r1 r2 :
  Forall token_ok l1 -> Forall token_ok l2 ->
  concat (map rune_text l1) ++ quote_byte :: r1 = concat (map rune_text l2) ++ quote_byte :: r2 -> l1 = l2 /\ r1 = r2.
Proof.
  intros H1. revert l2. induction H1 as [|t1 l1 Ht1 H1 IH]; intros l2 H2 H.
  - destruct H2 as [|t2 l2 Ht2 H2]; [simpl in H; by simplify_eq|].
    destruct (rune_text_head t2 Ht2) as (c & q & Hq & Hc). cbn [map concat] in H. rewrite Hq in H. simpl in H. congruence.
  - destruct H2 as [|t2 l2 Ht2 H2].
    + destruct (rune_text_head t1 Ht1) as (c & q & Hq & Hc). cbn [map concat] in H. rewrite Hq in H. simpl in H. congruence.
    + cbn [map concat] in H. rewrite <- !app_assoc in H. apply (f_equal read_rune) in H.
      rewrite !read_rune_text in H by done. injection H as -> H. destruct (IH l2) as [-> ->]; done.
Qed.

Lemma json_string_text s : json_string s = quote_byte :: concat (map rune_text (string_runes s)) ++ [quote_byte].
Proof. unfold json_string, string_runes. by rewrite body_runes. Qed.

(** A valid string is determined by its text, whatever follows it. *)
Lemma json_string_inj s1 s2 r1 r2 :
  valid_utf8 s1 = true -> json_string s1 ++ r1 = json_string s2 ++ r2 -> s1 = s2 /\ r1 = r2.
Proof.
  intros Hv. rewrite !json_string_text. cbn [app]. rewrite <- !app_assoc. cbn [app]. intros H%cons_tail.
  apply runes_inj in H as [H ->]; [|apply runes_are_runes..]. split; [|done].
  unfold valid_utf8, string_runes in *. pose proof (runes_bytes _ _ (le_n _) Hv) as H1.
  rewrite H in Hv, H1. pose proof (runes_bytes _ _ (le_n _) Hv) as H2. apply (inj s2b). congruence.
Qed.

(** ** Values *)

(** No raw part; [valid] also asks for valid strings. *)
Fixpoint plain_json (strings_ok : string -> bool) (j : json) : bool :=
  match j with
  | JStr s => strings_ok s
  | JArr l => forallb (plain_json strings_ok) l
  | JObj l => forallb (fun kv => strings_ok kv.1 && plain_json strings_ok kv.2) l
  | JRaw _ => false
  | _ => true
  end.
Abbreviation valid_json := (plain_json valid_utf8).
Abbreviation no_raw := (plain_json (fun _ => true)).

Definition text_inj {A} (f : A -> bytes) (ok : A -> bool) (x : A) : Prop :=
  forall y r1 r2, ok y = true -> delim r1 -> delim r2 -> f x ++ r1 = f y ++ r2 -> x = y /\ r1 = r2.

Lemma sep_by_cons sep (x : bytes) y l : sep_by sep (x :: y :: l) = x ++ sep :: sep_by sep (y :: l).
Proof. done. Qed.

(** A list of texts between a separator and a closing byte. *)
Lemma sep_by_inj {A} (f : A -> bytes) (ok : A -> bool) close l1 l2 r1 r2 :
  close <> comma -> is_digit close = false ->
  (forall x, ok x = true -> exists c q, f x = c :: q /\ c <> close) ->
  Forall (text_inj f ok) l1 -> Forall (fun x => exists c q, f x = c :: q /\ c <> close) l1 ->
  forallb ok l2 = true ->
  sep_by comma (map f l1) ++ close :: r1 = sep_by comma (map f l2) ++ close :: r2 -> l1 = l2 /\ r1 = r2.
Proof.
  intros Hcc Hcd Hhead. revert l2. induction l1 as [|x1 l1 IH]; intros l2 Hf1 Hh1 Hok H.
  - destruct l2 as [|y l2]; [simpl in H; by simplify_eq|]. exfalso. simpl in Hok. apply andb_true_iff in Hok as [Hy _].
    destruct (Hhead y Hy) as (c & q & Hq & Hc).
    destruct l2; cbn [map sep_by app] in H; rewrite Hq in H; simpl in H; congruence.
  - apply Forall_cons in Hf1 as [Hx Hf1]. apply Forall_cons in Hh1 as [(c & q & Hq & Hc) Hh1].
    destruct l2 as [|y l2].
    { exfalso. destruct l1; cbn [map sep_by app] in H; rewrite Hq in H; simpl in H; congruence. }
    simpl in Hok. apply andb_true_iff in Hok as [Hy Hok].
    destruct l1 as [|x1' l1], l2 as [|y' l2]; cbn [map] in *; rewrite ?sep_by_cons, <- ?app_assoc in H; cbn [app sep_by] in H.
    + apply Hx in H as [-> H]; [|done..]. by apply cons_tail in H as ->.
    + apply Hx in H as [_ H]; [|done..]. congruence.
    + apply Hx in H as [_ H]; [|done..]. congruence.
    + apply Hx in H as [-> H]; [|done..]. apply cons_tail in H.
      destruct (IH (y' :: l2)) as [-> ->]; done.
Qed.

(** The first byte of a text tells the kind of its value. *)
Definition json_tag (j : json) : Z :=
  match j with
  | JNull => 0 | JBool true => 1 | JBool false => 2 | JInt _ => 3
  | JStr _ => 4 | JArr _ => 5 | JObj _ => 6 | JRaw _ => 7
  end.
Definition byte_tag (c : Byte.byte) : Z :=
  if byte_is c 110 then 0 else if byte_is c 116 then 1 else if byte_is c 102 then 2
  else if byte_is c 45 || is_digit c then 3 else if byte_is c 34 then 4
  else if byte_is c 91 then 5 else if byte_is c 123 then 6 else 8.

Lemma digit_tag c : is_digit c = true -> byte_tag c = 3.
Proof. destruct c; vm_compute; congruence. Qed.

Lemma encode_tag j : no_raw j = true -> exists c q, encode j = c :: q /\ byte_tag c = json_tag j.
Proof.
  destruct j as [|b|z|s|l|l|b]; simpl; intros H; try done; try (by eexists _, _).
  - destruct b; by eexists _, _.
  - unfold Itoa. destruct (Z.ltb_spec z 0) as [Hz|Hz]; [rewrite s2b_append; by eexists _, _|].
    pose proof (dec_nat_spec z Hz) as (Hne & Hf & _). destruct (s2b (dec_nat z)) as [|c q]; [done|].
    apply Forall_cons in Hf as [Hc _]. exists c, q. split; [done|by apply digit_tag].
Qed.

Lemma tags_agree j1 j2 r1 r2 :
  no_raw j1 = true -> no_raw j2 = true -> encode j1 ++ r1 = encode j2 ++ r2 -> json_tag j1 = json_tag j2.
Proof.
  intros (c1 & q1 & -> & <-)%encode_tag (c2 & q2 & -> & <-)%encode_tag H. by injection H as -> _.
Qed.

Lemma encode_head j : no_raw j = true -> exists c q, encode j = c :: q /\ c <> Byte.x5d.
Proof. intros (c & q & Hq & Ht)%encode_tag. exists c, q. split; [done|]. intros ->. by destruct j as [|[]| | | | |]. Qed.

Lemma forallb_Forall_true {A} (f : A -> bool) l : forallb f l = true <-> Forall (fun x => f x = true) l.
Proof. induction l; simpl; [done|]. by rewrite andb_true_iff, Forall_cons, IHl. Qed.

Lemma plain_weaken j : valid_json j = true -> no_raw j = true.
Proof.
  induction j as [|b|z|s|l IH|l IH|b] using json_induction; simpl; try done.
  - rewrite !forallb_Forall_true, !Forall_forall in *. intros H x Hx. by apply IH, H.
  - rewrite !forallb_Forall_true, !Forall_forall in *. intros H x Hx. specialize (H x Hx).
    apply andb_true_iff in H as [_ H]. simpl. by apply IH.
Qed.

(** The text of one member of an object. *)
Definition member_encode (kv : string * json) : bytes := json_string kv.1 ++ colon :: encode kv.2.

Lemma member_head kv : exists c q, member_encode kv = c :: q /\ c <> Byte.x7d.
Proof. by eexists _, _. Qed.

(** The compact encoding of a valid value is a prefix code, against every
    value without raw parts. *)
Lemma encode_prefix_inj j : valid_json j = true -> text_inj encode no_raw j.
Proof.
  induction j as [|b|z|s|l IH|l IH|b] using json_induction; intros Hv j2 r1 r2 Hok D1 D2 H; [..|done].
  all: pose proof (tags_agree _ _ _ _ (plain_weaken _ Hv) Hok H) as Ht.
  all: destruct j2 as [|[]|z2|s2|l2|l2|b2]; try destruct b; try discriminate.
  - by simplify_list_eq.
  - by simplify_list_eq.
  - by simplify_list_eq.
  - apply Itoa_span in H as [-> ->]; done.
  - apply json_string_inj in H as [-> ->]; done.
  - simpl in H. rewrite <- !app_assoc in H. apply cons_tail in H. simpl in Hv, Hok.
    rewrite forallb_Forall_true, Forall_forall in Hv. rewrite Forall_forall in IH.
    apply (sep_by_inj encode no_raw) in H as [-> ->]; try done.
    + apply encode_head.
    + apply Forall_forall. intros x Hx. apply IH; [done|]. by apply Hv.
    + apply Forall_forall. intros x Hx. by apply encode_head, plain_weaken, Hv.
  - simpl in H. rewrite <- !app_assoc in H. apply cons_tail in H. simpl in Hv, Hok.
    rewrite forallb_Forall_true, Forall_forall in Hv. rewrite Forall_forall in IH.
    apply (sep_by_inj member_encode (fun kv => true && no_raw kv.2)) in H as [-> ->]; try done.
    + intros kv _. apply member_head.
    + apply Forall_forall. intros [k v] Hx. specialize (Hv _ Hx). simpl in Hv. apply andb_true_iff in Hv as [Hk Hvv].
      intros [k2 v2] q1 q2 Hok2 E1 E2 He. unfold member_encode in He. cbn [fst snd] in He. rewrite <- !app_assoc in He.
      apply json_string_inj in He as [-> He]; [|done]. apply cons_tail in He.
      pose proof (IH _ Hx Hvv v2 q1 q2 Hok2 E1 E2 He) as [E ->]. simpl in E. by subst v2.
    + apply Forall_forall. intros kv _. apply member_head.
Qed.

Lemma encode_inj j1 j2 : valid_json j1 = true -> no_raw j2 = true -> encode j1 = encode j2 -> j1 = j2.
Proof.
  intros H1 H2 H. destruct (encode_prefix_inj j1 H1 j2 [] []) as [? _]; try done. by rewrite !app_nil_r.
Qed.

(** ** Which values are valid *)

Lemma valid_safe s : Forall (fun c => safe_byte c = true) (s2b s) -> valid_utf8 s = true.
Proof.
  unfold valid_utf8, string_runes. induction 1 as [|c b Hc _ IH]; [done|]. cbn [runes length decode_rune].
  unfold safe_byte in Hc. rewrite !andb_true_iff in Hc. destruct Hc as [[Hc _] _]. rewrite Hc. cbn [forallb drop].
  by rewrite drop_0.
Qed.

Lemma valid_time t j : j_time t = Ok j -> valid_json j = true.
Proof.
  unfold j_time. intros H. gosimp H. injection H as <-. simpl. apply valid_safe. rewrite s2b_b2s. apply safe_format.
Qed.

Lemma std_char_safe v : safe_byte (b64_char (s2b std_alphabet) v) = true.
Proof.
  assert (H : forallb safe_byte (Byte.x3d :: s2b std_alphabet) = true) by (vm_compute; reflexivity).
  rewrite forallb_forall in H. apply H. unfold b64_char.
  destruct (nth_in_or_default (Z.to_nat v) (s2b std_alphabet) Byte.x3d) as [Hin| ->]; [by right|by left].
Qed.

Lemma valid_bytes b : valid_json (j_bytes b) = true.
Proof.
  simpl. apply valid_safe. rewrite s2b_b2s. unfold StdEncoding.
  assert (H : forall n b, (length b <= n)%nat -> Forall (fun c => safe_byte c = true) (b64_encode (s2b std_alphabet) true b)).
  { clear. induction n as [|n IH]; intros b Hl; [destruct b; simpl in Hl; [constructor|lia]|].
    destruct b as [|x [|y [|z b]]]; cbn [b64_encode app]; repeat (constructor; [first [apply std_char_safe|done]|]); try constructor.
    apply IH. simpl in Hl. lia. }
  by apply (H (length b)).
Qed.

Lemma j_bytes_inj a b : j_bytes a = j_bytes b -> a = b.
Proof. unfold j_bytes. intros [= H]. by apply (inj b2s), (inj StdEncoding) in H. Qed.

(** A string map is determined by its members; its keys and values are valid
    when its entries are. *)
Lemma insert_key_perm x l : insert_key x l ≡ₚ x :: l.
Proof.
  induction l as [|y l IH]; simpl; [done|]. case_match; [done|]. rewrite IH. apply Permutation_swap.
Qed.

Lemma sorted_members_perm l : foldr insert_key [] l ≡ₚ l.
Proof. induction l as [|x l IH]; simpl; [done|]. by rewrite insert_key_perm, IH. Qed.

Lemma j_string_map_inj m1 m2 : j_string_map m1 = j_string_map m2 -> m1 = m2.
Proof.
  unfold j_string_map, j_map. intros [= H].
  assert (Hp : map_to_list (JStr <$> m1) ≡ₚ map_to_list (JStr <$> m2)).
  { rewrite <- (sorted_members_perm (map_to_list (JStr <$> m1))), H. apply sorted_members_perm. }
  apply map_to_list_inj in Hp. apply (map_fmap_inj JStr) in Hp; [done|]. by intros ?? [= ->].
Qed.

Definition valid_map (m : gmap string string) : bool :=
  forallb (fun kv => valid_utf8 kv.1 && valid_utf8 kv.2) (map_to_list m).

Lemma valid_string_map m : valid_map m = true -> valid_json (j_string_map m) = true.
Proof.
  unfold valid_map, j_string_map, j_map. rewrite forallb_Forall_true. intros H. simpl.
  rewrite forallb_Forall_true, sorted_members_perm, map_to_list_fmap, Forall_fmap.
  eapply Forall_impl; [exact H|]. intros [k v]. done.
Qed.

Lemma no_raw_string_map m : no_raw (j_string_map m) = true.
Proof.
  unfold j_string_map, j_map. simpl.
  rewrite forallb_Forall_true, sorted_members_perm, map_to_list_fmap, Forall_fmap.
  apply Forall_forall. by intros [k v].
Qed.

Lemma Marshal_inj r1 r2 b :
  Marshal r1 = Ok b -> Marshal r2 = Ok b ->
  (forall j, r1 = Ok j -> valid_json j = true) -> (forall j, r2 = Ok j -> no_raw j = true) -> r1 = r2.
Proof.
  unfold Marshal. intros (j1 & -> & H1)%rbind_Ok (j2 & -> & H2)%rbind_Ok V1 V2. f_equal.
  apply encode_inj; [by apply V1|by apply V2|congruence].
Qed.

(** Objects that share a valid front: the fronts are equal and so are the texts
    of what follows, which may hold raw parts. *)
Definition tail_text (t : list (string * json)) : bytes :=
  match t with [] => [] | _ => comma :: sep_by comma (map member_encode t) end.

Lemma encode_obj_app l t :
  l <> [] -> encode (JObj (l ++ t)) = Byte.x7b :: sep_by comma (map member_encode l) ++ tail_text t ++ [Byte.x7d].
Proof.
  intros Hl. change (encode (JObj (l ++ t))) with (Byte.x7b :: sep_by comma (map member_encode (l ++ t)) ++ [Byte.x7d]).
  f_equal. rewrite app_assoc. f_equal. rewrite map_app. induction l as [|x l IH]; [done|].
  destruct l as [|y l].
  - destruct t as [|z t]; [cbn [map tail_text]; by rewrite !app_nil_r|]. done.
  - cbn [map app] in *. rewrite !sep_by_cons, IH by done. by rewrite <- app_assoc.
Qed.

Lemma member_text_inj kv :
  valid_utf8 kv.1 = true -> valid_json kv.2 = true -> text_inj member_encode (fun kv => no_raw kv.2) kv.
Proof.
  destruct kv as [k v]. simpl. intros Hk Hv [k2 v2] q1 q2 Hok E1 E2 He. unfold member_encode in He.
  cbn [fst snd] in He. rewrite <- !app_assoc in He.
  apply json_string_inj in He as [-> He]; [|done]. apply cons_tail in He.
  pose proof (encode_prefix_inj v Hv v2 q1 q2 Hok E1 E2 He) as [-> ->]. done.
Qed.

Lemma front_inj l1 l2 r1 r2 :
  length l1 = length l2 -> forallb (fun kv => valid_utf8 kv.1 && valid_json kv.2) l1 = true ->
  forallb (fun kv => no_raw kv.2) l2 = true -> delim r1 -> delim r2 ->
  sep_by comma (map member_encode l1) ++ r1 = sep_by comma (map member_encode l2) ++ r2 -> l1 = l2 /\ r1 = r2.
Proof.
  revert l2. induction l1 as [|x l1 IH]; intros [|y l2] Hl Hv Hok D1 D2 H; try discriminate.
  { by simpl in H. }
  cbn [forallb] in Hv, Hok. apply andb_true_iff in Hv as [[Hk Hx]%andb_true_iff Hv], Hok as [Hy Hok].
  pose proof (member_text_inj x Hk Hx) as Hxi.
  destruct l1 as [|x' l1], l2 as [|y' l2]; try done.
  - cbn [map sep_by] in H. apply Hxi in H as [-> ->]; done.
  - cbn [map] in H. rewrite !sep_by_cons, <- !app_assoc in H. cbn [app] in H.
    apply Hxi in H as [-> H]; [|done..]. apply cons_tail in H.
    apply (IH (y' :: l2)) in H as [-> ->]; [done| |done..]. simpl in *. congruence.
Qed.

Lemma obj_front_inj l1 l2 t1 t2 :
  l1 <> [] -> length l1 = length l2 -> forallb (fun kv => valid_utf8 kv.1 && valid_json kv.2) l1 = true ->
  forallb (fun kv => no_raw kv.2) l2 = true ->
  encode (JObj (l1 ++ t1)) = encode (JObj (l2 ++ t2)) -> l1 = l2 /\ tail_text t1 = tail_text t2.
Proof.
  intros Hne Hl Hv Hok H.
  rewrite !encode_obj_app in H by (try done; intros ->; by destruct l1). apply cons_tail in H.
  apply front_inj in H as [-> H]; try done; [|by destruct t1|by destruct t2].
  split; [done|]. by apply app_inv_tail in H.
Qed.

(** *** Members by name *)
Fixpoint member (k : string) (l : list (string * json)) : option json :=
  match l with
  | [] => None
  | (k', v) :: l => if String.eqb k k' then Some v else member k l
  end.

Lemma member_field k k' v l : member k (field k' v ++ l) = if String.eqb k k' then Some v else member k l.
Proof. done. Qed.
Lemma member_omit k k' c v l :
  member k (omit_if c k' v ++ l) = if String.eqb k k' then (if c then member k l else Some v) else member k l.
Proof. destruct c; simpl; by destruct (String.eqb k k'). Qed.

Lemma member_field_last k k' v : member k (field k' v) = if String.eqb k k' then Some v else None.
Proof. done. Qed.
Lemma member_omit_last k k' c v :
  member k (omit_if c k' v) = if String.eqb k k' then (if c then None else Some v) else None.
Proof. destruct c; simpl; by destruct (String.eqb k k'). Qed.

Lemma JObj_inj l1 l2 : JObj l1 = JObj l2 -> forall k, member k l1 = member k l2.
Proof. by intros [= ->]. Qed.

(** [by_member Hm k]: the members named [k] of two equal objects are equal. *)
Ltac by_member Hm k :=
  let H := fresh "Hf" in pose proof (Hm k) as H;
  repeat (rewrite ?member_field, ?member_omit, ?member_omit_last, ?member_field_last in H; cbn [String.eqb Ascii.eqb Bool.eqb] in H).

(** Fields left out when empty are still determined. *)
Lemma omitted_str s1 s2 :
  (if s1 =?s "" then None else Some (JStr s1)) = (if s2 =?s "" then None else Some (JStr s2)) -> s1 = s2.
Proof. destruct (s1 =?s "") eqn:E1, (s2 =?s "") eqn:E2; rewrite ?str_eqb_true in *; congruence. Qed.
Lemma omitted_bytes b1 b2 :
  (if bool_decide (b1 = []) then None else Some (j_bytes b1)) = (if bool_decide (b2 = []) then None else Some (j_bytes b2)) ->
  b1 = b2.
Proof.
  repeat case_bool_decide; try congruence. intros Hj. apply j_bytes_inj. congruence.
Qed.

Lemma j_strings_inj l1 l2 : j_strings l1 = j_strings l2 -> l1 = l2.
Proof.
  unfold j_strings. intros H. injection H as H. revert l2 H.
  induction l1 as [|x l1 IH]; intros [|y l2] H; try discriminate; [done|]. simpl in H.
  injection H as -> H. f_equal. by apply IH.
Qed.
Lemma omitted_strings l1 l2 :
  (if bool_decide (l1 = []) then None else Some (j_strings l1)) = (if bool_decide (l2 = []) then None else Some (j_strings l2)) ->
  l1 = l2.
Proof. repeat case_bool_decide; try congruence. intros Hj. apply j_strings_inj. congruence. Qed.

Lemma j_slice_inj {A} (f : list A -> json) s1 s2 :
  (forall l1 l2, f l1 = f l2 -> l1 = l2) -> (forall l, f l <> JNull) -> j_slice f s1 = j_slice f s2 -> s1 = s2.
Proof.
  intros Hf Hn. destruct s1 as [l1|], s2 as [l2|]; simpl; intros H; [|by apply Hn in H| |done].
  - f_equal. by apply Hf.
  - symmetry in H. by apply Hn in H.
Qed.

(** Validity and the absence of raw parts, member by member. *)
Definition plain_members (ok : string -> bool) (l : list (string * json)) : bool :=
  forallb (fun kv => ok kv.1 && plain_json ok kv.2) l.
Lemma plain_obj ok l : plain_json ok (JObj l) = plain_members ok l.
Proof. done. Qed.
Lemma plain_field ok k v l :
  plain_members ok (field k v ++ l) = ok k && plain_json ok v && plain_members ok l.
Proof. done. Qed.
Lemma plain_omit ok c k v l :
  ok k = true -> (c = false -> plain_json ok v = true) -> plain_members ok l = true ->
  plain_members ok (omit_if c k v ++ l) = true.
Proof. intros Hk Hv Hl. destruct c; [done|]. unfold plain_members in *. simpl. by rewrite Hk, Hv, Hl. Qed.
Lemma valid_strings l : forallb valid_utf8 l = true -> valid_json (j_strings l) = true.
Proof. simpl. rewrite !forallb_Forall_true, Forall_map. done. Qed.
Lemma no_raw_strings l : no_raw (j_strings l) = true.
Proof. simpl. rewrite !forallb_Forall_true, Forall_map. by apply Forall_forall. Qed.

(** ** An encoding is one line

    Without raw parts an encoding holds no control character, hence no newline. *)
Definition no_control (b : bytes) : Prop := Forall (fun c => 32 <= bz c) b.
#[export] Instance no_control_dec b : Decision (no_control b).
Proof. unfold no_control. apply _. Defined.

Lemma no_control_app a b : no_control (a ++ b) <-> no_control a /\ no_control b.
Proof. apply Forall_app. Qed.
Lemma no_control_cons c b : no_control (c :: b) <-> 32 <= bz c /\ no_control b.
Proof. unfold no_control. by rewrite Forall_cons. Qed.

(** A digit character, by its value. *)
Lemma no_control_char (f : Z -> ascii) n d :
  0 <= d < Z.of_nat n -> forallb (fun i => 32 <=? bz (Ascii.byte_of_ascii (f (Z.of_nat i)))) (seq 0 n) = true ->
  32 <= bz (Ascii.byte_of_ascii (f d)).
Proof.
  intros Hd. rewrite forallb_forall. intros H. specialize (H (Z.to_nat d) ltac:(apply in_seq; lia)).
  rewrite Z2Nat.id in H by lia. exact (proj1 (Z.leb_le _ _) H).
Qed.

Lemma no_control_u_escape r : no_control (u_escape r).
Proof.
  assert (Hh : forall n, 32 <= bz (Ascii.byte_of_ascii (hex_char (n mod 16)))).
  { intros n. apply (no_control_char hex_char 16); [pose proof (Z.mod_pos_bound n 16); lia|by vm_compute]. }
  unfold u_escape, s2b. cbn [hex_fixed String.list_byte_of_string String.list_ascii_of_string map].
  repeat (apply no_control_cons; split; [first [apply Hh|by vm_compute]|]). constructor.
Qed.
Lemma no_control_json_ascii b : no_control (json_ascii b).
Proof.
  unfold json_ascii. destruct ((bz b =? 34) || (bz b =? 92)) eqn:E0.
  { rewrite orb_true_iff, !Z.eqb_eq in E0. repeat constructor; [by vm_compute|lia]. }
  do 5 (case_match; [repeat constructor; by vm_compute|]).
  destruct (_ || _ || _ || _) eqn:E1; [apply no_control_u_escape|]. rewrite !orb_false_iff, Z.ltb_ge in E1. repeat constructor. lia.
Qed.
Lemma no_control_json_string s : no_control (json_string s).
Proof.
  unfold json_string. apply no_control_cons. split; [by vm_compute|]. apply no_control_app. split; [|repeat constructor; by vm_compute].
  generalize (length (s2b s)). intros fuel. generalize (s2b s). clear s.
  induction fuel as [|fuel IH]; intros b; [constructor|]. destruct b as [|b0 r]; [constructor|]. cbn [json_string_body].
  destruct (decode_rune (b0 :: r)) as [[rune w]|] eqn:E; apply no_control_app; (split; [|apply IH]); [|apply no_control_u_escape].
  apply decode_rune_cases in E as [(c & r' & [= <- <-] & -> & Hc & ->)|(Hr & _ & Hw)].
  - rewrite (proj2 (Z.ltb_lt _ _) Hc). apply no_control_json_ascii.
  - rewrite (proj2 (Z.ltb_ge _ _) Hr). destruct (_ || _); [apply no_control_u_escape|].
    eapply Forall_impl; [exact Hw|]. intros c Hc. cbn beta in *. lia.
Qed.
Lemma no_control_Itoa z : no_control (s2b (Itoa z)).
Proof.
  assert (H : forall fuel n acc, no_control (s2b acc) -> no_control (s2b (dec_digits fuel n acc))).
  { induction fuel as [|fuel IH]; intros n acc Ha; simpl; [done|].
    assert (no_control (s2b (String (digit_char (n mod 10)) acc))).
    { apply no_control_cons. split; [|done].
      apply (no_control_char digit_char 10); [pose proof (Z.mod_pos_bound n 10); lia|by vm_compute]. }
    destruct (n / 10 =? 0); [done|]. by apply IH. }
  unfold Itoa, dec_nat. destruct (z <? 0); [rewrite s2b_append; apply no_control_app; split; [repeat constructor; by vm_compute|]|];
    apply H; constructor.
Qed.
Lemma no_control_sep_by {A} (f : A -> bytes) l : (forall x, x ∈ l -> no_control (f x)) -> no_control (sep_by comma (map f l)).
Proof.
  induction l as [|x l IH]; intros H; [constructor|]. cbn [map sep_by].
  assert (Hx : no_control (f x)) by (apply H; by left).
  assert (Hl : no_control (sep_by comma (map f l))) by (apply IH; intros y Hy; apply H; by right).
  destruct (map f l) eqn:E; [done|]. apply no_control_app. split; [done|]. apply no_control_cons. split; [by vm_compute|done].
Qed.

Lemma encode_one_line j : no_raw j = true -> no_control (encode j).
Proof.
  induction j as [|b|z|s|l IH|l IH|b] using json_induction; simpl; intros Hr.
  - by apply (bool_decide_unpack _).
  - destruct b; by apply (bool_decide_unpack _).
  - apply no_control_Itoa.
  - apply no_control_json_string.
  - apply no_control_cons. split; [by vm_compute|]. apply no_control_app. split; [|repeat constructor; by vm_compute].
    apply no_control_sep_by. rewrite Forall_forall in IH. rewrite forallb_forall in Hr. intros x Hx.
    apply IH; [done|]. apply Hr. by apply list_elem_of_In.
  - apply no_control_cons. split; [by vm_compute|]. apply no_control_app. split; [|repeat constructor; by vm_compute].
    apply (no_control_sep_by (fun kv => json_string kv.1 ++ colon :: encode kv.2)).
    rewrite Forall_forall in IH. rewrite forallb_forall in Hr. intros kv Hkv.
    apply no_control_app. split; [apply no_control_json_string|]. apply no_control_cons. split; [by vm_compute|].
    apply IH; [done|]. apply list_elem_of_In in Hkv. by apply Hr in Hkv.
  - done.
Qed.
Lemma one_line_newline b : no_control b -> Byte.x0a ∉ b.
Proof. unfold no_control. rewrite Forall_forall. intros H Hin%H. by vm_compute in Hin. Qed.
