(* ===== verification/GoJsonAny.v ===== *)
(** encoding/json through [map[string]any]: what is left of a value that was
    marshalled, decoded without a type, and marshalled again.

    Numbers pass through float64, text becomes valid UTF-8, and the members of an
    object are ordered by name. *)
From S2P Require Import Prelude GoFmt GoTime GoFloat GoCrypto GoPath GoJson GoJsonText GoJsonInj.

(** ** An integer through float64

    The decoder takes the nearest float64; the encoder writes the shortest digits
    that are read as that float64, the nearest to it among these.  An integer of at
    most 2^53 is a float64 and keeps its digits.  (From 10^21 on an exponent would
    be written: no 64-bit integer is that large.) *)
Definition nearest (n : Z) : Z :=
  match round64 false n 1 with Some (FFin m e) => if 0 <=? e then m * 2 ^ e else m / 2 ^ (- e) | _ => n end.
Fixpoint shortest (f : Z) (ks : list Z) : Z :=
  match ks with
  | [] => f
  | k :: ks =>
      let p := 10 ^ k in
      let lo := f / p * p in
      let hi := lo + p in
      if (nearest lo =? f) && (negb (nearest hi =? f) || (f - lo <=? hi - f)) then lo
      else if nearest hi =? f then hi else shortest f ks
  end.
Definition through_float (n : Z) : Z :=
  if Z.abs n <=? 2 ^ 53 then n
  else Z.sgn n * shortest (nearest (Z.abs n)) (map Z.of_nat (rev (seq 1 20))).

Example floats_of_integers :
  map through_float [2 ^ 53; 2 ^ 53 + 1; - (2 ^ 53 + 3); 2 ^ 60; 2 ^ 63 - 1; 2 ^ 64 - 1; 1234567890123456789]
  = [9007199254740992; 9007199254740992; -9007199254740996; 1152921504606847000; 9223372036854775807 + 193; 18446744073709552000; 1234567890123456800].
Proof. vm_compute. reflexivity. Qed.

(** ** Values *)

Definition valid_text (s : string) : string := b2s (concat (map (fun t => encode_rune (default 65533 t)) (string_runes s))).
(** A member given twice is the later one's. *)
Fixpoint reread (number : Z -> Z) (j : json) : json :=
  match j with
  | JInt z => JInt (number z)
  | JStr s => JStr (valid_text s)
  | JArr l => JArr (map (reread number) l)
  | JObj l => j_map (list_to_map (rev (map (fun kv => (valid_text kv.1, reread number kv.2)) l)))
  | _ => j
  end.
Definition through_any : json -> json := reread through_float.
(** The same value, but for the order of its members. *)
Definition by_name : json -> json := reread (fun z => z).

Fixpoint ints (j : json) : list Z :=
  match j with
  | JInt z => [z]
  | JArr l => concat (map ints l)
  | JObj l => concat (map (fun kv => ints kv.2) l)
  | _ => []
  end.

Lemma reread_ext f g j : Forall (fun z => f z = g z) (ints j) -> reread f j = reread g j.
Proof.
  induction j as [|b|z|s|l IH|l IH|b] using json_induction; cbn [ints reread]; intros H; try done.
  - apply Forall_cons in H as [H _]. by rewrite H.
  - f_equal. apply map_ext_in. intros x Hx%list_elem_of_In. rewrite Forall_forall in IH. apply IH; [done|].
    rewrite Forall_concat, Forall_map, Forall_forall in H. by apply H.
  - do 3 f_equal. apply map_ext_in. intros x Hx%list_elem_of_In. rewrite Forall_forall in IH. f_equal. apply IH; [done|].
    rewrite Forall_concat, Forall_map, Forall_forall in H. by apply H.
Qed.
(** Small integers come through. *)
Lemma through_any_small j : Forall (fun z => Z.abs z <= 2 ^ 53) (ints j) -> through_any j = by_name j.
Proof.
  intros H. apply reread_ext. eapply Forall_impl; [exact H|]. intros z Hz. cbv beta in Hz. unfold through_float. by rewrite (proj2 (Z.leb_le _ _) Hz).
Qed.

(** *** The integers of an object, member by member *)
Lemma ints_obj l : ints (JObj l) = concat (map (fun kv => ints kv.2) l).
Proof. done. Qed.
Definition int_members (P : Z -> Prop) (l : list (string * json)) : Prop := Forall (fun kv => Forall P (ints kv.2)) l.
Lemma ints_members P l : Forall P (ints (JObj l)) <-> int_members P l.
Proof. rewrite ints_obj, Forall_concat, Forall_map. done. Qed.
Lemma int_members_app P a b : int_members P (a ++ b) <-> int_members P a /\ int_members P b.
Proof. apply Forall_app. Qed.
Lemma int_members_field P k v : int_members P (field k v) <-> Forall P (ints v).
Proof. unfold int_members, field. rewrite Forall_cons, Forall_nil. naive_solver. Qed.
Lemma int_members_omit P c k v : Forall P (ints v) -> int_members P (omit_if c k v).
Proof. intros H. unfold omit_if. destruct c; [constructor|]. by repeat constructor. Qed.
Lemma ints_strings P l : Forall P (ints (j_strings l)).
Proof. cbn. rewrite Forall_concat, !Forall_map. apply Forall_true. constructor. Qed.
Lemma ints_string_map P m : Forall P (ints (j_string_map m)).
Proof.
  unfold j_string_map, j_map. rewrite ints_members. unfold int_members.
  rewrite sorted_members_perm, map_to_list_fmap, Forall_fmap. apply Forall_true. intros [k v]. constructor.
Qed.
