(* ===== verification/GoJsonRead.v ===== *)
(** encoding/json: reading a document back.  The reader covers the JSON grammar
    with integer numbers only, and leaves alone (by answering [None]) what a
    struct's decoding treats specially: unpaired surrogates, fractions and
    exponents, and objects whose member names are not, each at most once, exactly
    the names of the struct's fields.  On what it does read, it says what
    [json.Unmarshal] gives. *)
From S2P Require Import Prelude GoFmt GoTime GoCrypto GoPath GoJson GoJsonText.

Definition hex_value (b : bytes) : option Z :=
  if forallb is_hex b then Some (fold_left (fun a c => 16 * a + unhex c) b 0) else None.

(** A string after its opening quote. *)
Fixpoint read_string (fuel : nat) (b : bytes) : option (bytes * bytes) :=
  match fuel, b with
  | S fuel, c :: r =>
      if byte_is c 34 then Some ([], r)
      else if byte_is c 92 then
        match r with
        | e :: r' =>
            let simple (d : Byte.byte) := '(t, rest) ← read_string fuel r'; Some (d :: t, rest) in
            if byte_is e 34 || byte_is e 92 || byte_is e 47 then simple e
            else if byte_is e 98 then simple Byte.x08
            else if byte_is e 102 then simple Byte.x0c
            else if byte_is e 110 then simple Byte.x0a
            else if byte_is e 114 then simple Byte.x0d
            else if byte_is e 116 then simple Byte.x09
            else if byte_is e 117 then
              z ← hex_value (take 4 r');
              if (Nat.ltb (length r') 4) || ((55296 <=? z) && (z <=? 57343)) then None
              else '(t, rest) ← read_string fuel (drop 4 r'); Some (encode_rune z ++ t, rest)
            else None
        | [] => None
        end
      else if bz c <? 32 then None
      else '(t, rest) ← read_string fuel r; Some (c :: t, rest)
  | _, _ => None
  end.
Definition read_quoted (b : bytes) : option (string * bytes) :=
  match b with
  | c :: r => if byte_is c 34 then '(t, rest) ← read_string (length r) r; Some (b2s t, rest) else None
  | [] => None
  end.

(** The items of an array or an object after the opening bracket, up to the
    closing one; [item] reads one, without white space before it. *)
Fixpoint read_items {A} (item : bytes -> option (A * bytes)) (close : Z) (fuel : nat) (b : bytes) : option (list A * bytes) :=
  match fuel with
  | O => None
  | S fuel =>
      '(x, b) ← item (skip_ws b);
      match skip_ws b with
      | c :: r =>
          if byte_is c close then Some ([x], r)
          else if byte_is c 44 then '(l, rest) ← read_items item close fuel r; Some (x :: l, rest)
          else None
      | [] => None
      end
  end.
Definition read_list {A} (item : bytes -> option (A * bytes)) (close : Z) (b : bytes) : option (list A * bytes) :=
  match skip_ws b with
  | c :: r => if byte_is c close then Some ([], r) else read_items item close (length b) b
  | [] => None
  end.

Definition read_literal (b : bytes) : option (json * bytes) :=
  if has_prefix (s2b "true") b then Some (JBool true, drop 4 b)
  else if has_prefix (s2b "false") b then Some (JBool false, drop 5 b)
  else if has_prefix (s2b "null") b then Some (JNull, drop 4 b)
  else
    '(t, rest) ← number_text b;
    if bool_decide (Byte.x2e ∈ t \/ Byte.x65 ∈ t \/ Byte.x45 ∈ t) then None
    else
      let d := fold_left (fun a c => if is_digit c then 10 * a + (bz c - 48) else a) t 0 in
      Some (JInt (if has_prefix (s2b "-") t then - d else d), rest).

Fixpoint read_value (depth : nat) (b : bytes) : option (json * bytes) :=
  match depth with
  | O => None
  | S depth =>
      match b with
      | [] => None
      | c :: r =>
          if byte_is c 34 then '(s, rest) ← read_quoted b; Some (JStr s, rest)
          else if byte_is c 91 then '(l, rest) ← read_list (read_value depth) 93 r; Some (JArr l, rest)
          else if byte_is c 123 then
            '(l, rest) ← read_list (fun b =>
                '(k, b) ← read_quoted b;
                match skip_ws b with
                | x :: b => if byte_is x 58 then '(v, b) ← read_value depth (skip_ws b); Some ((k, v), b) else None
                | [] => None
                end) 125 r;
            Some (JObj l, rest)
          else read_literal b
      end
  end.
(** A document of up to that depth of nesting. *)
Definition read_document (depth : nat) (b : bytes) : option json :=
  '(j, rest) ← read_value depth (skip_ws b);
  if bool_decide (skip_ws rest = []) then Some j else None.

(** ** Structs *)

(** The members of an object with no other name than those, each at most once. *)
Definition members_of (names : list string) (j : json) : option (list (string * json)) :=
  match j with
  | JObj l => if bool_decide (NoDup l.*1 /\ Forall (fun k => k ∈ names) l.*1) then Some l else None
  | _ => None
  end.
Definition member (k : string) (l : list (string * json)) : json :=
  match find (fun kv => kv.1 =?s k) l with Some (_, v) => v | None => JNull end.
(** A field of each kind: null, or no member, leaves the zero value. *)
Definition as_string (j : json) : option string :=
  match j with JStr s => Some s | JNull => Some ""%string | _ => None end.
Definition as_bool (j : json) : option bool :=
  match j with JBool b => Some b | JNull => Some false | _ => None end.
Definition as_slice {A} (f : json -> option A) (j : json) : option (slice A) :=
  match j with JArr l => Some <$> mapM f l | JNull => Some None | _ => None end.
Definition as_pointer {A} (f : json -> option A) (j : json) : option (option A) :=
  match j with JNull => Some None | _ => Some <$> f j end.
