(* ===== verification/Webhost.v ===== *)
(** internal/webhost: the grammar of hosts accepted in did:web identifiers and
    status-list URLs.  Hosts are handled as byte strings. *)
From S2P Require Import Prelude GoFmt GoPath.

(** ** net/netip.ParseAddr, as far as the program observes it: whether a
    string is an address, of which family, and its zone. *)
Inductive addr := Addr4 | Addr6 (zone : bytes).

Fixpoint cut_at (x : Byte.byte) (b : bytes) : bytes * option bytes :=
  match b with
  | [] => ([], None)
  | y :: r => if bool_decide (y = x) then ([], Some r)
              else let '(p, q) := cut_at x r in (y :: p, q)
  end.

Definition is_hex_digit (b : Byte.byte) : bool :=
  is_digit b || byte_in b 97 102 || byte_in b 65 70.

(** [parseIPv4Fields]: four decimal octets without leading zeros. *)
Definition octet_ok (b : bytes) : bool :=
  forallb is_digit b && (1 <=? len b) && (len b <=? 3)
  && (fold_left (fun a x => a * 10 + (bz x - 48)) b 0 <=? 255)
  && negb ((2 <=? len b) && bool_decide (head b = Some Byte.x30)).
Definition ipv4_ok (b : bytes) : bool :=
  let fs := split_bytes Byte.x2e b in (len fs =? 4) && forallb octet_ok fs.

Fixpoint span_hex (b : bytes) : bytes * bytes :=
  match b with
  | x :: r => if is_hex_digit x then let '(p, q) := span_hex r in (x :: p, q) else ([], b)
  | [] => ([], [])
  end.

(** The loop over 16-bit groups: [i] bytes of the address are filled and [ell]
    tells whether the ellipsis has been seen. *)
Fixpoint v6_groups (fuel : nat) (i : Z) (ell : bool) (s : bytes) : bool :=
  match fuel with
  | O => false
  | S fuel =>
      let '(hex, r) := span_hex s in
      if (len hex =? 0) || (4 <? len hex) then false
      else match r with
      | [] => if i + 2 =? 16 then negb ell else ell
      | c :: r1 =>
          if bool_decide (c = Byte.x2e) then
            if negb ell && negb (i =? 12) then false
            else if 16 <? i + 4 then false
            else ipv4_ok s && (if i + 4 =? 16 then negb ell else ell)
          else if bool_decide (c = Byte.x3a) then
            match r1 with
            | [] => false
            | d :: r2 =>
                if bool_decide (d = Byte.x3a) then
                  if ell then false
                  else match r2 with
                       | [] => negb (i + 2 =? 16)
                       | _ => if i + 2 =? 16 then false else v6_groups fuel (i + 2) true r2
                       end
                else if i + 2 =? 16 then false else v6_groups fuel (i + 2) ell r1
            end
          else false
      end
  end.

(** A leading double colon. *)
Definition lead_ellipsis (s : bytes) : bool * bytes :=
  match s with
  | a :: b :: r => if bool_decide (a = Byte.x3a /\ b = Byte.x3a) then (true, r) else (false, s)
  | _ => (false, s)
  end.

Definition parse_v6 (inp : bytes) : option addr :=
  let '(s, z) := cut_at Byte.x25 inp in
  if bool_decide (z = Some []) then None
  else
    let '(ell, r) := lead_ellipsis s in
    if (ell && bool_decide (r = [])) || v6_groups 8 0 ell r
    then Some (Addr6 (default [] z)) else None.

(** The first of period, colon or percent decides which parser runs. *)
Fixpoint parse_addr_from (inp b : bytes) : option addr :=
  match b with
  | [] => None
  | c :: r =>
      if bool_decide (c = Byte.x2e) then (if ipv4_ok inp then Some Addr4 else None)
      else if bool_decide (c = Byte.x3a) then parse_v6 inp
      else if bool_decide (c = Byte.x25) then None
      else parse_addr_from inp r
  end.
Definition ParseAddr (b : bytes) : option addr := parse_addr_from b b.

Module webhost.

Definition MaxHostLen : Z := 253.

Definition AByt (b : bytes) : fmtarg := AStr (b2s b).

Definition isHostByte (c : Byte.byte) : bool :=
  byte_in c 97 122 || byte_in c 65 90 || byte_in c 48 57 || byte_is c 45 || byte_is c 95.

Definition validatePort (port : bytes) : result unit :=
  if bool_decide (port = []) then Err (Errorf "port %q is not a number" [AByt port])
  else if negb (forallb is_digit port) then Err (Errorf "port %q is not a number" [AByt port])
  else
    let p := fold_left (fun a x => a * 10 + (bz x - 48)) port 0 in
    reject_if ((p <? 1) || (65535 <? p)) (Errorf "port %q is out of range 1 to 65535" [AByt port]).

(** The name, and the port when there is a colon. *)
Definition splitPort (host : bytes) : result (bytes * option bytes) :=
  if has_prefix [Byte.x5b] host then
    match last_index Byte.x5d 0 host with
    | None => Err (Errorf "IPv6 literal %q is missing its closing bracket" [AByt host])
    | Some e =>
        let rest := drop (S e) host in
        match rest with
        | [] => Ok (host, None)
        | c :: r =>
            if bool_decide (c = Byte.x3a) then Ok (take (S e) host, Some r)
            else Err (Errorf "unexpected %q after the IPv6 literal in %q" [AByt rest; AByt host])
        end
    end
  else
    match last_index Byte.x3a 0 host with
    | None => Ok (host, None)
    | Some i =>
        if bool_decide (Byte.x3a ∈ take i host)
        then Err (Errorf "host %q has multiple colons; an IPv6 literal must be bracketed" [AByt host])
        else Ok (take i host, Some (drop (S i) host))
    end.

Definition label_ok (name label : bytes) : result unit :=
  check! reject_if (bool_decide (label = [])) (Errorf "host %q has an empty label" [AByt name]);
  check! reject_if (63 <? len label) (Errorf "host %q has a label longer than 63 bytes" [AByt name]);
  check! reject_if (bool_decide (head label = Some Byte.x2d) || bool_decide (last label = Some Byte.x2d))
    (Errorf "host %q has a label starting or ending with '-'" [AByt name]);
  check_all (fun c => reject_if (negb (isHostByte c))
    (Errorf "host %q contains %q, which is not allowed in a hostname" [AByt name; AByt [c]])) label.

Definition validateHostname (name : bytes) : result unit :=
  check! reject_if (bool_decide (name = [])) (New "empty host");
  check! reject_if (MaxHostLen <? len name)
    (Errorf "host is %d bytes, over the %d limit" [AInt (len name); AInt MaxHostLen]);
  check_all (label_ok name) (split_bytes Byte.x2e name).

Definition validateIPv6Literal (name : bytes) : result unit :=
  if negb (bool_decide (last name = Some Byte.x5d))
  then Err (Errorf "IPv6 literal %q is missing its closing bracket" [AByt name])
  else
    let inner := removelast (tail name) in
    if bool_decide (inner = []) then Err (New "empty IPv6 literal")
    else match ParseAddr inner with
    | None => Err (Errorf "IPv6 literal %q is not an IP address: %w" [AByt name; AErr (New "ParseAddr")])
    | Some Addr4 => Err (Errorf "IPv6 literal %q is an IPv4 address; write it without brackets" [AByt name])
    | Some (Addr6 zone) =>
        reject_if (negb (bool_decide (zone = [])))
          (Errorf "IPv6 literal %q carries a zone id %q" [AByt name; AByt zone])
    end.

Definition Validate (host : bytes) : result unit :=
  if bool_decide (host = []) then Err (New "empty host")
  else
    let! np := splitPort host in
    let '(name, port) := np in
    check! (if has_prefix [Byte.x5b] name then validateIPv6Literal name else validateHostname name);
    match port with
    | Some p => validatePort p
    | None => Ok tt
    end.

Example validate1 : is_ok (Validate (s2b "acme.example:8443")) = true. Proof. vm_compute. reflexivity. Qed.
Example validate2 : is_ok (Validate (s2b "[::1]:80")) = true. Proof. vm_compute. reflexivity. Qed.
Example validate3 : is_ok (Validate (s2b "[::1::2]")) = false. Proof. vm_compute. reflexivity. Qed.
Example validate4 : is_ok (Validate (s2b "a@b")) = false. Proof. vm_compute. reflexivity. Qed.
Example validate5 : is_ok (Validate (s2b "[1:2:3:4:5:6:1.2.3.4]")) = true. Proof. vm_compute. reflexivity. Qed.
Example validate6 : is_ok (Validate (s2b "0:+1")) = false. Proof. vm_compute. reflexivity. Qed.

(** ** What an accepted host is made of *)

(** Bytes with no meaning in a URL or a path beyond a host, a port and the
    brackets of an address literal. *)
Definition host_char (c : Byte.byte) : bool :=
  isHostByte c || byte_is c 46 || byte_is c 58 || byte_is c 91 || byte_is c 93.

Lemma host_char_digit c : is_digit c = true -> host_char c = true.
Proof. unfold host_char, isHostByte, is_digit. intros ->. by rewrite !orb_true_r. Qed.

Lemma host_char_hostbyte c : isHostByte c = true -> host_char c = true.
Proof. unfold host_char. by intros ->. Qed.

Lemma host_char_hex c : is_hex_digit c = true -> host_char c = true.
Proof. destruct c; vm_compute; done. Qed.

(** All the bytes of a list between separators and the separators. *)
Lemma split_bytes_Forall (P : Byte.byte -> Prop) sep b :
  P sep -> Forall (Forall P) (split_bytes sep b) -> Forall P b.
Proof.
  intros Hs. induction b as [|x b IH]; simpl; [constructor|].
  case_bool_decide as Hx; [subst; rewrite Forall_cons; intros [_ ?]; by constructor; auto|].
  destruct (split_bytes sep b) as [|w ws]; rewrite ?Forall_cons.
  - intros [[? _] _]. split; [done|]. apply IH. constructor.
  - intros [[? ?] ?]. split; [done|]. apply IH. by constructor.
Qed.

Definition hostly (b : bytes) : Prop := Forall (fun c => host_char c = true) b.

Lemma forallb_hostly f b : (forall c, f c = true -> host_char c = true) -> forallb f b = true -> hostly b.
Proof.
  intros Hf Hb. apply Forall_forall. intros c Hc. apply Hf.
  rewrite forallb_forall in Hb. apply Hb. by apply list_elem_of_In.
Qed.

Lemma validatePort_hostly p : validatePort p = Ok tt -> hostly p.
Proof.
  unfold validatePort. case_bool_decide; [done|]. destruct (forallb is_digit p) eqn:E; [|done].
  intros _. by eapply forallb_hostly, E; intros; apply host_char_digit.
Qed.

Lemma validateHostname_hostly n : validateHostname n = Ok tt -> hostly n.
Proof.
  unfold validateHostname. intros H. gosimp H. rewrite check_all_Ok in H.
  apply (split_bytes_Forall _ Byte.x2e); [done|]. eapply Forall_impl; [exact H|].
  intros l Hl. unfold label_ok in Hl. gosimp Hl. rewrite check_all_Ok in Hl.
  eapply Forall_impl; [exact Hl|]. intros c Hc. apply reject_if_Ok, negb_false_iff in Hc.
  by apply host_char_hostbyte.
Qed.

Lemma ipv4_hostly b : ipv4_ok b = true -> hostly b.
Proof.
  unfold ipv4_ok. intros [_ H]%andb_true_iff. apply (split_bytes_Forall _ Byte.x2e); [done|].
  apply Forall_forall. intros l Hl. rewrite forallb_forall in H. rewrite list_elem_of_In in Hl.
  specialize (H l Hl). unfold octet_ok in H. rewrite !andb_true_iff in H.
  destruct H as [[[[H _] _] _] _]. by eapply forallb_hostly, H; intros; apply host_char_digit.
Qed.

Lemma span_hex_app b p q : span_hex b = (p, q) -> b = p ++ q /\ forallb is_hex_digit p = true.
Proof.
  revert p q. induction b as [|x b IH]; simpl; intros p q; [by intros [=<- <-]|].
  destruct (is_hex_digit x) eqn:E; [|by intros [=<- <-]].
  destruct (span_hex b) as [p' q']. intros [=<- <-]. destruct (IH p' q') as [-> ?]; [done|].
  simpl. by rewrite E.
Qed.

Lemma v6_groups_hostly fuel i ell s : v6_groups fuel i ell s = true -> hostly s.
Proof.
  revert i ell s. induction fuel as [|fuel IH]; simpl; intros i ell s; [done|].
  destruct (span_hex s) as [hex r] eqn:E. apply span_hex_app in E as [Hs Hh].
  apply (forallb_hostly _ _ host_char_hex) in Hh. destruct (_ || _); [done|].
  destruct r as [|c r1]; [intros _; rewrite Hs, app_nil_r; done|].
  case_bool_decide as Hdot.
  { destruct (negb ell && _); [done|]. destruct (16 <? i + 4); [done|].
    intros [H4 _]%andb_true_iff. by apply ipv4_hostly. }
  case_bool_decide as Hc; [|done]. subst c. rewrite Hs.
  intros H. apply Forall_app. split; [done|]. constructor; [done|]. revert H.
  destruct r1 as [|d r2]; [done|]. case_bool_decide as Hd.
  - subst d. destruct ell; [done|]. destruct r2 as [|e r3]; [by repeat constructor|].
    destruct (i + 2 =? 16); [done|]. intros H. constructor; [done|]. by eapply IH.
  - destruct (i + 2 =? 16); [done|]. by apply IH.
Qed.

Lemma cut_at_None x b s : cut_at x b = (s, None) -> s = b.
Proof.
  revert s. induction b as [|y b IH]; simpl; intros s; [by intros [=<-]|].
  case_bool_decide; [done|]. destruct (cut_at x b) as [p q]. intros [=<- ->]. f_equal. by apply IH.
Qed.

Lemma lead_ellipsis_hostly s ell r : lead_ellipsis s = (ell, r) -> hostly r -> hostly s.
Proof.
  unfold lead_ellipsis. destruct s as [|a [|b s]]; [by intros [=_ <-]..|].
  case_bool_decide as Hab; intros [=_ <-]; [|done]. destruct Hab as [-> ->].
  intros Hs. by repeat constructor.
Qed.

Lemma parse_v6_hostly b : parse_v6 b = Some (Addr6 []) -> hostly b.
Proof.
  unfold parse_v6. destruct (cut_at Byte.x25 b) as [s z] eqn:E. case_bool_decide as Hz; [done|].
  destruct (lead_ellipsis s) as [ell r] eqn:El. destruct (_ || _) eqn:Eok; [|done].
  destruct z as [z|]; simpl; [intros [=->]; done|intros _].
  apply cut_at_None in E as ->. apply (lead_ellipsis_hostly _ _ _ El).
  apply orb_true_iff in Eok as [[_ Er]%andb_true_iff|H]; [|by eapply v6_groups_hostly].
  apply bool_decide_eq_true in Er as ->. constructor.
Qed.

Lemma ParseAddr_hostly b : ParseAddr b = Some (Addr6 []) -> hostly b.
Proof.
  unfold ParseAddr. generalize b at 2. induction b0 as [|c r IH]; simpl; [done|].
  case_bool_decide; [by destruct (ipv4_ok b)|].
  case_bool_decide; [apply parse_v6_hostly|]. case_bool_decide; [done|apply IH].
Qed.

Lemma removelast_snoc {A} (l : list A) x : last l = Some x -> l = removelast l ++ [x].
Proof.
  induction l as [|y l _] using rev_ind; [done|].
  rewrite last_snoc, removelast_last. by intros [=->].
Qed.

Lemma validateIPv6Literal_hostly n :
  has_prefix [Byte.x5b] n = true -> validateIPv6Literal n = Ok tt -> hostly n.
Proof.
  intros Hp. unfold validateIPv6Literal. case_bool_decide as Hl; [|done]. simpl.
  case_bool_decide as Hi; [done|].
  destruct (ParseAddr (removelast (tail n))) as [[|zone]|] eqn:E; [done| |done].
  intros Hz%reject_if_Ok%negb_false_iff%bool_decide_eq_true. subst zone.
  apply ParseAddr_hostly in E. destruct n as [|c [|d n]]; [done..|].
  assert (Hl' : last (d :: n) = Some Byte.x5d) by done.
  apply removelast_snoc in Hl'. simpl tail in *. rewrite Hl'.
  simpl in Hp. apply andb_true_iff in Hp as [Hc _]. apply bool_decide_eq_true in Hc. subst c.
  constructor; [done|]. apply Forall_app. split; [done|by repeat constructor].
Qed.

Lemma splitPort_parts host name port :
  splitPort host = Ok (name, port) ->
  host = name ++ match port with Some p => Byte.x3a :: p | None => [] end.
Proof.
  unfold splitPort. destruct (has_prefix [Byte.x5b] host).
  - destruct (last_index Byte.x5d 0 host) as [e|]; [|done].
    destruct (drop (S e) host) as [|c r] eqn:E.
    + intros [=<- <-]. by rewrite app_nil_r.
    + case_bool_decide as Hc; [|done]. intros [=<- <-]. subst c. by rewrite <- E, take_drop.
  - destruct (last_index Byte.x3a 0 host) as [i|] eqn:E.
    + case_bool_decide; [done|]. intros [=<- <-].
      apply last_index_lookup in E as [_ E]. rewrite Nat.sub_0_r in E.
      symmetry. by apply take_drop_middle.
    + intros [=<- <-]. by rewrite app_nil_r.
Qed.

Lemma Validate_hostly host : Validate host = Ok tt -> hostly host.
Proof.
  unfold Validate. case_bool_decide as Hne; [done|]. intros H.
  apply rbind_Ok in H as ([name port] & Hs & H). apply rbind_Ok in H as ([] & Hn & Hp).
  apply splitPort_parts in Hs as ->.
  assert (hostly name).
  { destruct (has_prefix [Byte.x5b] name) eqn:E;
      [by apply validateIPv6Literal_hostly|by apply validateHostname_hostly]. }
  apply Forall_app. split; [done|]. destruct port as [p|]; [|constructor].
  constructor; [done|by apply validatePort_hostly].
Qed.

(** ** Properties *)

(** an accepted host carries no URL or path structure: it is not empty, has
    no slash, backslash, at sign, question mark, hash, percent sign, white
    space or control byte, and is neither a dot nor a double dot. *)
Theorem validated_host_is_plain host :
  Validate host = Ok tt ->
  host <> [] /\ host <> s2b "." /\ host <> s2b ".."
  /\ Forall (fun c => c ∉ s2b "/\@?#%" /\ 32 < bz c < 127) host.
Proof.
  intros H. split_and!.
  - intros ->. vm_compute in H. done.
  - intros ->. vm_compute in H. done.
  - intros ->. vm_compute in H. done.
  - eapply Forall_impl; [exact (Validate_hostly _ H)|]. intros c Hc.
    split; [|destruct c; vm_compute in Hc |- *; done].
    apply (bool_decide_unpack (c ∉ s2b "/\@?#%")). destruct c; vm_compute in Hc |- *; done.
Qed.

Lemma validated_host_is_plain_witness :
  let host := s2b "[2001:db8::7]:8443" in
  host <> [] /\ host <> s2b "." /\ host <> s2b ".."
  /\ Forall (fun c => c ∉ s2b "/\@?#%" /\ 32 < bz c < 127) host.
Proof. apply (validated_host_is_plain (s2b "[2001:db8::7]:8443")). vm_compute; reflexivity. Defined.

(** A validated host is one plain element of a path. *)
Lemma Validate_plain_elem host : Validate host = Ok tt -> plain_elem host.
Proof.
  intros H. pose proof (Validate_hostly _ H) as Hh. split_and!.
  1-3: intros ->; by vm_compute in H.
  intros Hs. unfold hostly in Hh. rewrite Forall_forall in Hh. by apply Hh in Hs.
Qed.

End webhost.
