(* ===== verification/GoNet.v ===== *)
(** Network texts, as the program uses them from Go's [net/url], [net],
    [mime] and [net/http] packages: parsing a URL down to its host, the value of
    an IP address, media types, and request headers. *)
From S2P Require Import Prelude GoFmt GoPath Webhost.

(** ** net/url.Parse *)

Definition is_alpha (c : Byte.byte) : bool := byte_in c 97 122 || byte_in c 65 90.
Definition is_ctl (c : Byte.byte) : bool := byte_in c 0 31 || byte_is c 127.
Definition has_colon (b : bytes) : bool := bool_decide (Byte.x3a ∈ b).

(** [getScheme]: the scheme, empty when there is none, and the rest. *)
Fixpoint scheme_from (all seen b : bytes) : result (bytes * bytes) :=
  match b with
  | [] => Ok ([], all)
  | c :: r =>
      if is_alpha c then scheme_from all (seen ++ [c]) r
      else if is_digit c || bool_decide (c ∈ s2b "+-.") then
        (if bool_decide (seen = []) then Ok ([], all) else scheme_from all (seen ++ [c]) r)
      else if byte_is c 58 then
        (if bool_decide (seen = []) then Err (New "missing protocol scheme") else Ok (seen, r))
      else Ok ([], all)
  end.
Definition getScheme (b : bytes) : result (bytes * bytes) := scheme_from b [] b.

(** [unescape] in a host or a zone: only bytes outside ASCII, and the percent
    sign itself, may be escaped in a host; a zone also allows a space. *)
Definition InvalidHostError (c : Byte.byte) : error :=
  Errorf "invalid character %q in host name" [AStr (b2s [c])].
Definition escape_allowed (zone : bool) (h l : Byte.byte) : bool :=
  let v := byte_of_Z (16 * unhex h + unhex l) in
  if zone then byte_is v 37 || byte_is v 32 || negb (shouldEscape encodeHost v)
  else (8 <=? unhex h) || (byte_is h 50 && byte_is l 53).
Fixpoint unescape_host (zone : bool) (b : bytes) : result bytes :=
  match b with
  | [] => Ok []
  | c :: r =>
      if byte_is c 37 then
        match r with
        | h :: l :: r' =>
            if ishex h && ishex l && escape_allowed zone h l then
              let! t := unescape_host zone r' in Ok (byte_of_Z (16 * unhex h + unhex l) :: t)
            else Err (EscapeError b)
        | _ => Err (EscapeError b)
        end
      else if (bz c <? 128) && shouldEscape encodeHost c then Err (InvalidHostError c)
      else let! t := unescape_host zone r in Ok (c :: t)
  end.

(** Where the escaped percent sign of a zone begins. *)
Fixpoint cut_zone (b : bytes) : bytes * bytes :=
  match b with
  | [] => ([], [])
  | c :: r => if has_prefix (s2b "%25") b then ([], b) else let '(p, q) := cut_zone r in (c :: p, q)
  end.

Definition check_port (p : bytes) : result unit :=
  reject_if (negb (validOptionalPort p)) (Errorf "invalid port %q after host" [AStr (b2s p)]).

Definition parseHost (host : bytes) : result bytes :=
  match last_index Byte.x5b 0 host with
  | Some O =>
      match last_index Byte.x5d 0 host with
      | None => Err (New "missing ']' in host")
      | Some e =>
          let colonPort := drop (S e) host in
          check! check_port colonPort;
          let! port := unescape_host false colonPort in
          let '(name, zone) := cut_zone (take (e - 1) (drop 1 host)) in
          let! name := unescape_host false name in
          let! zone := unescape_host true zone in
          match ParseAddr (name ++ zone) with
          | Some (Addr6 _) => Ok (Byte.x5b :: (name ++ zone) ++ Byte.x5d :: port)
          | Some Addr4 => Err (New "invalid IP-literal")
          | None => Err (New "invalid host: ParseAddr")
          end
      end
  | Some _ => Err (New "invalid IP-literal")
  | None =>
      let '(_, port) := cut_at Byte.x3a host in
      check! match port with Some p => check_port (Byte.x3a :: p) | None => Ok tt end;
      unescape_host false host
  end.

Definition validUserinfo (b : bytes) : bool :=
  forallb (fun c => alnum c || bool_decide (c ∈ s2b "-._:~!$&'()*+,;=%@")) b.

Definition parseAuthority (authority : bytes) : result bytes :=
  match last_index Byte.x40 0 authority with
  | None => parseHost authority
  | Some i =>
      let! host := parseHost (drop (S i) authority) in
      let userinfo := take i authority in
      check! reject_if (negb (validUserinfo userinfo)) (New "net/url: invalid userinfo");
      let '(user, password) := cut_at Byte.x3a userinfo in
      let! _ := PathUnescape user in
      let! _ := PathUnescape (default [] password) in
      Ok host
  end.

(** [parse], without the fragment: scheme, host and path. *)
Definition parse_rest (scheme rest : bytes) : result URL :=
  let rest := (cut_at Byte.x3f rest).1 in
  let sch := b2s (map lower_byte scheme) in
  if negb (has_prefix [slash] rest) && bool_decide (scheme <> []) then Ok (mkURL sch [] [])
  else if negb (has_prefix [slash] rest) && has_colon (cut_at slash rest).1 then
    Err (New "first path segment in URL cannot contain colon")
  else
    let! hp :=
      if (bool_decide (scheme <> []) || negb (has_prefix [slash; slash; slash] rest)) && has_prefix [slash; slash] rest then
        let '(authority, path) := cut_at slash (drop 2 rest) in
        let! host := parseAuthority authority in
        Ok (host, match path with Some p => slash :: p | None => [] end)
      else Ok ([], rest) in
    let! path := PathUnescape hp.2 in
    Ok (mkURL sch hp.1 path).

Definition URL_Parse (raw : bytes) : result URL :=
  let '(u, frag) := cut_at Byte.x23 raw in
  check! reject_if (existsb is_ctl u) (New "net/url: invalid control character in URL");
  let! url :=
    if bool_decide (u = s2b "*") then Ok (mkURL "" [] (s2b "*"))
    else let! sr := getScheme u in parse_rest sr.1 sr.2 in
  let! _ := PathUnescape (default [] frag) in
  Ok url.

(** ** net.ParseIP

    The sixteen bytes of an address; an IPv4 address is mapped into them. *)
Definition octet_value (b : bytes) : Z := fold_left (fun a x => a * 10 + (bz x - 48)) b 0.
Definition v4_bytes (b : bytes) : list Z := map octet_value (split_bytes Byte.x2e b).
Definition hex_value (b : bytes) : Z := fold_left (fun a x => a * 16 + unhex x) b 0.
Definition group_bytes (hex : bytes) : list Z := [hex_value hex / 256; hex_value hex mod 256].

(** The groups as bytes; [ell] is where the ellipsis was seen. *)
Fixpoint v6_value (fuel : nat) (acc : list Z) (ell : option nat) (s : bytes) : option (list Z * option nat) :=
  match fuel with
  | O => None
  | S fuel =>
      let '(hex, r) := span_hex s in
      if (len hex =? 0) || (4 <? len hex) then None
      else match r with
      | [] => Some (acc ++ group_bytes hex, ell)
      | c :: r1 =>
          if bool_decide (c = Byte.x2e) then
            if bool_decide (ell = None) && negb (len acc =? 12) then None
            else if 16 <? len acc + 4 then None
            else if ipv4_ok s then Some (acc ++ v4_bytes s, ell) else None
          else if bool_decide (c = Byte.x3a) then
            let acc := acc ++ group_bytes hex in
            match r1 with
            | [] => None
            | d :: r2 =>
                if bool_decide (d = Byte.x3a) then
                  match ell, r2 with
                  | Some _, _ => None
                  | None, [] => Some (acc, Some (length acc))
                  | None, _ => if len acc =? 16 then None else v6_value fuel acc (Some (length acc)) r2
                  end
                else if len acc =? 16 then None else v6_value fuel acc ell r1
            end
          else None
      end
  end.

(** Zeros fill the place of the ellipsis; without one nothing may be missing. *)
Definition expand (v : list Z * option nat) : option (list Z) :=
  match v with
  | (acc, None) => if len acc =? 16 then Some acc else None
  | (acc, Some e) => if len acc =? 16 then None else Some (take e acc ++ repeat 0 (16 - length acc) ++ drop e acc)
  end.
Definition v6_address (s : bytes) : option (list Z) :=
  let '(ell, r) := lead_ellipsis s in
  if ell && bool_decide (r = []) then Some (repeat 0 16)
  else v ← v6_value 8 [] (if ell then Some O else None) r; expand v.

Definition v4_prefix : list Z := repeat 0 10 ++ [255; 255].
(** [None] is a nil IP: no address, or one with a zone. *)
Definition ParseIP (b : bytes) : option (list Z) :=
  match ParseAddr b with
  | Some Addr4 => Some (v4_prefix ++ v4_bytes b)
  | Some (Addr6 []) => v6_address b
  | _ => None
  end.
Definition IsLoopback (ip : list Z) : bool :=
  if bool_decide (take 12 ip = v4_prefix) then bool_decide (ip !! 12%nat = Some 127)
  else bool_decide (ip = repeat 0 15 ++ [1]).

(** The value exists exactly for the texts the grammar accepts. *)
Lemma ipv4_bytes_len s : ipv4_ok s = true -> len (v4_bytes s) = 4.
Proof. unfold ipv4_ok, v4_bytes, len. rewrite andb_true_iff, length_map. intros [H _]. by apply Z.eqb_eq in H. Qed.

Lemma len_snoc_group acc hex : len (acc ++ group_bytes hex) = len acc + 2.
Proof. by rewrite len_app. Qed.

Lemma expand_Some acc (ell : option nat) :
  is_Some (expand (acc, ell)) <-> (if len acc =? 16 then negb (bool_decide (is_Some ell)) else bool_decide (is_Some ell)) = true.
Proof.
  unfold expand. destruct ell, (len acc =? 16); simpl; split; intros H; try done; try (by eexists); by destruct H.
Qed.

Lemma v6_value_groups fuel acc ell s :
  is_Some (v ← v6_value fuel acc ell s; expand v) <-> v6_groups fuel (len acc) (bool_decide (is_Some ell)) s = true.
Proof.
  revert acc ell s. induction fuel as [|fuel IH]; intros acc ell s; cbn [v6_value v6_groups].
  { split; [by intros []|done]. }
  destruct (span_hex s) as [hex r]. destruct (_ || _); [split; [by intros []|done]|].
  destruct r as [|c r1].
  { cbn [mbind option_bind]. rewrite expand_Some, len_snoc_group. by destruct (len acc + 2 =? 16). }
  case_bool_decide.
  { replace (bool_decide (ell = None)) with (negb (bool_decide (is_Some ell))) by (by destruct ell).
    destruct (negb _ && _); [split; [by intros []|done]|]. destruct (16 <? _); [split; [by intros []|done]|].
    destruct (ipv4_ok s) eqn:E; cbn [mbind option_bind andb]; [|split; [by intros []|done]].
    rewrite expand_Some, len_app, ipv4_bytes_len by done. by destruct (len acc + 4 =? 16). }
  case_bool_decide; [|split; [by intros []|done]].
  rewrite <- (len_snoc_group acc hex). destruct r1 as [|d r2]; [split; [by intros []|done]|].
  case_bool_decide.
  - destruct ell as [e|]; [split; [by intros []|done]|]. cbn [is_Some]. rewrite bool_decide_false by (by intros []).
    destruct r2 as [|x r2].
    + cbn [mbind option_bind]. rewrite expand_Some. by destruct (len (acc ++ group_bytes hex) =? 16).
    + destruct (len (acc ++ group_bytes hex) =? 16); [split; [by intros []|done]|]. rewrite IH.
      by rewrite bool_decide_true.
  - destruct (len (acc ++ group_bytes hex) =? 16); [split; [by intros []|done]|]. apply IH.
Qed.

Lemma ParseIP_Some b : is_Some (ParseIP b) <-> ParseAddr b = Some Addr4 \/ ParseAddr b = Some (Addr6 []).
Proof.
  unfold ParseIP. destruct (ParseAddr b) as [[|[|z zone]]|] eqn:E; try (split; [intros H; naive_solver|naive_solver]).
  split; [by right|]. intros _.
  assert (Hv : forall b', parse_addr_from b b' = Some (Addr6 []) -> parse_v6 b = Some (Addr6 [])).
  { induction b' as [|c b' IH]; [done|]. cbn [parse_addr_from]. repeat case_bool_decide; try done. by destruct (ipv4_ok b). }
  apply Hv in E. unfold parse_v6 in E. destruct (cut_at Byte.x25 b) as [s z] eqn:Ez. case_bool_decide as Hz; [done|].
  destruct (lead_ellipsis s) as [ell r] eqn:El. case_in E; [|done]. injection E as Hd.
  destruct z as [z|]; [simpl in Hd; by subst z|].
  apply webhost.cut_at_None in Ez. subst b. unfold v6_address. rewrite El. destruct (ell && bool_decide (r = [])) eqn:Er; [by eexists|].
  apply v6_value_groups. replace (bool_decide (is_Some (if ell then Some 0%nat else None))) with ell by (by destruct ell). done.
Qed.

Lemma ParseIP_examples :
  ParseIP (s2b "127.0.0.1") = Some (v4_prefix ++ [127; 0; 0; 1])
  /\ (IsLoopback <$> ParseIP (s2b "127.9.8.7")) = Some true /\ (IsLoopback <$> ParseIP (s2b "::1")) = Some true
  /\ (IsLoopback <$> ParseIP (s2b "0:0::0:1")) = Some true /\ (IsLoopback <$> ParseIP (s2b "::ffff:127.0.0.1")) = Some true
  /\ (IsLoopback <$> ParseIP (s2b "10.0.0.1")) = Some false /\ (IsLoopback <$> ParseIP (s2b "fe80::1:2")) = Some false
  /\ ParseIP (s2b "127.0.0.01") = None /\ ParseIP (s2b "::1%lo") = None.
Proof. by vm_compute. Qed.

Example URL_Parse_examples :
  (Hostname <$> match URL_Parse (s2b "http://localhost:8080/x?y#z") with Ok u => Some u | Err _ => None end) = Some (s2b "localhost")
  /\ (Hostname <$> match URL_Parse (s2b "http://localhost@evil.example") with Ok u => Some u | Err _ => None end)
     = Some (s2b "evil.example")
  /\ (Hostname <$> match URL_Parse (s2b "https://[::1]:443") with Ok u => Some u | Err _ => None end) = Some (s2b "::1")
  /\ URL_Parse (s2b "null") = Ok (mkURL "" [] (s2b "null"))
  /\ is_ok (URL_Parse (s2b "http://::1")) = false /\ is_ok (URL_Parse (s2b "http://x[::1]")) = false.
Proof. by vm_compute. Qed.

(** ** mime.ParseMediaType *)

Definition isTSpecial (c : Byte.byte) : bool := bool_decide (c ∈ Byte.x22 :: s2b "()<>@,;:\/[]?=").
Definition isTokenChar (c : Byte.byte) : bool := byte_in c 33 126 && negb (isTSpecial c).
Fixpoint consumeToken (b : bytes) : bytes * bytes :=
  match b with
  | c :: r => if isTokenChar c then let '(t, rest) := consumeToken r in (c :: t, rest) else ([], b)
  | [] => ([], [])
  end.

Definition checkMediaTypeDisposition (b : bytes) : result unit :=
  match consumeToken b with
  | ([], _) => Err (New "mime: no media type")
  | (_, []) => Ok tt
  | (_, c :: rest) =>
      if negb (byte_is c 47) then Err (New "mime: expected slash after first token")
      else match consumeToken rest with
           | ([], _) => Err (New "mime: expected token after slash")
           | (_, []) => Ok tt
           | _ => Err (New "mime: unexpected content after media subtype")
           end
  end.

(** The body of a quoted string, up to its closing quote. *)
Fixpoint quoted_value (b : bytes) : option (bytes * bytes) :=
  match b with
  | [] => None
  | c :: r =>
      if byte_is c 34 then Some ([], r)
      else
        let plain := match quoted_value r with Some (v, rest) => Some (c :: v, rest) | None => None end in
        match r with
        | d :: r' =>
            if byte_is c 92 && isTSpecial d then
              match quoted_value r' with Some (v, rest) => Some (d :: v, rest) | None => None end
            else if byte_is c 13 || byte_is c 10 then None else plain
        | [] => None
        end
  end.
(** [None] is an empty value with nothing consumed. *)
Definition consumeValue (b : bytes) : option (bytes * bytes) :=
  match b with
  | [] => None
  | c :: r => if byte_is c 34 then quoted_value r
              else match consumeToken b with ([], _) => None | vr => Some vr end
  end.

Section Media.
Context {CT : CaseTables}.

(** One parameter: its name, its value, and the rest. *)
Definition consumeMediaParam (v : bytes) : option (bytes * bytes * bytes) :=
  match trim_left v with
  | c :: rest =>
      if negb (byte_is c 59) then None
      else
        let '(param, rest) := consumeToken (trim_left rest) in
        if bool_decide (param = []) then None
        else match trim_left rest with
             | c :: rest =>
                 if negb (byte_is c 61) then None
                 else match consumeValue (trim_left rest) with
                      | Some (value, rest) => Some (ToLower param, value, rest)
                      | None => None
                      end
             | [] => None
             end
  | [] => None
  end.

(** The loop over the parameters; a repeated name must repeat its value. *)
Fixpoint media_params (fuel : nat) (seen : list (bytes * bytes)) (v : bytes) : result unit :=
  match fuel with
  | O => Ok tt
  | S fuel =>
      match trim_left v with
      | [] => Ok tt
      | v =>
          match consumeMediaParam v with
          | None =>
              reject_if (negb (bool_decide (trim_right (trim_left v) = s2b ";"))) (New "mime: invalid media parameter")
          | Some (key, value, rest) =>
              check! reject_if (existsb (fun kv => bool_decide (kv.1 = key) && negb (bool_decide (kv.2 = value))) seen)
                (New "mime: duplicate parameter name");
              media_params fuel ((key, value) :: seen) rest
          end
      end
  end.

Definition ParseMediaType (v : string) : result string :=
  let base := (cut_at Byte.x3b (s2b v)).1 in
  let mediatype := TrimSpace (b2s (ToLower base)) in
  check! checkMediaTypeDisposition (s2b mediatype);
  let params := drop (length base) (s2b v) in
  check! media_params (S (length params)) [] params;
  Ok mediatype.
End Media.

(** ** net/http: what a handler sees of a request *)

Definition upper_byte (b : Byte.byte) : Byte.byte := if byte_in b 97 122 then byte_of_Z (bz b - 32) else b.
Fixpoint canonical_from (upper : bool) (b : bytes) : bytes :=
  match b with
  | [] => []
  | c :: r => (if upper then upper_byte c else lower_byte c) :: canonical_from (byte_is c 45) r
  end.
Definition CanonicalHeaderKey (k : string) : string := b2s (canonical_from true (s2b k)).

(** Header names are canonical, as a server stores them.  The body is what
    arrives, and the error that ends it when that is not its end. *)
Record http_request := mkHttp
  { Method : string; UPath : string; Header : gmap string (list string); Body : bytes; BodyErr : option error }.

Definition Values (r : http_request) (name : string) : list string :=
  default [] (Header r !! CanonicalHeaderKey name).
Definition Get (r : http_request) (name : string) : string := default ""%string (head (Values r name)).

(** Reading a body behind [http.MaxBytesReader]: what can be read, and why no
    more can be. *)
Inductive body_end := BodyEOF | BodyTooLarge | BodyBroken (e : error).
Definition max_body (limit : Z) (r : http_request) : bytes * body_end :=
  if limit <? len (Body r) then (take (Z.to_nat limit) (Body r), BodyTooLarge)
  else (Body r, match BodyErr r with Some e => BodyBroken e | None => BodyEOF end).

(** The fuel of [media_params] is enough: a parameter takes at least a byte. *)
Section MediaFuel.
Context {CT : CaseTables}.

Lemma trim_left_length b : (length (trim_left b) <= length b)%nat.
Proof.
  unfold trim_left. generalize (length b) at 1. intros fuel. revert b. induction fuel as [|fuel IH]; intros b; [done|].
  cbn [trim_with]. destruct (first_strip space_encodings b) as [r|] eqn:E; [|done].
  assert (Hs : forall ps, first_strip ps b = Some r -> (length r <= length b)%nat).
  { induction ps as [|p ps IHp]; [done|]. cbn [first_strip]. destruct (strip_prefix p b) as [r'|] eqn:Ep; [|done].
    intros [= ->]. apply length_strip_prefix in Ep. lia. }
  apply Hs in E. specialize (IH r). lia.
Qed.
Lemma consumeToken_length b t rest : consumeToken b = (t, rest) -> (length rest <= length b)%nat.
Proof.
  revert t rest. induction b as [|c b IH]; intros t rest; cbn [consumeToken]; [by intros [= <- <-]|].
  destruct (isTokenChar c); [|by intros [= <- <-]]. destruct (consumeToken b) as [t' r'] eqn:E. intros [= <- <-].
  specialize (IH t' r' eq_refl). simpl. lia.
Qed.
Lemma quoted_value_length n b v rest : (length b <= n)%nat -> quoted_value b = Some (v, rest) -> (length rest <= length b)%nat.
Proof.
  revert b v rest. induction n as [|n IH]; intros b v rest Hn H; [by destruct b; [|simpl in Hn; lia]|].
  destruct b as [|c b]; [done|]. cbn [quoted_value] in H. simpl in Hn. destruct (byte_is c 34); [injection H as _ <-; simpl; lia|].
  assert (Hp : match quoted_value b with Some (v, rest) => Some (c :: v, rest) | None => None end = Some (v, rest) ->
               (length rest <= length (c :: b))%nat).
  { destruct (quoted_value b) as [[v' r']|] eqn:E; [|done]. intros [= _ <-]. apply IH in E; simpl; lia. }
  destruct b as [|d b]; [by apply Hp|]. destruct (byte_is c 92 && isTSpecial d).
  - destruct (quoted_value b) as [[v' r']|] eqn:E; [|done]. injection H as _ <-. simpl in *. apply IH in E; lia.
  - destruct (_ || _); [done|by apply Hp].
Qed.
Lemma consumeValue_length b v rest : consumeValue b = Some (v, rest) -> (length rest <= length b)%nat.
Proof.
  destruct b as [|c b]; [done|]. unfold consumeValue. destruct (byte_is c 34).
  - intros H. apply (quoted_value_length (length b)) in H; simpl; lia.
  - destruct (consumeToken (c :: b)) as [[|x t] r] eqn:E; [done|]. intros [= _ <-]. by apply consumeToken_length in E.
Qed.
Lemma consumeMediaParam_length v key value rest :
  consumeMediaParam v = Some (key, value, rest) -> (length rest < length v)%nat.
Proof.
  unfold consumeMediaParam. pose proof (trim_left_length v) as H0. destruct (trim_left v) as [|c r]; [done|].
  destruct (negb _); [done|]. destruct (consumeToken (trim_left r)) as [p r1] eqn:E1. case_bool_decide; [done|].
  pose proof (trim_left_length r) as H1. apply consumeToken_length in E1. pose proof (trim_left_length r1) as H2.
  destruct (trim_left r1) as [|c2 r2]; [done|]. destruct (negb _); [done|].
  destruct (consumeValue (trim_left r2)) as [[v' r3]|] eqn:E2; [|done]. intros [= _ _ <-].
  apply consumeValue_length in E2. pose proof (trim_left_length r2) as H3. simpl in *. lia.
Qed.

Lemma media_params_fuel n m seen v :
  (length v < n)%nat -> (length v < m)%nat -> media_params n seen v = media_params m seen v.
Proof.
  revert m seen v. induction n as [|n IH]; intros m seen v Hn Hm; [lia|]. destruct m as [|m]; [lia|].
  cbn [media_params]. pose proof (trim_left_length v) as Ht. destruct (trim_left v) as [|c r] eqn:Et; [done|].
  destruct (consumeMediaParam (c :: r)) as [[[key value] rest]|] eqn:E; [|done].
  apply consumeMediaParam_length in E. destruct (existsb _ _); cbn [reject_if rbind]; [done|]. apply IH; lia.
Qed.
End MediaFuel.

Section MediaExamples.
#[local] Instance ascii_case : CaseTables := Build_CaseTables (fun r => r).
Example ParseMediaType_examples :
  ParseMediaType "application/json" = Ok "application/json"%string
  /\ ParseMediaType " Application/JSON ; charset=utf-8 ;" = Ok "application/json"%string
  /\ is_ok (ParseMediaType "application/json; charset") = false
  /\ is_ok (ParseMediaType "application/json; a=b; a=c") = false
  /\ ParseMediaType "text/plain" = Ok "text/plain"%string /\ is_ok (ParseMediaType "application/json x") = false.
Proof. by vm_compute. Qed.
End MediaExamples.
