(* ===== verification/Config.v ===== *)
(** internal/config (config.go, keys.go): the strictness every configuration
    file is read with, and the flags a schema displaces. *)
From S2P Require Import Prelude GoFmt Webhost.

Module config.

(** ** The types a document is decoded into

    What the code asks reflect: the kind of a type, the element of a container,
    the fields of a struct with their tags.  [TCustom] is a type with a decoder
    of its own over the type it is declared as; [TScalar] is any other kind.  A
    type is a finite tree, so the guard against a self-referential schema, whose
    only effect is to end the walk, has nothing to do. *)
Inductive ty :=
| TScalar | TPointer (t : ty) | TSlice (t : ty) | TArray (t : ty) | TMap (t : ty) | TCustom (t : ty)
| TStruct (fs : fields)
with fields :=
| FNil | FCons (name jsontag flagtag : string) (exported anonymous : bool) (t : ty) (fs : fields).

(** [structTarget], [elemType]: [None] is the nil type. *)
Fixpoint structTarget (t : ty) : option fields :=
  match t with TPointer t => structTarget t | TStruct fs => Some fs | _ => None end.
Fixpoint elemType (t : ty) : option ty :=
  match t with TPointer t => elemType t | TSlice t | TArray t => Some t | TCustom t => elemType t | _ => None end.

Definition comma : Byte.byte := Byte.x2c.
(** The name before the first comma of a json tag. *)
Definition tag_name (tag : string) : string := b2s (cut_at comma (s2b tag)).1.

(** [collectJSONFields]: the exact key of each field, embedded structs flattened. *)
Fixpoint collectJSONFields (fs : fields) (out : gmap string ty) : gmap string ty :=
  match fs with
  | FNil => out
  | FCons name jsontag _ exported anonymous t fs =>
      let key := tag_name jsontag in
      let out :=
        if negb exported && negb anonymous then out
        else if (key =?s "-") && negb (HasPrefix jsontag "-,") then out
        else if key =?s "" then
          match (if anonymous then flatten t out else None) with
          | Some out => out
          | None => <[name := t]> out
          end
        else <[key := t]> out in
      collectJSONFields fs out
  end
with flatten (t : ty) (out : gmap string ty) : option (gmap string ty) :=
  match t with
  | TPointer t | TCustom t => flatten t out
  | TStruct fs => Some (collectJSONFields fs out)
  | _ => None
  end.
Definition jsonFields (fs : fields) : gmap string ty := collectJSONFields fs ∅.

(** ** The token stream

    What the decoder's [Token] yields of a text until it first fails: a string
    (a key or a value), another scalar, or a delimiter.  A failing [Token] fails
    again however often it is called, as nothing of the text is consumed.
    [before] and [after] are what [More] answers before the first failure and
    after it: whether there is a byte and it closes nothing. *)
Inductive token := Str (s : string) | Lit | Open_obj | Close_obj | Open_arr | Close_arr.
Record stream := mkStream { toks : list token; before : bool; after : bool }.
Inductive position := At (ts : list token) | Stuck.

Definition Token (p : position) : option token * position :=
  match p with At (t :: ts) => (Some t, At ts) | _ => (None, Stuck) end.
Definition More (before after : bool) (p : position) : bool :=
  match p with
  | At [] => before
  | Stuck => after
  | At (Close_obj :: _) | At (Close_arr :: _) => false
  | At _ => true
  end.

(** strings.EqualFold, which depends on the Unicode tables. *)
Class Folding := { EqualFold : string -> string -> bool }.

Section Keys.
Context {FT : Folding}.

Definition caseVariantOf (fs : gmap string ty) (key : string) : option string :=
  find (fun name => EqualFold name key) (map_to_list fs).*1.

Definition duplicate (at_ : string) : error :=
  Errorf "duplicate key %q: JSON resolves a repeated key to its LAST value, so the file states one thing and would be read as another"
    [AStr at_].
Definition variant (at_ want : string) : error :=
  Errorf "key %q differs from field %q only by case: encoding/json would match it anyway, so it sets that field without ever being an unknown one, and it silently overrides a correctly-cased key"
    [AStr at_; AStr want].
Definition child (path key : string) : string := if path =?s "" then key else path +:+ "." +:+ key.

(** The type the value of [key] decodes into, or the refusal of the key. *)
Definition next_type (fs : option (gmap string ty)) (at_ key : string) : result (option ty) :=
  match fs with
  | None => Ok None
  | Some fs =>
      match fs !! key with
      | Some t => Ok (Some t)
      | None => match caseVariantOf fs key with Some want => Err (variant at_ want) | None => Ok None end
      end
  end.

(** The walk: where the stream is afterwards, or the error, which is [tail] for
    a delimiter that cannot be read; [None] is a walk that needs more fuel. *)
Section Walk.
Context (before after : bool) (tail : error).

Fixpoint walkValue (fuel : nat) (t : option ty) (path : string) (p : position) : option (result position) :=
  match fuel with
  | O => None
  | S fuel =>
      match Token p with
      | (None, p) => Some (Ok p)
      | (Some Open_obj, p) => walkObject fuel (jsonFields <$> (t ≫= structTarget)) ∅ path p
      | (Some Open_arr, p) => walkArray fuel (t ≫= elemType) (path +:+ "[]") p
      | (Some _, p) => Some (Ok p)
      end
  end
with walkObject (fuel : nat) (fs : option (gmap string ty)) (seen : gset string) (path : string) (p : position)
  : option (result position) :=
  match fuel with
  | O => None
  | S fuel =>
      if More before after p then
        match Token p with
        | (None, p) => Some (Ok p)
        | (Some (Str key), p) =>
            let at_ := child path key in
            if bool_decide (key ∈ seen) then Some (Err (duplicate at_))
            else
              match next_type fs at_ key with
              | Err e => Some (Err e)
              | Ok next =>
                  match walkValue fuel next at_ p with
                  | Some (Ok p) => walkObject fuel fs ({[key]} ∪ seen) path p
                  | r => r
                  end
              end
        | _ => Some (Err (New "object key is not a string"))
        end
      else match Token p with (None, _) => Some (Err tail) | (_, p) => Some (Ok p) end
  end
with walkArray (fuel : nat) (t : option ty) (path : string) (p : position) : option (result position) :=
  match fuel with
  | O => None
  | S fuel =>
      if More before after p then
        match walkValue fuel t path p with
        | Some (Ok p) => walkArray fuel t path p
        | r => r
        end
      else match Token p with (None, _) => Some (Err tail) | (_, p) => Some (Ok p) end
  end.
End Walk.

Definition checkKeys (fuel : nat) (s : stream) (tail : error) (v : ty) : option (result unit) :=
  match walkValue (before s) (after s) tail fuel (Some v) "" (At (toks s)) with
  | Some r => Some (let! _ := r in Ok tt)
  | None => None
  end.

(** [DecodeStrict]: [tokens] and [decode] are encoding/json's, the second with
    unknown fields disallowed, and with whether the next decode meets the end. *)
Section Decode.
Context {A : Type} (v : ty) (tokens : bytes -> stream * error) (decode : bytes -> result (A * bool)).
Definition DecodeStrict (fuel : nat) (data : bytes) : option (result A) :=
  match checkKeys fuel (tokens data).1 (tokens data).2 v with
  | None => None
  | Some (Err e) => Some (Err e)
  | Some (Ok _) =>
      Some (let! r := decode data in
            check! reject_if (negb r.2) (New "unexpected content after the top-level object");
            Ok r.1)
  end.
Definition Load (fuel : nat) (path : string) (data : result bytes) : option (result A) :=
  match data with
  | Err e => Some (Err (Errorf "read config %q: %w" [AStr path; AErr e]))
  | Ok data =>
      match DecodeStrict fuel data with
      | None => None
      | Some r => Some (wrap (fun e => Errorf "parse config %q: %w" [AStr path; AErr e]) r)
      end
  end.
End Decode.

(** ** The flags of a schema *)

Fixpoint collect (fs : fields) (out : gset string) : gset string :=
  match fs with
  | FNil => out
  | FCons _ _ flagtag _ _ t fs =>
      collect fs (collectFrom t (if negb (flagtag =?s "") then {[flagtag]} ∪ out else out))
  end
with collectFrom (t : ty) (out : gset string) : gset string :=
  match t with
  | TPointer t | TSlice t | TArray t | TMap t | TCustom t => collectFrom t out
  | TStruct fs => collect fs out
  | TScalar => out
  end.
Fixpoint FlagNames (schema : ty) : gset string :=
  match schema with
  | TPointer t | TCustom t => FlagNames t
  | TStruct fs => collect fs ∅
  | _ => ∅
  end.

(** [set_] is what [Visit] walks: the flags given, in lexical order. *)
Definition Conflicting (set_ : list string) (covered : gset string) : list string :=
  merge_sort String.le (List.filter (fun f => bool_decide (f ∈ covered)) set_).
End Keys.

(** ** The walk returns, or does not *)

Definition left (p : position) : nat := match p with At ts => S (length ts) | Stuck => 0 end.
Lemma Token_left p : left (Token p).2 = pred (left p).
Proof. by destruct p as [[|t ts]|]. Qed.
Lemma Token_Some p t q : Token p = (Some t, q) -> left p = S (left q) /\ (0 < left q)%nat.
Proof. destruct p as [[|t' ts]|]; intros [= <- <-]. simpl. lia. Qed.

Definition within (n : nat) (r : option (result position)) : Prop :=
  exists x, r = Some x /\ forall q, x = Ok q -> (left q <= n)%nat.

(** The equations of the walk. *)
Section Equations.
Context {FT : Folding} (before after : bool) (tail : error).
Lemma walkValue_S n t path p :
  walkValue before after tail (S n) t path p =
    match Token p with
    | (None, p) => Some (Ok p)
    | (Some Open_obj, p) => walkObject before after tail n (jsonFields <$> (t ≫= structTarget)) ∅ path p
    | (Some Open_arr, p) => walkArray before after tail n (t ≫= elemType) (path +:+ "[]") p
    | (Some _, p) => Some (Ok p)
    end.
Proof. reflexivity. Qed.
Lemma walkObject_S n fs seen path p :
  walkObject before after tail (S n) fs seen path p =
    if More before after p then
      match Token p with
      | (None, p) => Some (Ok p)
      | (Some (Str key), p) =>
          if bool_decide (key ∈ seen) then Some (Err (duplicate (child path key)))
          else
            match next_type fs (child path key) key with
            | Err e => Some (Err e)
            | Ok next =>
                match walkValue before after tail n next (child path key) p with
                | Some (Ok p) => walkObject before after tail n fs ({[key]} ∪ seen) path p
                | r => r
                end
            end
      | _ => Some (Err (New "object key is not a string"))
      end
    else match Token p with (None, _) => Some (Err tail) | (_, p) => Some (Ok p) end.
Proof. reflexivity. Qed.
Lemma walkArray_S n t path p :
  walkArray before after tail (S n) t path p =
    if More before after p then
      match walkValue before after tail n t path p with
      | Some (Ok p) => walkArray before after tail n t path p
      | r => r
      end
    else match Token p with (None, _) => Some (Err tail) | (_, p) => Some (Ok p) end.
Proof. reflexivity. Qed.
End Equations.

Section Returns.
Context {FT : Folding}.

Lemma closing_within p tail :
  within (left p) (match Token p with (None, _) => Some (Err tail) | (_, q) => Some (Ok q) end).
Proof.
  destruct (Token p) as [[t|] q] eqn:E; eexists; (split; [reflexivity|]); intros q'; [intros [= <-]|done].
  apply Token_Some in E. lia.
Qed.

Lemma walk_within before tail fuel :
  (forall t path p, (2 * left p < fuel)%nat -> within (pred (left p)) (walkValue before false tail fuel t path p))
  /\ (forall fs seen path p, (2 * left p + 1 < fuel)%nat -> within (left p) (walkObject before false tail fuel fs seen path p))
  /\ (forall t path p, (2 * left p + 1 < fuel)%nat -> within (left p) (walkArray before false tail fuel t path p)).
Proof.
  induction fuel as [|fuel (IHv & IHo & IHa)]; [split_and!; intros; lia|]. split_and!.
  - intros t path p Hf. rewrite walkValue_S. destruct (Token p) as [[tok|] q] eqn:E.
    + apply Token_Some in E as [El Hq]. rewrite El. cbn [pred].
      destruct tok; try (eexists; split; [reflexivity|]; by intros ? [= <-]); [apply IHo|apply IHa]; lia.
    + pose proof (Token_left p) as H. rewrite E in H. cbn [snd] in H. eexists; split; [reflexivity|]. intros ? [= <-]. lia.
  - intros fs seen path p Hf. rewrite walkObject_S. destruct (More before false p) eqn:Em; [|apply closing_within].
    pose proof (Token_left p) as H. destruct (Token p) as [[tok|] q] eqn:E; cbn [snd] in H.
    2: { eexists; split; [reflexivity|]. intros ? [= <-]. lia. }
    apply Token_Some in E as [El Hq]. destruct tok; try (by eexists). case_bool_decide; [by eexists|].
    destruct (next_type fs (child path s) s) as [next|e]; [|by eexists].
    destruct (IHv next (child path s) q) as (x & -> & Hx); [lia|]. destruct x as [q'|e]; [|by eexists].
    specialize (Hx q' eq_refl). destruct (IHo fs ({[s]} ∪ seen) path q') as (x & -> & Hx'); [lia|].
    eexists; split; [reflexivity|]. intros q'' Hq''. specialize (Hx' q'' Hq''). lia.
  - intros t path p Hf. rewrite walkArray_S. destruct (More before false p) eqn:Em; [|apply closing_within].
    assert (Hp : (0 < left p)%nat) by (destruct p; simpl in *; [lia|done]).
    destruct (IHv t path p) as (x & -> & Hx); [lia|]. destruct x as [q'|e]; [|by eexists].
    specialize (Hx q' eq_refl). destruct (IHa t path q') as (x & -> & Hx'); [lia|].
    eexists; split; [reflexivity|]. intros q'' Hq''. specialize (Hx' q'' Hq''). lia.
Qed.

(** Inside an array that is stuck before a byte that closes nothing, the walk
    goes round for ever. *)
Lemma stuck_array before tail fuel t path : walkArray before true tail fuel t path Stuck = None.
Proof.
  induction fuel as [|fuel IH]; [done|]. rewrite walkArray_S. cbn [More]. destruct fuel as [|fuel]; [done|]. rewrite walkValue_S. cbn [Token].
  exact IH.
Qed.
Lemma stuck_after tail fuel t path ts :
  Forall (fun k => k = Lit \/ exists s, k = Str s) ts -> walkArray true true tail fuel t path (At ts) = None.
Proof.
  intros Ht. revert fuel. induction Ht as [|k ts Hk _ IH]; intros fuel.
  - destruct fuel as [|fuel]; [done|]. rewrite walkArray_S. cbn [More]. destruct fuel as [|fuel]; [done|]. rewrite walkValue_S. cbn [Token].
    apply stuck_array.
  - destruct fuel as [|[|fuel]]; [done|by destruct Hk as [->|[s ->]]|].
    destruct Hk as [->|[s ->]]; rewrite walkArray_S, walkValue_S; cbn [More Token]; apply IH.
Qed.

Lemma broken_array tail v ts n :
  Forall (fun k => k = Lit \/ exists s, k = Str s) ts -> checkKeys n (mkStream (Open_arr :: ts) true true) tail v = None.
Proof.
  intros Ht. unfold checkKeys. cbn [toks before after]. destruct n as [|n]; [done|]. rewrite walkValue_S. cbn [Token].
  by rewrite stuck_after.
Qed.

(** C27: when a strict read returns.  The walk over the keys ends, within twice
    the number of tokens, on every text in which the reader of tokens does not
    stop before a byte that closes nothing: every well-formed document, and
    every one cut short after a token.  On an array of scalars that is broken
    there, as by a missing comma, it never returns, whatever the schema. *)
Theorem walk_returns tail v :
  (forall s n, after s = false -> (2 * length (toks s) + 2 < n)%nat -> exists r, checkKeys n s tail v = Some r)
  /\ forall ts n, Forall (fun k => k = Lit \/ exists s, k = Str s) ts ->
       checkKeys n (mkStream (Open_arr :: ts) true true) tail v = None.
Proof.
  split.
  - intros s n Ha Hn. unfold checkKeys. rewrite Ha.
    destruct (proj1 (walk_within (before s) tail n) (Some v) ""%string (At (toks s))) as (x & -> & _); [simpl; lia|].
    by eexists.
  - intros ts n Ht. by apply broken_array.
Qed.
End Returns.

(** ** Which documents are accepted *)

(** A well-formed document and the tokens of its text. *)
Inductive doc := DStr (s : string) | DLit | DArr (ds : docs) | DObj (ms : members)
with docs := DNil | DCons (d : doc) (ds : docs)
with members := MNil | MCons (key : string) (d : doc) (ms : members).
Scheme doc_mut := Induction for doc Sort Prop
with docs_mut := Induction for docs Sort Prop
with members_mut := Induction for members Sort Prop.
Combined Scheme doc_ind_all from doc_mut, docs_mut, members_mut.

Fixpoint doc_tokens (d : doc) : list token :=
  match d with
  | DStr s => [Str s]
  | DLit => [Lit]
  | DArr ds => Open_arr :: docs_tokens ds ++ [Close_arr]
  | DObj ms => Open_obj :: members_tokens ms ++ [Close_obj]
  end
with docs_tokens (ds : docs) : list token :=
  match ds with DNil => [] | DCons d ds => doc_tokens d ++ docs_tokens ds end
with members_tokens (ms : members) : list token :=
  match ms with MNil => [] | MCons k d ms => Str k :: doc_tokens d ++ members_tokens ms end.
Fixpoint keys (ms : members) : list string := match ms with MNil => [] | MCons k _ ms => k :: keys ms end.

Section Documents.
Context {FT : Folding}.

(** How the decoder matches a key to a field: exactly, else up to case. *)
Definition matched (fs : gmap string ty) (key : string) : option string :=
  match fs !! key with Some _ => Some key | None => caseVariantOf fs key end.

(** The objects of a document, each with the fields it decodes into, if it
    decodes into a struct. *)
Inductive visits : option ty -> doc -> option (gmap string ty) -> members -> Prop :=
| visit_here t ms : visits t (DObj ms) (jsonFields <$> (t ≫= structTarget)) ms
| visit_member t ms fs' ms' : visits_in (jsonFields <$> (t ≫= structTarget)) ms fs' ms' -> visits t (DObj ms) fs' ms'
| visit_element t ds fs' ms' : visits_each (t ≫= elemType) ds fs' ms' -> visits t (DArr ds) fs' ms'
with visits_in : option (gmap string ty) -> members -> option (gmap string ty) -> members -> Prop :=
| in_here fs k d ms fs' ms' : visits (fs ≫= (.!! k)) d fs' ms' -> visits_in fs (MCons k d ms) fs' ms'
| in_later fs k d ms fs' ms' : visits_in fs ms fs' ms' -> visits_in fs (MCons k d ms) fs' ms'
with visits_each : option ty -> docs -> option (gmap string ty) -> members -> Prop :=
| each_here t d ds fs' ms' : visits t d fs' ms' -> visits_each t (DCons d ds) fs' ms'
| each_later t d ds fs' ms' : visits_each t ds fs' ms' -> visits_each t (DCons d ds) fs' ms'.

(** An object that means one thing: no key is repeated, and the decoder matches
    a key to the field of that very name or to none. *)
Definition exact (fs : option (gmap string ty)) (key : string) : Prop :=
  forall g, fs = Some g -> matched g key = None \/ matched g key = Some key.
Definition plain (fs : option (gmap string ty)) (seen : gset string) (ms : members) : Prop :=
  NoDup (keys ms) /\ Forall (fun k => k ∉ seen /\ exact fs k) (keys ms).

Lemma caseVariantOf_in fs key w : caseVariantOf fs key = Some w -> is_Some (fs !! w).
Proof.
  unfold caseVariantOf. intros [Hin _]%find_some. apply list_elem_of_In, list_elem_of_fmap in Hin as ([k t] & -> & Hin).
  exists t. by apply elem_of_map_to_list in Hin.
Qed.
Lemma next_type_exact fs at_ key :
  (exact fs key -> next_type fs at_ key = Ok (fs ≫= (.!! key))) /\ (~ exact fs key -> exists e, next_type fs at_ key = Err e).
Proof.
  unfold exact, next_type, matched. destruct fs as [g|]; [|split; [done|]; intros H; exfalso; by apply H].
  change (Some g ≫= (.!! key)) with (g !! key). destruct (g !! key) as [t|] eqn:E.
  - split; [done|]. intros H. exfalso. apply H. intros g' [= <-]. rewrite E. by right.
  - destruct (caseVariantOf g key) as [w|] eqn:Ew.
    + split; [|intros _; by eexists]. intros H. destruct (H g eq_refl) as [H'|H']; rewrite E in H'; [congruence|].
      assert (w = key) as -> by congruence. apply caseVariantOf_in in Ew as [? Ew]. congruence.
    + split; [done|]. intros H. exfalso. apply H. intros g' [= <-]. rewrite E. by left.
Qed.

Lemma plain_cons fs seen k d ms :
  plain fs seen (MCons k d ms) <-> k ∉ seen /\ exact fs k /\ plain fs ({[k]} ∪ seen) ms.
Proof.
  unfold plain. cbn [keys]. rewrite NoDup_cons, Forall_cons. rewrite !Forall_forall. split.
  - intros ((Hk & Hn) & (Hs & He) & Hall). split_and!; [done..|]. intros x Hx. destruct (Hall x Hx). set_solver.
  - intros (Hs & He & Hn & Hall). split_and!; [|done..|].
    + intros Hin. destruct (Hall k Hin) as [H _]. set_solver.
    + intros x Hx. destruct (Hall x Hx). set_solver.
Qed.

Definition clean_value (t : option ty) (d : doc) : Prop := forall fs ms, visits t d fs ms -> plain fs ∅ ms.
Definition clean_in (fs : option (gmap string ty)) (ms : members) : Prop := forall fs' ms', visits_in fs ms fs' ms' -> plain fs' ∅ ms'.
Definition clean_each (t : option ty) (ds : docs) : Prop := forall fs ms, visits_each t ds fs ms -> plain fs ∅ ms.

Lemma clean_obj t ms :
  clean_value t (DObj ms) <-> plain (jsonFields <$> (t ≫= structTarget)) ∅ ms /\ clean_in (jsonFields <$> (t ≫= structTarget)) ms.
Proof.
  unfold clean_value, clean_in. split.
  - intros H. split; [apply H; constructor|]. intros fs ms' Hv. apply H. by constructor.
  - intros [Hp Hi] fs ms' Hv. inversion Hv; subst; [done|by apply Hi].
Qed.
Lemma clean_arr t ds : clean_value t (DArr ds) <-> clean_each (t ≫= elemType) ds.
Proof.
  unfold clean_value, clean_each. split; intros H fs ms Hv; [apply H; by constructor|inversion Hv; subst; by apply H].
Qed.
Lemma clean_in_cons fs k d ms : clean_in fs (MCons k d ms) <-> clean_value (fs ≫= (.!! k)) d /\ clean_in fs ms.
Proof.
  unfold clean_in, clean_value. split.
  - intros H. split; intros fs' ms' Hv; apply H; [by apply in_here|by apply in_later].
  - intros [Hd Hm] fs' ms' Hv. inversion Hv; subst; [by apply Hd|by apply Hm].
Qed.
Lemma clean_each_cons t d ds : clean_each t (DCons d ds) <-> clean_value t d /\ clean_each t ds.
Proof.
  unfold clean_each, clean_value. split.
  - intros H. split; intros fs ms Hv; apply H; [by apply each_here|by apply each_later].
  - intros [Hd Hm] fs ms Hv. inversion Hv; subst; [by apply Hd|by apply Hm].
Qed.

(** The walk over a part of a document: past it, or an error. *)
Definition outcome (P : Prop) (rest : list token) (r : option (result position)) : Prop :=
  r = Some (Ok (At rest)) /\ P \/ (exists e, r = Some (Err e)) /\ ~ P.
Lemma outcome_iff P Q rest r : (P <-> Q) -> outcome P rest r -> outcome Q rest r.
Proof. unfold outcome. tauto. Qed.

Lemma More_doc b a d ts : More b a (At (doc_tokens d ++ ts)) = true.
Proof. by destruct d. Qed.
Lemma doc_tokens_pos d : (0 < length (doc_tokens d))%nat.
Proof. destruct d; simpl; lia. Qed.

Lemma walk_doc b a tail :
  (forall d t n path rest, (2 * length (doc_tokens d) <= n)%nat ->
     outcome (clean_value t d) rest (walkValue b a tail n t path (At (doc_tokens d ++ rest))))
  /\ (forall ds t n path rest, (2 * length (docs_tokens ds) < n)%nat ->
     outcome (clean_each t ds) rest (walkArray b a tail n t path (At (docs_tokens ds ++ Close_arr :: rest))))
  /\ (forall ms fs seen n path rest, (2 * length (members_tokens ms) < n)%nat ->
     outcome (plain fs seen ms /\ clean_in fs ms) rest
       (walkObject b a tail n fs seen path (At (members_tokens ms ++ Close_obj :: rest)))).
Proof.
  apply doc_ind_all.
  - intros s t [|n] path rest Hn; [simpl in Hn; lia|]. left. split; [done|]. intros fs ms H. inversion H.
  - intros t [|n] path rest Hn; [simpl in Hn; lia|]. left. split; [done|]. intros fs ms H. inversion H.
  - intros ds IH t n path rest Hn. cbn [doc_tokens] in *. rewrite length_cons, length_app in Hn. simpl in Hn.
    destruct n as [|n]; [lia|]. rewrite walkValue_S. cbn [app Token]. rewrite <- app_assoc.
    eapply outcome_iff; [symmetry; apply clean_arr|]. apply IH. lia.
  - intros ms IH t n path rest Hn. cbn [doc_tokens] in *. rewrite length_cons, length_app in Hn. simpl in Hn.
    destruct n as [|n]; [lia|]. rewrite walkValue_S. cbn [app Token]. rewrite <- app_assoc.
    eapply outcome_iff; [symmetry; apply clean_obj|]. apply IH. lia.
  - intros t [|n] path rest Hn; [lia|]. left. split; [done|]. intros fs ms H. inversion H.
  - intros d IHd ds IHds t n path rest Hn. cbn [docs_tokens] in *. rewrite length_app in Hn.
    pose proof (doc_tokens_pos d). destruct n as [|n]; [lia|]. rewrite walkArray_S, <- app_assoc, More_doc.
    eapply outcome_iff; [symmetry; apply clean_each_cons|].
    destruct (IHd t n path (docs_tokens ds ++ Close_arr :: rest)) as [[-> Hd]|[[e ->] Hd]]; [lia| |right; split; [by eexists|tauto]].
    destruct (IHds t n path rest) as [[-> Hs]|[[e ->] Hs]]; [lia|by left|right; split; [by eexists|tauto]].
  - intros fs seen [|n] path rest Hn; [lia|]. left. split; [done|].
    split; [split; constructor|]. intros fs' ms' H. inversion H.
  - intros k d IHd ms IHms fs seen n path rest Hn. cbn [members_tokens] in *. rewrite length_cons, length_app in Hn.
    destruct n as [|n]; [lia|]. rewrite walkObject_S. cbn [app More Token]. rewrite <- app_assoc.
    apply (outcome_iff ((k ∉ seen /\ exact fs k /\ plain fs ({[k]} ∪ seen) ms) /\ clean_value (fs ≫= (.!! k)) d /\ clean_in fs ms));
      [by rewrite plain_cons, clean_in_cons|].
    case_bool_decide as Hs; [right; split; [by eexists|tauto]|].
    destruct (next_type_exact fs (child path k) k) as [He Hne].
    destruct (next_type fs (child path k) k) as [next|e] eqn:En.
    2: { right. split; [by eexists|]. intros [(_ & Hx & _) _]. specialize (He Hx). congruence. }
    assert (Hx : ~ ~ exact fs k) by (intros Hx; destruct (Hne Hx); congruence).
    assert (Hexact : exact fs k).
    { destruct fs as [g|]; [|by intros]. intros g' [= <-].
      destruct (decide (matched g k = None)); [by left|]. destruct (decide (matched g k = Some k)); [by right|].
      exfalso. apply Hx. intros Hy. destruct (Hy g eq_refl); done. }
    specialize (He Hexact). injection He as ->.
    destruct (IHd (fs ≫= (.!! k)) n (child path k) (members_tokens ms ++ Close_obj :: rest)) as [[-> Hd]|[[e ->] Hd]];
      [lia| |right; split; [by eexists|tauto]].
    destruct (IHms fs ({[k]} ∪ seen) n path rest) as [[-> Hm]|[[e ->] Hm]]; [lia|left; tauto|right; split; [by eexists|tauto]].
Qed.

(** The members of an object whose key the decoder matches to the field, and
    those that spell its name. *)
Fixpoint matching (p : string -> bool) (ms : members) : list doc :=
  match ms with MNil => [] | MCons k d ms => if p k then d :: matching p ms else matching p ms end.

Lemma plain_matching g ms name :
  plain (Some g) ∅ ms -> is_Some (g !! name) ->
  matching (fun k => bool_decide (matched g k = Some name)) ms = matching (fun k => bool_decide (k = name)) ms
  /\ (length (matching (fun k => bool_decide (k = name)) ms) <= 1)%nat.
Proof.
  intros [Hn Hf] [t Ht]. split.
  - clear Hn. induction ms as [|k d ms IH]; [done|]. cbn [keys matching] in *. apply Forall_cons in Hf as [[_ He] Hf].
    rewrite (IH Hf). rewrite (bool_decide_ext (matched g k = Some name) (k = name)); [done|].
    split; [|intros ->; unfold matched; by rewrite Ht]. intros Hm. destruct (He g eq_refl); congruence.
  - clear Hf. induction ms as [|k d ms IH]; simpl; [lia|]. cbn [keys] in Hn. apply NoDup_cons in Hn as [Hk Hn].
    case_bool_decide as Hkn; [|by apply IH]. subst k. simpl.
    assert (E : matching (fun k => bool_decide (k = name)) ms = []).
    { clear -Hk. induction ms as [|k d ms IH]; [done|]. cbn [keys matching] in *. apply not_elem_of_cons in Hk as [Hk1 Hk2].
      rewrite bool_decide_false by congruence. by apply IH. }
    rewrite E. simpl. lia.
Qed.

(** C26: strictness is what it claims.  On a well-formed document the walk
    answers, and accepts exactly when no object repeats a key, at any depth, and
    every key of an object that decodes into a struct is matched to the field it
    spells, if to any.  In an accepted document the members the decoder takes for
    a field are therefore those that spell its name, and there is at most one:
    the value that is read is the value that is written. *)
Theorem strict_documents tail v d n b a :
  (2 * length (doc_tokens d) <= n)%nat ->
  exists r, checkKeys n (mkStream (doc_tokens d) b a) tail v = Some r
    /\ (r = Ok tt <-> forall fs ms, visits (Some v) d fs ms -> NoDup (keys ms) /\ Forall (exact fs) (keys ms))
    /\ (r = Ok tt -> forall g ms name, visits (Some v) d (Some g) ms -> is_Some (g !! name) ->
          matching (fun k => bool_decide (matched g k = Some name)) ms = matching (fun k => bool_decide (k = name)) ms
          /\ (length (matching (fun k => bool_decide (k = name)) ms) <= 1)%nat).
Proof.
  intros Hn. unfold checkKeys. cbn [toks before after].
  assert (Hc : clean_value (Some v) d <-> forall fs ms, visits (Some v) d fs ms -> NoDup (keys ms) /\ Forall (exact fs) (keys ms)).
  { unfold clean_value, plain. split; intros H fs ms Hv; destruct (H fs ms Hv) as [? Hf]; (split; [done|]);
      eapply Forall_impl; [exact Hf|by intros k [_ ?]|exact Hf|]. intros k ?. split; [apply not_elem_of_empty|done]. }
  pose proof (proj1 (walk_doc b a tail) d (Some v) n ""%string [] Hn) as [[Hw Hd]|[[e Hw] Hd]]; rewrite app_nil_r in Hw; rewrite Hw.
  - eexists. split; [reflexivity|]. split; [by rewrite <- Hc|]. intros _ g ms name Hv Hs. by apply plain_matching; [apply Hd|].
  - eexists. split; [reflexivity|]. split; [rewrite <- Hc|done]. split; [done|]. intros H. by destruct Hd.
Qed.
End Documents.

(** ** Which flags a schema displaces *)

(** A struct type names a flag if one of its fields does, or a field's type
    does, through containers. *)
Inductive names_flag : ty -> string -> Prop :=
| named_in fs f : field_names fs f -> names_flag (TStruct fs) f
| named_pointer t f : names_flag t f -> names_flag (TPointer t) f
| named_slice t f : names_flag t f -> names_flag (TSlice t) f
| named_array t f : names_flag t f -> names_flag (TArray t) f
| named_map t f : names_flag t f -> names_flag (TMap t) f
| named_custom t f : names_flag t f -> names_flag (TCustom t) f
with field_names : fields -> string -> Prop :=
| by_tag name jt flag ex an t fs : flag <> ""%string -> field_names (FCons name jt flag ex an t fs) flag
| by_type name jt flag ex an t fs f : names_flag t f -> field_names (FCons name jt flag ex an t fs) f
| by_next name jt flag ex an t fs f : field_names fs f -> field_names (FCons name jt flag ex an t fs) f.
Scheme ty_mut := Induction for ty Sort Prop
with fields_mut := Induction for fields Sort Prop.
Combined Scheme ty_ind_all from ty_mut, fields_mut.

Lemma collect_names :
  (forall t out f, f ∈ collectFrom t out <-> f ∈ out \/ names_flag t f)
  /\ (forall fs out f, f ∈ collect fs out <-> f ∈ out \/ field_names fs f).
Proof.
  apply ty_ind_all; cbn [collectFrom collect].
  - intros out f. split; [by left|]. intros [?|H]; [done|inversion H].
  - intros t IH out f. rewrite IH. split; (intros [?|H]; [by left|right]); [by constructor|by inversion H].
  - intros t IH out f. rewrite IH. split; (intros [?|H]; [by left|right]); [by constructor|by inversion H].
  - intros t IH out f. rewrite IH. split; (intros [?|H]; [by left|right]); [by constructor|by inversion H].
  - intros t IH out f. rewrite IH. split; (intros [?|H]; [by left|right]); [by constructor|by inversion H].
  - intros t IH out f. rewrite IH. split; (intros [?|H]; [by left|right]); [by constructor|by inversion H].
  - intros fs IH out f. rewrite IH. split; (intros [?|H]; [by left|right]); [by constructor|by inversion H].
  - intros out f. split; [by left|]. intros [?|H]; [done|inversion H].
  - intros name jt flag ex an t IHt fs IHfs out f. rewrite IHfs, IHt. split.
    + intros [[Ho|Ht]|Hf]; [|right; by apply by_type|right; by apply by_next].
      destruct (flag =?s "") eqn:E; cbn [negb] in Ho; [by left|]. apply str_eqb_false in E.
      apply elem_of_union in Ho as [->%elem_of_singleton|Ho]; [right; by apply by_tag|by left].
    + intros [Ho|H]; [left; left; destruct (negb (flag =?s "")); set_solver|].
      inversion H; subst; [|by left; right|by right]. left; left.
      destruct (f =?s "") eqn:E; [by apply str_eqb_true in E|]. cbn [negb]. set_solver.
Qed.

(** Through pointers, the schema is a struct. *)
Fixpoint schema (t : ty) : Prop := match t with TPointer t | TCustom t => schema t | TStruct _ => True | _ => False end.

(** a flag is refused beside a configuration file exactly when it was given and
    some field the schema reaches, through structs and containers, names it; the
    refusal lists each such flag, sorted. *)
Theorem displaced_flags v set_ :
  schema v -> NoDup set_ ->
  (forall f, f ∈ Conflicting set_ (FlagNames v) <-> f ∈ set_ /\ names_flag v f)
  /\ NoDup (Conflicting set_ (FlagNames v)) /\ Sorted String.le (Conflicting set_ (FlagNames v)).
Proof.
  intros Hv Hn. assert (HF : forall f, f ∈ FlagNames v <-> names_flag v f).
  { intros f. induction v as [|t IH|t IH|t IH|t IH|t IH|fs]; try done; cbn [FlagNames].
    - rewrite (IH Hv). split; [by constructor|by inversion 1].
    - rewrite (IH Hv). split; [by constructor|by inversion 1].
    - rewrite (proj2 collect_names). split; [intros [?%not_elem_of_empty|?]; [done|by constructor]|].
      inversion 1; subst. by right. }
  unfold Conflicting. split_and!.
  - intros f. rewrite merge_sort_Permutation, list_elem_of_In, filter_In, <- list_elem_of_In, bool_decide_eq_true. by rewrite HF.
  - rewrite merge_sort_Permutation. apply NoDup_ListNoDup, List.NoDup_filter. by apply NoDup_ListNoDup.
  - apply Sorted_merge_sort, _.
Qed.

(** ** A concrete schema *)

#[local] Instance ascii_fold : Folding := {| EqualFold := fun a b => map lower_byte (s2b a) =?b map lower_byte (s2b b) |}.
Definition test_schema : ty :=
  TStruct (FCons "Sock" "sock" "sock" true false TScalar
    (FCons "Keys" "attestation_keys,omitempty" "attestation-key" true false (TSlice TScalar)
    (FCons "Extra" "" "" true true (TStruct (FCons "Comment" "comment,omitempty" "" true false TScalar FNil)) FNil))).
Definition test_walk (d : doc) : option (result unit) :=
  checkKeys 50 (mkStream (doc_tokens d) false false) (New "EOF") (TPointer test_schema).

Lemma strict_documents_witness :
  exists r, test_walk (DObj (MCons "Sock" DLit MNil)) = Some r /\ r <> Ok tt.
Proof.
  destruct (strict_documents (New "EOF") (TPointer test_schema) (DObj (MCons "Sock" DLit MNil)) 50 false false) as (r & Hr & Hiff & _).
  - simpl. lia.
  - exists r. split; [exact Hr|]. intros ->. destruct (proj1 Hiff eq_refl _ _ (visit_here _ _)) as [_ Hf].
    apply Forall_cons in Hf as [Hf _]. destruct (Hf _ eq_refl) as [H|H]; vm_compute in H; discriminate H.
Defined.
Example documents :
  test_walk (DObj (MCons "sock" (DStr "x") (MCons "comment" DLit (MCons "other" DLit MNil)))) = Some (Ok tt)
  /\ (exists e, test_walk (DObj (MCons "sock" DLit (MCons "sock" DLit MNil))) = Some (Err e))
  /\ (exists e, test_walk (DObj (MCons "other" (DArr (DCons (DObj (MCons "a" DLit (MCons "a" DLit MNil))) DNil)) MNil)) = Some (Err e))
  /\ (exists e, test_walk (DObj (MCons "COMMENT" DLit MNil)) = Some (Err e)).
Proof. repeat split; vm_compute; eauto. Qed.
Example flags : FlagNames test_schema = {["sock"; "attestation-key"]}.
Proof. vm_compute. reflexivity. Qed.
(** [["a" "b"]]: after the first element no token can be read. *)
Example missing_comma : forall n, checkKeys n (mkStream [Open_arr; Str "a"] true true) (New "invalid character") test_schema = None.
Proof. intros n. apply broken_array. constructor; [right; by eexists|constructor]. Qed.
End config.
