(* ===== verification/Types.v ===== *)
(** pkg/types: the vocabulary of actions and decisions, and the one flattening
    of an action that caveats and policy conditions are both evaluated on. *)
From S2P Require Import Prelude GoFmt GoTime GoJson GoJsonText GoJsonInj.

Module types.

Abbreviation DID := string.

Definition PrincipalKind : Type := Z.
Definition KindHuman : PrincipalKind := 0.
Definition KindOrg : PrincipalKind := 1.
Definition KindAgent : PrincipalKind := 2.
Definition KindSubAgent : PrincipalKind := 3.
Definition PrincipalKind_String (k : PrincipalKind) : string :=
  if (k =? KindHuman)%Z then "human" else if (k =? KindOrg)%Z then "org" else if (k =? KindAgent)%Z then "agent"
  else if (k =? KindSubAgent)%Z then "sub-agent" else "unknown".
Record Principal := mkPrincipal { PDID : DID; PKind : PrincipalKind }.

Record Action := mkAction
  { Type_ : string; Target : string; Attributes : gmap string string; Timestamp : time }.

Definition FieldActionType : string := "action.type".
Definition FieldTarget : string := "target".
Definition FieldExpiry : string := "expiry".

(** [Action.Context]: the reserved names are written last. *)
Definition Context (a : Action) : gmap string string :=
  let ctx := Attributes a in
  let ctx := <[FieldActionType := Type_ a]> ctx in
  let ctx := <[FieldTarget := Target a]> ctx in
  <[FieldExpiry := b2s (format_RFC3339Nano (UTC (Timestamp a)))]> ctx.

Record Decision := mkDecision
  { Allowed : bool; Consequential : bool; RuleFired : string; PolicyVersion : string;
    StatusCheckedHops : Z; Reason : string }.

(** The zero value of the struct. *)
Definition zero_decision : Decision := mkDecision false false "" "" 0 "".

#[global] Instance Action_eq_dec : EqDecision Action.
Proof. solve_decision. Defined.
#[global] Instance Decision_eq_dec : EqDecision Decision.
Proof. solve_decision. Defined.

(** The JSON forms of the two structs. *)
Definition Action_json (a : Action) : result json :=
  let! ts := j_time (Timestamp a) in
  Ok (JObj (field "type" (JStr (Type_ a)) ++ field "target" (JStr (Target a))
            ++ omit_if (bool_decide (Attributes a = ∅)) "attributes" (j_string_map (Attributes a))
            ++ field "timestamp" ts)).
Definition Decision_json (d : Decision) : json :=
  JObj (field "allowed" (JBool (Allowed d)) ++ field "consequential" (JBool (Consequential d))
        ++ field "ruleFired" (JStr (RuleFired d)) ++ field "policyVersion" (JStr (PolicyVersion d))
        ++ field "statusCheckedHops" (JInt (StatusCheckedHops d)) ++ field "reason" (JStr (Reason d))).

(** *** The JSON form of an action determines it

    An instant is determined up to the text of its RFC 3339 form. *)
Definition same_action (a b : Action) : Prop :=
  Type_ a = Type_ b /\ Target a = Target b /\ Attributes a = Attributes b
  /\ format_RFC3339Nano (Timestamp a) = format_RFC3339Nano (Timestamp b).
Definition valid_action (a : Action) : bool :=
  valid_utf8 (Type_ a) && valid_utf8 (Target a) && valid_map (Attributes a).

Lemma raw_free_Action a j : Action_json a = Ok j -> raw_free j.
Proof.
  unfold Action_json. intros H. gosimp H. injection H as <-. apply raw_free_obj. raw_fields; try done.
  - apply raw_free_string_map.
  - by eapply raw_free_time.
Qed.

Lemma valid_Action a j : valid_action a = true -> Action_json a = Ok j -> valid_json j = true.
Proof.
  unfold valid_action, Action_json. rewrite !andb_true_iff. intros [[Ht Hg] Hm] H. gosimp H. injection H as <-.
  apply valid_time in Ha. apply valid_string_map in Hm. unfold omit_if. case_bool_decide; simpl in *; by rewrite Ht, Hg, ?Hm, Ha.
Qed.

Lemma no_raw_Action a j : Action_json a = Ok j -> no_raw j = true.
Proof.
  unfold Action_json. intros H. gosimp H. injection H as <-. apply valid_time, plain_weaken in Ha.
  pose proof (no_raw_string_map (Attributes a)) as Hm.
  unfold omit_if. case_bool_decide; simpl in *; by rewrite ?Hm, Ha.
Qed.

Lemma Action_json_inj a b j : Action_json a = Ok j -> Action_json b = Ok j -> same_action a b.
Proof.
  unfold Action_json. intros (t1 & ->%j_time_str & Ha)%rbind_Ok (t2 & ->%j_time_str & Hb)%rbind_Ok.
  apply Ok_inj in Ha, Hb. subst j. unfold omit_if, field in *.
  repeat case_bool_decide; cbn [app] in *.
  - injection Hb as E1 E2 E3. split_and!; try congruence. by apply (inj b2s).
  - discriminate.
  - discriminate.
  - injection Hb as E1 E2 E3 E4. split_and!; try congruence; [|by apply (inj b2s)].
    apply j_string_map_inj. unfold j_string_map, j_map. congruence.
Qed.

Lemma Marshal_Action_inj a b x :
  valid_action a = true -> Marshal (Action_json a) = Ok x -> Marshal (Action_json b) = Ok x -> same_action a b.
Proof.
  intros Hv Ha Hb. pose proof (Marshal_inj _ _ _ Ha Hb (fun j => valid_Action a j Hv) (no_raw_Action b)) as He.
  unfold Marshal in Ha. apply rbind_Ok in Ha as (j & Hj & _). eapply Action_json_inj; [exact Hj|congruence].
Qed.

Lemma Context_type a : Context a !! FieldActionType = Some (Type_ a).
Proof. unfold Context. rewrite !lookup_insert_ne by done. apply lookup_insert_eq. Qed.
Lemma Context_target a : Context a !! FieldTarget = Some (Target a).
Proof. unfold Context. rewrite lookup_insert_ne by done. apply lookup_insert_eq. Qed.
Lemma Context_expiry a :
  Context a !! FieldExpiry = Some (b2s (format_RFC3339Nano (UTC (Timestamp a)))).
Proof. apply lookup_insert_eq. Qed.
Lemma Context_attribute a k :
  k <> FieldActionType -> k <> FieldTarget -> k <> FieldExpiry ->
  Context a !! k = Attributes a !! k.
Proof. intros. unfold Context. by rewrite !lookup_insert_ne by congruence. Qed.

End types.
