(* ===== verification/Signer.v ===== *)
(** internal/signer: the signing seam.

    A signer speaks for one DID; verification dispatches on the concrete type
    of the public key.  The deterministic byte stream behind seeded test keys is
    modelled with its buffer and counter. *)
From S2P Require Import Prelude GoFmt GoCrypto GoPath.

Module signer.

(** The [Signer] interface. *)
Record Signer := mkSigner
  { DID : string; Public : PublicKey; Sign : bytes -> result bytes }.

Definition ed25519_PublicKeySize : Z := 32.

Section Verify.
Context {CR : Crypto}.

(** Ed25519 over the raw message, ECDSA P-256 over its SHA-256 digest; any
    other key is a failed verification. *)
Definition Verify (pub : PublicKey) (data sig : bytes) : bool :=
  match pub with
  | Ed25519Key k =>
      if negb (len k =? ed25519_PublicKeySize) then false else ed25519_Verify k data sig
  | EcdsaKey c x y =>
      if negb (bool_decide (c = P256)) then false
      else ecdsa_VerifyASN1 x y (sha256.Sum256 data) sig
  | UnsupportedKey => false
  end.

(** A signer whose own signatures verify under its public key. *)
Class Sound (s : Signer) : Prop :=
  sound : forall data sig, Sign s data = Ok sig -> Verify (Public s) data sig = true.

(** Verification succeeds only under a supported key of the right shape. *)
Lemma Verify_supported pub data sig :
  Verify pub data sig = true ->
  match pub with
  | Ed25519Key k => len k = 32
  | EcdsaKey c _ _ => c = P256
  | UnsupportedKey => False
  end.
Proof.
  destruct pub as [k|c x y|]; simpl; [| |done].
  - destruct (len k =? ed25519_PublicKeySize) eqn:E; [|done]. intros _. by apply Z.eqb_eq in E.
  - case_bool_decide; done.
Qed.

(** a signature verifies only under an Ed25519 key of 32 bytes or an ECDSA
    key on P-256; every other key is refused, and the ECDSA check sees the
    message only through its SHA-256 digest. *)
Theorem verify_dispatch pub data sig :
  (Verify pub data sig = true ->
     (exists k, pub = Ed25519Key k /\ len k = 32 /\ ed25519_Verify k data sig = true)
     \/ (exists x y, pub = EcdsaKey P256 x y
                     /\ ecdsa_VerifyASN1 x y (sha256.Sum256 data) sig = true))
  /\ Verify UnsupportedKey data sig = false.
Proof.
  split; [|done]. intros H. pose proof (Verify_supported _ _ _ H) as Hs.
  destruct pub as [k|c x y|]; simpl in *; [| |done].
  - left. exists k. rewrite Hs in H. done.
  - right. subst c. by exists x, y.
Qed.
End Verify.

(** [KeysEqual]: the [Equal] method of the first key's type; a nil interface
    is an [UnsupportedKey], which has no such method here. *)
Definition KeysEqual (a b : PublicKey) : bool :=
  match a, b with
  | Ed25519Key k, Ed25519Key k' => k =?b k'
  | EcdsaKey c x y, EcdsaKey c' x' y' =>
      bool_decide (c = c') && (x =? x') && (y =? y')
  | _, _ => false
  end.

Lemma KeysEqual_true a b : KeysEqual a b = true -> a = b.
Proof.
  destruct a as [k|c x y|], b as [k'|c' x' y'|]; simpl; try done.
  - by intros ->%bytes_eqb_true.
  - rewrite !andb_true_iff, bool_decide_eq_true, !Z.eqb_eq. by intros [[-> ->] ->].
Qed.

(** ** The seeded byte stream *)

Record seededReader := mkReader { seed : bytes; counter : Z; buf : bytes }.

Definition block (seed : bytes) (counter : Z) : bytes := sha256.Sum256 (seed ++ be64 counter).

(** [Read] for a destination of [n] bytes; the fuel bounds the refills, each of
    which supplies 32 bytes.  The counter is a uint64 and wraps. *)
Fixpoint read_loop (fuel : nat) (n : nat) (r : seededReader) : option (bytes * seededReader) :=
  match fuel with
  | O => None
  | S fuel =>
      match n with
      | O => Some ([], r)
      | _ =>
          let r := match buf r with
                   | [] => mkReader (seed r) ((counter r + 1) mod 2 ^ 64) (block (seed r) (counter r))
                   | _ => r
                   end in
          let m := Nat.min n (length (buf r)) in
          '(rest, r') ← read_loop fuel (n - m) (mkReader (seed r) (counter r) (drop m (buf r)));
          Some (take m (buf r) ++ rest, r')
      end
  end.
Definition Read (n : nat) (r : seededReader) : option (bytes * seededReader) := read_loop (S (S n)) n r.

(** The first [k] blocks from counter [c]: the stream a reader is a view of. *)
Fixpoint stream (seed : bytes) (c : Z) (k : nat) : bytes :=
  match k with
  | O => []
  | S k => block seed c ++ stream seed ((c + 1) mod 2 ^ 64) k
  end.

Lemma length_block s c : length (block s c) = 32%nat.
Proof. apply sha256.length_Sum256. Qed.

Lemma read_loop_stream fuel n r :
  (n < fuel)%nat ->
  exists out r', read_loop fuel n r = Some (out, r')
    /\ length out = n /\ seed r' = seed r
    /\ forall k, (n <= k)%nat ->
         exists j, buf r ++ stream (seed r) (counter r) k = out ++ buf r' ++ stream (seed r) (counter r') j.
Proof.
  revert n r. induction fuel as [|fuel IH]; intros n r Hf; [lia|]. simpl.
  destruct n as [|n].
  { exists [], r. split_and!; try done. intros k _. by exists k. }
  set (r1 := match buf r with [] => _ | _ => _ end).
  assert (Hseed : seed r1 = seed r) by (unfold r1; by destruct (buf r)).
  assert (Hne : buf r1 <> []).
  { unfold r1. destruct (buf r) eqn:E; simpl; [|congruence].
    intros Hb. pose proof (length_block (seed r) (counter r)). by rewrite Hb in H. }
  set (m := Nat.min (S n) (length (buf r1))).
  assert (Hm : (1 <= m)%nat) by (destruct (buf r1); simpl in *; [done|lia]).
  destruct (IH (S n - m)%nat (mkReader (seed r1) (counter r1) (drop m (buf r1)))) as
    (out & r' & -> & Hlen & Hs & Hk); [lia|].
  exists (take m (buf r1) ++ out), r'. cbn [mbind option_bind]. simpl in Hs.
  split_and!; [done| |congruence|].
  { rewrite length_app, length_take, Hlen. lia. }
  intros k Hkn.
  assert (Hview : exists k', (S n - m <= k')%nat /\
            buf r ++ stream (seed r) (counter r) k = buf r1 ++ stream (seed r1) (counter r1) k').
  { unfold r1. destruct (buf r) eqn:E.
    - destruct k as [|k]; [lia|]. exists k. split; [lia|]. done.
    - exists k. split; [lia|]. by rewrite E. }
  destruct Hview as (k' & Hk' & ->). destruct (Hk k' Hk') as [j Hj]. exists j. simpl in Hj.
  rewrite Hseed in *. rewrite <- (take_drop m (buf r1)) at 1. rewrite <- !app_assoc. f_equal. exact Hj.
Qed.

(** ** Software signers

    The key algorithms of crypto/ed25519 and crypto/ecdsa: the public key and
    the signatures of a seed, the point of a scalar in uncompressed form (none
    for a scalar out of range), and a signature over a digest.  A signer is a
    function, so of the randomised signatures of one message it stands for one. *)
Class SeedKeys := {
  ed25519_NewKeyFromSeed : bytes -> bytes;
  ed25519_Sign : bytes -> bytes -> bytes;
  p256_NewPrivateKey : bytes -> option bytes;
  ecdsa_SignASN1 : bytes -> bytes -> result bytes
}.

Definition ed25519_SeedSize : Z := 32.

Section Software.
Context {SK : SeedKeys}.

Definition NewSoftwareSignerFromSeed (d : string) (seed : bytes) : result Signer :=
  check! reject_if (negb (len seed =? ed25519_SeedSize))
    (Errorf "signer: seed must be %d bytes, got %d" [AInt ed25519_SeedSize; AInt (len seed)]);
  Ok (mkSigner d (Ed25519Key (ed25519_NewKeyFromSeed seed)) (fun data => Ok (ed25519_Sign seed data))).

(** The loop over candidate scalars: the first valid one and its point. *)
Fixpoint first_scalar (attempts : nat) (r : seededReader) : option (bytes * bytes) :=
  match attempts with
  | O => None
  | S attempts =>
      '(scalar, r) ← Read 32 r;
      match p256_NewPrivateKey scalar with
      | Some pub => Some (scalar, pub)
      | None => first_scalar attempts r
      end
  end.
Definition NewECDSASignerFromSeed (d : string) (seed : bytes) : result Signer :=
  check! reject_if (negb (len seed =? 32)) (Errorf "signer: P-256 seed must be 32 bytes, got %d" [AInt (len seed)]);
  match first_scalar 128 (mkReader seed 0 []) with
  | None => Err (New "signer: could not derive a valid P-256 scalar from seed")
  | Some (scalar, pub) =>
      Ok (mkSigner d (EcdsaKey P256 (SetBytes (take 32 (drop 1 pub))) (SetBytes (drop 33 pub)))
            (fun data => ecdsa_SignASN1 scalar (sha256.Sum256 data)))
  end.

(** A full read of an empty buffer is one block. *)
Lemma read_loop_refill fuel n s c :
  read_loop (S fuel) (S n) (mkReader s c []) =
    '(rest, r') ← read_loop fuel (S n - Nat.min (S n) (length (block s c)))
                    (mkReader s ((c + 1) mod 2 ^ 64) (drop (Nat.min (S n) (length (block s c))) (block s c)));
    Some (take (Nat.min (S n) (length (block s c))) (block s c) ++ rest, r').
Proof. reflexivity. Qed.
Lemma Read_block s c : Read 32 (mkReader s c []) = Some (block s c, mkReader s ((c + 1) mod 2 ^ 64) []).
Proof.
  unfold Read. rewrite read_loop_refill, length_block, take_ge, drop_ge by (by rewrite length_block).
  change (32 - Nat.min 32 32)%nat with 0%nat. change (read_loop (S 32) 0 ?r) with (Some ([] : bytes, r)).
  cbn [mbind option_bind]. by rewrite app_nil_r.
Qed.

Lemma first_scalar_spec n c s scalar pub :
  0 <= c -> c + Z.of_nat n < 2 ^ 64 ->
  first_scalar n (mkReader s c []) = Some (scalar, pub) <->
  exists i, 0 <= i < Z.of_nat n /\ scalar = block s (c + i) /\ p256_NewPrivateKey scalar = Some pub
    /\ forall j, 0 <= j < i -> p256_NewPrivateKey (block s (c + j)) = None.
Proof.
  revert c. induction n as [|n IH]; intros c Hc Hn.
  { split; [done|]. intros (i & Hi & _). lia. }
  cbn [first_scalar]. rewrite Read_block. cbn [mbind option_bind].
  rewrite Z.mod_small by lia. destruct (p256_NewPrivateKey (block s c)) as [q|] eqn:E.
  - split.
    + intros [= <- <-]. exists 0. rewrite Z.add_0_r. split_and!; [lia..|done|done|lia].
    + intros (i & Hi & -> & Hp & Hj). destruct (decide (i = 0)) as [->|Hne].
      * rewrite Z.add_0_r in *. congruence.
      * specialize (Hj 0 ltac:(lia)). rewrite Z.add_0_r in Hj. congruence.
  - rewrite IH by lia. split; intros (i & Hi & -> & Hp & Hj).
    + exists (i + 1). replace (c + (i + 1)) with (c + 1 + i) by lia. split_and!; [lia..|done|done|].
      intros j Hj'. destruct (decide (j = 0)) as [->|Hne]; [by rewrite Z.add_0_r|].
      replace (c + j) with (c + 1 + (j - 1)) by lia. apply Hj. lia.
    + destruct (decide (i = 0)) as [->|Hne]; [rewrite Z.add_0_r in Hp; congruence|].
      exists (i - 1). replace (c + 1 + (i - 1)) with (c + i) by lia. split_and!; [lia..|done|done|].
      intros j Hj'. replace (c + 1 + j) with (c + (j + 1)) by lia. apply Hj. lia.
Qed.

(** the seeded P-256 signer is the one of the first valid block among the first
    128 of the stream, and there is none exactly when the seed has another length
    or no such block is a scalar. *)
Theorem ecdsa_seed_first d seed s :
  NewECDSASignerFromSeed d seed = Ok s <->
  len seed = 32 /\ exists i pub,
    0 <= i < 128 /\ p256_NewPrivateKey (block seed i) = Some pub
    /\ (forall j, 0 <= j < i -> p256_NewPrivateKey (block seed j) = None)
    /\ s = mkSigner d (EcdsaKey P256 (SetBytes (take 32 (drop 1 pub))) (SetBytes (drop 33 pub)))
             (fun data => ecdsa_SignASN1 (block seed i) (sha256.Sum256 data)).
Proof.
  unfold NewECDSASignerFromSeed. destruct (Z.eqb_spec (len seed) 32) as [Hl|Hl]; cbn [negb reject_if rbind]; [|naive_solver].
  destruct (first_scalar 128 _) as [[scalar pub]|] eqn:E.
  - apply first_scalar_spec in E as (i & Hi & -> & Hp & Hj); [|lia..]. split.
    + intros [= <-]. split; [done|]. by exists i, pub.
    + intros (_ & i' & pub' & Hi' & Hp' & Hj' & ->). assert (i = i') as ->.
      { destruct (Z.lt_trichotomy i i') as [H|[H|H]]; [|done|].
        - specialize (Hj' i ltac:(lia)). rewrite Z.add_0_l in *. congruence.
        - specialize (Hj i' ltac:(lia)). rewrite Z.add_0_l in *. congruence. }
      rewrite Z.add_0_l in *. congruence.
  - split; [done|]. intros (_ & i & pub & Hi & Hp & Hj & _).
    assert (first_scalar 128 (mkReader seed 0 []) = Some (block seed i, pub)).
    { apply first_scalar_spec; [lia..|]. exists i. by rewrite Z.add_0_l. }
    congruence.
Qed.
End Software.

(** The documented behaviour of Ed25519 that callers rely on. *)
Class SeedLaws {CR : Crypto} {SK : SeedKeys} : Prop := {
  seed_public_size s : len (ed25519_NewKeyFromSeed s) = ed25519_PublicKeySize;
  seed_signs s data : ed25519_Verify (ed25519_NewKeyFromSeed s) data (ed25519_Sign s data) = true;
  seed_signature s data : ed25519_Sign s data <> []
}.

Lemma NewSoftwareSigner_Ok `{SL : SeedLaws} d seed s :
  NewSoftwareSignerFromSeed d seed = Ok s ->
  DID s = d /\ Public s = Ed25519Key (ed25519_NewKeyFromSeed seed) /\ Sound s
  /\ (forall data, exists sig, Sign s data = Ok sig /\ sig <> []).
Proof.
  unfold NewSoftwareSignerFromSeed. intros H. gosimp H. apply Ok_inj in H as <-. cbn [DID Public Sign]. split_and!; [done..| |].
  - intros data sig [= <-]. cbn [Public Verify]. rewrite seed_public_size. apply seed_signs.
  - intros data. eexists. split; [done|]. apply seed_signature.
Qed.

(** reading terminates, fills its destination completely and returns
    consecutive bytes of the stream SHA-256(seed || counter), whatever the
    sizes of the reads before it. *)
Theorem read_consecutive n r :
  exists out r', Read n r = Some (out, r') /\ length out = n /\ seed r' = seed r
    /\ forall k, (n <= k)%nat ->
         exists j, buf r ++ stream (seed r) (counter r) k
                   = out ++ buf r' ++ stream (seed r) (counter r') j.
Proof. apply read_loop_stream. lia. Qed.

End signer.
