(* ===== verification/Keystore.v ===== *)
(** internal/keystore: the mock key management of the command-line tools, a map
    from a DID to a hex seed. *)
From S2P Require Import Prelude GoFmt GoCrypto GoPath Types Signer.

(** ** encoding/hex *)

(** [DecodeString]: an invalid byte is reported before an odd length. *)
Fixpoint hex_decode (b : bytes) : result bytes :=
  match b with
  | [] => Ok []
  | [p] =>
      if ishex p then Err (New "encoding/hex: odd length hex string")
      else Err (Errorf "encoding/hex: invalid byte: %#U" [AInt (bz p)])
  | p :: q :: b =>
      if negb (ishex p) then Err (Errorf "encoding/hex: invalid byte: %#U" [AInt (bz p)])
      else if negb (ishex q) then Err (Errorf "encoding/hex: invalid byte: %#U" [AInt (bz q)])
      else let! r := hex_decode b in Ok (byte_of_Z (16 * unhex p + unhex q) :: r)
  end.
Definition DecodeString (s : string) : result bytes := hex_decode (s2b s).

(** A decoded text has twice as many hexadecimal digits and nothing else. *)
Lemma hex_decode_Ok b r : hex_decode b = Ok r -> length b = (2 * length r)%nat /\ forallb ishex b = true.
Proof.
  revert r. induction b as [b IH] using (induction_ltof1 _ (@length Byte.byte)). unfold ltof in IH.
  intros r. destruct b as [|p [|q b]]; simpl.
  - by intros [= <-].
  - by destruct (ishex p).
  - destruct (ishex p), (ishex q); cbn [negb andb]; try done. intros H. gosimp H. apply Ok_inj in H as <-.
    apply IH in Ha as [Hl Hf]; [|simpl; lia]. simpl. split; [lia|done].
Qed.

Module keystore.

(** Seeds by principal; a JSON object, so entries that are no principal occur. *)
Definition Keystore : Type := gmap string string.

(** [Load], given what reading the file answers; the decoder is encoding/json's. *)
Definition Load (Unmarshal : bytes -> result Keystore) (path : string) (data : result bytes) : result Keystore :=
  let! data := wrap (fun e => Errorf "keystore: read %q: %w" [AStr path; AErr e]) data in
  wrap (fun e => Errorf "keystore: parse %q: %w" [AStr path; AErr e]) (Unmarshal data).

Definition Principals (ks : Keystore) : list types.DID :=
  merge_sort String.le (List.filter (fun d => HasPrefix d "did:") (map_to_list ks).*1).

Section Signer.
Context {SK : signer.SeedKeys}.

Definition Signer (ks : Keystore) (d : types.DID) : result signer.Signer :=
  match ks !! d with
  | None => Err (Errorf "keystore: no seed for %q" [AStr d])
  | Some h =>
      let! seed := wrap (fun e => Errorf "keystore: seed for %q is not hex: %w" [AStr d; AErr e]) (DecodeString h) in
      signer.NewSoftwareSignerFromSeed d seed
  end.
End Signer.

(** ** Facts *)

Lemma elem_of_Principals ks d : d ∈ Principals ks <-> HasPrefix d "did:" = true /\ is_Some (ks !! d).
Proof.
  unfold Principals. rewrite merge_sort_Permutation, list_elem_of_In, filter_In, <- list_elem_of_In, list_elem_of_fmap.
  split.
  - intros [([d' h] & -> & Hin%elem_of_map_to_list) Hp]. split; [done|by exists h].
  - intros [Hp [h Hh]]. split; [|done]. exists (d, h). split; [done|]. by apply elem_of_map_to_list.
Qed.

(** the principals are the entries that are DIDs, each once and in ascending
    order, whatever else the file holds. *)
Theorem principals_sorted ks :
  (forall d, d ∈ Principals ks <-> HasPrefix d "did:" = true /\ is_Some (ks !! d))
  /\ NoDup (Principals ks) /\ Sorted String.le (Principals ks)
  /\ forall l, (forall d, d ∈ l <-> HasPrefix d "did:" = true /\ is_Some (ks !! d)) -> NoDup l -> Sorted String.le l -> l = Principals ks.
Proof.
  assert (Hnd : NoDup (Principals ks)).
  { unfold Principals. rewrite merge_sort_Permutation. apply NoDup_ListNoDup, List.NoDup_filter, NoDup_ListNoDup, NoDup_fst_map_to_list. }
  assert (Hs : Sorted String.le (Principals ks)) by apply Sorted_merge_sort, _.
  split_and!; [apply elem_of_Principals|done..|].
  intros l Hl Hn Hsl. apply (Sorted_unique String.le); [done..|]. apply NoDup_Permutation; [done..|].
  intros d. by rewrite Hl, elem_of_Principals.
Qed.

Lemma Signer_Ok `{SL : signer.SeedLaws} ks d s :
  Signer ks d = Ok s ->
  signer.DID s = d /\ signer.Sound s
  /\ (forall data, exists sig, signer.Sign s data = Ok sig /\ sig <> [])
  /\ exists h seed, ks !! d = Some h /\ DecodeString h = Ok seed /\ signer.Public s = Ed25519Key (signer.ed25519_NewKeyFromSeed seed).
Proof.
  unfold Signer. destruct (ks !! d) as [h|] eqn:E; [|done]. intros H. gosimp H.
  apply signer.NewSoftwareSigner_Ok in H as (? & ? & ? & ?). split_and!; [done..|]. by exists h, a.
Qed.
End keystore.
