(* ===== verification/Vc.v ===== *)
(** internal/vc: the signed, W3C-shaped wrapper of a credential.  Its trust
    decisions are the proof over the whole wrapper and the validity window. *)
From S2P Require Import Prelude GoFmt GoTime GoCrypto GoJson GoJsonText Types Signer.

Module vc.

Definition signingDomain : string := "kessa/vc/v1".
Definition ProofType : string := "Ed25519Signature2020".

Record Proof := mkProof
  { P_Type : string; Created : time; VerificationMethod : string; ProofPurpose : string;
    ProofValue : string }.
Record VerifiableCredential := mkVC
  { Context_ : slice string; Type_ : slice string; Issuer : types.DID; IssuanceDate : time;
    ExpirationDate : option time; CredentialSubject : option bytes; Proof_ : option Proof }.
Record IssueOptions := mkOptions
  { IssuedAt : time; Expires : option time; ExtraTypes : list string; o_VerificationMethod : string }.

#[global] Instance Proof_eq_dec : EqDecision Proof.
Proof. solve_decision. Defined.
#[global] Instance VerifiableCredential_eq_dec : EqDecision VerifiableCredential.
Proof. solve_decision. Defined.

Definition Proof_json (p : Proof) : result json :=
  let! created := j_time (Created p) in
  Ok (JObj (field "type" (JStr (P_Type p)) ++ field "created" created
            ++ field "verificationMethod" (JStr (VerificationMethod p))
            ++ field "proofPurpose" (JStr (ProofPurpose p)) ++ field "proofValue" (JStr (ProofValue p)))).

(** An optional member with a fallible encoding. *)
Definition opt_field {A} (k : string) (f : A -> result json) (a : option A) : result (list (string * json)) :=
  match a with None => Ok [] | Some a => let! j := f a in Ok (field k j) end.

Definition VC_json (c : VerifiableCredential) : result json :=
  let! issued := j_time (IssuanceDate c) in
  let! expires := opt_field "expirationDate" j_time (ExpirationDate c) in
  let! subject := j_raw (CredentialSubject c) in
  let! proof := opt_field "proof" Proof_json (Proof_ c) in
  Ok (JObj (field "@context" (j_slice j_strings (Context_ c)) ++ field "type" (j_slice j_strings (Type_ c))
            ++ field "issuer" (JStr (Issuer c)) ++ field "issuanceDate" issued ++ expires
            ++ field "credentialSubject" subject ++ proof)).

Definition clear_value (p : Proof) : Proof :=
  mkProof (P_Type p) (Created p) (VerificationMethod p) (ProofPurpose p) "".

Definition signingInput (c : VerifiableCredential) : result bytes :=
  let cp := mkVC (Context_ c) (Type_ c) (Issuer c) (IssuanceDate c) (ExpirationDate c)
              (CredentialSubject c) (clear_value <$> Proof_ c) in
  let! b := wrap (fun e => Errorf "vc: canonicalize: %w" [AErr e]) (Marshal (VC_json cp)) in
  Ok (s2b signingDomain ++ Byte.x00 :: b).

(** [Issue]: [subject] is the JSON encoding of the subject, [now] the clock. *)
Definition Issue (s : signer.Signer) (subject : result bytes) (opts : IssueOptions) (now : time)
  : result VerifiableCredential :=
  let! cs := wrap (fun e => Errorf "vc: marshal credentialSubject: %w" [AErr e]) subject in
  let issuedAt := if IsZero (IssuedAt opts) then UTC now else IssuedAt opts in
  let vm := if o_VerificationMethod opts =?s "" then signer.DID s +:+ "#key-1" else o_VerificationMethod opts in
  let c := mkVC (Some ["https://www.w3.org/2018/credentials/v1"])
             (Some ("VerifiableCredential" :: ExtraTypes opts)) (signer.DID s) issuedAt (Expires opts)
             (Some cs) (Some (mkProof ProofType issuedAt vm "assertionMethod" "")) in
  let! input := signingInput c in
  let! sig := wrap (fun e => Errorf "vc: sign: %w" [AErr e]) (signer.Sign s input) in
  Ok (mkVC (Context_ c) (Type_ c) (Issuer c) (IssuanceDate c) (ExpirationDate c) (CredentialSubject c)
        (Some (mkProof ProofType issuedAt vm "assertionMethod" (RawURLEncoding sig)))).

Definition Verify {CR : Crypto} (c : VerifiableCredential) (pub : PublicKey) : result unit :=
  match Proof_ c with
  | None => Err (New "vc: credential has no proof")
  | Some p =>
      check! reject_if (negb (P_Type p =?s ProofType)) (Errorf "vc: unsupported proof type %q" [AStr (P_Type p)]);
      match RawURLDecode (ProofValue p) with
      | None => Err (Errorf "vc: decode proofValue: %w" [AErr (New "illegal base64 data")])
      | Some sig =>
          let! input := signingInput c in
          reject_if (negb (signer.Verify pub input sig))
            (New "vc: proof verification failed (forged or tampered)")
      end
  end.

(** The instants in the messages are rendered by [Time.String], left out. *)
Definition Valid (c : VerifiableCredential) (at_ : time) : result unit :=
  check! reject_if (Before at_ (IssuanceDate c)) (New "vc: not yet valid");
  match ExpirationDate c with
  | Some e => reject_if (After at_ e) (New "vc: expired")
  | None => Ok tt
  end.

(** what [Issue] returns verifies under the issuer's key, although the
    proof value is set after signing, and names the signer, the requested expiry
    and the subject given. *)
Theorem issue_verifies {CR : Crypto} (s : signer.Signer) {HS : signer.Sound s} subject opts now c :
  Issue s subject opts now = Ok c ->
  Verify c (signer.Public s) = Ok tt /\ Issuer c = signer.DID s
  /\ ExpirationDate c = Expires opts /\ (exists b, CredentialSubject c = Some b /\ subject = Ok b).
Proof.
  unfold Issue. intros H. gosimp H. injection H as <-. split_and!; try done; [|by eexists].
  unfold Verify. cbn [Proof_ P_Type ProofValue]. rewrite str_eqb_refl. cbn [negb reject_if rbind].
  rewrite RawURL_roundtrip.
  change (signingInput (mkVC _ _ _ _ _ _ (Some (mkProof _ _ _ _ (RawURLEncoding a1)))))
    with (signingInput (mkVC (Some ["https://www.w3.org/2018/credentials/v1"])
             (Some ("VerifiableCredential" :: ExtraTypes opts)) (signer.DID s)
             (if IsZero (IssuedAt opts) then UTC now else IssuedAt opts) (Expires opts)
             (Some a) (Some (mkProof ProofType (if IsZero (IssuedAt opts) then UTC now else IssuedAt opts)
                (if o_VerificationMethod opts =?s "" then signer.DID s +:+ "#key-1" else o_VerificationMethod opts)
                "assertionMethod" "")))).
  rewrite Ha0. simpl. by rewrite (signer.sound (s := s) _ _ Ha1).
Qed.

#[local] Instance accepting : Crypto :=
  {| ed25519_Verify := fun _ _ sig => sig =?b [Byte.x01]; ecdsa_VerifyASN1 := fun _ _ _ _ => false;
     p256_NewPublicKey_ok := fun _ => false |}.
Definition test_signer : signer.Signer :=
  signer.mkSigner "did:web:org.example" (Ed25519Key (repeat Byte.x07 32)) (fun _ => Ok [Byte.x01]).
#[local] Instance test_signer_sound : signer.Sound test_signer.
Proof. intros data sig [= <-]. reflexivity. Qed.
Definition test_options : IssueOptions := mkOptions (mkTime 1700000000 0 0) None ["KessaCredential"] "".
Definition test_vc : VerifiableCredential :=
  mkVC (Some ["https://www.w3.org/2018/credentials/v1"]) (Some ["VerifiableCredential"; "KessaCredential"])
    "did:web:org.example" (mkTime 1700000000 0 0) None (Some (s2b "{}"))
    (Some (mkProof ProofType (mkTime 1700000000 0 0) "did:web:org.example#key-1" "assertionMethod"
             (RawURLEncoding [Byte.x01]))).

Lemma issue_verifies_witness :
  Verify test_vc (signer.Public test_signer) = Ok tt /\ Issuer test_vc = signer.DID test_signer
  /\ ExpirationDate test_vc = Expires test_options
  /\ (exists b, CredentialSubject test_vc = Some b /\ Ok (s2b "{}") = Ok b).
Proof. apply (issue_verifies test_signer (Ok (s2b "{}")) test_options zero_time). vm_compute. reflexivity. Defined.

(** The window is closed at both ends. *)
Lemma Valid_Ok c at_ :
  Valid c at_ = Ok tt <->
  UnixNano_exact (IssuanceDate c) <= UnixNano_exact at_
  /\ (forall e, ExpirationDate c = Some e -> UnixNano_exact at_ <= UnixNano_exact e).
Proof.
  unfold Valid, Before, After. split.
  - intros H. gosimp H. rewrite Z.ltb_ge in *. split; [done|]. intros e He. rewrite He in H. gosimp H.
    by rewrite Z.ltb_ge in *.
  - intros [Hi He]. rewrite (proj2 (Z.ltb_ge _ _) Hi). simpl.
    destruct (ExpirationDate c) as [e|]; [|done]. by rewrite (proj2 (Z.ltb_ge _ _) (He e eq_refl)).
Qed.

Lemma raw_free_opt {A} k (f : A -> result json) a l :
  (forall x j, f x = Ok j -> raw_free j) -> opt_field k f a = Ok l -> Forall (fun kv => raw_free kv.2) l.
Proof.
  intros Hf. destruct a as [a|]; simpl; [|by intros [= <-]].
  intros H. apply rbind_Ok in H as (j & Hj & [= <-]). repeat constructor. by eapply Hf.
Qed.

Lemma raw_free_VC c j : VC_json c = Ok j -> raw_free j.
Proof.
  unfold VC_json. intros H. gosimp H. injection H as <-.
  assert (Hs : forall s, raw_free (j_slice j_strings s)) by (intros [l|]; [apply raw_free_strings|done]).
  apply raw_free_obj. raw_fields; try apply Hs; try done.
  - by eapply raw_free_time.
  - eapply raw_free_opt; [|exact Ha0]. apply raw_free_time.
  - by eapply raw_free_raw.
  - eapply raw_free_opt; [|exact Ha2]. intros p jp Hp. unfold Proof_json in Hp. gosimp Hp. injection Hp as <-.
    apply raw_free_obj. raw_fields; try done. by eapply raw_free_time.
Qed.

End vc.
