(* ===== verification/Did.v ===== *)
(** internal/did: did:web identifiers, the documents they name, the JWK form of
    a public key, and the two resolvers (a directory tree and HTTPS). *)
From S2P Require Import Prelude GoFmt GoPath GoCrypto Webhost Types.

Module did.

(** ** JSON Web Keys *)

Record JWK := mkJWK { Kty : string; Crv : string; X : string; Y : string }.
#[global] Instance JWK_eq_dec : EqDecision JWK.
Proof. solve_decision. Defined.

Definition p256CoordSize : Z := 32.

Definition leftPad (b : bytes) (size : Z) : bytes :=
  if size <=? len b then b else repeat Byte.x00 (Z.to_nat (size - len b)) ++ b.

(** [None] is the panic on a key no JWK of this form represents. *)
Definition PublicKeyToJWK (pub : PublicKey) : option JWK :=
  match pub with
  | Ed25519Key k => Some (mkJWK "OKP" "Ed25519" (RawURLEncoding k) "")
  | EcdsaKey c x y =>
      if negb (bool_decide (c = P256)) then None
      else Some (mkJWK "EC" "P-256"
                   (RawURLEncoding (leftPad (big_Bytes x) p256CoordSize))
                   (RawURLEncoding (leftPad (big_Bytes y) p256CoordSize)))
  | UnsupportedKey => None
  end.

Definition base64_error : error := New "illegal base64 data".
Definition decodeBase64URL (s : string) : result bytes :=
  match RawURLDecode s with
  | Some b => Ok b
  | None => match URLDecode s with Some b => Ok b | None => Err base64_error end
  end.

Section Keys.
Context {CR : Crypto}.

(** [JWK.PublicKey]; [None] is the nil pointer. *)
Definition JWK_PublicKey (j : option JWK) : result PublicKey :=
  match j with
  | None => Err (New "did: nil JWK")
  | Some j =>
      if (Kty j =?s "OKP") && (Crv j =?s "Ed25519") then
        let! b := wrap (fun e => Errorf "did: decode JWK x: %w" [AErr e]) (decodeBase64URL (X j)) in
        check! reject_if (negb (len b =? 32))
                 (Errorf "did: JWK x is %d bytes, want %d" [AInt (len b); AInt 32]);
        Ok (Ed25519Key b)
      else if (Kty j =?s "EC") && (Crv j =?s "P-256") then
        let! xb := wrap (fun e => Errorf "did: decode JWK x: %w" [AErr e]) (decodeBase64URL (X j)) in
        let! yb := wrap (fun e => Errorf "did: decode JWK y: %w" [AErr e]) (decodeBase64URL (Y j)) in
        check! reject_if (negb (len xb =? p256CoordSize) || negb (len yb =? p256CoordSize))
                 (Errorf "did: P-256 JWK coordinates are %d/%d bytes, want %d each"
                    [AInt (len xb); AInt (len yb); AInt p256CoordSize]);
        let sec1 := Byte.x04 :: xb ++ yb in
        check! reject_if (negb (p256_NewPublicKey_ok sec1))
                 (Errorf "did: invalid P-256 public key: %w" [AErr (New "ecdh: invalid public key")]);
        Ok (EcdsaKey P256 (SetBytes xb) (SetBytes yb))
      else Err (Errorf "did: unsupported JWK kty=%q crv=%q (want OKP/Ed25519 or EC/P-256)"
                  [AStr (Kty j); AStr (Crv j)])
  end.

(** ** Documents *)

Record VerificationMethod := mkVM
  { VM_ID : string; VM_Type : string; Controller : types.DID; PublicKeyJwk : option JWK }.
Record Document := mkDocument
  { Context_ : list string; ID : types.DID; VerificationMethod_ : list VerificationMethod;
    Authentication : list string; AssertionMethod : list string }.

(** [NewDocument]; [None] is the panic of [PublicKeyToJWK]. *)
Definition NewDocument (d : types.DID) (pub : PublicKey) : option Document :=
  let vmID := d +:+ "#key-1" in
  j ← PublicKeyToJWK pub;
  Some (mkDocument
    ["https://www.w3.org/ns/did/v1"; "https://w3id.org/security/suites/jws-2020/v1"]
    d [mkVM vmID "JsonWebKey2020" d (Some j)] [vmID] [vmID]).

Definition Document_id (d : option Document) : types.DID :=
  match d with None => "" | Some d => ID d end.

Definition FirstKey (d : option Document) : result PublicKey :=
  match d with
  | Some (mkDocument _ _ (vm :: _) _ _) => JWK_PublicKey (PublicKeyJwk vm)
  | _ => Err (Errorf "did: document %q has no verification methods" [AStr (Document_id d)])
  end.

Definition Key (d : option Document) (vmID : string) : result PublicKey :=
  match d with
  | None => Err (New "did: nil document")
  | Some d =>
      let want :=
        if negb (contains_byte vmID Byte.x23) then ID d +:+ "#" +:+ TrimPrefix vmID "#"
        else if HasPrefix vmID "#" then ID d +:+ vmID
        else vmID in
      match list_find (fun vm => VM_ID vm = want) (VerificationMethod_ d) with
      | Some (_, vm) => JWK_PublicKey (PublicKeyJwk vm)
      | None => Err (Errorf "did: verification method %q not found in %q" [AStr want; AStr (ID d)])
      end
  end.

(** The [Resolver] interface: a document pointer or an error. *)
Definition Resolver : Type := types.DID -> result (option Document).

Definition ResolveKey (r : Resolver) (d : types.DID) : result PublicKey :=
  let! doc := r d in FirstKey doc.
End Keys.

(** ** did:web identifiers *)

Definition web_prefix : string := "did:web:".

(** The loop over the path segments. *)
Fixpoint parse_segments (d : types.DID) (fields : list bytes) : result (list bytes) :=
  match fields with
  | [] => Ok []
  | f :: fields =>
      check! reject_if (bool_decide (f = [])) (Errorf "did: %q has an empty path segment" [AStr d]);
      let! seg := wrap (fun e => Errorf "did: decode segment %q in %q: %w" [AStr (b2s f); AStr d; AErr e])
                    (PathUnescape f) in
      check! reject_if (bool_decide (seg = s2b ".") || bool_decide (seg = s2b "..")
                        || existsb (fun c => bool_decide (c ∈ s2b "/\")) seg)
               (Errorf "did: %q has an unsafe path segment %q" [AStr d; AStr (b2s seg)]);
      let! segs := parse_segments d fields in
      Ok (seg :: segs)
  end.

Definition parseDIDWeb (d : types.DID) : result (bytes * list bytes) :=
  check! reject_if (negb (HasPrefix d web_prefix)) (Errorf "did: %q is not a did:web identifier" [AStr d]);
  let rest := s2b (TrimPrefix d web_prefix) in
  check! reject_if (bool_decide (rest = [])) (Errorf "did: %q has empty did:web-specific id" [AStr d]);
  let fields := split_bytes Byte.x3a rest in
  let! host := wrap (fun e => Errorf "did: decode host in %q: %w" [AStr d; AErr e])
                 (PathUnescape (hd [] fields)) in
  check! wrap (fun e => Errorf "did: %q has an unsafe host: %w" [AStr d; AErr e]) (webhost.Validate host);
  let! segs := parse_segments d (tl fields) in
  Ok (host, segs).

Definition ParseWebHost (d : types.DID) : result (bytes * list bytes) := parseDIDWeb d.

Definition well_known : list bytes := [s2b ".well-known"; s2b "did.json"].
Definition DocumentPath (root : bytes) (d : types.DID) : result bytes :=
  let! hs := parseDIDWeb d in
  let '(host, segs) := hs in
  let parts := [root; host] in
  Ok (filepath_Join
        (if bool_decide (segs = []) then parts ++ well_known else (parts ++ segs) ++ [s2b "did.json"])).

(** The URL value and its rendering. *)
Definition document_URL (d : types.DID) (scheme : string) : result URL :=
  let! hs := parseDIDWeb d in
  let '(host, segs) := hs in
  let scheme := if scheme =?s "" then "https" else scheme in
  let path := if bool_decide (segs = []) then s2b "/.well-known/did.json"
              else s2b "/" ++ join_bytes slash segs ++ s2b "/did.json" in
  Ok (mkURL scheme host path).
Definition didWebToURL (d : types.DID) (scheme : string) : result bytes :=
  let! u := document_URL d scheme in Ok (URL_String u).

(** ** Resolution

    [Unmarshal] and [Decode] are the two JSON decodings into a [Document] (the
    whole input, the first value of a stream); both resolvers check the
    identifier of what was decoded. *)
Section Resolve.
Context (Unmarshal Decode : bytes -> result Document).

Definition check_id (d : types.DID) (doc : Document) : result (option Document) :=
  check! reject_if (negb (ID doc =?s d))
           (Errorf "did: document id %q does not match requested %q" [AStr (ID doc); AStr d]);
  Ok (Some doc).

Definition parseDocument (d : types.DID) (data : bytes) : result (option Document) :=
  let! doc := wrap (fun e => Errorf "did: parse document for %q: %w" [AStr d; AErr e]) (Unmarshal data) in
  check_id d doc.

(** [FileResolver.Resolve] beneath [root]; [ReadFile] is the file system. *)
Definition FileResolver_Resolve (ReadFile : bytes -> result bytes) (root : bytes) : Resolver := fun d =>
  let! path := DocumentPath root d in
  let! data := wrap (fun e => Errorf "did: read %q: %w" [AStr (b2s path); AErr e]) (ReadFile path) in
  parseDocument d data.

Context {CT : CaseTables}.

Definition maxRedirects : Z := 3.

Definition norm_host (u : URL) : bytes :=
  let host := ToLower (Hostname u) in
  let port := Port u in
  if bool_decide (port = []) || ((Scheme u =?s "https") && (port =?b s2b "443"))
     || ((Scheme u =?s "http") && (port =?b s2b "80"))
  then host else host ++ s2b ":" ++ port.
Definition sameHost (a b : URL) : bool := norm_host a =?b norm_host b.

Definition checkRedirect (d : types.DID) (req : URL) (via : list URL) : result unit :=
  check! reject_if (maxRedirects <=? len via)
           (Errorf "did: %q redirected more than %d times" [AStr d; AInt maxRedirects]);
  match via with
  | [] => Ok tt
  | origin :: _ =>
      check! reject_if (negb (sameHost origin req))
        (Errorf "did: %q is served by %s but redirected to %s; a did:web document must come from the host the DID names"
           [AStr d; AStr (b2s (Host origin)); AStr (b2s (Host req))]);
      check! reject_if ((Scheme origin =?s "https") && negb (Scheme req =?s "https"))
        (Errorf "did: %q redirected from https to %s" [AStr d; AStr (Scheme req)]);
      Ok tt
  end.

Record HTTPResolver := mkHTTPResolver { r_Scheme : string; AllowedHosts : list string }.

Definition hostAllowed (r : HTTPResolver) (host : bytes) : result unit :=
  check! reject_if (bool_decide (AllowedHosts r = []))
    (Errorf "did: network resolution is enabled but no did:web hosts are permitted, so %q cannot be resolved; name the hosts this deployment trusts"
       [AStr (b2s host)]);
  reject_if (negb (existsb (fun h => ToLower (s2b (TrimSpace h)) =?b ToLower host) (AllowedHosts r)))
    (Errorf "did: %q is not a permitted did:web host (permitted: %s)"
       [AStr (b2s host); AStr (Join (AllowedHosts r) ", ")]).

(** What a server answers to one request. *)
Inductive response :=
| Page (status : Z) (body : bytes)
| RedirectTo (location : URL)
| TransportError (e : error).

(** [http.Client.Do] under [checkRedirect]: the requests made so far, the next
    one, and the answer that ends the chain with every request of it. *)
Fixpoint follow (fuel : nat) (serve : URL -> response) (d : types.DID) (via : list URL) (req : URL)
  : result (Z * bytes) * list URL :=
  match fuel with
  | O => (Err (New "net/http: too many redirects"), via)
  | S fuel =>
      let via := via ++ [req] in
      match serve req with
      | Page status body => (Ok (status, body), via)
      | TransportError e => (Err e, via)
      | RedirectTo location =>
          match checkRedirect d location via with
          | Ok _ => follow fuel serve d via location
          | Err e => (Err e, via)
          end
      end
  end.

(** [HTTPResolver.Resolve], with the requests it made. *)
Definition HTTP_Resolve (r : HTTPResolver) (serve : URL -> response) (d : types.DID)
  : result (option Document) * list URL :=
  match (let! hs := parseDIDWeb d in
         check! hostAllowed r hs.1;
         document_URL d (r_Scheme r)) with
  | Err e => (Err e, [])
  | Ok u =>
      let '(resp, made) := follow 4 serve d [] u in
      (let! sb := wrap (fun e => Errorf "did: fetch %q: %w" [AStr (b2s (URL_String u)); AErr e]) resp in
       check! reject_if (negb (sb.1 =? 200))
                (Errorf "did: fetch %q: status %d" [AStr (b2s (URL_String u)); AInt sb.1]);
       let! doc := wrap (fun e => Errorf "did: decode %q: %w" [AStr (b2s (URL_String u)); AErr e])
                     (Decode sb.2) in
       check_id d doc, made)
  end.
End Resolve.

(** ** Keys survive their JWK form *)

Lemma decodeBase64URL_encoded b : decodeBase64URL (RawURLEncoding b) = Ok b.
Proof. unfold decodeBase64URL. by rewrite RawURL_roundtrip. Qed.

Lemma leftPad_SetBytes b : len b = p256CoordSize -> leftPad (big_Bytes (SetBytes b)) p256CoordSize = b.
Proof.
  intros Hb. rewrite big_Bytes_SetBytes. pose proof (length_strip_zeros b) as Hl.
  pose proof (strip_zeros_pad b) as Hp. unfold leftPad, len in *. rewrite <- Hb.
  case_match eqn:E.
  - replace (length b - length (strip_zeros b))%nat with 0%nat in Hp by lia. exact Hp.
  - etransitivity; [|exact Hp]. do 2 f_equal. lia.
Qed.

Section KeyLaws.
Context {CR : Crypto}.

Lemma ed25519_jwk k :
  len k = 32 -> exists jwk, PublicKeyToJWK (Ed25519Key k) = Some jwk /\ JWK_PublicKey (Some jwk) = Ok (Ed25519Key k).
Proof.
  intros Hk. eexists. split; [reflexivity|]. unfold JWK_PublicKey. cbn [Kty Crv X str_eqb].
  rewrite decodeBase64URL_encoded. cbn [rbind wrap]. by rewrite Hk.
Qed.

Lemma JWK_reencode j pub :
  JWK_PublicKey j = Ok pub ->
  exists j', PublicKeyToJWK pub = Some j' /\ JWK_PublicKey (Some j') = Ok pub.
Proof.
  destruct j as [j|]; [|done]. simpl. intros H.
  destruct ((Kty j =?s "OKP") && (Crv j =?s "Ed25519")).
  - gosimp H. simplify_eq. eexists. split; [done|]. simpl. rewrite decodeBase64URL_encoded. simpl.
    rewrite negb_true_iff in * || idtac. unfold reject_if. case_match; [|done].
    match goal with E : negb _ = true, F : _ |- _ => rewrite negb_true_iff in E; rewrite F in E end; done.
  - destruct ((Kty j =?s "EC") && (Crv j =?s "P-256")); [|done].
    gosimp H. simplify_eq. repeat match goal with Hx : _ /\ _ |- _ => destruct Hx end.
    eexists. split; [done|]. simpl. rewrite !leftPad_SetBytes by lia.
    rewrite !decodeBase64URL_encoded. simpl.
    unfold reject_if. repeat case_match; try done; autorewrite with gobool in *; lia || congruence.
Qed.

(** Keys read from JWKs have distinct canonical JWKs. *)
Lemma PublicKeyToJWK_inj j1 j2 p1 p2 :
  JWK_PublicKey j1 = Ok p1 -> JWK_PublicKey j2 = Ok p2 ->
  PublicKeyToJWK p1 = PublicKeyToJWK p2 -> p1 = p2.
Proof.
  intros (k1 & E1 & D1)%JWK_reencode (k2 & E2 & D2)%JWK_reencode E. congruence.
Qed.
End KeyLaws.

(** a public key that was read from a JWK is encoded again as a JWK from
    which exactly that key is read: the encoding never relabels a key. *)
Theorem jwk_roundtrip {CR : Crypto} j pub :
  JWK_PublicKey j = Ok pub ->
  exists j', PublicKeyToJWK pub = Some j' /\ JWK_PublicKey (Some j') = Ok pub.
Proof. apply JWK_reencode. Qed.

#[local] Instance accepting : Crypto :=
  {| ed25519_Verify := fun _ _ _ => true; ecdsa_VerifyASN1 := fun _ _ _ _ => true;
     p256_NewPublicKey_ok := fun _ => true |}.

(** A P-256 point whose coordinates have leading zero bytes. *)
Definition small_point : JWK :=
  mkJWK "EC" "P-256" (RawURLEncoding (leftPad [Byte.x07] 32)) (RawURLEncoding (leftPad [Byte.x01; Byte.x00] 32)).

Lemma jwk_roundtrip_witness :
  exists j', PublicKeyToJWK (EcdsaKey P256 7 256) = Some j'
             /\ JWK_PublicKey (Some j') = Ok (EcdsaKey P256 7 256).
Proof. apply (jwk_roundtrip (Some small_point)). vm_compute. reflexivity. Defined.

(** ** A did:web identifier determines where its document is read *)

Lemma parse_segments_plain d fs segs : parse_segments d fs = Ok segs -> Forall plain_elem segs.
Proof.
  revert segs. induction fs as [|f fs IH]; simpl; intros segs H; [by simplify_eq|].
  gosimp H. simplify_eq. constructor; [|by apply IH].
  destruct Ha1 as [[Hd Hdd]%orb_false_iff Hs] || destruct Ha1 as [[Hd Hdd] Hs].
  rewrite bool_decide_eq_false in *. split_and!; try done.
  - by eapply PathUnescape_nonempty.
  - intros Hin. apply not_true_iff_false in Hs. apply Hs, existsb_exists. exists slash.
    split; [by apply list_elem_of_In|]. reflexivity.
Qed.

Lemma parseDIDWeb_plain d host segs :
  parseDIDWeb d = Ok (host, segs) -> webhost.Validate host = Ok tt /\ Forall plain_elem segs.
Proof.
  unfold parseDIDWeb. intros H. gosimp H. simplify_eq. split; [done|]. by eapply parse_segments_plain.
Qed.

(** The path elements below the root for a host and its segments. *)
Definition doc_elems (host : bytes) (segs : list bytes) : list bytes :=
  host :: (if bool_decide (segs = []) then well_known else segs ++ [s2b "did.json"]).

Lemma plain_literal e : bool_decide (e <> [] /\ e <> s2b "." /\ e <> s2b ".." /\ slash ∉ e) = true -> plain_elem e.
Proof. by rewrite bool_decide_eq_true. Qed.

Lemma doc_elems_plain host segs :
  plain_elem host -> Forall plain_elem segs -> Forall plain_elem (doc_elems host segs).
Proof.
  intros Hh Hs. unfold doc_elems. constructor; [done|]. case_bool_decide.
  - repeat constructor; apply plain_literal; reflexivity.
  - apply Forall_app. split; [done|]. repeat constructor; apply plain_literal; reflexivity.
Qed.

(** the file a did:web identifier is read from lies beneath the root, at
    the root's own elements followed by exactly the host and the segments of
    the identifier: no host and no segment is absent, dotted or contains a
    separator, so no identifier climbs out of the directory. *)
Theorem document_path_confined root d p :
  root <> [] -> DocumentPath root d = Ok p ->
  exists host segs,
    parseDIDWeb d = Ok (host, segs) /\ Forall plain_elem (host :: segs)
    /\ path_elems p = path_elems root ++ doc_elems host segs /\ is_rooted p = is_rooted root.
Proof.
  intros Hr H. unfold DocumentPath in H. gosimp H. destruct a as [host segs]. exists host, segs.
  pose proof (parseDIDWeb_plain _ _ _ Ha) as [Hv Hs]. pose proof (webhost.Validate_plain_elem _ Hv) as Hh.
  split; [done|]. split; [by constructor|].
  assert (Hj : filepath_Join (root :: doc_elems host segs) = p).
  { injection H as <-. unfold doc_elems. by case_bool_decide. }
  subst p. apply filepath_Join_under; [done..|]. by apply doc_elems_plain.
Qed.

Lemma document_path_confined_witness :
  exists host segs,
    parseDIDWeb "did:web:acme.example%3A8443:orgs:a%20b" = Ok (host, segs) /\ Forall plain_elem (host :: segs)
    /\ path_elems (s2b "dids/acme.example:8443/orgs/a b/did.json")
       = path_elems (s2b "./dids") ++ doc_elems host segs
    /\ is_rooted (s2b "dids/acme.example:8443/orgs/a b/did.json") = is_rooted (s2b "./dids").
Proof.
  apply (document_path_confined (s2b "./dids") "did:web:acme.example%3A8443:orgs:a%20b").
  - discriminate.
  - vm_compute. reflexivity.
Defined.

(** ** The URL fetched *)

Lemma escape_none m b : forallb (fun c => negb (shouldEscape m c)) b = true -> escape m b = b.
Proof.
  unfold escape. induction b as [|c b IH]; simpl; [done|]. rewrite andb_true_iff, negb_true_iff.
  intros [-> Hb]. simpl. by rewrite IH.
Qed.

Lemma escaped_byte m c :
  shouldEscape m c = true ->
  ishex (upperhex (bz c / 16)) = true /\ ishex (upperhex (bz c mod 16)) = true
  /\ byte_of_Z (16 * unhex (upperhex (bz c / 16)) + unhex (upperhex (bz c mod 16))) = c.
Proof. intros _. destruct c; vm_compute; done. Qed.

Lemma unescaped_byte m c : shouldEscape m c = false -> byte_is c 37 = false.
Proof. destruct m, c; vm_compute; done. Qed.

(** Decoding inverts escaping. *)
Lemma PathUnescape_escape m b : PathUnescape (escape m b) = Ok b.
Proof.
  induction b as [|c b IH]; [done|]. unfold escape in *. simpl.
  destruct (shouldEscape m c) eqn:E.
  - destruct (escaped_byte m c E) as (H1 & H2 & H3).
    cbn -[ishex unhex upperhex byte_of_Z Z.mul Z.div Z.modulo].
    rewrite H1, H2. simpl. rewrite IH. simpl. by rewrite H3.
  - simpl. rewrite (unescaped_byte m c E), IH. done.
Qed.

Lemma escape_path_plain b : Byte.x3f ∉ escape encodePath b /\ Byte.x23 ∉ escape encodePath b.
Proof.
  assert (H : Forall (fun c => c <> Byte.x3f /\ c <> Byte.x23) (escape encodePath b)).
  { unfold escape. induction b as [|c b IH]; simpl; [done|]. apply Forall_app. split; [|done].
    clear. destruct c; vm_compute; repeat constructor; done. }
  rewrite Forall_forall in H. split; intros Hin; by apply H in Hin as [? ?].
Qed.

Lemma host_unescaped host : webhost.Validate host = Ok tt -> escape encodeHost host = host.
Proof.
  intros Hv%webhost.Validate_hostly. apply escape_none. rewrite forallb_forall. intros c Hc.
  unfold webhost.hostly in Hv. rewrite Forall_forall in Hv.
  specialize (Hv c ltac:(by apply list_elem_of_In)). clear Hc.
  destruct c; vm_compute in Hv |- *; done.
Qed.

(** the URL of an identifier is the scheme, its host byte for byte and an
    escaped path: the path holds no query or fragment delimiter and decodes to
    the identifier's own segments followed by the document name. *)
Theorem url_determined d scheme u :
  didWebToURL d scheme = Ok u ->
  exists host segs epath,
    parseDIDWeb d = Ok (host, segs)
    /\ u = s2b (if scheme =?s "" then "https" else scheme) ++ s2b "://" ++ host ++ epath
    /\ Byte.x3f ∉ epath /\ Byte.x23 ∉ epath
    /\ PathUnescape epath
       = Ok (slash :: join_bytes slash (if bool_decide (segs = []) then well_known
                                         else segs ++ [s2b "did.json"])).
Proof.
  unfold didWebToURL, document_URL. intros H. gosimp H. destruct a0 as [host segs].
  pose proof (parseDIDWeb_plain _ _ _ Ha0) as [Hv _]. pose proof (webhost.Validate_plain_elem _ Hv) as (Hne & _).
  set (path := if bool_decide (segs = []) then _ else _) in Ha.
  exists host, segs, (escape encodePath path). split; [done|]. simplify_eq.
  pose proof (escape_path_plain path) as [? ?]. split_and!; [|done|done|].
  - unfold URL_String. cbn [Scheme Host Path].
    replace ((if scheme =?s "" then "https" else scheme) =?s "") with false.
    2: { destruct (scheme =?s "") eqn:E; [done|]. done. }
    rewrite (bool_decide_false (host = [])) by done. cbn [andb]. rewrite (host_unescaped _ Hv).
    assert (Hp : exists q, escape encodePath path = slash :: q).
    { unfold path. case_bool_decide; eexists; reflexivity. }
    destruct Hp as [q ->]. rewrite <- !app_assoc. done.
  - rewrite PathUnescape_escape. f_equal. unfold path. case_bool_decide as Hs; [reflexivity|].
    change (s2b "/" ++ ?b) with (slash :: b). f_equal. clear -Hs.
    induction segs as [|e segs IH]; [done|]. destruct segs as [|e' segs]; [done|].
    change (join_bytes slash (e :: e' :: segs)) with (e ++ slash :: join_bytes slash (e' :: segs)).
    rewrite <- app_assoc. cbn [app]. rewrite IH by done. done.
Qed.

Lemma url_determined_witness :
  exists host segs epath,
    parseDIDWeb "did:web:acme.example:a%3Fb" = Ok (host, segs)
    /\ s2b "https://acme.example/a%3Fb/did.json" = s2b "https" ++ s2b "://" ++ host ++ epath
    /\ Byte.x3f ∉ epath /\ Byte.x23 ∉ epath
    /\ PathUnescape epath
       = Ok (slash :: join_bytes slash (if bool_decide (segs = []) then well_known
                                         else segs ++ [s2b "did.json"])).
Proof. apply (url_determined "did:web:acme.example:a%3Fb" ""). vm_compute. reflexivity. Defined.

(** ** Requests stay on the named host *)
Section Confinement.
Context {CT : CaseTables}.
Context (serve : URL -> response) (d : types.DID).

Definition chain_ok (origin : URL) (made : list URL) : Prop :=
  Forall (fun u => sameHost origin u = true /\ (Scheme origin = "https"%string -> Scheme u = "https"%string)) made.

Lemma checkRedirect_Ok u origin via :
  checkRedirect d u (origin :: via) = Ok tt ->
  len (origin :: via) < maxRedirects /\ sameHost origin u = true
  /\ (Scheme origin = "https"%string -> Scheme u = "https"%string).
Proof.
  unfold checkRedirect. intros H. gosimp H. apply Z.leb_gt in Ha. split_and!; [done|done|].
  intros E. destruct Ha1 as [Ha1|Ha1]; done.
Qed.

(** The chain stays on the origin and makes at most three requests. *)
Lemma follow_confined fuel via origin u :
  chain_ok origin via -> hd_error (via ++ [u]) = Some origin ->
  sameHost origin u = true /\ (Scheme origin = "https"%string -> Scheme u = "https"%string) ->
  len via < maxRedirects ->
  chain_ok origin (follow fuel serve d via u).2 /\ len (follow fuel serve d via u).2 <= maxRedirects.
Proof.
  revert via u. induction fuel as [|fuel IH]; intros via u Hv Ho Hu Hl; simpl; [split; [done|lia]|].
  assert (Hv' : chain_ok origin (via ++ [u])).
  { apply Forall_app. split; [done|]. by apply Forall_singleton. }
  assert (Hl' : len (via ++ [u]) <= maxRedirects) by (rewrite len_app; change (len [u]) with 1; lia).
  destruct (serve u) as [status body|loc|e]; [done| |done].
  destruct (checkRedirect d loc (via ++ [u])) as [[]|e] eqn:E; [|done].
  destruct (via ++ [u]) as [|o via'] eqn:Ev; [by destruct via|]. injection Ho as ->.
  pose proof (checkRedirect_Ok _ _ _ E) as (? & ? & ?). apply IH; done.
Qed.

(** Four steps of fuel always suffice. *)
Lemma follow_fuel n fuel via u :
  maxRedirects <= len via + Z.of_nat fuel -> (0 < fuel)%nat ->
  follow (fuel + n) serve d via u = follow fuel serve d via u.
Proof.
  revert via u. induction fuel as [|fuel IH]; intros via u Hf Hp; [lia|]. cbn [follow Nat.add].
  destruct (serve u) as [status body|loc|e]; try done.
  destruct (checkRedirect d loc (via ++ [u])) as [[]|e] eqn:E; [|done].
  destruct (via ++ [u]) as [|o via'] eqn:Ev; [by destruct via|].
  apply checkRedirect_Ok in E as [Hl _].
  assert (len (o :: via') = len via + 1) by (rewrite <- Ev, len_app; done).
  apply IH; lia.
Qed.

Lemma follow_head fuel via u o :
  hd_error via = Some o -> hd_error (follow fuel serve d via u).2 = Some o.
Proof.
  revert via u. induction fuel as [|fuel IH]; intros [|o' via] u Hv; simpl in *; try done.
  destruct (serve u); [done| |done]. destruct (checkRedirect _ _ _); [|done]. by apply IH.
Qed.

Lemma follow_first fuel u : hd_error (follow (S fuel) serve d [] u).2 = Some u.
Proof.
  simpl. destruct (serve u); [done| |done]. destruct (checkRedirect _ _ _); [|done].
  by apply follow_head.
Qed.
End Confinement.

Lemma sameHost_refl `{CaseTables} u : sameHost u u = true.
Proof. apply bytes_eqb_refl. Qed.

(** whatever the servers answer, resolving over HTTPS contacts nobody
    unless the identifier's host is on the permitted list, makes at most three
    requests, all on the host of the first and none downgraded from https, and
    hands back only a document whose identifier is the one asked for. *)
Theorem http_resolution_confined {CT : CaseTables} Decode r serve d :
  let (res, made) := HTTP_Resolve Decode r serve d in
  match made with
  | [] => True
  | origin :: _ =>
      chain_ok origin made /\ len made <= maxRedirects
      /\ exists segs, parseDIDWeb d = Ok (Host origin, segs)
         /\ exists h, h ∈ AllowedHosts r /\ ToLower (s2b (TrimSpace h)) = ToLower (Host origin)
  end
  /\ (forall doc, res = Ok doc -> exists doc', doc = Some doc' /\ ID doc' = d).
Proof.
  unfold HTTP_Resolve.
  destruct (rbind _ _) as [u|e] eqn:E; [|done]. gosimp E. destruct a as [host segs].
  unfold hostAllowed in Ha0. gosimp Ha0. apply existsb_exists in Ha0 as (h & Hh & Heq).
  apply bytes_eqb_true in Heq. apply list_elem_of_In in Hh.
  unfold document_URL in E. rewrite Ha in E. simpl in E. simplify_eq.
  set (u := mkURL _ _ _).
  pose proof (follow_confined serve d 4 [] u u ltac:(constructor) eq_refl
                (conj (sameHost_refl u) (fun H => H)) eq_refl) as [Hc Hl].
  destruct (follow 4 serve d [] u) as [resp made] eqn:Ef. simpl in Hc, Hl. split.
  - destruct made as [|o made]; [done|].
    assert (o = u) as ->.
    { pose proof (follow_first serve d 3 u) as Hfi. rewrite Ef in Hfi. by injection Hfi. }
    split_and!; [done|done|]. exists segs. split; [done|]. by exists h.
  - intros doc Hres. gosimp Hres. unfold check_id in Hres. gosimp Hres. simplify_eq.
    eexists. split; [done|]. done.
Qed.

(** the limit on redirects counts requests already made: after three
    requests the chain ends whatever the next location is, so a document is
    fetched through two redirects at most; more fuel never changes the result. *)
Theorem redirect_limit {CT : CaseTables} serve d via u :
  (len via = maxRedirects -> is_ok (checkRedirect d u via) = false)
  /\ (forall n, follow (4 + n) serve d [] u = follow 4 serve d [] u).
Proof.
  split.
  - intros Hl. unfold checkRedirect. rewrite Hl. done.
  - intros n. apply follow_fuel; [|lia]. vm_compute. discriminate.
Qed.
End did.
