(* ===== verification/Status.v ===== *)
(** internal/status: the signed bitstring that says which credentials are
    revoked, the authority it must come from, and where it is published. *)
From S2P Require Import Prelude GoFmt GoPath GoCrypto GoJson Webhost Types Signer.

Module status.

Definition MinBits : Z := 131072.
Definition signingDomain : string := "kessa/status-list/v1".

Definition Purpose : Type := string.
Definition PurposeRevocation : Purpose := "revocation".
Definition PurposeSuspension : Purpose := "suspension".

Record Reference := mkReference { ListURL : string; Index : Z; r_Issuer : types.DID }.
#[global] Instance Reference_eq_dec : EqDecision Reference.
Proof. solve_decision. Defined.

Record StatusList := mkStatusList
  { Issuer : types.DID; Purpose_ : Purpose; Bits : bytes; Signature : bytes }.

(** ** Bits *)

Definition New (minBits : Z) : StatusList :=
  let minBits := if minBits <? MinBits then MinBits else minBits in
  mkStatusList "" PurposeRevocation (repeat Byte.x00 (Z.to_nat ((minBits + 7) / 8))) [].

Definition Len (l : StatusList) : Z := len (Bits l) * 8.

Definition checkIndex (l : StatusList) (index : Z) : result unit :=
  reject_if ((index <? 0) || (Len l <=? index))
    (Errorf "status: index %d out of range [0,%d)" [AInt index; AInt (Len l)]).

(** [byte(1) << uint(7-index%8)] *)
Definition mask (index : Z) : Z := Z.shiftl 1 (7 - index mod 8).
Definition byte_at (l : StatusList) (index : Z) : Z := bz (nth (Z.to_nat (index / 8)) (Bits l) Byte.x00).

Definition Set_ (l : StatusList) (index : Z) (revoked : bool) : result StatusList :=
  check! checkIndex l index;
  let b := byte_at l index in
  let b' := if revoked then Z.lor b (mask index) else Z.ldiff b (mask index) in
  Ok (mkStatusList (Issuer l) (Purpose_ l)
        (<[Z.to_nat (index / 8) := byte_of_Z b']> (Bits l)) (Signature l)).

Definition Lookup (l : StatusList) (index : Z) : result bool :=
  check! checkIndex l index;
  Ok (negb (Z.land (byte_at l index) (mask index) =? 0)).

(** ** Signature *)

Definition signingInput (l : StatusList) : bytes :=
  s2b signingDomain ++ Byte.x00 :: s2b (Issuer l) ++ Byte.x00 :: s2b (Purpose_ l) ++ Byte.x00 :: Bits l.

(** [Sign] sets the issuer before it signs, also when signing fails. *)
Definition Sign (l : StatusList) (s : signer.Signer) : StatusList * result unit :=
  let l := mkStatusList (signer.DID s) (Purpose_ l) (Bits l) (Signature l) in
  match signer.Sign s (signingInput l) with
  | Err e => (l, Err (Errorf "status: sign: %w" [AErr e]))
  | Ok sig => (mkStatusList (Issuer l) (Purpose_ l) (Bits l) sig, Ok tt)
  end.

Definition Verify {CR : Crypto} (l : StatusList) (authority : types.DID) (pub : PublicKey) : result unit :=
  check! reject_if (authority =?s "")
    (Prelude.New "status: cannot verify a list without naming the authority it must come from");
  check! reject_if (negb (Issuer l =?s authority))
    (Errorf "status: list is issued by %q but this credential's revocation authority is %q"
       [AStr (Issuer l); AStr authority]);
  check! reject_if (Len l <? MinBits)
    (Errorf "status: list has %d bits, below herd-privacy minimum %d" [AInt (Len l); AInt MinBits]);
  check! reject_if (bool_decide (Signature l = [])) (Prelude.New "status: list is unsigned");
  reject_if (negb (signer.Verify pub (signingInput l) (Signature l)))
    (Prelude.New "status: signature verification failed (tampered or wrong issuer key)").

(** ** The published form

    The struct that [Marshal] encodes as JSON and [Parse] decodes. *)
Record published := mkPublished
  { p_Issuer : types.DID; p_Purpose : Purpose; Encoding : string; Bitstring : string; p_Signature : string }.
#[global] Instance published_eq_dec : EqDecision published.
Proof. solve_decision. Defined.

Definition Marshal (l : StatusList) : result published :=
  check! reject_if (bool_decide (Signature l = []))
    (Prelude.New "status: refusing to marshal an unsigned list");
  Ok (mkPublished (Issuer l) (Purpose_ l) "base64url" (RawURLEncoding (Bits l)) (RawURLEncoding (Signature l))).

Definition decode_field (msg : string) (s : string) : result bytes :=
  match RawURLDecode s with
  | Some b => Ok b
  | None => Err (Errorf msg [AErr (Prelude.New "illegal base64 data")])
  end.
Definition Parse (p : published) : result StatusList :=
  check! reject_if (negb (Encoding p =?s "base64url"))
    (Errorf "status: unsupported encoding %q" [AStr (Encoding p)]);
  let! bits := decode_field "status: decode bitstring: %w" (Bitstring p) in
  let! sig := decode_field "status: decode signature: %w" (p_Signature p) in
  Ok (mkStatusList (p_Issuer p) (p_Purpose p) bits sig).

(** ** Where a list is published

    [Parse] of net/url is a parameter; its result has the parts of the URL the
    code looks at. *)
Record ParsedURL := mkParsedURL
  { Scheme : string; HasUser : bool; Host : bytes; Path : bytes;
    RawQuery : string; ForceQuery : bool; Fragment : string }.

Fixpoint trim_slashes (b : bytes) : bytes :=
  match b with c :: r => if byte_is c 47 then trim_slashes r else b | [] => [] end.
Definition Trim_slashes (b : bytes) : bytes := rev (trim_slashes (rev (trim_slashes b))).

Section Publish.
Context (url_Parse : string -> result ParsedURL).

Definition unsafe_segment (seg : bytes) : bool :=
  bool_decide (seg = []) || bool_decide (seg = s2b ".") || bool_decide (seg = s2b "..").

Definition PublishPath (root : bytes) (listURL : string) : result bytes :=
  let! u := wrap (fun e => Errorf "status: parse list URL %q: %w" [AStr listURL; AErr e]) (url_Parse listURL) in
  check! reject_if (negb (Scheme u =?s "https") && negb (Scheme u =?s "http"))
    (Errorf "status: list URL %q must be http(s)" [AStr listURL]);
  check! reject_if (bool_decide (Host u = [])) (Errorf "status: list URL %q has no host" [AStr listURL]);
  check! reject_if (HasUser u) (Errorf "status: list URL %q must not carry userinfo" [AStr listURL]);
  check! reject_if (negb (RawQuery u =?s "") || ForceQuery u)
    (Errorf "status: list URL %q must not carry a query string" [AStr listURL]);
  check! reject_if (negb (Fragment u =?s ""))
    (Errorf "status: list URL %q must not carry a fragment" [AStr listURL]);
  check! wrap (fun e => Errorf "status: list URL %q has an unsafe host %q: %w"
                 [AStr listURL; AStr (b2s (Host u)); AErr e]) (webhost.Validate (Host u));
  let clean := Trim_slashes (Path u) in
  check! reject_if (bool_decide (clean = []))
    (Errorf "status: list URL %q must include a path" [AStr listURL]);
  check! check_all (fun seg => reject_if (unsafe_segment seg)
                     (Errorf "status: list URL %q has an unsafe path segment %q" [AStr listURL; AStr (b2s seg)]))
           (split_bytes slash clean);
  Ok (filepath_Join ([root; Host u] ++ split_bytes slash clean)).
End Publish.

(** ** Reading and writing bits *)

Lemma checkIndex_Ok l i : checkIndex l i = Ok tt <-> 0 <= i < Len l.
Proof. unfold checkIndex. rewrite reject_if_Ok, orb_false_iff, Z.ltb_ge, Z.leb_gt. lia. Qed.

Lemma Lookup_Ok l i b :
  Lookup l i = Ok b <-> 0 <= i < Len l /\ b = Z.testbit (byte_at l i) (7 - i mod 8).
Proof.
  unfold Lookup. rewrite rbind_Ok.
  assert (Hm : negb (Z.land (byte_at l i) (mask i) =? 0) = Z.testbit (byte_at l i) (7 - i mod 8)).
  { unfold mask. pose proof (Z.mod_pos_bound i 8 ltac:(lia)).
    rewrite Z.shiftl_1_l. destruct (Z.testbit (byte_at l i) (7 - i mod 8)) eqn:E.
    - apply negb_true_iff, Z.eqb_neq. intros H0.
      assert (Ht : Z.testbit (Z.land (byte_at l i) (2 ^ (7 - i mod 8))) (7 - i mod 8) = true).
      { rewrite Z.land_spec, E, Z.pow2_bits_true by lia. done. }
      by rewrite H0, Z.bits_0 in Ht.
    - apply negb_false_iff, Z.eqb_eq, Z.bits_inj_0. intros n. rewrite Z.land_spec.
      destruct (Z.eq_dec n (7 - i mod 8)) as [->|Hn]; [by rewrite E|].
      rewrite Z.pow2_bits_false by lia. apply andb_false_r. }
  rewrite Hm. split.
  - intros ([] & Hi%checkIndex_Ok & [= <-]). done.
  - intros [Hi ->]. exists tt. split; [by apply checkIndex_Ok|done].
Qed.

Lemma Len_length l i : 0 <= i < Len l -> (Z.to_nat (i / 8) < length (Bits l))%nat.
Proof.
  unfold Len, len. intros Hi. pose proof (Z.div_lt_upper_bound i 8 (Z.of_nat (length (Bits l)))).
  pose proof (Z.div_pos i 8). lia.
Qed.

(** The new byte stays a byte, and its bits are the old ones but one. *)
Definition set_bit (b k : Z) (v : bool) : Z := if v then Z.lor b (2 ^ k) else Z.ldiff b (2 ^ k).
Lemma set_bit_spec b k v j : 0 <= k -> Z.testbit (set_bit b k v) j = if j =? k then v else Z.testbit b j.
Proof.
  intros Hk. unfold set_bit. destruct v; rewrite ?Z.lor_spec, ?Z.ldiff_spec; destruct (Z.eqb_spec j k) as [->|Hj].
  - rewrite Z.pow2_bits_true by lia. apply orb_true_r.
  - rewrite Z.pow2_bits_false by lia. apply orb_false_r.
  - rewrite Z.pow2_bits_true by lia. apply andb_false_r.
  - rewrite Z.pow2_bits_false by lia. apply andb_true_r.
Qed.

Lemma set_bit_mod b k v j :
  0 <= k -> 0 <= j < 8 -> Z.testbit (set_bit b k v mod 256) j = if j =? k then v else Z.testbit b j.
Proof. intros Hk Hj. change 256 with (2 ^ 8). rewrite Z.mod_pow2_bits_low by lia. by apply set_bit_spec. Qed.

Lemma Set_spec l i v :
  0 <= i < Len l ->
  Set_ l i v = Ok (mkStatusList (Issuer l) (Purpose_ l)
    (<[Z.to_nat (i / 8) := byte_of_Z (set_bit (byte_at l i) (7 - i mod 8) v)]> (Bits l)) (Signature l)).
Proof.
  intros Hi. unfold Set_. rewrite (proj2 (checkIndex_Ok l i) Hi). simpl.
  unfold set_bit, mask. rewrite Z.shiftl_1_l. done.
Qed.

(** setting the bit of one credential changes that bit and no other: every
    index reads as before, the one set reads the value given, and an index out
    of range fails both ways without a change. *)
Theorem set_lookup l i v :
  match Set_ l i v with
  | Ok l' => Len l' = Len l /\ Issuer l' = Issuer l /\ Purpose_ l' = Purpose_ l
             /\ (forall j, Lookup l' j = if j =? i then Ok v else
                    match Lookup l j with Ok b => Ok b | Err e => Err e end)
  | Err e => is_ok (Lookup l i) = false /\ ~ (0 <= i < Len l)
  end.
Proof.
  destruct (decide (0 <= i < Len l)) as [Hi|Hi].
  - rewrite (Set_spec l i v Hi). set (l' := mkStatusList _ _ _ _).
    assert (HL : Len l' = Len l) by (unfold Len, len; simpl; by rewrite length_insert).
    split_and!; [done..|]. intros j. destruct (Z.eqb_spec j i) as [->|Hj].
    + apply Lookup_Ok. rewrite HL. split; [done|]. unfold byte_at. simpl.
      rewrite nth_lookup, list_lookup_insert_eq by (by apply Len_length). simpl.
      unfold bz. rewrite Z_of_byte_of_Z, set_bit_mod, Z.eqb_refl; [done|..];
        pose proof (Z.mod_pos_bound i 8 ltac:(lia)); lia.
    + destruct (Lookup l j) as [b|e] eqn:E.
      * apply Lookup_Ok in E as [Hjr ->]. apply Lookup_Ok. rewrite HL. split; [done|].
        unfold byte_at at 2. simpl.
        destruct (decide (Z.to_nat (i / 8) = Z.to_nat (j / 8))) as [Hd|Hd].
        -- rewrite nth_lookup, <- Hd, list_lookup_insert_eq by (by apply Len_length). simpl.
           assert (Hdd : i / 8 = j / 8).
           { pose proof (Z.div_pos i 8). pose proof (Z.div_pos j 8). lia. }
           pose proof (Z.mod_pos_bound i 8 ltac:(lia)). pose proof (Z.mod_pos_bound j 8 ltac:(lia)).
           pose proof (Z.div_mod i 8). pose proof (Z.div_mod j 8).
           unfold bz. rewrite Z_of_byte_of_Z, set_bit_mod by lia.
           destruct (Z.eqb_spec (7 - j mod 8) (7 - i mod 8)); [lia|].
           unfold byte_at. by rewrite Hdd.
        -- rewrite nth_lookup, list_lookup_insert_ne by done. unfold byte_at. by rewrite nth_lookup.
      * unfold Lookup, checkIndex in *. rewrite HL. destruct ((j <? 0) || (Len l <=? j)); [|done].
        done.
  - unfold Set_, checkIndex. destruct ((i <? 0) || (Len l <=? i)) eqn:E.
    + simpl. unfold Lookup, checkIndex. rewrite E. done.
    + exfalso. apply Hi. apply checkIndex_Ok. unfold checkIndex. by rewrite E.
Qed.

(** a new list has at least the herd-privacy minimum and at least the bits
    asked for, and nobody on it is revoked. *)
Theorem new_clear n :
  MinBits <= Len (New n) /\ n <= Len (New n)
  /\ forall i, 0 <= i < Len (New n) -> Lookup (New n) i = Ok false.
Proof.
  assert (Hlen : Len (New n) = (Z.max n MinBits + 7) / 8 * 8).
  { unfold Len, len, New. simpl. rewrite repeat_length.
    replace (if n <? MinBits then MinBits else n) with (Z.max n MinBits)
      by (destruct (Z.ltb_spec n MinBits); lia).
    rewrite Z2Nat.id; [done|]. apply Z.div_pos; unfold MinBits; lia. }
  assert (Z.max n MinBits <= (Z.max n MinBits + 7) / 8 * 8).
  { pose proof (Z.div_mod (Z.max n MinBits + 7) 8). pose proof (Z.mod_pos_bound (Z.max n MinBits + 7) 8). lia. }
  split_and!; [lia..|]. intros i Hi. apply Lookup_Ok. split; [done|].
  unfold byte_at. simpl. rewrite nth_repeat. by rewrite Z.bits_0.
Qed.

(** ** Signing and verifying *)

Section Authority.
Context {CR : Crypto}.

Lemma Verify_Ok l authority pub :
  Verify l authority pub = Ok tt <->
  authority <> ""%string /\ Issuer l = authority /\ MinBits <= Len l /\ Signature l <> []
  /\ signer.Verify pub (signingInput l) (Signature l) = true.
Proof.
  unfold Verify. split.
  - intros H. gosimp H. rewrite bool_decide_eq_false, Z.ltb_ge in *. done.
  - intros (Ha & Hi & Hl & Hs & Hv). unfold reject_if.
    rewrite (proj2 (str_eqb_false _ _) Ha), (proj2 (str_eqb_true _ _) Hi), (proj2 (Z.ltb_ge _ _) Hl),
      (proj2 (bool_decide_eq_false _) Hs), Hv. done.
Qed.

(** a list of at least the minimum size that its authority signs is
    accepted under that authority's key, and is accepted for no other
    authority, whatever key is presented. *)
Theorem signed_list_verifies (s : signer.Signer) {HS : signer.Sound s} l l' :
  signer.DID s <> ""%string -> MinBits <= Len l ->
  (forall data sig, signer.Sign s data = Ok sig -> sig <> []) ->
  Sign l s = (l', Ok tt) ->
  Verify l' (signer.DID s) (signer.Public s) = Ok tt /\ Bits l' = Bits l
  /\ forall other pub, other <> signer.DID s -> is_ok (Verify l' other pub) = false.
Proof.
  intros Hd Hl Hne. unfold Sign.
  destruct (signer.Sign s _) as [sig|e] eqn:E; [|done]. intros [= <-]. split_and!; [|done|].
  - apply Verify_Ok. split_and!; try done; [by eapply Hne|]. by apply signer.sound.
  - intros other pub Ho. apply not_true_iff_false. intros ([] & Hv)%is_ok_true.
    apply Verify_Ok in Hv as (_ & Hi & _). by apply Ho.
Qed.
End Authority.

#[local] Instance accepting : Crypto :=
  {| ed25519_Verify := fun _ _ sig => sig =?b [Byte.x01]; ecdsa_VerifyASN1 := fun _ _ _ _ => false;
     p256_NewPublicKey_ok := fun _ => false |}.
Definition test_signer : signer.Signer :=
  signer.mkSigner "did:web:org.example" (Ed25519Key (repeat Byte.x07 32)) (fun _ => Ok [Byte.x01]).
#[local] Instance test_signer_sound : signer.Sound test_signer.
Proof. intros data sig [= <-]. reflexivity. Qed.

Lemma signed_list_verifies_witness :
  let l' := (Sign (New 0) test_signer).1 in
  Verify l' "did:web:org.example" (signer.Public test_signer) = Ok tt /\ Bits l' = Bits (New 0)
  /\ forall other pub, other <> "did:web:org.example"%string -> is_ok (Verify l' other pub) = false.
Proof.
  apply (signed_list_verifies test_signer (New 0)).
  - discriminate.
  - apply Z.leb_le. vm_compute. reflexivity.
  - intros data sig [= <-]. discriminate.
  - reflexivity.
Defined.

(** ** What the signature binds *)

(** A list whose signed bytes are read with the frame moved into the bits: the
    first [k] bytes of the bits, up to a zero byte, become part of the purpose. *)
Definition shifted (l : StatusList) (k : nat) : StatusList :=
  mkStatusList (Issuer l) (b2s (s2b (Purpose_ l) ++ Byte.x00 :: take k (Bits l)))
    (drop (S k) (Bits l)) (Signature l).

Lemma shifted_input l k :
  Bits l !! k = Some Byte.x00 -> signingInput (shifted l k) = signingInput l.
Proof.
  intros Hk. unfold signingInput, shifted. simpl. rewrite s2b_b2s.
  rewrite <- (take_drop_middle _ _ _ Hk) at 3. rewrite <- !app_assoc. done.
Qed.

(** with an issuer and a purpose free of zero bytes the signed bytes
    determine issuer, purpose and bits.  The purpose of a received list is not
    checked, and with a zero byte in it the frame moves: for every list with a
    zero byte at position [k] of its bits, the list that starts [k + 1] bytes
    later carries the same signature, is accepted wherever the original is as
    long as it still has the minimum size, and answers for index [i] what the
    original says about index [i + 8 (k + 1)]. *)
Theorem list_framing {CR : Crypto} :
  (forall l1 l2,
     nul_free (s2b (Issuer l1)) -> nul_free (s2b (Issuer l2)) ->
     nul_free (s2b (Purpose_ l1)) -> nul_free (s2b (Purpose_ l2)) ->
     signingInput l1 = signingInput l2 ->
     Issuer l1 = Issuer l2 /\ Purpose_ l1 = Purpose_ l2 /\ Bits l1 = Bits l2)
  /\ (forall l k authority pub,
     Bits l !! k = Some Byte.x00 -> MinBits <= Len (shifted l k) ->
     Verify (shifted l k) authority pub = Verify l authority pub
     /\ forall i, 0 <= i < Len (shifted l k) ->
          Lookup (shifted l k) i = Lookup l (i + 8 * (Z.of_nat k + 1))).
Proof.
  split.
  - intros l1 l2 Hi1 Hi2 Hp1 Hp2 H. unfold signingInput in H. simplify_list_eq.
    apply sep_split in H as [Hi H]; [|done..]. apply sep_split in H as [Hp Hb]; [|done..].
    split_and!; [by apply (inj s2b)|by apply (inj s2b)|done].
  - intros l k authority pub Hk Hmin.
    assert (HL : Len l = Len (shifted l k) + 8 * (Z.of_nat k + 1)).
    { apply lookup_lt_Some in Hk. unfold Len, len, shifted. simpl. rewrite length_drop. lia. }
    split.
    + unfold Verify. rewrite shifted_input by done. simpl.
      replace (Len l <? MinBits) with false by lia.
      by replace (Len (shifted l k) <? MinBits) with false by lia.
    + intros i Hi.
      destruct (Lookup (shifted l k) i) as [b|e] eqn:E.
      * apply Lookup_Ok in E as [_ ->]. symmetry. apply Lookup_Ok. split; [lia|].
        replace (i + 8 * (Z.of_nat k + 1)) with (i + (Z.of_nat k + 1) * 8) by lia.
        rewrite Z_mod_plus_full. f_equal. unfold byte_at. rewrite Z.div_add by lia.
        unfold shifted. simpl. rewrite !nth_lookup, lookup_drop. do 3 f_equal.
        pose proof (Z.div_pos i 8). lia.
      * unfold Lookup in E. rewrite (proj2 (checkIndex_Ok _ _)) in E by done. done.
Qed.

Lemma Marshal_Parse l p : Marshal l = Ok p -> Parse p = Ok l.
Proof.
  unfold Marshal. intros H. gosimp H. apply Ok_inj in H as <-. unfold Parse. simpl. unfold decode_field.
  rewrite !RawURL_roundtrip. simpl. by destruct l.
Qed.
(** what [Marshal] publishes, [Parse] reads back unchanged; an unsigned
    list is not published and another encoding is not read. *)
Theorem published_roundtrip l :
  match Marshal l with
  | Ok p => Parse p = Ok l /\ (forall e, e <> Encoding p ->
              is_ok (Parse (mkPublished (p_Issuer p) (p_Purpose p) e (Bitstring p) (p_Signature p))) = false)
  | Err _ => Signature l = []
  end.
Proof.
  destruct (Marshal l) as [p|e] eqn:E.
  - split; [by apply Marshal_Parse|]. unfold Marshal in E. gosimp E. apply Ok_inj in E as <-. intros e He. unfold Parse.
    cbn [Encoding] in *. apply str_eqb_false in He. by rewrite He.
  - unfold Marshal in E. destruct (bool_decide (Signature l = [])) eqn:Es; [|done]. by apply bool_decide_eq_true in Es.
Qed.

(** ** Where a list is written *)

Lemma split_unsafe clean e :
  check_all (fun seg => reject_if (unsafe_segment seg) (e seg)) (split_bytes slash clean) = Ok tt ->
  Forall plain_elem (split_bytes slash clean).
Proof.
  rewrite check_all_Ok, !Forall_forall. intros H w Hw. specialize (H w Hw).
  apply reject_if_Ok in H. unfold unsafe_segment in H. rewrite !orb_false_iff, !bool_decide_eq_false in H.
  destruct H as [[? ?] ?]. split_and!; [done..|]. by eapply split_bytes_no_sep.
Qed.

(** a list is written beneath the publication root, at the host of its URL
    and the segments of its path, each of them present, undotted and free of
    separators, whatever the URL parser answers. *)
Theorem publish_path_confined url_Parse root listURL p :
  root <> [] -> PublishPath url_Parse root listURL = Ok p ->
  exists u, url_Parse listURL = Ok u
    /\ (Scheme u = "https"%string \/ Scheme u = "http"%string) /\ HasUser u = false
    /\ RawQuery u = ""%string /\ Fragment u = ""%string
    /\ path_elems p = path_elems root ++ Host u :: split_bytes slash (Trim_slashes (Path u))
    /\ Forall plain_elem (Host u :: split_bytes slash (Trim_slashes (Path u)))
    /\ is_rooted p = is_rooted root.
Proof.
  intros Hr H. unfold PublishPath in H. gosimp H. exists a. split; [done|].
  apply split_unsafe in Ha7. apply webhost.Validate_plain_elem in Ha5.
  assert (Hp : Forall plain_elem (Host a :: split_bytes slash (Trim_slashes (Path a)))) by by constructor.
  split_and!; try done.
  - by destruct Ha3.
  - injection H as <-. by apply (filepath_Join_under root (Host a :: split_bytes slash _)).
  - injection H as <-. by apply (filepath_Join_under root (Host a :: split_bytes slash _)).
Qed.

Lemma publish_path_confined_witness :
  let url_Parse := fun _ => Ok (mkParsedURL "https" false (s2b "acme.example") (s2b "/status/1.json") "" false "") in
  exists u, url_Parse "https://acme.example/status/1.json"%string = Ok u
    /\ (Scheme u = "https"%string \/ Scheme u = "http"%string) /\ HasUser u = false
    /\ RawQuery u = ""%string /\ Fragment u = ""%string
    /\ path_elems (s2b "/srv/acme.example/status/1.json")
       = path_elems (s2b "/srv") ++ Host u :: split_bytes slash (Trim_slashes (Path u))
    /\ Forall plain_elem (Host u :: split_bytes slash (Trim_slashes (Path u)))
    /\ is_rooted (s2b "/srv/acme.example/status/1.json") = is_rooted (s2b "/srv").
Proof.
  apply (publish_path_confined _ (s2b "/srv") "https://acme.example/status/1.json").
  - discriminate.
  - vm_compute. reflexivity.
Defined.

End status.
