(* ===== verification/Scalar.v ===== *)
(** internal/scalar: the ordering semantics shared by macaroon caveats and
    policy conditions.  A value is an instant in exact nanoseconds or a float64. *)
From S2P Require Import Prelude GoFmt GoTime GoFloat.

Module scalar.

Definition Op : Type := string.
Definition OpLe : Op := "<=".
Definition OpLt : Op := "<".
Definition OpGe : Op := ">=".
Definition OpGt : Op := ">".

Record Value := mkValue { nanos : Z; num : float64; isTime : bool }.

Definition min_int64 : Z := - 2 ^ 63.
Definition max_int64 : Z := 2 ^ 63 - 1.
(** [minUnixNano], [maxUnixNano]: [time.Unix(0, n)]. *)
Definition minUnixNano : time := mkTime (min_int64 / 1000000000) (min_int64 mod 1000000000) 0.
Definition maxUnixNano : time := mkTime (max_int64 / 1000000000) (max_int64 mod 1000000000) 0.

Definition Parse (s : string) : option Value :=
  match parse_RFC3339 s with
  | Some t =>
      if Before t minUnixNano || After t maxUnixNano then None
      else Some (mkValue (UnixNano_exact t) (FFin 0 0) true)
  | None =>
      match ParseFloat s with
      | Some f => if IsInf f then None else Some (mkValue 0 f false)
      | None => None
      end
  end.

Definition cmpInt64 (a b : Z) : Z :=
  if a <? b then -1 else if b <? a then 1 else 0.

Definition cmpFloat64 (a b : float64) : Z * bool :=
  if IsNaN a || IsNaN b then (0, false)
  else if flt a b then (-1, true)
  else if flt b a then (1, true)
  else (0, true).

Definition twoPow63 : float64 := of_int (2 ^ 63).
Definition neg_twoPow63 : float64 := of_int (- 2 ^ 63).

Definition cmpInt64Float (n : Z) (f : float64) : Z * bool :=
  if IsNaN f then (0, false)
  else if fge f twoPow63 then (-1, true)
  else if flt f neg_twoPow63 then (1, true)
  else
    let cmp := cmpInt64 n (trunc_Z f) in
    if negb (cmp =? 0) then (cmp, true)
    else
      let frac := frac_part f in
      if flt (FFin 0 0) frac then (-1, true)
      else if flt frac (FFin 0 0) then (1, true)
      else (0, true).

Definition Compare (v w : Value) : Z * bool :=
  if isTime v && isTime w then (cmpInt64 (nanos v) (nanos w), true)
  else if isTime v then cmpInt64Float (nanos v) (num w)
  else if isTime w then let '(cmp, ok) := cmpInt64Float (nanos w) (num v) in (- cmp, ok)
  else cmpFloat64 (num v) (num w).

Definition Satisfies (v : Value) (op : Op) (w : Value) : bool :=
  let '(cmp, ok) := Compare v w in
  if negb ok then false
  else if op =?s OpLe then cmp <=? 0
  else if op =?s OpLt then cmp <? 0
  else if op =?s OpGe then 0 <=? cmp
  else if op =?s OpGt then 0 <? cmp
  else false.

(** ** The reference order: every value is an extended dyadic number *)

Definition denote (v : Value) : float64 := if isTime v then of_int (nanos v) else num v.
Definition sign_of (c : comparison) : Z := match c with Lt => -1 | Eq => 0 | Gt => 1 end.
Definition ref_compare (v w : Value) : Z * bool :=
  match fcompare (denote v) (denote w) with
  | None => (0, false)
  | Some c => (sign_of c, true)
  end.

(** The nanoseconds of an instant are an int64. *)
Definition wf (v : Value) : Prop := min_int64 <= nanos v <= max_int64.

Lemma cmpInt64_sign a b : cmpInt64 a b = sign_of (a ?= b).
Proof. unfold cmpInt64. destruct (Z.compare_spec a b), (Z.ltb_spec a b), (Z.ltb_spec b a); simpl; lia. Qed.

Lemma cmpFloat64_ref a b :
  cmpFloat64 a b = match fcompare a b with None => (0, false) | Some c => (sign_of c, true) end.
Proof.
  unfold cmpFloat64, flt. rewrite (fcompare_antisym a b).
  destruct a as [|[]|m e], b as [|[]|m' e']; simpl; try done.
  by destruct (cmp_dyadic m e m' e').
Qed.

(** Comparing a dyadic with an integer. *)
Lemma cmp_dyadic_int n m e :
  cmp_dyadic n 0 m e = if 0 <=? e then n ?= m * 2 ^ e else n * 2 ^ (- e) ?= m.
Proof.
  destruct (Z.leb_spec 0 e).
  - rewrite (cmp_dyadic_at _ _ _ _ 0) by lia. unfold scaled. rewrite !Z.sub_0_r. by rewrite Z.mul_1_r.
  - rewrite (cmp_dyadic_at _ _ _ _ e) by lia. unfold scaled. rewrite Z.sub_diag, Z.mul_1_r.
    by replace (0 - e) with (- e) by lia.
Qed.

(** The comparison through the integer part, with the fraction as tie-break. *)
Lemma compare_quot n m d :
  0 < d ->
  (n * d ?= m) = match n ?= Z.quot m d with Eq => 0 ?= Z.rem m d | c => c end.
Proof.
  intros Hd. pose proof (Z.quot_rem' m d) as Hm.
  pose proof (Z.rem_bound_abs m d ltac:(lia)) as Hr.
  set (q := Z.quot m d) in *. set (r := Z.rem m d) in *.
  destruct (Z.compare_spec n q) as [->|Hlt|Hgt].
  - destruct (Z.compare_spec 0 r), (Z.compare_spec (q * d) m); try done; exfalso; lia.
  - apply Z.compare_lt_iff. assert ((n + 1) * d <= q * d) by (apply Z.mul_le_mono_nonneg_r; lia). lia.
  - apply Z.compare_gt_iff. assert ((q + 1) * d <= n * d) by (apply Z.mul_le_mono_nonneg_r; lia). lia.
Qed.

Lemma cmpInt64Float_ref n f :
  min_int64 <= n <= max_int64 ->
  cmpInt64Float n f =
  match fcompare (of_int n) f with None => (0, false) | Some c => (sign_of c, true) end.
Proof.
  unfold min_int64, max_int64. intros Hn.
  destruct f as [|[]|m e]; [done..|]. unfold cmpInt64Float, fge, flt; simpl IsNaN; cbv iota.
  unfold twoPow63, neg_twoPow63, of_int; simpl fcompare.
  rewrite (cmp_dyadic_antisym (2 ^ 63) 0 m e), (cmp_dyadic_antisym (- 2 ^ 63) 0 m e), !cmp_dyadic_int.
  unfold frac_part, trunc_Z. rewrite cmpInt64_sign.
  destruct (Z.leb_spec 0 e) as [He|He].
  - set (x := m * 2 ^ e).
    destruct (Z.compare_spec (2 ^ 63) x), (Z.compare_spec (- 2 ^ 63) x), (Z.compare_spec n x);
      simpl; try done; exfalso; lia.
  - assert (Hd : 0 < 2 ^ (- e)) by (apply Z.pow_pos_nonneg; lia).
    set (d := 2 ^ (- e)) in *.
    assert (Hhi : n * d <= (2 ^ 63 - 1) * d) by (apply Z.mul_le_mono_nonneg_r; lia).
    assert (Hlo : - 2 ^ 63 * d <= n * d) by (apply Z.mul_le_mono_nonneg_r; lia).
    destruct (Z.compare_spec (2 ^ 63 * d) m) as [Hm|Hm|Hm]; simpl.
    1,2: destruct (Z.compare_spec (n * d) m); [exfalso; lia|done|exfalso; lia].
    destruct (Z.compare_spec (- 2 ^ 63 * d) m) as [Hl|Hl|Hl]; simpl;
      [| |destruct (Z.compare_spec (n * d) m); [exfalso; lia..|done]].
    all: rewrite (compare_quot n m d Hd); destruct (n ?= Z.quot m d); simpl; try done.
    all: rewrite (cmp_dyadic_antisym 0 0 (Z.rem m d) e), cmp_dyadic_int.
    all: rewrite (proj2 (Z.leb_gt 0 e)) by lia; fold d; rewrite Z.mul_0_l.
    all: by destruct (Z.rem m d).
Qed.

(** The mixed comparison computes exactly the reference order. *)
Lemma Compare_ref v w : wf v -> wf w -> Compare v w = ref_compare v w.
Proof.
  unfold wf, Compare, ref_compare, denote. intros Hv Hw.
  destruct v as [n f []], w as [n' f' []]; simpl in *.
  - rewrite cmpInt64_sign. unfold of_int; simpl. by rewrite cmp_dyadic_int, Z.mul_1_r.
  - by apply cmpInt64Float_ref.
  - rewrite (cmpInt64Float_ref n' f) by done. rewrite (fcompare_antisym (of_int n') f).
    destruct (fcompare (of_int n') f) as [[]|]; done.
  - apply cmpFloat64_ref.
Qed.

(** ** Bounds

    The order relation an operator stands for, on the reference order. *)
Definition op_holds (op : Op) (c : comparison) : bool :=
  if op =?s OpLe then match c with Gt => false | _ => true end
  else if op =?s OpLt then match c with Lt => true | _ => false end
  else if op =?s OpGe then match c with Lt => false | _ => true end
  else if op =?s OpGt then match c with Gt => true | _ => false end
  else false.

Lemma Satisfies_ref v op w :
  wf v -> wf w ->
  Satisfies v op w = match fcompare (denote v) (denote w) with
                     | Some c => op_holds op c | None => false end.
Proof.
  intros Hv Hw. unfold Satisfies. rewrite Compare_ref by done. unfold ref_compare, op_holds.
  destruct (fcompare (denote v) (denote w)) as [c|]; [|done]. simpl.
  repeat case_match; done.
Qed.

Lemma Parse_wf s v : Parse s = Some v -> wf v /\ IsInf (denote v) = false.
Proof.
  unfold Parse, wf, denote. destruct (parse_RFC3339 s) as [t|].
  - unfold Before, After. destruct (_ || _) eqn:E; [done|]. intros [=<-]; simpl.
    apply orb_false_iff in E as [E1 E2]. apply Z.ltb_ge in E1, E2.
    split; [|done]. split; [exact E1|exact E2].
  - destruct (ParseFloat s) as [f|]; [|done]. destruct (IsInf f) eqn:E; [done|].
    intros [=<-]; simpl. split; [|done]. unfold min_int64, max_int64. lia.
Qed.

(** ** Properties *)

(** C39: [Compare] is the exact order of the two values as extended dyadic
    numbers: an instant's nanosecond count against a float64 is decided with no
    rounding in either direction, and only NaN is unordered. *)
Theorem compare_exact v w : wf v -> wf w -> Compare v w = ref_compare v w.
Proof. apply Compare_ref. Qed.

Lemma compare_exact_witness :
  wf (mkValue (2 ^ 63 - 1) FNaN true) /\
  Compare (mkValue (2 ^ 63 - 1) FNaN true) (mkValue 0 (FFin 1 63) false)
  = ref_compare (mkValue (2 ^ 63 - 1) FNaN true) (mkValue 0 (FFin 1 63) false).
Proof.
  split; [unfold wf; vm_compute; split; discriminate|].
  apply (compare_exact (mkValue (2 ^ 63 - 1) FNaN true) (mkValue 0 (FFin 1 63) false));
    unfold wf; vm_compute; split; discriminate.
Defined.

(** the order is transitive across instants and numbers alike: for values
    that parse, [a <= b] and [b <= c] give [a <= c], strictly when either step
    is strict. *)
Theorem compare_transitive sa sb sc a b c x y :
  Parse sa = Some a -> Parse sb = Some b -> Parse sc = Some c ->
  Compare a b = (x, true) -> Compare b c = (y, true) -> x <= 0 -> y <= 0 ->
  exists z, Compare a c = (z, true) /\ z <= 0 /\ (x < 0 \/ y < 0 -> z < 0).
Proof.
  intros [Wa _]%Parse_wf [Wb _]%Parse_wf [Wc _]%Parse_wf.
  rewrite !Compare_ref by done. unfold ref_compare.
  destruct (fcompare (denote a) (denote b)) as [c1|] eqn:E1; [|done].
  destruct (fcompare (denote b) (denote c)) as [c2|] eqn:E2; [|done].
  intros [=<-] [=<-] Hx Hy.
  assert (exists r, comp2 c1 c2 = Some r /\ sign_of r <= 0
                    /\ (sign_of c1 < 0 \/ sign_of c2 < 0 -> sign_of r < 0)) as (r & Hr & Hr0 & Hr1).
  { destruct c1, c2; simpl in *; try lia; eexists; (split; [done|]); simpl; lia. }
  rewrite (fcompare_trans _ _ _ _ _ _ E1 E2 Hr). by exists (sign_of r).
Qed.

Lemma compare_transitive_witness :
  exists z, Compare (mkValue 1783598399999999999 (FFin 0 0) true)
                    (mkValue 1783598400000000001 (FFin 0 0) true) = (z, true)
            /\ z <= 0 /\ (-1 < 0 \/ -1 < 0 -> z < 0).
Proof.
  apply (compare_transitive "2026-07-09T11:59:59.999999999Z" "1783598400000000000"
           "2026-07-09T12:00:00.000000001Z" _ (mkValue 0 (FFin 6967181250000000 8) false) _ (-1) (-1)).
  all: vm_compute; (reflexivity || discriminate).
Defined.

End scalar.
