(* ===== verification/Policy.v ===== *)
(** internal/policy: the rule evaluator that classifies an action.

    Module [policy] has the data of a policy, its validation and its evaluation;
    the theorems say what a validated policy guarantees of every evaluation. *)
From S2P Require Import Prelude GoFmt GoTime GoCrypto GoJson Types Scalar.
Import types.

Module policy.

Definition DefaultRule : string := "default".

Definition Op : Type := string.
Definition OpEq : Op := "==".
Definition OpNe : Op := "!=".
Definition OpLe : Op := "<=".
Definition OpLt : Op := "<".
Definition OpGe : Op := ">=".
Definition OpGt : Op := ">".
Definition OpIn : Op := "in".

Record Condition := mkCondition { Field : string; COp : Op; CValue : string }.
Record Rule := mkRule
  { Name : string; When : slice Condition; Deny : bool; RConsequential : bool; RReason : string }.
Record Default := mkDefault { DAllowed : bool; DConsequential : bool; DReason : string }.
Record Policy := mkPolicy
  { Ver : string; Rules : slice Rule; Dflt : Default; defaultPresent : bool }.

(** The operators of the two groups of the switches over [Op]. *)
Definition is_equality_op (op : Op) : bool := (op =?s OpEq) || (op =?s OpNe) || (op =?s OpIn).
Definition is_ordering_op (op : Op) : bool :=
  (op =?s OpLe) || (op =?s OpLt) || (op =?s OpGe) || (op =?s OpGt).

(** [UnmarshalJSON], after encoding/json has decoded the raw fields: a pointer
    for the default block, nil when absent. *)
Definition Unmarshal (ver : string) (rules : slice Rule) (dflt : option Default) : Policy :=
  match dflt with
  | Some d => mkPolicy ver rules d true
  | None => mkPolicy ver rules (mkDefault false false "") false
  end.

Definition blank (s : string) : bool := TrimSpace s =?s "".

Definition Condition_validate (c : Condition) : result unit :=
  if blank (Field c) then Err (New "condition has empty field")
  else if is_equality_op (COp c) then
    reject_if (CValue c =?s "")
      (Errorf "condition %q %q has empty value" [AStr (Field c); AStr (COp c)])
  else if is_ordering_op (COp c) then
    match scalar.Parse (CValue c) with
    | Some _ => Ok tt
    | None => Err (Errorf "condition %q %q value %q is not a scalar"
                     [AStr (Field c); AStr (COp c); AStr (CValue c)])
    end
  else Err (Errorf "condition %q has unknown operator %q" [AStr (Field c); AStr (COp c)]).

Definition Rule_validate (ver : string) (i : Z) (r : Rule) : result unit :=
  check! reject_if (blank (Name r)) (Errorf "policy %s: rule %d has no name" [AStr ver; AInt i]);
  check! reject_if (bool_decide (elems (When r) = []))
    (Errorf "policy %s: rule %q has no conditions" [AStr ver; AStr (Name r)]);
  check! wrap (fun e => Errorf "policy %s: rule %q: %w" [AStr ver; AStr (Name r); AErr e])
    (check_all Condition_validate (elems (When r)));
  reject_if (blank (RReason r)) (Errorf "policy %s: rule %q has no reason" [AStr ver; AStr (Name r)]).

Definition Validate (p : Policy) : result unit :=
  check! reject_if (blank (Ver p)) (New "policy: missing version");
  check! reject_if (negb (defaultPresent p))
    (Errorf ("policy %s: missing required " +:+ dq "default" +:+ " block") [AStr (Ver p)]);
  check! reject_if (blank (DReason (Dflt p)))
    (Errorf "policy %s: default.reason must not be empty" [AStr (Ver p)]);
  check_alli (Rule_validate (Ver p)) 0 (elems (Rules p)).

(** Whether the condition holds, and whether it could not be evaluated. *)
Definition Condition_eval (c : Condition) (ctx : gmap string string) : bool * bool :=
  match ctx !! Field c with
  | None => (false, false)
  | Some got =>
      if COp c =?s OpEq then (got =?s CValue c, false)
      else if COp c =?s OpNe then (negb (got =?s CValue c), false)
      else if is_ordering_op (COp c) then
        match scalar.Parse got, scalar.Parse (CValue c) with
        | Some gs, Some vs => (scalar.Satisfies gs (COp c) vs, false)
        | _, _ => (false, true)
        end
      else if COp c =?s OpIn then
        (existsb (fun m => let m := TrimSpace m in negb (m =?s "") && (got =?s m))
           (Split (CValue c) comma), false)
      else (false, false)
  end.

Definition Rule_eval (r : Rule) (ctx : gmap string string) : bool * bool :=
  let '(matched, indeterminate) :=
    fold_left (fun '(matched, ind) c =>
                 let '(ok, i) := Condition_eval c ctx in
                 (if ok then matched else false, if i then true else ind))
      (elems (When r)) (true, false) in
  (matched && negb indeterminate, indeterminate).

Definition indeterminateFields (r : Rule) (ctx : gmap string string) : string :=
  Join (map Field (List.filter (fun c => (Condition_eval c ctx).2) (elems (When r)))) ", ".

Section Evaluate.
Context {UT : UnicodeTables}.

(** The loop over the rules: the first rule that matches or cannot be
    evaluated decides. *)
Fixpoint eval_rules (p : Policy) (rules : list Rule) (ctx : gmap string string) : option Decision :=
  match rules with
  | [] => None
  | r :: rules =>
      let '(matched, indeterminate) := Rule_eval r ctx in
      if indeterminate then
        Some (mkDecision false true (Name r) (Ver p) 0
                (Sprintf "rule %q could not be evaluated: %s is not comparable"
                   [AStr (Name r); AStr (indeterminateFields r ctx)]))
      else if matched then
        Some (mkDecision (negb (Deny r)) (RConsequential r) (Name r) (Ver p) 0 (RReason r))
      else eval_rules p rules ctx
  end.

Definition Evaluate (p : Policy) (a : Action) : result Decision :=
  Ok match eval_rules p (elems (Rules p)) (Context a) with
     | Some d => d
     | None => mkDecision (DAllowed (Dflt p)) (DConsequential (Dflt p)) DefaultRule (Ver p) 0
                 (DReason (Dflt p))
     end.
End Evaluate.

(** The JSON form whose hash is the policy's content address. *)
Definition Condition_json (c : Condition) : json :=
  JObj (field "field" (JStr (Field c)) ++ field "op" (JStr (COp c)) ++ field "value" (JStr (CValue c))).
Definition Rule_json (r : Rule) : json :=
  JObj (field "name" (JStr (Name r))
        ++ field "when" (j_slice (fun l => JArr (map Condition_json l)) (When r))
        ++ omit_if (negb (Deny r)) "deny" (JBool (Deny r))
        ++ omit_if (negb (RConsequential r)) "consequential" (JBool (RConsequential r))
        ++ field "reason" (JStr (RReason r))).
Definition Default_json (d : Default) : json :=
  JObj (field "allowed" (JBool (DAllowed d)) ++ field "consequential" (JBool (DConsequential d))
        ++ field "reason" (JStr (DReason d))).
Definition Policy_json (p : Policy) : json :=
  JObj (field "version" (JStr (Ver p))
        ++ field "rules" (j_slice (fun l => JArr (map Rule_json l)) (Rules p))
        ++ field "default" (Default_json (Dflt p))).

(** ** Rules *)

(** A rule is indeterminate when some condition could not be evaluated, and
    fires when every condition holds and none is indeterminate. *)
Definition rule_indeterminate (r : Rule) (ctx : gmap string string) : Prop :=
  Exists (fun c => (Condition_eval c ctx).2 = true) (elems (When r)).
Definition rule_holds (r : Rule) (ctx : gmap string string) : Prop :=
  Forall (fun c => (Condition_eval c ctx).1 = true) (elems (When r)).

Definition eval_step (ctx : gmap string string) (st : bool * bool) (c : Condition) : bool * bool :=
  (st.1 && (Condition_eval c ctx).1, (Condition_eval c ctx).2 || st.2).

Lemma Rule_eval_fold r ctx :
  Rule_eval r ctx =
  let st := fold_left (eval_step ctx) (elems (When r)) (true, false) in (st.1 && negb st.2, st.2).
Proof.
  unfold Rule_eval.
  assert (E : forall l st, fold_left (fun '(matched, ind) c =>
                 let '(ok, i) := Condition_eval c ctx in
                 (if ok then matched else false, if i then true else ind)) l st
               = fold_left (eval_step ctx) l st).
  { induction l as [|c l IH]; intros [m i]; simpl; [done|]. rewrite IH. unfold eval_step. simpl.
    destruct (Condition_eval c ctx) as [[] []], m, i; done. }
  rewrite E. by destruct (fold_left _ _ _).
Qed.

Lemma eval_step_fold ctx l st :
  fold_left (eval_step ctx) l st =
  (st.1 && forallb (fun c => (Condition_eval c ctx).1) l,
   existsb (fun c => (Condition_eval c ctx).2) l || st.2).
Proof.
  revert st. induction l as [|c l IH]; intros [m i]; simpl.
  { by rewrite andb_true_r. }
  rewrite IH. simpl. rewrite andb_assoc. f_equal.
  by destruct (existsb _ _), (Condition_eval c ctx).2.
Qed.

Lemma Rule_eval_spec r ctx :
  Rule_eval r ctx =
  let ind := existsb (fun c => (Condition_eval c ctx).2) (elems (When r)) in
  (forallb (fun c => (Condition_eval c ctx).1) (elems (When r)) && negb ind, ind).
Proof. rewrite Rule_eval_fold, eval_step_fold. simpl. by rewrite orb_false_r. Qed.

Lemma Rule_eval_indeterminate r ctx : (Rule_eval r ctx).2 = true <-> rule_indeterminate r ctx.
Proof.
  rewrite Rule_eval_spec. simpl. unfold rule_indeterminate. rewrite existsb_exists, Exists_exists.
  by setoid_rewrite list_elem_of_In.
Qed.

Lemma Rule_eval_matched r ctx :
  (Rule_eval r ctx).1 = true <-> rule_holds r ctx /\ ~ rule_indeterminate r ctx.
Proof.
  rewrite <- Rule_eval_indeterminate, Rule_eval_spec. simpl. unfold rule_holds.
  rewrite andb_true_iff, negb_true_iff, not_true_iff_false, forallb_forall, Forall_forall.
  by setoid_rewrite list_elem_of_In.
Qed.

(** The decision of the rule that decides. *)
Section Decide.
Context {UT : UnicodeTables}.

Definition rule_silent (r : Rule) (ctx : gmap string string) : Prop :=
  (Rule_eval r ctx).1 = false /\ (Rule_eval r ctx).2 = false.
Definition rule_decision (p : Policy) (r : Rule) (ctx : gmap string string) : Decision :=
  if (Rule_eval r ctx).2 then
    mkDecision false true (Name r) (Ver p) 0
      (Sprintf "rule %q could not be evaluated: %s is not comparable"
         [AStr (Name r); AStr (indeterminateFields r ctx)])
  else mkDecision (negb (Deny r)) (RConsequential r) (Name r) (Ver p) 0 (RReason r).

Lemma eval_rules_first p rules ctx :
  match eval_rules p rules ctx with
  | Some d => exists pre r post, rules = pre ++ r :: post
                /\ Forall (fun q => rule_silent q ctx) pre /\ ~ rule_silent r ctx
                /\ d = rule_decision p r ctx
  | None => Forall (fun q => rule_silent q ctx) rules
  end.
Proof.
  induction rules as [|r rules IH]; simpl; [done|].
  unfold rule_silent, rule_decision in *.
  destruct (Rule_eval r ctx) as [m []] eqn:E.
  { exists [], r, rules. rewrite E. simpl. naive_solver. }
  destruct m.
  { exists [], r, rules. rewrite E. simpl. naive_solver. }
  destruct (eval_rules p rules ctx) as [d|].
  - destruct IH as (pre & q & post & -> & Hpre & Hq & ->).
    exists (r :: pre), q, post. split_and!; [done| |done..]. constructor; [by rewrite E|done].
  - constructor; [by rewrite E|done].
Qed.

Lemma Evaluate_ok p a : exists d, Evaluate p a = Ok d.
Proof. by eexists. Qed.

(** The first rule that is not silent decides; the default does when every
    rule is. *)
Definition first_match_spec (p : Policy) (a : Action) (d : Decision) : Prop :=
  let ctx := Context a in
  let silent q := ~ rule_indeterminate q ctx /\ ~ rule_holds q ctx in
  (exists pre r post, elems (Rules p) = pre ++ r :: post /\ Forall silent pre
     /\ ((rule_indeterminate r ctx /\ Allowed d = false /\ Consequential d = true)
         \/ (~ rule_indeterminate r ctx /\ rule_holds r ctx
             /\ Allowed d = negb (Deny r) /\ Consequential d = RConsequential r
             /\ Reason d = RReason r))
     /\ RuleFired d = Name r /\ PolicyVersion d = Ver p)
  \/ (Forall silent (elems (Rules p))
      /\ d = mkDecision (DAllowed (Dflt p)) (DConsequential (Dflt p)) DefaultRule (Ver p) 0
               (DReason (Dflt p))).

Lemma blank_nonempty s : blank s = false -> s <> "".
Proof. intros Hb ->. vm_compute in Hb. done. Qed.

Lemma Validate_Ok p :
  Validate p = Ok tt ->
  blank (Ver p) = false /\ defaultPresent p = true /\ blank (DReason (Dflt p)) = false
  /\ Forall (fun r => blank (Name r) = false /\ elems (When r) <> []
              /\ Forall (fun c => Condition_validate c = Ok tt) (elems (When r))
              /\ blank (RReason r) = false) (elems (Rules p)).
Proof.
  unfold Validate. intros H. gosimp H. split_and!; try done.
  rewrite check_alli_Ok in H. apply Forall_lookup. intros n r Hr. specialize (H n r Hr).
  unfold Rule_validate in H. gosimp H. rewrite check_all_Ok in Ha4.
  rewrite bool_decide_eq_false in Ha3. done.
Qed.

(** ** Properties *)

(** the first rule that is not silent decides, and an indeterminate rule
    denies before any later rule or the default can answer; the default decides
    only when every rule is silent. *)
Theorem evaluate_first_match p a d : Evaluate p a = Ok d -> first_match_spec p a d.
Proof.
  set (ctx := Context a). unfold Evaluate. fold ctx. intros [=<-].
  assert (Hs : forall q, rule_silent q ctx <-> ~ rule_indeterminate q ctx /\ ~ rule_holds q ctx).
  { intros q. unfold rule_silent. rewrite <- !not_true_iff_false, Rule_eval_matched,
      Rule_eval_indeterminate. tauto. }
  pose proof (eval_rules_first p (elems (Rules p)) ctx) as Hf.
  destruct (eval_rules p (elems (Rules p)) ctx) as [d|].
  - left. destruct Hf as (pre & r & post & -> & Hpre & Hr & ->). exists pre, r, post.
    split; [done|]. split; [eapply Forall_impl; [exact Hpre|]; intros q; apply Hs|].
    unfold rule_decision. destruct (Rule_eval r ctx).2 eqn:E; simpl.
    + apply Rule_eval_indeterminate in E. naive_solver.
    + assert (~ rule_indeterminate r ctx).
      { rewrite <- Rule_eval_indeterminate. by rewrite E. }
      split; [|done]. right. split_and!; try done.
      destruct (Rule_eval r ctx).1 eqn:E1; [by apply Rule_eval_matched|].
      destruct Hr. by split.
  - right. split; [|done]. eapply Forall_impl; [exact Hf|]. intros q; apply Hs.
Qed.

(** an accepted policy states a reason, a rule and its version on every
    decision it makes, whichever rule fires and for every action. *)
Theorem validated_decision_stated p a d :
  Validate p = Ok tt -> Evaluate p a = Ok d ->
  Reason d <> "" /\ RuleFired d <> "" /\ PolicyVersion d = Ver p /\ Ver p <> ""
  /\ StatusCheckedHops d = 0.
Proof.
  intros (Hv & _ & Hd & Hr)%Validate_Ok [=<-].
  pose proof (eval_rules_first p (elems (Rules p)) (Context a)) as Hf.
  destruct (eval_rules p _ _) as [d|]; [|split_and!; by try apply blank_nonempty].
  destruct Hf as (pre & r & post & E & _ & _ & ->). rewrite E in Hr.
  apply Forall_app in Hr as [_ [(Hn & _ & _ & Hre) _]%Forall_cons].
  unfold rule_decision. destruct (Rule_eval r (Context a)).2; simpl;
    (split_and!; try done; by apply blank_nonempty).
Qed.

End Decide.

(** in an accepted policy a condition is indeterminate exactly when it
    orders a field the action carries with a value that is not a scalar; the
    policy's own bound can never be the cause. *)
Theorem validated_indeterminate c ctx :
  Condition_validate c = Ok tt ->
  (Condition_eval c ctx).2 = true <->
  is_ordering_op (COp c) = true
  /\ exists got, ctx !! Field c = Some got /\ scalar.Parse got = None.
Proof.
  unfold Condition_validate, Condition_eval, is_equality_op. intros Hv.
  destruct (blank (Field c)); [done|].
  destruct (ctx !! Field c) as [got|] eqn:Eg; [|simpl; naive_solver].
  destruct (COp c =?s OpEq) eqn:E1; [rewrite str_eqb_true in E1; rewrite E1; simpl; naive_solver|].
  destruct (COp c =?s OpNe) eqn:E2; [rewrite str_eqb_true in E2; rewrite E2; simpl; naive_solver|].
  destruct (COp c =?s OpIn) eqn:E3; [rewrite str_eqb_true in E3; rewrite E3; simpl; naive_solver|].
  simpl in Hv. destruct (is_ordering_op (COp c)); [|done].
  destruct (scalar.Parse (CValue c)) as [vs|]; [|done].
  destruct (scalar.Parse got) as [gs|] eqn:Ep; simpl; naive_solver.
Qed.

Lemma validated_indeterminate_witness :
  Condition_validate (mkCondition "amount" OpLe "25") = Ok tt
  /\ ((Condition_eval (mkCondition "amount" OpLe "25") {["amount" := "-Inf"]}).2 = true <->
      is_ordering_op OpLe = true
      /\ exists got, ({["amount" := "-Inf"]} : gmap string string) !! "amount" = Some got
                     /\ scalar.Parse got = None).
Proof.
  split; [vm_compute; reflexivity|].
  apply (validated_indeterminate (mkCondition "amount" OpLe "25") {["amount" := "-Inf"]}).
  vm_compute; reflexivity.
Defined.

(** An allow-list policy: small domestic payments are routine, anything else
    is gated. *)
Definition example_policy : Policy :=
  mkPolicy "v1" (Some [mkRule "small" (Some [mkCondition "amount" OpLe "25"]) false false "small"])
    (mkDefault true true "gated") true.
Definition example_action (amount : string) : Action :=
  mkAction "payment.transfer" "acct" {["amount" := amount]} (mkTime 1783598400 0 0).

Lemma evaluate_first_match_witness :
  let _ := Build_UnicodeTables (fun _ => true) in
  first_match_spec example_policy (example_action "-Inf")
    (mkDecision false true "small" "v1" 0
       ("rule " +:+ dq "small" +:+ " could not be evaluated: amount is not comparable")).
Proof.
  intros U. apply (@evaluate_first_match U example_policy (example_action "-Inf")).
  vm_compute; reflexivity.
Defined.

Lemma validated_decision_stated_witness :
  let U := Build_UnicodeTables (fun _ => true) in
  Validate example_policy = Ok tt /\
  let d := mkDecision true false "small" "v1" 0 "small" in
  Reason d <> "" /\ RuleFired d <> "" /\ PolicyVersion d = Ver example_policy
  /\ Ver example_policy <> "" /\ StatusCheckedHops d = 0.
Proof.
  intros U. split; [vm_compute; reflexivity|].
  apply (@validated_decision_stated U example_policy (example_action "25")); vm_compute; reflexivity.
Defined.

(** a rule's answer does not depend on the order its conditions are
    written in. *)
Theorem rule_eval_order r r' ctx :
  elems (When r) ≡ₚ elems (When r') -> Rule_eval r ctx = Rule_eval r' ctx.
Proof.
  intros Hp. rewrite !Rule_eval_spec.
  assert (E : forall f, forallb f (elems (When r)) = forallb f (elems (When r'))
                     /\ existsb f (elems (When r)) = existsb f (elems (When r'))).
  { intros f. induction Hp as [|c l l' _ [IH1 IH2]|c c' l|l1 l2 l3 _ [IH1 IH2] _ [IH3 IH4]]; simpl.
    - done.
    - by rewrite IH1, IH2.
    - by rewrite !andb_assoc, !orb_assoc, (andb_comm (f c)), (orb_comm (f c)).
    - by rewrite IH1, IH2, IH3, IH4. }
  destruct (E (fun c => (Condition_eval c ctx).1)) as [-> _].
  by destruct (E (fun c => (Condition_eval c ctx).2)) as [_ ->].
Qed.

Definition two_conditions (swap : bool) : Rule :=
  let c1 := mkCondition "amount" OpLe "25" in
  let c2 := mkCondition "region" OpEq "us" in
  mkRule "r" (Some (if swap then [c2; c1] else [c1; c2])) false true "reason".
Lemma rule_eval_order_witness :
  Rule_eval (two_conditions false) {["amount" := "NotANumber"; "region" := "eu"]}
  = Rule_eval (two_conditions true) {["amount" := "NotANumber"; "region" := "eu"]}.
Proof. apply rule_eval_order. apply Permutation_swap. Defined.

End policy.
