(* ===== verification/Meaning.v ===== *)
(** internal/policy, by its meaning: what a policy says about an action, written
    as rules of inference over exact numbers, and that [policy.Evaluate] answers
    that and nothing else.

    Module [meaning].  The code compares through machine integers, float64 and
    a truncation; here a scalar is a rational number and an order is the order of
    the rationals. *)
From Stdlib Require Import QArith.QArith QArith.Qpower.
From S2P Require Import Prelude GoFmt GoTime GoFloat GoJson Types Scalar Policy.
#[local] Open Scope Z_scope.
#[local] Open Scope go_scope.

(** ** Scalars as rational numbers *)

Definition dyadic (m e : Z) : Q := inject_Z m * (2 # 1) ^ e.

Lemma two_pow_pos e : (0 < (2 # 1) ^ e)%Q.
Proof. by apply Qpower_0_lt. Qed.
Lemma dyadic_scaled m e k : k <= e -> (dyadic m e == inject_Z (scaled m e k) * (2 # 1) ^ k)%Q.
Proof.
  intros Hk. unfold dyadic, scaled. rewrite inject_Z_mult, (Zpower_Qpower 2 (e - k)) by lia.
  rewrite <- Qmult_assoc, <- Qpower_plus by done. by replace (e - k + k) with e by lia.
Qed.
(** The comparison of dyadics is the order of the rationals. *)
Lemma cmp_dyadic_Q m1 e1 m2 e2 : cmp_dyadic m1 e1 m2 e2 = (dyadic m1 e1 ?= dyadic m2 e2)%Q.
Proof.
  set (k := Z.min e1 e2). rewrite (cmp_dyadic_at m1 e1 m2 e2 k) by lia.
  rewrite (dyadic_scaled m1 e1 k), (dyadic_scaled m2 e2 k) by lia. pose proof (two_pow_pos k) as Hp. symmetry.
  destruct (Z.compare_spec (scaled m1 e1 k) (scaled m2 e2 k)) as [->|Hlt|Hgt].
  - by apply Qeq_alt.
  - apply Qlt_alt, Qmult_lt_r; [done|]. by rewrite <- Zlt_Qlt.
  - apply Qgt_alt, Qmult_lt_r; [done|]. by rewrite <- Zlt_Qlt.
Qed.

Module meaning.

(** An instant is its count of nanoseconds since 1970, a number the dyadic of its
    float64; NaN is no number. *)
Definition rational (v : scalar.Value) : option Q :=
  if scalar.isTime v then Some (inject_Z (scalar.nanos v))
  else match scalar.num v with FFin m e => Some (dyadic m e) | _ => None end.
Definition orders (op : policy.Op) (x y : Q) : Prop :=
  (op = policy.OpLe /\ (x <= y)%Q) \/ (op = policy.OpLt /\ (x < y)%Q)
  \/ (op = policy.OpGe /\ (y <= x)%Q) \/ (op = policy.OpGt /\ (y < x)%Q).

Lemma rational_denote v :
  rational v = match scalar.denote v with FFin m e => Some (if scalar.isTime v then inject_Z m else dyadic m e) | _ => None end.
Proof. destruct v as [n f []]; [done|]. by destruct f. Qed.
Lemma inject_dyadic n : (inject_Z n == dyadic n 0)%Q.
Proof. unfold dyadic. cbn [Qpower]. by rewrite Qmult_1_r. Qed.
Lemma compare_rational v w x y :
  rational v = Some x -> rational w = Some y -> fcompare (scalar.denote v) (scalar.denote w) = Some (x ?= y)%Q.
Proof.
  unfold rational, scalar.denote, of_int. intros Hv Hw.
  destruct v as [n f []], w as [n' f' []]; cbn in *; repeat case_match; simplify_eq; cbn; rewrite cmp_dyadic_Q; f_equal;
    by rewrite ?inject_dyadic.
Qed.
Lemma op_holds_orders op x y : scalar.op_holds op (x ?= y)%Q = true <-> orders op x y.
Proof.
  unfold scalar.op_holds, orders. change scalar.OpLe with policy.OpLe. change scalar.OpLt with policy.OpLt.
  change scalar.OpGe with policy.OpGe. change scalar.OpGt with policy.OpGt.
  rewrite Qle_alt, Qlt_alt, (Qle_alt y), (Qlt_alt y), <- (Qcompare_antisym x y).
  repeat match goal with |- context [op =?s ?o] => let E := fresh "E" in destruct (op =?s o) eqn:E; [apply str_eqb_true in E; subst op|apply str_eqb_false in E] end;
    destruct (x ?= y)%Q; cbn; naive_solver.
Qed.
Lemma rational_None v : IsInf (scalar.denote v) = false -> rational v = None <-> IsNaN (scalar.denote v) = true.
Proof. destruct v as [n f []]; [done|]. by destruct f. Qed.
(** The comparison of the code on what the code parses. *)
Lemma Satisfies_orders s t v op w :
  scalar.Parse s = Some v -> scalar.Parse t = Some w ->
  scalar.Satisfies v op w = true <-> exists x y, rational v = Some x /\ rational w = Some y /\ orders op x y.
Proof.
  intros [Wv Iv]%scalar.Parse_wf [Ww Iw]%scalar.Parse_wf. rewrite scalar.Satisfies_ref by done.
  destruct (rational v) as [x|] eqn:Ex.
  - destruct (rational w) as [y|] eqn:Ey.
    + rewrite (compare_rational v w x y Ex Ey), op_holds_orders. naive_solver.
    + apply rational_None in Ey; [|done]. rewrite (proj2 (fcompare_None _ _)) by by right. naive_solver.
  - apply rational_None in Ex; [|done]. rewrite (proj2 (fcompare_None _ _)) by by left. naive_solver.
Qed.

(** ** Conditions *)

Section Context_.
Context (ctx : gmap string string).

(** When a condition holds of the fields of an action. *)
Inductive holds : policy.Condition -> Prop :=
| holds_eq f v : ctx !! f = Some v -> holds (policy.mkCondition f policy.OpEq v)
| holds_ne f v got : ctx !! f = Some got -> got <> v -> holds (policy.mkCondition f policy.OpNe v)
| holds_in f v got m : ctx !! f = Some got -> m ∈ Split v comma -> TrimSpace m = got -> got <> ""%string ->
    holds (policy.mkCondition f policy.OpIn v)
| holds_order f op v got gs vs x y :
    ctx !! f = Some got -> scalar.Parse got = Some gs -> scalar.Parse v = Some vs ->
    rational gs = Some x -> rational vs = Some y -> orders op x y -> holds (policy.mkCondition f op v).
(** When it cannot be evaluated: it orders a value that is no scalar. *)
Inductive unclear : policy.Condition -> Prop :=
| unclear_order f op v got :
    op ∈ [policy.OpLe; policy.OpLt; policy.OpGe; policy.OpGt] -> ctx !! f = Some got -> scalar.Parse got = None ->
    unclear (policy.mkCondition f op v).

Lemma orders_op op x y : orders op x y -> op ∈ [policy.OpLe; policy.OpLt; policy.OpGe; policy.OpGt].
Proof. rewrite !elem_of_cons. intros [[-> _]|[[-> _]|[[-> _]|[-> _]]]]; naive_solver. Qed.
Lemma ordering_op op : policy.is_ordering_op op = true <-> op ∈ [policy.OpLe; policy.OpLt; policy.OpGe; policy.OpGt].
Proof.
  unfold policy.is_ordering_op. rewrite !orb_true_iff, !str_eqb_true, !elem_of_cons. split; [naive_solver|].
  intros [->|[->|[->|[->|[]%not_elem_of_nil]]]]; naive_solver.
Qed.
Lemma member_of got v :
  existsb (fun m => let m := TrimSpace m in negb (m =?s "") && (got =?s m)) (Split v comma) = true
  <-> exists m, m ∈ Split v comma /\ TrimSpace m = got /\ got <> ""%string.
Proof.
  rewrite existsb_exists. split.
  - intros (m & Hm & H). apply andb_true_iff in H as [H1 H2]. apply str_eqb_true in H2 as ->. apply negb_true_iff, str_eqb_false in H1.
    exists m. by rewrite list_elem_of_In.
  - intros (m & Hm & <- & Hne). exists m. rewrite <- list_elem_of_In. split; [done|]. apply andb_true_iff.
    by rewrite str_eqb_refl, negb_true_iff, str_eqb_false.
Qed.

(** The evaluation of a condition the policy was validated with. *)
Lemma eval_holds c : policy.Condition_validate c = Ok tt -> (policy.Condition_eval c ctx).1 = true <-> holds c.
Proof.
  destruct c as [f op v]. intros Hv. split.
  - unfold policy.Condition_eval. cbn [policy.Field policy.COp policy.CValue]. destruct (ctx !! f) as [got|] eqn:Eg; [|done].
    destruct (op =?s policy.OpEq) eqn:E1; [apply str_eqb_true in E1 as ->; cbn; intros H%str_eqb_true; subst got; by constructor|].
    destruct (op =?s policy.OpNe) eqn:E2.
    { apply str_eqb_true in E2 as ->. cbn. intros H%negb_true_iff%str_eqb_false. by econstructor. }
    destruct (policy.is_ordering_op op) eqn:E3.
    { destruct (scalar.Parse got) as [gs|] eqn:E4; [|done]. destruct (scalar.Parse v) as [vs|] eqn:E5; [|done]. cbn.
      intros H. apply (Satisfies_orders got v) in H as (x & y & Hx & Hy & Ho); [|done..]. by eapply holds_order. }
    destruct (op =?s policy.OpIn) eqn:E4; [|done]. apply str_eqb_true in E4 as ->. intros H. apply member_of in H as (m & Hm & He & Hne).
    by eapply holds_in.
  - intros H. unfold policy.Condition_eval. inversion H as [f' v' Hg|f' v' got Hg Hne|f' v' got m Hg Hm He Hne|f' op' v' got gs vs x y Hg Hp Hq Hx Hy Ho];
      subst; cbn [policy.Field policy.COp policy.CValue]; rewrite Hg.
    + cbn. by apply str_eqb_true.
    + cbn. by apply negb_true_iff, str_eqb_false.
    + cbn [fst]. change (policy.OpIn =?s policy.OpEq) with false. change (policy.OpIn =?s policy.OpNe) with false.
      change (policy.is_ordering_op policy.OpIn) with false. change (policy.OpIn =?s policy.OpIn) with true. cbv iota. cbn [fst].
      apply member_of. by exists m.
    + pose proof (orders_op _ _ _ Ho) as Hop. rewrite (proj2 (ordering_op op) Hop).
      replace (op =?s policy.OpEq) with false; [replace (op =?s policy.OpNe) with false|].
      * rewrite Hp, Hq. cbn [fst]. apply (Satisfies_orders got v); [done..|]. by exists x, y.
      * symmetry. apply str_eqb_false. intros ->. by apply ordering_op in Hop.
      * symmetry. apply str_eqb_false. intros ->. by apply ordering_op in Hop.
Qed.
Lemma eval_unclear c : policy.Condition_validate c = Ok tt -> (policy.Condition_eval c ctx).2 = true <-> unclear c.
Proof.
  intros Hv. rewrite policy.validated_indeterminate by done. rewrite ordering_op. destruct c as [f op v]. cbn [policy.Field policy.COp]. split.
  - intros (Ho & got & Hg & Hp). by econstructor.
  - intros H. inversion H; subst. naive_solver.
Qed.

(** ** Policies *)

(** The fields a rule cannot be evaluated on, in its order. *)
Inductive doubts : list policy.Condition -> list string -> Prop :=
| doubts_nil : doubts [] []
| doubts_cons c cs fs : unclear c -> doubts cs fs -> doubts (c :: cs) (policy.Field c :: fs)
| doubts_skip c cs fs : ~ unclear c -> doubts cs fs -> doubts (c :: cs) fs.

Context {UT : UnicodeTables} (p : policy.Policy).
(** What the rules of [p] decide: the first whose conditions are in doubt denies,
    the first whose conditions all hold answers, and the default otherwise. *)
Inductive decides : list policy.Rule -> types.Decision -> Prop :=
| by_default : decides [] (types.mkDecision (policy.DAllowed (policy.Dflt p)) (policy.DConsequential (policy.Dflt p))
                             policy.DefaultRule (policy.Ver p) 0 (policy.DReason (policy.Dflt p)))
| by_doubt r rs fs : Exists unclear (elems (policy.When r)) -> doubts (elems (policy.When r)) fs ->
    decides (r :: rs) (types.mkDecision false true (policy.Name r) (policy.Ver p) 0
                         (Sprintf "rule %q could not be evaluated: %s is not comparable" [AStr (policy.Name r); AStr (Join fs ", ")]))
| by_rule r rs : ~ Exists unclear (elems (policy.When r)) -> Forall holds (elems (policy.When r)) ->
    decides (r :: rs) (types.mkDecision (negb (policy.Deny r)) (policy.RConsequential r) (policy.Name r) (policy.Ver p) 0 (policy.RReason r))
| by_next r rs d : ~ Exists unclear (elems (policy.When r)) -> ~ Forall holds (elems (policy.When r)) -> decides rs d -> decides (r :: rs) d.

Definition valid (cs : list policy.Condition) : Prop := Forall (fun c => policy.Condition_validate c = Ok tt) cs.
Lemma Exists_unclear cs : valid cs -> Exists (fun c => (policy.Condition_eval c ctx).2 = true) cs <-> Exists unclear cs.
Proof. induction 1 as [|c cs Hc _ IH]; [by rewrite !Exists_nil|]. by rewrite !Exists_cons, IH, eval_unclear. Qed.
Lemma Forall_holds cs : valid cs -> Forall (fun c => (policy.Condition_eval c ctx).1 = true) cs <-> Forall holds cs.
Proof. induction 1 as [|c cs Hc _ IH]; [by rewrite !Forall_nil|]. by rewrite !Forall_cons, IH, eval_holds. Qed.
Lemma doubts_fields cs : valid cs -> doubts cs (map policy.Field (List.filter (fun c => (policy.Condition_eval c ctx).2) cs)).
Proof.
  induction 1 as [|c cs Hc _ IH]; [constructor|]. cbn [List.filter]. destruct (policy.Condition_eval c ctx).2 eqn:E; cbn [map].
  - constructor; [by apply eval_unclear|done].
  - constructor; [|done]. rewrite <- eval_unclear by done. by rewrite E.
Qed.
Lemma doubts_fun cs fs fs' : doubts cs fs -> doubts cs fs' -> fs = fs'.
Proof.
  intros H. revert fs'. induction H as [|c cs fs Hc _ IH|c cs fs Hc _ IH]; intros fs' H'; inversion H'; subst; try done.
  - f_equal. by apply IH.
  - by apply IH.
Qed.

(** The rules leave one decision at most, and the loop over them finds it. *)
Lemma decides_fun rs d d' : decides rs d -> decides rs d' -> d = d'.
Proof.
  intros H. revert d'. induction H as [|r rs fs He Hf|r rs He Hh|r rs d He Hh _ IH]; intros d' H'; inversion H'; subst; try done.
  - match goal with Hd : doubts _ _ |- _ => by rewrite (doubts_fun _ _ _ Hf Hd) end.
  - by apply IH.
Qed.
Definition loop (rs : list policy.Rule) : types.Decision :=
  match policy.eval_rules p rs ctx with
  | Some d => d
  | None => types.mkDecision (policy.DAllowed (policy.Dflt p)) (policy.DConsequential (policy.Dflt p))
              policy.DefaultRule (policy.Ver p) 0 (policy.DReason (policy.Dflt p))
  end.
Lemma loop_decides rs : Forall (fun r => valid (elems (policy.When r))) rs -> decides rs (loop rs).
Proof.
  unfold loop. induction 1 as [|r rs Hr _ IH]; cbn [policy.eval_rules]; [constructor|].
  pose proof (policy.Rule_eval_indeterminate r ctx) as Hi. pose proof (policy.Rule_eval_matched r ctx) as Hm.
  unfold policy.rule_indeterminate, policy.rule_holds in Hi, Hm. rewrite Exists_unclear in Hi, Hm by done. rewrite Forall_holds in Hm by done.
  destruct (policy.Rule_eval r ctx) as [m i]. cbn [fst snd] in Hi, Hm. destruct i.
  - apply by_doubt; [by apply Hi|by apply doubts_fields].
  - assert (He : ~ Exists unclear (elems (policy.When r))) by (by rewrite <- Hi). destruct m.
    + apply by_rule; [done|]. by apply Hm.
    + apply by_next; [done| |exact IH]. intros Hh. by assert (false = true) by by apply Hm.
Qed.
Lemma loop_iff d :
  policy.Validate p = Ok tt -> loop (elems (policy.Rules p)) = d <-> decides (elems (policy.Rules p)) d.
Proof.
  intros (_ & _ & _ & Hr)%policy.Validate_Ok.
  assert (H : decides (elems (policy.Rules p)) (loop (elems (policy.Rules p)))).
  { apply loop_decides. eapply Forall_impl; [exact Hr|]. by intros r (_ & _ & Hv & _). }
  split; [by intros <-|by apply decides_fun].
Qed.
End Context_.

Lemma Evaluate_decides {UT : UnicodeTables} p a d :
  policy.Validate p = Ok tt -> policy.Evaluate p a = Ok d <-> decides (types.Context a) p (elems (policy.Rules p)) d.
Proof. intros Hv. rewrite <- loop_iff by exact Hv. unfold policy.Evaluate, loop. split; [apply Ok_inj|by intros ->]. Qed.

(** C18: a validated policy means what its rules say.  For every action, whatever
    the size of its numbers and the instant it carries, [Evaluate] answers the
    decision the rules of inference give - first doubt, first rule whose
    conditions all hold in the order of the rational numbers, else the default -
    and nothing else.  The one value the rules of a policy are silent about is
    NaN: a scalar that is no number, of which no ordering condition holds and
    which puts none in doubt. *)
Theorem evaluate_meaning {UT : UnicodeTables} p a :
  policy.Validate p = Ok tt ->
  (forall d, policy.Evaluate p a = Ok d <-> decides (types.Context a) p (elems (policy.Rules p)) d)
  /\ (forall f op v got gs, types.Context a !! f = Some got -> scalar.Parse got = Some gs -> rational gs = None ->
        policy.is_ordering_op op = true ->
        ~ holds (types.Context a) (policy.mkCondition f op v) /\ ~ unclear (types.Context a) (policy.mkCondition f op v)).
Proof.
  intros Hv. split.
  - intros d. by apply Evaluate_decides.
  - intros f op v got gs Hg Hp Hn Ho. split; intros H; inversion H; subst; try discriminate Ho; simplify_eq.
Qed.

(** Two instants a nanosecond apart, which float64 cannot tell apart, and an
    amount that is no number. *)
Definition test_policy : policy.Policy :=
  policy.mkPolicy "v1" (Some [policy.mkRule "late" (Some [policy.mkCondition "at" policy.OpGt "2026-07-09T12:00:00Z"]) true false "too late";
                              policy.mkRule "large" (Some [policy.mkCondition "amount" policy.OpGe "100"]) false true "large amount"])
    (policy.mkDefault true false "routine") true.
Definition test_action (at_ amount : string) : types.Action :=
  types.mkAction "payment.transfer" "acct" {["at"%string := at_; "amount"%string := amount]} (mkTime 1783598400 0 0).
Lemma evaluate_meaning_witness :
  let U := Build_UnicodeTables (fun _ => true) in
  decides (types.Context (test_action "2026-07-09T12:00:00.000000001Z" "5")) test_policy (elems (policy.Rules test_policy))
    (types.mkDecision false false "late" "v1" 0 "too late")
  /\ decides (types.Context (test_action "2026-07-09T12:00:00Z" "NaN")) test_policy (elems (policy.Rules test_policy))
       (types.mkDecision true false "default" "v1" 0 "routine")
  /\ ~ unclear (types.Context (test_action "2026-07-09T12:00:00Z" "NaN")) (policy.mkCondition "amount" policy.OpGe "100").
Proof.
  intros U. split; [|split].
  - apply (@evaluate_meaning U test_policy (test_action "2026-07-09T12:00:00.000000001Z" "5")); vm_compute; reflexivity.
  - apply (@evaluate_meaning U test_policy (test_action "2026-07-09T12:00:00Z" "NaN")); vm_compute; reflexivity.
  - eapply (proj2 (@evaluate_meaning U test_policy (test_action "2026-07-09T12:00:00Z" "NaN") ltac:(vm_compute; reflexivity))
              "amount"%string policy.OpGe "100"%string "NaN"%string (scalar.mkValue 0 FNaN false)); vm_compute; reflexivity.
Defined.
End meaning.
