(* ===== verification/Macaroon.v ===== *)
(** internal/macaroon: attenuation-first delegation.

    Module [macaroon] has minting, attenuation, the structural extension check,
    caveat satisfaction and the narrowing lattice; the theorems state that the
    lattice is sound, so authority only shrinks along a delegation. *)
From S2P Require Import Prelude GoFmt GoTime GoFloat GoCrypto GoJson Types Scalar Policy.

Module macaroon.

Definition Op : Type := string.
Definition OpEq : Op := "==".
Definition OpNe : Op := "!=".
Definition OpLe : Op := "<=".
Definition OpLt : Op := "<".
Definition OpGe : Op := ">=".
Definition OpGt : Op := ">".
Definition OpIn : Op := "in".

Record Caveat := mkCaveat { Field : string; COp : Op; Value : string }.
Record Macaroon := mkMacaroon
  { Location : string; Identifier : string; Caveats : slice Caveat; Signature : slice Byte.byte }.

Abbreviation Context := (gmap string string).

#[global] Instance Caveat_eq_dec : EqDecision Caveat.
Proof. solve_decision. Defined.
#[global] Instance Macaroon_eq_dec : EqDecision Macaroon.
Proof. solve_decision. Defined.

(** ** Helpers *)

Definition is_order_op (op : Op) : bool :=
  (op =?s OpLe) || (op =?s OpLt) || (op =?s OpGe) || (op =?s OpGt).

Definition Caveat_String (c : Caveat) : string := Field c +:+ " " +:+ COp c +:+ " " +:+ Value c.
Definition ACav (c : Caveat) : fmtarg := AStr (Caveat_String c).

(** [splitSet]: the members, trimmed, without the empty ones. *)
Definition splitSet (s : string) : list string :=
  List.filter (fun p => negb (p =?s "")) (map TrimSpace (Split s comma)).

Definition compareOK (op : Op) (got want : scalar.Value) : bool := scalar.Satisfies got op want.

Definition Caveat_validate (c : Caveat) : result unit :=
  if TrimSpace (Field c) =?s "" then Err (New "macaroon: caveat has empty field")
  else if (COp c =?s OpEq) || (COp c =?s OpNe) || (COp c =?s OpIn) then
    reject_if (Value c =?s "") (Errorf "macaroon: caveat %q has empty value" [ACav c])
  else if is_order_op (COp c) then
    match scalar.Parse (Value c) with
    | Some _ => Ok tt
    | None => Err (Errorf "macaroon: caveat %q bound value %q is not a scalar" [ACav c; AStr (Value c)])
    end
  else Err (Errorf "macaroon: caveat %q has unknown operator %q" [ACav c; AStr (COp c)]).

(** [canonical]: the bytes hashed into the HMAC chain. *)
Definition canonical (c : Caveat) : bytes :=
  s2b (Field c) ++ Byte.x1f :: s2b (COp c) ++ Byte.x1f :: s2b (Value c).

Definition hmacSum (key msg : bytes) : bytes := hmac_sha256 key msg.

(** ** Satisfaction *)

Definition satisfied (c : Caveat) (ctx : Context) : result unit :=
  match ctx !! Field c with
  | None => Err (Errorf "macaroon: caveat %q unsatisfied: context has no %q" [ACav c; AStr (Field c)])
  | Some got =>
      let fail := Err (Errorf "macaroon: caveat %q unsatisfied: %s=%q" [ACav c; AStr (Field c); AStr got]) in
      if COp c =?s OpEq then (if got =?s Value c then Ok tt else fail)
      else if COp c =?s OpNe then (if negb (got =?s Value c) then Ok tt else fail)
      else if is_order_op (COp c) then
        match scalar.Parse got, scalar.Parse (Value c) with
        | Some gs, Some vs => if compareOK (COp c) gs vs then Ok tt else fail
        | _, _ => Err (Errorf "macaroon: caveat %q unsatisfied: %q or %q not a scalar"
                         [ACav c; AStr got; AStr (Value c)])
        end
      else if COp c =?s OpIn then
        (if existsb (fun member => got =?s member) (splitSet (Value c)) then Ok tt else fail)
      else fail
  end.

Definition Satisfies (m : Macaroon) (ctx : Context) : result unit :=
  check_all (fun c => satisfied c ctx) (elems (Caveats m)).

(** ** The narrowing lattice *)

Definition boundSubset (childOp : Op) (childVal : scalar.Value) (parentOp : Op)
    (parentVal : scalar.Value) (upper : bool) : bool :=
  let '(cmp, ordered) := scalar.Compare childVal parentVal in
  if negb ordered then false
  else
    let childInclusive := (childOp =?s OpLe) || (childOp =?s OpGe) in
    let parentInclusive := (parentOp =?s OpLe) || (parentOp =?s OpGe) in
    if cmp =? 0 then negb childInclusive || parentInclusive
    else if upper then cmp <? 0
    else 0 <? cmp.

Definition narrowsBound (parent child : Caveat) : result bool :=
  match scalar.Parse (Value parent) with
  | None => Err (Errorf "parent value %q is not a scalar" [AStr (Value parent)])
  | Some pv =>
      let parentUpper := (COp parent =?s OpLe) || (COp parent =?s OpLt) in
      if is_order_op (COp child) then
        match scalar.Parse (Value child) with
        | None => Err (Errorf "child value %q is not a scalar" [AStr (Value child)])
        | Some cv =>
            let childUpper := (COp child =?s OpLe) || (COp child =?s OpLt) in
            if negb (Bool.eqb parentUpper childUpper) then Ok false
            else if parentUpper then Ok (boundSubset (COp child) cv (COp parent) pv true)
            else Ok (boundSubset (COp child) cv (COp parent) pv false)
        end
      else if COp child =?s OpEq then
        match scalar.Parse (Value child) with
        | None => Ok false
        | Some cv => Ok (compareOK (COp parent) cv pv)
        end
      else if COp child =?s OpIn then
        Ok (forallb (fun m => match scalar.Parse m with
                              | None => false
                              | Some cv => compareOK (COp parent) cv pv
                              end) (splitSet (Value child)))
      else Ok false
  end.

Definition narrowsSet (parent child : Caveat) : result bool :=
  let set : gset string := list_to_set (splitSet (Value parent)) in
  if COp child =?s OpEq then Ok (bool_decide (Value child ∈ set))
  else if COp child =?s OpIn then
    Ok (forallb (fun m => bool_decide (m ∈ set)) (splitSet (Value child)))
  else Ok false.

Definition narrows (parent child : Caveat) : result bool :=
  if is_order_op (COp parent) then narrowsBound parent child
  else if COp parent =?s OpEq then Ok ((COp child =?s OpEq) && (Value child =?s Value parent))
  else if COp parent =?s OpNe then Ok ((COp child =?s OpNe) && (Value child =?s Value parent))
  else if COp parent =?s OpIn then narrowsSet parent child
  else Err (Errorf "unsupported parent operator %q" [AStr (COp parent)]).

(** ** Construction and delegation *)

Definition Mint (rootKey : bytes) (identifier location : string) : Macaroon :=
  mkMacaroon location identifier None (Some (hmacSum rootKey (s2b identifier))).

Definition Attenuate (m : Macaroon) (c : Caveat) : result Macaroon :=
  check! Caveat_validate c;
  check! check_all (fun existing =>
      if negb (Field existing =?s Field c) then Ok tt
      else
        let! ok := wrap (fun e => Errorf "macaroon: cannot attenuate %q against %q: %w"
                                    [ACav c; ACav existing; AErr e]) (narrows existing c) in
        reject_if (negb ok) (Errorf "macaroon: caveat %q does not narrow existing caveat %q"
                               [ACav c; ACav existing]))
    (elems (Caveats m));
  Ok (mkMacaroon (Location m) (Identifier m) (Some (elems (Caveats m) ++ [c]))
        (Some (hmacSum (elems (Signature m)) (canonical c)))).

(** The loop over the caveats a child adds, against those accumulated so far. *)
Fixpoint extends_from (acc added : list Caveat) : result unit :=
  match added with
  | [] => Ok tt
  | c :: added =>
      check! Caveat_validate c;
      check! check_all (fun e =>
          if negb (Field e =?s Field c) then Ok tt
          else
            let! ok := wrap (fun er => Errorf "macaroon: added caveat %q incomparable to %q: %w"
                                         [ACav c; ACav e; AErr er]) (narrows e c) in
            reject_if (negb ok) (Errorf "macaroon: added caveat %q broadens %q" [ACav c; ACav e])) acc;
      extends_from (acc ++ [c]) added
  end.

(** The first position at which the parent's caveats are not the child's. *)
Fixpoint diverges (i : Z) (child parent : list Caveat) {struct parent} : result unit :=
  match parent, child with
  | [], _ => Ok tt
  | p :: parent, c :: child =>
      if negb (bool_decide (c = p))
      then Err (Errorf "macaroon: child diverges from parent at caveat %d" [AInt i])
      else diverges (i + 1) child parent
  | _ :: _, [] => Err (New "index out of range")
  end.

Definition Extends (m parent : Macaroon) : result unit :=
  check! reject_if (negb (Identifier m =?s Identifier parent))
    (Errorf "macaroon: identifier mismatch (%q vs parent %q)"
       [AStr (Identifier m); AStr (Identifier parent)]);
  check! reject_if (len (elems (Caveats m)) <? len (elems (Caveats parent)))
    (Errorf "macaroon: child has fewer caveats (%d) than parent (%d)"
       [AInt (len (elems (Caveats m))); AInt (len (elems (Caveats parent)))]);
  check! diverges 0 (elems (Caveats m)) (elems (Caveats parent));
  extends_from (elems (Caveats parent))
    (drop (length (elems (Caveats parent))) (elems (Caveats m))).

(** ** Verification with the root key *)

Definition hmac_chain (sig : bytes) (cs : list Caveat) : bytes :=
  fold_left (fun sig c => hmacSum sig (canonical c)) cs sig.

Definition Verify (m : Macaroon) (rootKey : bytes) (ctx : Context) : result unit :=
  let sig := hmac_chain (hmacSum rootKey (s2b (Identifier m))) (elems (Caveats m)) in
  if negb (sig =?b elems (Signature m))
  then Err (New "macaroon: signature mismatch (tampered or wrong root key)")
  else Satisfies m ctx.

Definition Caveat_json (c : Caveat) : json :=
  JObj (field "Field" (JStr (Field c)) ++ field "Op" (JStr (COp c)) ++ field "Value" (JStr (Value c))).
Definition Macaroon_json (m : Macaroon) : json :=
  JObj (field "Location" (JStr (Location m)) ++ field "Identifier" (JStr (Identifier m))
        ++ field "Caveats" (j_slice (fun l => JArr (map Caveat_json l)) (Caveats m))
        ++ field "Signature" (j_slice j_bytes (Signature m))).

(** ** Soundness of the lattice *)

Lemma is_order_op_cases op :
  is_order_op op = true -> op = OpLe \/ op = OpLt \/ op = OpGe \/ op = OpGt.
Proof. unfold is_order_op. autorewrite with gobool. tauto. Qed.

Definition upper_op (op : Op) : bool := (op =?s OpLe) || (op =?s OpLt).

Lemma boundSubset_sound gs cv pv cop pop :
  scalar.wf gs -> scalar.wf cv -> scalar.wf pv ->
  is_order_op cop = true -> is_order_op pop = true -> upper_op pop = upper_op cop ->
  boundSubset cop cv pop pv (upper_op pop) = true ->
  compareOK cop gs cv = true -> compareOK pop gs pv = true.
Proof.
  intros Hg Hc Hp Hco Hpo Hup. unfold boundSubset, compareOK.
  rewrite scalar.Compare_ref, !scalar.Satisfies_ref by done. unfold scalar.ref_compare.
  destruct (fcompare (scalar.denote cv) (scalar.denote pv)) as [c2|] eqn:E2; [|done].
  destruct (fcompare (scalar.denote gs) (scalar.denote cv)) as [c1|] eqn:E1; [|done].
  pose proof (fcompare_trans _ _ _ _ _ Lt E1 E2) as Tlt.
  pose proof (fcompare_trans _ _ _ _ _ Eq E1 E2) as Teq.
  pose proof (fcompare_trans _ _ _ _ _ Gt E1 E2) as Tgt.
  apply is_order_op_cases in Hco as [->|[->|[->| ->]]], Hpo as [->|[->|[->| ->]]];
    vm_compute in Hup; try discriminate Hup;
    destruct c1, c2; simpl in *; try (by rewrite Tlt); try (by rewrite Teq); try (by rewrite Tgt); done.
Qed.

(** What an ordering caveat's satisfaction says of the field's value. *)
Lemma satisfied_order c ctx got :
  is_order_op (COp c) = true -> ctx !! Field c = Some got ->
  satisfied c ctx = Ok tt <->
  exists gs vs, scalar.Parse got = Some gs /\ scalar.Parse (Value c) = Some vs
    /\ compareOK (COp c) gs vs = true.
Proof.
  intros Ho Hg. unfold satisfied. rewrite Hg, Ho.
  assert ((COp c =?s OpEq) = false /\ (COp c =?s OpNe) = false) as [-> ->].
  { by apply is_order_op_cases in Ho as [->|[->|[->| ->]]]. }
  destruct (scalar.Parse got) as [gs|], (scalar.Parse (Value c)) as [vs|];
    [|split; [done|by intros (? & ? & ? & ? & ?)]..].
  destruct (compareOK (COp c) gs vs) eqn:E; (split; [|done || (intros (? & ? & ? & ? & ?); congruence)]);
    [by exists gs, vs|done].
Qed.

Lemma satisfied_eq c ctx got :
  COp c = OpEq -> ctx !! Field c = Some got -> satisfied c ctx = Ok tt <-> got = Value c.
Proof.
  intros Ho Hg. unfold satisfied. rewrite Hg, Ho, str_eqb_refl.
  rewrite <- str_eqb_true. destruct (got =?s Value c); naive_solver.
Qed.

Lemma satisfied_ne c ctx got :
  COp c = OpNe -> ctx !! Field c = Some got -> satisfied c ctx = Ok tt <-> got <> Value c.
Proof.
  intros Ho Hg. unfold satisfied. rewrite Hg, Ho.
  change (OpNe =?s OpEq) with false. rewrite str_eqb_refl.
  rewrite <- str_eqb_false. destruct (got =?s Value c); naive_solver.
Qed.

Lemma satisfied_in c ctx got :
  COp c = OpIn -> ctx !! Field c = Some got -> satisfied c ctx = Ok tt <-> got ∈ splitSet (Value c).
Proof.
  intros Ho Hg. unfold satisfied. rewrite Hg, Ho. cbn -[splitSet existsb].
  rewrite list_elem_of_In. destruct (existsb _ _) eqn:E.
  - apply existsb_exists in E as (x & Hx & ->%str_eqb_true). done.
  - split; [done|]. intros Hin. exfalso. apply not_true_iff_false in E. apply E.
    apply existsb_exists. exists got. by rewrite str_eqb_refl.
Qed.

Lemma satisfied_field c ctx : satisfied c ctx = Ok tt -> exists got, ctx !! Field c = Some got.
Proof. unfold satisfied. destruct (ctx !! Field c); naive_solver. Qed.

(** A satisfied caveat has one of the seven operators. *)
Lemma satisfied_op c ctx :
  satisfied c ctx = Ok tt ->
  is_order_op (COp c) = true \/ COp c = OpEq \/ COp c = OpNe \/ COp c = OpIn.
Proof.
  unfold satisfied. destruct (ctx !! Field c); [|done].
  destruct (COp c =?s OpEq) eqn:E1; [rewrite str_eqb_true in E1; tauto|].
  destruct (COp c =?s OpNe) eqn:E2; [rewrite str_eqb_true in E2; tauto|].
  destruct (is_order_op (COp c)) eqn:E3; [tauto|].
  destruct (COp c =?s OpIn) eqn:E4; [rewrite str_eqb_true in E4; tauto|done].
Qed.

Lemma narrowsBound_sound p c ctx got :
  is_order_op (COp p) = true -> Field c = Field p -> ctx !! Field p = Some got ->
  narrowsBound p c = Ok true -> satisfied c ctx = Ok tt -> satisfied p ctx = Ok tt.
Proof.
  intros Hp Hf Hg Hn Hs. apply (satisfied_order p ctx got Hp Hg).
  unfold narrowsBound in Hn. destruct (scalar.Parse (Value p)) as [pv|] eqn:Epv; [|done].
  assert (Hgc : ctx !! Field c = Some got) by congruence.
  destruct (scalar.Parse_wf _ _ Epv) as [Wp _].
  destruct (is_order_op (COp c)) eqn:Hc.
  - apply (satisfied_order c ctx got Hc Hgc) in Hs as (gs & cv & Eg & Ecv & Hcmp).
    rewrite Ecv in Hn. fold (upper_op (COp p)) (upper_op (COp c)) in Hn.
    destruct (Bool.eqb (upper_op (COp p)) (upper_op (COp c))) eqn:Eu; [|done].
    apply Bool.eqb_prop in Eu. simpl in Hn.
    exists gs, pv. split_and!; [done..|].
    eapply (boundSubset_sound gs cv pv (COp c));
      [by eapply scalar.Parse_wf|by eapply scalar.Parse_wf|done..| |done].
    destruct (upper_op (COp p)); congruence.
  - destruct (COp c =?s OpEq) eqn:E1; [rewrite str_eqb_true in E1|].
    { apply (satisfied_eq c ctx got E1 Hgc) in Hs as ->.
      destruct (scalar.Parse (Value c)) as [cv|]; [|done]. exists cv, pv. naive_solver. }
    destruct (COp c =?s OpIn) eqn:E2; [rewrite str_eqb_true in E2|done].
    apply (satisfied_in c ctx got E2 Hgc) in Hs. simplify_eq Hn. intros Hall.
    rewrite forallb_forall in Hall. rewrite list_elem_of_In in Hs.
    apply Hall in Hs. destruct (scalar.Parse got) as [gs|]; [|done]. naive_solver.
Qed.

Lemma narrowsSet_sound p c ctx got :
  COp p = OpIn -> Field c = Field p -> ctx !! Field p = Some got ->
  narrowsSet p c = Ok true -> satisfied c ctx = Ok tt -> satisfied p ctx = Ok tt.
Proof.
  intros Hp Hf Hg Hn Hs. apply (satisfied_in p ctx got Hp Hg).
  assert (Hgc : ctx !! Field c = Some got) by congruence.
  unfold narrowsSet in Hn.
  destruct (COp c =?s OpEq) eqn:E1; [rewrite str_eqb_true in E1|].
  { apply (satisfied_eq c ctx got E1 Hgc) in Hs as ->. simplify_eq Hn.
    rewrite bool_decide_eq_true, elem_of_list_to_set. done. }
  destruct (COp c =?s OpIn) eqn:E2; [rewrite str_eqb_true in E2|done].
  apply (satisfied_in c ctx got E2 Hgc) in Hs. simplify_eq Hn. intros Hall.
  rewrite forallb_forall in Hall. rewrite list_elem_of_In in Hs.
  apply Hall in Hs. by rewrite bool_decide_eq_true, elem_of_list_to_set in Hs.
Qed.

Lemma narrows_sat p c ctx :
  Field c = Field p -> narrows p c = Ok true ->
  satisfied c ctx = Ok tt -> satisfied p ctx = Ok tt.
Proof.
  intros Hf Hn Hs. destruct (satisfied_field _ _ Hs) as [got Hgc].
  assert (Hg : ctx !! Field p = Some got) by congruence.
  unfold narrows in Hn. destruct (is_order_op (COp p)) eqn:Ho; [by eapply narrowsBound_sound|].
  destruct (COp p =?s OpEq) eqn:E1; [rewrite str_eqb_true in E1|].
  { simplify_eq Hn. intros [Hc Hv]%andb_true_iff. rewrite str_eqb_true in Hc, Hv.
    apply (satisfied_eq c ctx got Hc Hgc) in Hs. apply (satisfied_eq p ctx got E1 Hg). congruence. }
  destruct (COp p =?s OpNe) eqn:E2; [rewrite str_eqb_true in E2|].
  { simplify_eq Hn. intros [Hc Hv]%andb_true_iff. rewrite str_eqb_true in Hc, Hv.
    apply (satisfied_ne c ctx got Hc Hgc) in Hs. apply (satisfied_ne p ctx got E2 Hg). congruence. }
  destruct (COp p =?s OpIn) eqn:E3; [rewrite str_eqb_true in E3|done].
  by eapply narrowsSet_sound.
Qed.

(** ** Attenuation and extension *)

(** [c] narrows every caveat of [acc] on its field. *)
Definition narrows_all (acc : list Caveat) (c : Caveat) : Prop :=
  Forall (fun e => Field e = Field c -> narrows e c = Ok true) acc.

Lemma narrow_loop_Ok (f g : Caveat -> error -> error) acc c :
  check_all (fun e =>
      if negb (Field e =?s Field c) then Ok tt
      else let! ok := wrap (f e) (narrows e c) in reject_if (negb ok) (g e (New ""))) acc = Ok tt
  <-> narrows_all acc c.
Proof.
  rewrite check_all_Ok. unfold narrows_all. apply Forall_proper; [|done]. intros e.
  destruct (Field e =?s Field c) eqn:E; simpl.
  - rewrite str_eqb_true in E. rewrite rbind_Ok. setoid_rewrite wrap_Ok.
    setoid_rewrite reject_if_Ok. split.
    + intros ([] & -> & Hn); done.
    + intros Hn. exists true. by rewrite Hn.
  - rewrite str_eqb_false in E. naive_solver.
Qed.

Lemma Attenuate_Ok m c m' :
  Attenuate m c = Ok m' <->
  Caveat_validate c = Ok tt /\ narrows_all (elems (Caveats m)) c /\
  m' = mkMacaroon (Location m) (Identifier m) (Some (elems (Caveats m) ++ [c]))
         (Some (hmacSum (elems (Signature m)) (canonical c))).
Proof.
  unfold Attenuate. rewrite !rbind_Ok. split.
  - intros ([] & Hv & H). apply rbind_Ok in H as ([] & Hl & [=<-]).
    split_and!; [done| |done].
    by apply (narrow_loop_Ok
      (fun e er => Errorf "macaroon: cannot attenuate %q against %q: %w" [ACav c; ACav e; AErr er])
      (fun e _ => Errorf "macaroon: caveat %q does not narrow existing caveat %q" [ACav c; ACav e])).
  - intros (Hv & Hl & ->). exists tt. split; [done|]. apply rbind_Ok. exists tt. split; [|done].
    by apply (narrow_loop_Ok
      (fun e er => Errorf "macaroon: cannot attenuate %q against %q: %w" [ACav c; ACav e; AErr er])
      (fun e _ => Errorf "macaroon: caveat %q does not narrow existing caveat %q" [ACav c; ACav e])).
Qed.

Lemma extends_from_cons acc c added :
  extends_from acc (c :: added) = Ok tt <->
  Caveat_validate c = Ok tt /\ narrows_all acc c /\ extends_from (acc ++ [c]) added = Ok tt.
Proof.
  simpl. rewrite !rbind_Ok.
  pose proof (narrow_loop_Ok
    (fun e er => Errorf "macaroon: added caveat %q incomparable to %q: %w" [ACav c; ACav e; AErr er])
    (fun e _ => Errorf "macaroon: added caveat %q broadens %q" [ACav c; ACav e]) acc c) as Hl.
  split.
  - intros ([] & Hv & H). apply rbind_Ok in H as ([] & H1 & H2). naive_solver.
  - intros (Hv & Hn & He). exists tt. split; [done|]. apply rbind_Ok. exists tt. naive_solver.
Qed.

Lemma extends_from_app acc l1 l2 :
  extends_from acc (l1 ++ l2) = Ok tt <->
  extends_from acc l1 = Ok tt /\ extends_from (acc ++ l1) l2 = Ok tt.
Proof.
  revert acc. induction l1 as [|c l1 IH]; intros acc.
  - simpl. rewrite app_nil_r. naive_solver.
  - rewrite <- app_comm_cons, !extends_from_cons, IH, <- app_assoc. simpl. naive_solver.
Qed.

Lemma diverges_Ok i child parent u :
  diverges i child parent = Ok u <-> parent `prefix_of` child.
Proof.
  destruct u. revert i child. induction parent as [|p parent IH]; intros i child; simpl.
  { split; [intros _; apply prefix_nil|done]. }
  destruct child as [|c child]; simpl.
  { split; [done|]. intros ?%prefix_nil_inv. done. }
  case_bool_decide as E; simpl; [|split; [done|intros ?%prefix_cons_inv_1; congruence]].
  rewrite IH, E. split; [apply prefix_cons|apply prefix_cons_inv_2].
Qed.

Lemma Extends_Ok m parent :
  Extends m parent = Ok tt <->
  Identifier m = Identifier parent /\
  exists added, elems (Caveats m) = elems (Caveats parent) ++ added
    /\ extends_from (elems (Caveats parent)) added = Ok tt.
Proof.
  unfold Extends. split.
  - intros H. gosimp H. rewrite diverges_Ok in Ha1. destruct Ha1 as [added Hadd].
    split; [done|]. exists added. split; [done|].
    by rewrite Hadd, drop_app_length in H.
  - intros (Hid & added & Hadd & He). rewrite Hid, str_eqb_refl, Hadd. simpl.
    rewrite len_app. pose proof (len_nonneg added).
    rewrite (proj2 (Z.ltb_ge _ _)) by lia. simpl.
    rewrite (proj2 (diverges_Ok 0 _ _ tt)) by (by exists added). simpl.
    by rewrite drop_app_length.
Qed.

Lemma Extends_compose m2 m1 m0 :
  Extends m2 m1 = Ok tt -> Extends m1 m0 = Ok tt -> Extends m2 m0 = Ok tt.
Proof.
  rewrite !Extends_Ok. intros (I2 & a2 & A2 & E2) (I1 & a1 & A1 & E1).
  split; [congruence|]. exists (a1 ++ a2). rewrite A2, A1, <- app_assoc. split; [done|].
  apply extends_from_app. rewrite A1 in E2. done.
Qed.

Lemma Attenuate_Extends m c m' : Attenuate m c = Ok m' -> Extends m' m = Ok tt.
Proof.
  intros (Hv & Hn & ->)%Attenuate_Ok. apply Extends_Ok. simpl. split; [done|].
  exists [c]. split; [done|]. apply extends_from_cons. done.
Qed.

Lemma Satisfies_Ok m ctx :
  Satisfies m ctx = Ok tt <-> Forall (fun c => satisfied c ctx = Ok tt) (elems (Caveats m)).
Proof. apply check_all_Ok. Qed.

Lemma Extends_Satisfies m parent ctx :
  Extends m parent = Ok tt -> Satisfies m ctx = Ok tt -> Satisfies parent ctx = Ok tt.
Proof.
  rewrite !Satisfies_Ok. intros (_ & added & -> & _)%Extends_Ok. by intros [? _]%Forall_app.
Qed.

(** The macaroons an issuer holding [key] and its delegates can build. *)
Inductive delegated (key : bytes) (id loc : string) : Macaroon -> Prop :=
| delegated_mint : delegated key id loc (Mint key id loc)
| delegated_attenuate m c m' :
    delegated key id loc m -> Attenuate m c = Ok m' -> delegated key id loc m'.

(** The last caveat on a field. *)
Fixpoint last_on (f : string) (cs : list Caveat) : option Caveat :=
  match cs with
  | [] => None
  | c :: cs => match last_on f cs with
               | Some d => Some d
               | None => if Field c =?s f then Some c else None
               end
  end.

Lemma last_on_snoc f cs c :
  last_on f (cs ++ [c]) = if Field c =?s f then Some c else last_on f cs.
Proof.
  induction cs as [|d cs IH]; simpl; [done|]. rewrite IH. by destruct (Field c =?s f).
Qed.

Lemma last_on_In f cs c : last_on f cs = Some c -> c ∈ cs /\ Field c = f.
Proof.
  induction cs as [|d cs IH]; simpl; [done|].
  destruct (last_on f cs) as [e|].
  - intros [=->]. destruct IH as [? ?]; [done|]. split; [by right|done].
  - destruct (Field d =?s f) eqn:E; [|done]. intros [=->]. apply str_eqb_true in E.
    split; [by left|done].
Qed.

Lemma last_decides cs c ctx :
  narrows_all cs c -> satisfied c ctx = Ok tt ->
  Forall (fun e => Field e = Field c -> satisfied e ctx = Ok tt) cs.
Proof.
  intros Hn Hs. eapply Forall_impl; [exact Hn|]. intros e He Hf.
  by eapply narrows_sat; [symmetry|auto|].
Qed.

(** Every caveat list the extension check accepts is decided, field by field,
    by its last caveat. *)
Lemma extends_last_decides cs ctx :
  extends_from [] cs = Ok tt ->
  (forall f c, last_on f cs = Some c -> satisfied c ctx = Ok tt) ->
  Forall (fun c => satisfied c ctx = Ok tt) cs.
Proof.
  induction cs as [|c cs IH] using rev_ind; intros He Hl; [done|].
  apply extends_from_app in He as [He Hc].
  apply extends_from_cons in Hc as (_ & Hn & _). rewrite app_nil_l in Hn.
  assert (Hs : satisfied c ctx = Ok tt).
  { apply (Hl (Field c)). by rewrite last_on_snoc, str_eqb_refl. }
  apply Forall_app. split; [|by constructor].
  pose proof (last_decides _ _ _ Hn Hs) as Hsame. rewrite Forall_forall in Hsame.
  apply IH; [done|]. intros f d Hd. destruct (last_on_In _ _ _ Hd) as [Hin Hf].
  destruct (decide (Field c = f)) as [E|E]; [apply Hsame; [done|congruence]|].
  apply (Hl f). rewrite last_on_snoc. by rewrite (proj2 (str_eqb_false _ _) E).
Qed.

Lemma delegated_caveats key id loc m :
  delegated key id loc m -> extends_from [] (elems (Caveats m)) = Ok tt.
Proof.
  induction 1 as [|m c m' _ IH Ha]; [done|].
  apply Attenuate_Ok in Ha as (Hv & Hn & ->). simpl. apply extends_from_app. split; [done|].
  by apply extends_from_cons.
Qed.

Lemma delegated_signature key id loc m :
  delegated key id loc m ->
  Identifier m = id /\
  elems (Signature m) = hmac_chain (hmacSum key (s2b id)) (elems (Caveats m)).
Proof.
  induction 1 as [|m c m' _ [IHi IHs] Ha]; [done|].
  apply Attenuate_Ok in Ha as (_ & _ & ->). simpl. split; [done|].
  unfold hmac_chain. rewrite fold_left_app. simpl. f_equal. exact IHs.
Qed.

(** ** Properties *)

(** C38: the narrowing lattice is sound: when [narrows] accepts a child caveat
    against a parent on the same field, every context that satisfies the child
    satisfies the parent, for every combination of the seven operators. *)
Theorem narrows_sound p c ctx :
  Field c = Field p -> narrows p c = Ok true ->
  satisfied c ctx = Ok tt -> satisfied p ctx = Ok tt.
Proof. apply narrows_sat. Qed.

Lemma narrows_sound_witness :
  narrows (mkCaveat "expiry" OpLe "2026-07-09T12:00:00Z")
          (mkCaveat "expiry" OpIn "2026-07-09T11:00:00Z, 5") = Ok true
  /\ satisfied (mkCaveat "expiry" OpLe "2026-07-09T12:00:00Z")
               {["expiry" := "2026-07-09T11:00:00Z"]} = Ok tt.
Proof.
  split; [vm_compute; reflexivity|].
  apply (narrows_sound (mkCaveat "expiry" OpLe "2026-07-09T12:00:00Z")
           (mkCaveat "expiry" OpIn "2026-07-09T11:00:00Z, 5")); vm_compute; reflexivity.
Defined.

(** authority only shrinks: a macaroon accepted as an extension of its
    parent, through any number of hops, keeps the parent's caveats as a prefix
    and permits only contexts the parent permits. *)
Theorem extends_shrinks m2 m1 m0 ctx :
  Extends m2 m1 = Ok tt -> Extends m1 m0 = Ok tt ->
  Extends m2 m0 = Ok tt
  /\ elems (Caveats m0) `prefix_of` elems (Caveats m2)
  /\ (Satisfies m2 ctx = Ok tt -> Satisfies m0 ctx = Ok tt).
Proof.
  intros H2 H1. pose proof (Extends_compose _ _ _ H2 H1) as H.
  split_and!; [done| |by apply Extends_Satisfies].
  apply Extends_Ok in H as (_ & added & -> & _). by exists added.
Qed.

Definition example_root : Macaroon := Mint (s2b "key") "cred-1" "kessa".
Definition example_child : Macaroon :=
  mkMacaroon "kessa" "cred-1" (Some [mkCaveat "amount" OpLe "100"]) (Some []).
Definition example_leaf : Macaroon :=
  mkMacaroon "kessa" "cred-1" (Some [mkCaveat "amount" OpLe "100"; mkCaveat "amount" OpLt "1e2"]) (Some []).

Lemma extends_shrinks_witness :
  Extends example_leaf example_root = Ok tt
  /\ elems (Caveats example_root) `prefix_of` elems (Caveats example_leaf)
  /\ (Satisfies example_leaf {["amount" := "99.5"]} = Ok tt ->
      Satisfies example_root {["amount" := "99.5"]} = Ok tt).
Proof. apply (extends_shrinks example_leaf example_child); vm_compute; reflexivity. Defined.

(** the accumulated caveats of a delegation are equivalent, field by field,
    to its last ones: a context that satisfies the last caveat on every field
    satisfies the whole macaroon. *)
Theorem last_caveat_decides key id loc m ctx :
  delegated key id loc m ->
  Satisfies m ctx = Ok tt <->
  (forall f c, last_on f (elems (Caveats m)) = Some c -> satisfied c ctx = Ok tt).
Proof.
  intros Hd. rewrite Satisfies_Ok. split.
  - intros Hs f c Hl. rewrite Forall_forall in Hs. apply Hs. by apply (last_on_In f).
  - apply extends_last_decides. by eapply delegated_caveats.
Qed.

(** the issuer-side check accepts exactly what was built from its key:
    every macaroon minted under a root key and attenuated any number of times
    verifies under it precisely when its caveats are satisfied. *)
Theorem delegated_verifies key id loc m ctx :
  delegated key id loc m -> Verify m key ctx = Satisfies m ctx.
Proof.
  intros [Hi Hs]%delegated_signature. unfold Verify. rewrite Hi, Hs. by rewrite bytes_eqb_refl.
Qed.

Definition example_signed : Macaroon :=
  mkMacaroon "kessa" "cred-1" (Some [mkCaveat "amount" OpLe "100"])
    (Some (hmacSum (hmacSum (s2b "key") (s2b "cred-1")) (canonical (mkCaveat "amount" OpLe "100")))).

Lemma example_signed_delegated : delegated (s2b "key") "cred-1" "kessa" example_signed.
Proof.
  apply (delegated_attenuate _ _ _ example_root (mkCaveat "amount" OpLe "100")); [constructor|].
  apply Attenuate_Ok. split_and!; [vm_compute; reflexivity|constructor|reflexivity].
Qed.

Lemma last_caveat_decides_witness :
  Satisfies example_signed {["amount" := "7"]} = Ok tt <->
  (forall f c, last_on f (elems (Caveats example_signed)) = Some c ->
               satisfied c {["amount" := "7"]} = Ok tt).
Proof. apply (last_caveat_decides _ _ _ _ _ example_signed_delegated). Defined.

Lemma delegated_verifies_witness :
  Verify example_signed (s2b "key") {["amount" := "7"]} = Satisfies example_signed {["amount" := "7"]}.
Proof. apply (delegated_verifies _ _ _ _ _ example_signed_delegated). Defined.

(** attenuation succeeds only with a well-formed caveat that narrows every
    earlier caveat on its field; the result extends its parent and permits
    exactly the parent's contexts that also satisfy the new caveat. *)
Theorem attenuate_spec m c m' ctx :
  Attenuate m c = Ok m' ->
  Caveat_validate c = Ok tt /\ Extends m' m = Ok tt
  /\ (Satisfies m' ctx = Ok tt <-> Satisfies m ctx = Ok tt /\ satisfied c ctx = Ok tt).
Proof.
  intros Ha. pose proof (Attenuate_Extends _ _ _ Ha) as He.
  apply Attenuate_Ok in Ha as (Hv & _ & ->). split_and!; [done..|].
  rewrite !Satisfies_Ok. simpl. rewrite Forall_app, Forall_singleton. done.
Qed.

Lemma attenuate_spec_witness :
  let c := mkCaveat "amount" OpLe "100" in
  Caveat_validate c = Ok tt /\ Extends example_signed example_root = Ok tt
  /\ (Satisfies example_signed {["amount" := "7"]} = Ok tt <->
      Satisfies example_root {["amount" := "7"]} = Ok tt /\ satisfied c {["amount" := "7"]} = Ok tt).
Proof.
  apply (attenuate_spec example_root (mkCaveat "amount" OpLe "100") example_signed).
  vm_compute; reflexivity.
Defined.

(** the bytes hashed for a caveat determine it when none of its parts
    carries the unit separator, and two well-formed caveats that do carry it
    can have the same bytes. *)
Theorem canonical_framing :
  (forall c d, Byte.x1f ∉ s2b (Field c) -> Byte.x1f ∉ s2b (COp c) ->
               Byte.x1f ∉ s2b (Field d) -> Byte.x1f ∉ s2b (COp d) ->
               canonical c = canonical d -> c = d)
  /\ exists c d, Caveat_validate c = Ok tt /\ Caveat_validate d = Ok tt
                 /\ c <> d /\ canonical c = canonical d.
Proof.
  split.
  - intros [f o v] [f' o' v']; unfold canonical; simpl. intros Hf Ho Hf' Ho' E.
    apply sep_split in E as [Ef E]; [|done..]. apply sep_split in E as [Eo Ev]; [|done..].
    by apply (inj s2b) in Ef as ->, Eo as ->, Ev as ->.
  - set (us := String "031"%char "").
    exists (mkCaveat "x" OpEq ("a" +:+ us +:+ "==" +:+ us +:+ "b")),
           (mkCaveat ("x" +:+ us +:+ "==" +:+ us +:+ "a") OpEq "b").
    split_and!; [vm_compute; reflexivity..|vm_compute; discriminate|vm_compute; reflexivity].
Qed.

End macaroon.
