(* ===== verification/Agreement.v ===== *)
(** The field vocabulary shared by policies and macaroons: the same comparison
    over the same field gives the same answer on both sides. *)
From S2P Require Import Prelude GoFmt GoTime GoFloat GoCrypto GoJson Types Scalar Policy Macaroon.

Module agreement.

(** The caveat that reads like a policy condition. *)
Definition as_caveat (c : policy.Condition) : macaroon.Caveat :=
  macaroon.mkCaveat (policy.Field c) (policy.COp c) (policy.CValue c).

Lemma in_members got v :
  existsb (fun m => negb (TrimSpace m =?s "") && (got =?s TrimSpace m)) (Split v comma)
  = existsb (fun m => got =?s m) (macaroon.splitSet v).
Proof.
  unfold macaroon.splitSet. induction (Split v comma) as [|m l IH]; simpl; [done|].
  destruct (TrimSpace m =?s ""); simpl; by rewrite IH.
Qed.

(** a policy condition and a macaroon caveat written with the same field,
    operator and value are validated alike and hold on the same contexts. *)
Theorem condition_caveat_agree c ctx :
  (policy.Condition_validate c = Ok tt <-> macaroon.Caveat_validate (as_caveat c) = Ok tt)
  /\ ((policy.Condition_eval c ctx).1 = true <-> macaroon.satisfied (as_caveat c) ctx = Ok tt).
Proof.
  destruct c as [f o v].
  unfold policy.Condition_validate, macaroon.Caveat_validate, policy.Condition_eval,
    macaroon.satisfied, policy.blank, policy.is_equality_op, macaroon.compareOK, as_caveat; simpl.
  change (macaroon.is_order_op o) with (policy.is_ordering_op o).
  change macaroon.OpEq with policy.OpEq. change macaroon.OpNe with policy.OpNe.
  change macaroon.OpIn with policy.OpIn. split.
  - repeat case_match; simpl; rewrite ?reject_if_Ok; done.
  - destruct (ctx !! f) as [got|]; [|done]. simpl. rewrite in_members.
    repeat case_match; simpl in *; try done; congruence.
Qed.

End agreement.
