(* ===== verification/Credential.v ===== *)
(** internal/credential: the unit that travels down a delegation chain, its
    binding to a holder key and the proof of possession of that key. *)
From S2P Require Import Prelude GoFmt GoTime GoCrypto GoJson GoJsonText GoJsonInj Types Signer Did Status Vc Macaroon.

Module credential.

Definition HolderField : string := "holder".
Definition popDomain : string := "kessa/pop/v2".

Record Credential := mkCredential
  { Subject : types.DID; Issuer : types.DID; Macaroon_ : macaroon.Macaroon;
    StatusRef : status.Reference; HolderKey : option did.JWK; VCWrapper : option vc.VerifiableCredential }.
Record Options := mkOptions
  { o_Subject : types.DID; o_Issuer : types.DID; o_Macaroon : macaroon.Macaroon;
    o_HolderKey : option PublicKey; o_StatusRef : status.Reference;
    o_VCWrapper : option vc.VerifiableCredential }.

#[global] Instance Credential_eq_dec : EqDecision Credential.
Proof. solve_decision. Defined.

(** ** JSON forms *)

Definition JWK_json (j : did.JWK) : json :=
  JObj (field "kty" (JStr (did.Kty j)) ++ field "crv" (JStr (did.Crv j)) ++ field "x" (JStr (did.X j))
        ++ str_field_omit "y" (did.Y j)).
Definition Reference_json (r : status.Reference) : json :=
  JObj (field "listURL" (JStr (status.ListURL r)) ++ field "index" (JInt (status.Index r))
        ++ str_field_omit "issuer" (status.r_Issuer r)).
Definition Credential_fields (c : Credential) : list (string * json) :=
  field "subject" (JStr (Subject c)) ++ field "issuer" (JStr (Issuer c))
  ++ field "macaroon" (macaroon.Macaroon_json (Macaroon_ c))
  ++ field "statusRef" (Reference_json (StatusRef c))
  ++ field "holderKey" (match HolderKey c with Some j => JWK_json j | None => JNull end).
Definition Credential_json (c : Credential) : result json :=
  let! wrapper := vc.opt_field "vcWrapper" vc.VC_json (VCWrapper c) in
  Ok (JObj (Credential_fields c ++ wrapper)).

(** ** Composition *)

Section Holder.
Context {CR : Crypto}.

(** [holderJWK]; [None] is the nil key. *)
Definition holderJWK (pub : option PublicKey) : result did.JWK :=
  check! match pub with
         | Some (Ed25519Key k) =>
             reject_if (negb (len k =? signer.ed25519_PublicKeySize))
               (Errorf "credential: Ed25519 holder key is %d bytes, want %d"
                  [AInt (len k); AInt signer.ed25519_PublicKeySize])
         | Some (EcdsaKey c _ _) =>
             reject_if (negb (bool_decide (c = P256)))
               (New "credential: ECDSA holder key must be on the P-256 curve")
         | None => Err (New "credential: holder key is required")
         | Some UnsupportedKey => Err (New "credential: unsupported holder key type (want Ed25519 or P-256)")
         end;
  match pub ≫= did.PublicKeyToJWK with
  | None => Err (New "panic")
  | Some jwk =>
      let! _ := wrap (fun e => Errorf "credential: invalid holder key: %w" [AErr e]) (did.JWK_PublicKey (Some jwk)) in
      Ok jwk
  end.

Definition New (o : Options) : result Credential :=
  check! reject_if (o_Subject o =?s "") (Prelude.New "credential: empty subject");
  check! reject_if (o_Issuer o =?s "") (Prelude.New "credential: empty issuer");
  let! jwk := holderJWK (o_HolderKey o) in
  check! reject_if ((macaroon.Identifier (o_Macaroon o) =?s "")
                    || bool_decide (elems (macaroon.Signature (o_Macaroon o)) = []))
           (Prelude.New "credential: macaroon is empty or unsigned");
  Ok (mkCredential (o_Subject o) (o_Issuer o) (o_Macaroon o) (o_StatusRef o) (Some jwk) (o_VCWrapper o)).

(** ** Holder binding *)

Definition jwkValue (j : did.JWK) : string := RawURLEncoding (encode (JWK_json j)).
Definition HolderValue (holder : option PublicKey) : result string :=
  let! jwk := holderJWK holder in Ok (jwkValue jwk).
Definition HolderCaveat (holder : option PublicKey) : result macaroon.Caveat :=
  let! v := HolderValue holder in Ok (macaroon.mkCaveat HolderField macaroon.OpEq v).
Definition BindHolder (m : macaroon.Macaroon) (holder : option PublicKey) : result macaroon.Macaroon :=
  let! cav := HolderCaveat holder in macaroon.Attenuate m cav.
End Holder.

Definition HolderContext (c : Credential) : gmap string string :=
  match HolderKey c with None => ∅ | Some j => {[HolderField := jwkValue j]} end.

Definition StatusAuthority (c : Credential) : types.DID :=
  if negb (status.r_Issuer (StatusRef c) =?s "") then status.r_Issuer (StatusRef c) else Issuer c.

(** ** Proof of possession *)

Record PoP := mkPoP { Nonce : slice Byte.byte; Pop_Signature : slice Byte.byte }.
#[global] Instance PoP_eq_dec : EqDecision PoP.
Proof. solve_decision. Defined.

Definition popInput (c : Credential) (nonce : bytes) (action : types.Action) (seq : Z) (prevHash : bytes)
  : result bytes :=
  let! body := wrap (fun e => Errorf "credential: canonicalize action for PoP: %w" [AErr e])
                 (Marshal (types.Action_json action)) in
  Ok (s2b popDomain ++ Byte.x00 :: s2b (Subject c) ++ Byte.x00 :: s2b (macaroon.Identifier (Macaroon_ c))
      ++ Byte.x00 :: nonce ++ Byte.x00 :: body ++ Byte.x00 :: be64 seq ++ Byte.x00 :: prevHash).

Definition ProvePossession (c : Credential) (holder : signer.Signer) (nonce : bytes) (action : types.Action)
  (seq : Z) (prevHash : bytes) : result PoP :=
  let! input := popInput c nonce action seq prevHash in
  let! sig := wrap (fun e => Errorf "credential: prove possession: %w" [AErr e]) (signer.Sign holder input) in
  Ok (mkPoP (Some nonce) (Some sig)).

Definition VerifyPossession {CR : Crypto} (c : Credential) (pop : PoP) (action : types.Action)
  (seq : Z) (prevHash : bytes) : result unit :=
  match HolderKey c with
  | None => Err (Prelude.New "credential: no bound holder key")
  | Some j =>
      let! pub := wrap (fun e => Errorf "credential: bound holder key: %w" [AErr e]) (did.JWK_PublicKey (Some j)) in
      check! reject_if (bool_decide (elems (Nonce pop) = []))
               (Prelude.New "credential: proof of possession has empty nonce");
      let! input := popInput c (elems (Nonce pop)) action seq prevHash in
      reject_if (negb (signer.Verify pub input (elems (Pop_Signature pop))))
        (Prelude.New "credential: proof of possession failed (holder key not controlled)")
  end.

(** ** Laws *)

Section HolderLaws.
Context {CR : Crypto}.

Lemma holderJWK_Ok pub jwk :
  holderJWK pub = Ok jwk ->
  exists k k', pub = Some k /\ did.PublicKeyToJWK k = Some jwk /\ did.JWK_PublicKey (Some jwk) = Ok k'.
Proof.
  unfold holderJWK. intros H. gosimp H. destruct pub as [k|]; [|done].
  cbn [mbind option_bind] in H. destruct (did.PublicKeyToJWK k) as [j|] eqn:Ej; [|done].
  apply rbind_Ok in H as (k' & Hk & [= <-]). apply wrap_Ok in Hk. by exists k, k'.
Qed.

(** A key read from a JWK is accepted, with its canonical JWK. *)
Lemma holderJWK_parsed j k :
  did.JWK_PublicKey j = Ok k -> exists jwk, did.PublicKeyToJWK k = Some jwk /\ holderJWK (Some k) = Ok jwk
    /\ did.JWK_PublicKey (Some jwk) = Ok k.
Proof.
  intros Hj. destruct (did.JWK_reencode _ _ Hj) as (jwk & Ejwk & Hjwk). exists jwk. split_and!; [done| |done].
  unfold holderJWK. cbn [mbind option_bind]. rewrite Ejwk, Hjwk.
  destruct k as [b|c x y|]; [| |done].
  - simpl in Ejwk. injection Ejwk as <-. revert Hjwk. simpl. rewrite did.decodeBase64URL_encoded. simpl.
    intros Hl. gosimp Hl. unfold signer.ed25519_PublicKeySize. by rewrite Ha.
  - simpl in Ejwk. by case_bool_decide.
Qed.

End HolderLaws.

(** *** The caveat value of a key determines the key *)

Lemma JWK_text j :
  encode (JWK_json j)
  = s2b "{" ++ json_string "kty" ++ colon :: json_string (did.Kty j) ++ comma :: json_string "crv"
    ++ colon :: json_string (did.Crv j) ++ comma :: json_string "x" ++ colon :: json_string (did.X j)
    ++ (if did.Y j =?s "" then [] else comma :: json_string "y" ++ colon :: json_string (did.Y j)) ++ s2b "}".
Proof.
  unfold JWK_json, str_field_omit, omit_if, field. destruct (did.Y j =?s ""); cbn [app encode map sep_by fst snd];
    change (s2b "{") with [Byte.x7b]; change (s2b "}") with [Byte.x7d];
    repeat (progress cbn [app] || rewrite <- app_assoc); reflexivity.
Qed.

Definition safe_string (s : string) : Prop := Forall (fun c => safe_byte c = true) (s2b s).
Definition safe_jwk (j : did.JWK) : Prop :=
  safe_string (did.Kty j) /\ safe_string (did.Crv j) /\ safe_string (did.X j) /\ safe_string (did.Y j).

Lemma safe_no_backslash j : safe_jwk j -> backslash_byte ∉ encode (JWK_json j).
Proof.
  intros (Hk%json_string_safe & Hc%json_string_safe & Hx%json_string_safe & Hy%json_string_safe).
  assert (Hlit : forall b : bytes, bool_decide (backslash_byte ∉ b) = true -> backslash_byte ∉ b)
    by (intros b; apply bool_decide_eq_true).
  rewrite JWK_text.
  repeat first [apply Hk|apply Hc|apply Hx|apply Hy|apply Hlit; reflexivity|case_match
               |apply not_elem_of_app; split|apply not_elem_of_cons; split; [discriminate|]].
Qed.

(** One string member: equal texts give equal strings and equal remainders. *)
Lemma json_string_cancel s1 s2 r1 r2 :
  backslash_byte ∉ json_string s1 -> backslash_byte ∉ json_string s2 ->
  json_string s1 ++ r1 = json_string s2 ++ r2 -> s1 = s2 /\ r1 = r2.
Proof.
  intros [E1 Q1]%json_string_plain [E2 Q2]%json_string_plain. rewrite E1, E2. cbn [app].
  rewrite <- !app_assoc. cbn [app]. intros [= H].
  apply sep_split in H as [H ->]; [|done..]. split; [|done]. by apply (inj s2b).
Qed.

Lemma JWK_text_inj j1 j2 :
  safe_jwk j2 -> encode (JWK_json j1) = encode (JWK_json j2) -> j1 = j2.
Proof.
  intros Hs%safe_no_backslash He. pose proof Hs as Hs1. rewrite <- He in Hs1.
  rewrite JWK_text in Hs, Hs1. rewrite (JWK_text j1), (JWK_text j2) in He. clear -He Hs Hs1.
  repeat match goal with
         | H : _ ∉ _ ++ _ |- _ => apply not_elem_of_app in H as [? H]
         | H : _ ∉ _ :: _ |- _ => apply not_elem_of_cons in H as [_ H]
         end.
  do 2 apply app_inv_head in He. apply cons_tail in He.
  apply json_string_cancel in He as [Hk He]; [|done..]. apply cons_tail in He. apply app_inv_head in He.
  apply cons_tail in He. apply json_string_cancel in He as [Hc He]; [|done..].
  apply cons_tail in He. apply app_inv_head in He. apply cons_tail in He.
  apply json_string_cancel in He as [Hx He]; [|done..].
  destruct j1 as [k1 c1 x1 y1], j2 as [k2 c2 x2 y2]. simpl in *. subst k2 c2 x2. f_equal.
  destruct (y1 =?s "") eqn:E1, (y2 =?s "") eqn:E2.
  - apply str_eqb_true in E1, E2. congruence.
  - discriminate.
  - discriminate.
  - cbn [app] in He. do 5 apply cons_tail in He.
    repeat match goal with
           | H : _ ∉ _ ++ _ |- _ => apply not_elem_of_app in H as [? H]
           | H : _ ∉ _ :: _ |- _ => apply not_elem_of_cons in H as [_ H]
           end.
    by apply json_string_cancel in He as [? _].
Qed.

Lemma canonical_jwk_safe k j : did.PublicKeyToJWK k = Some j -> safe_jwk j.
Proof.
  assert (Hlit : forall s, forallb safe_byte (s2b s) = true -> safe_string s).
  { intros s H. unfold safe_string. rewrite Forall_forall. rewrite forallb_forall in H.
    intros c Hc. apply H. by apply list_elem_of_In. }
  destruct k as [b|c x y|]; simpl; [| |done].
  - intros [= <-]. split_and!; try (by apply Hlit). apply RawURL_safe.
  - case_bool_decide; [|done]. intros [= <-]. split_and!; try (by apply Hlit); apply RawURL_safe.
Qed.

Lemma jwkValue_inj j k jk : did.PublicKeyToJWK k = Some jk -> jwkValue j = jwkValue jk -> j = jk.
Proof.
  intros Hs%canonical_jwk_safe Hv. apply (inj RawURLEncoding) in Hv. by apply JWK_text_inj.
Qed.


(** the holder caveat of a key is satisfied in the holder context of a
    credential exactly when the credential stores that key's canonical JWK: no
    credential bound to another key, and none without a key, satisfies it. *)
Theorem holder_caveat_binds {CR : Crypto} k cav c :
  HolderCaveat (Some k) = Ok cav ->
  (macaroon.satisfied cav (HolderContext c) = Ok tt <-> HolderKey c = did.PublicKeyToJWK k).
Proof.
  unfold HolderCaveat, HolderValue. intros H. gosimp H. injection H as <-.
  apply holderJWK_Ok in Ha0 as (k' & k2 & [= <-] & Hj & _). injection Ha as <-. rewrite Hj.
  unfold macaroon.satisfied, HolderContext. cbn [macaroon.Field macaroon.COp macaroon.Value].
  destruct (HolderKey c) as [j|].
  - rewrite lookup_singleton_eq, str_eqb_refl. split.
    + intros Hs. destruct (jwkValue j =?s jwkValue a0) eqn:E; [|done]. apply str_eqb_true in E.
      f_equal. by eapply jwkValue_inj.
    + intros [= ->]. by rewrite str_eqb_refl.
  - rewrite lookup_empty. done.
Qed.

#[local] Instance accepting : Crypto :=
  {| ed25519_Verify := fun _ _ sig => sig =?b [Byte.x01]; ecdsa_VerifyASN1 := fun _ _ _ _ => false;
     p256_NewPublicKey_ok := fun _ => true |}.
Definition test_key : PublicKey := Ed25519Key (repeat Byte.x07 32).
Definition test_jwk : did.JWK := did.mkJWK "OKP" "Ed25519" (RawURLEncoding (repeat Byte.x07 32)) "".
Definition test_credential : Credential :=
  mkCredential "did:web:agent.example" "did:web:org.example"
    (macaroon.mkMacaroon "kessa" "cred-1" (Some []) (Some [Byte.x01]))
    (status.mkReference "https://org.example/status.json" 7 "") (Some test_jwk) None.
Definition test_caveat : macaroon.Caveat := macaroon.mkCaveat HolderField macaroon.OpEq (jwkValue test_jwk).

Lemma holder_caveat_binds_witness :
  macaroon.satisfied test_caveat (HolderContext test_credential) = Ok tt
  <-> HolderKey test_credential = did.PublicKeyToJWK test_key.
Proof. apply (holder_caveat_binds test_key test_caveat test_credential). vm_compute. reflexivity. Defined.

(** a composed credential names both parties, carries a non-empty signed
    macaroon and a holder key that parses; for a key that itself came from a
    JWK, it is that key; nothing else of the options is altered. *)
Theorem new_wellformed {CR : Crypto} o c :
  New o = Ok c ->
  Subject c = o_Subject o /\ Subject c <> ""%string /\ Issuer c = o_Issuer o /\ Issuer c <> ""%string
  /\ Macaroon_ c = o_Macaroon o /\ macaroon.Identifier (Macaroon_ c) <> ""%string
  /\ elems (macaroon.Signature (Macaroon_ c)) <> []
  /\ StatusRef c = o_StatusRef o /\ VCWrapper c = o_VCWrapper o
  /\ (exists k, did.JWK_PublicKey (HolderKey c) = Ok k)
  /\ (forall j k, o_HolderKey o = Some k -> did.JWK_PublicKey j = Ok k -> did.JWK_PublicKey (HolderKey c) = Ok k).
Proof.
  unfold New. intros H. gosimp H. injection H as <-. destruct Ha2 as [Hi Hs].
  rewrite bool_decide_eq_false in Hs. split_and!; try done.
  - apply holderJWK_Ok in Ha1 as (k & k' & _ & _ & Hk). by exists k'.
  - intros j k Ho Hj. rewrite Ho in Ha1. destruct (holderJWK_parsed j k Hj) as (jwk & _ & E & Hk).
    rewrite Ha1 in E. injection E as ->. exact Hk.
Qed.

Definition test_options : Options :=
  mkOptions "did:web:agent.example" "did:web:org.example" (Macaroon_ test_credential) (Some test_key)
    (StatusRef test_credential) None.

Lemma new_wellformed_witness :
  exists k, did.JWK_PublicKey (HolderKey test_credential) = Ok k.
Proof. apply (new_wellformed test_options test_credential). vm_compute. reflexivity. Defined.

(** *** What the proof of possession covers *)

(** for one credential, the bytes a proof of possession signs determine the
    nonce, the encoded action, the position and the preceding hash: a proof can
    stand for one action in one slot of one log only.  The hashes are of equal
    length, as every hash of a log is. *)
Theorem pop_input_binds c nonce1 nonce2 a1 a2 seq1 seq2 prev1 prev2 b1 b2 :
  popInput c nonce1 a1 seq1 prev1 = Ok b1 -> popInput c nonce2 a2 seq2 prev2 = Ok b2 ->
  len prev1 = len prev2 -> b1 = b2 ->
  nonce1 = nonce2 /\ (types.valid_action a1 = true -> types.same_action a1 a2)
  /\ be64 seq1 = be64 seq2 /\ prev1 = prev2.
Proof.
  unfold popInput. intros H1 H2 Hl He. gosimp H1. gosimp H2. subst b2.
  pose proof (Marshal_nul_free _ _ (types.raw_free_Action a1) Ha) as Hn.
  pose proof (Marshal_nul_free _ _ (types.raw_free_Action a2) Ha0) as Hn0.
  apply Ok_inj in H1, H2. pose proof (eq_trans H1 (eq_sym H2)) as H.
  apply app_inv_head in H. apply cons_tail in H.
  apply app_inv_head, cons_tail, app_inv_head, cons_tail in H.
  assert (Hr : forall n b s p, n ++ Byte.x00 :: b ++ Byte.x00 :: be64 s ++ Byte.x00 :: p
                               = (n ++ Byte.x00 :: b) ++ (Byte.x00 :: be64 s ++ Byte.x00 :: p)).
  { intros. by rewrite <- app_assoc. }
  rewrite !Hr in H.
  apply app_inj_2 in H as [H Ht].
  2: { unfold len in Hl. cbn [length]. rewrite !length_app, !length_be64. simpl. lia. }
  apply cons_tail, app_inj_length in Ht as [Hs Hp]; [|by rewrite !length_be64].
  apply sep_split_r in H as [-> ->]; [|done..]. apply cons_tail in Hp.
  split_and!; try done. intros Hv. by eapply types.Marshal_Action_inj.
Qed.

Definition test_action : types.Action := types.mkAction "read" "db/orders" ∅ (mkTime 1700000000 0 0).
Definition test_input : bytes :=
  Eval vm_compute in match popInput test_credential [Byte.x00; Byte.x2a] test_action 3 (repeat Byte.x09 32) with
                     | Ok b => b | Err _ => [] end.

Lemma pop_input_binds_witness :
  [Byte.x00; Byte.x2a] = [Byte.x00; Byte.x2a]
  /\ (types.valid_action test_action = true -> types.same_action test_action test_action)
  /\ be64 3 = be64 3 /\ repeat Byte.x09 32 = repeat Byte.x09 32.
Proof.
  apply (pop_input_binds test_credential _ _ test_action test_action _ _ _ _ test_input test_input);
    first [reflexivity|vm_compute; reflexivity].
Defined.

(** the holder of the bound key can prove possession, and the proof it
    makes with a non-empty nonce verifies for the same action and slot. *)
Theorem prove_verify {CR : Crypto} c (holder : signer.Signer) {HS : signer.Sound holder} nonce a seq prevHash pop :
  did.JWK_PublicKey (HolderKey c) = Ok (signer.Public holder) -> nonce <> [] ->
  ProvePossession c holder nonce a seq prevHash = Ok pop ->
  Nonce pop = Some nonce /\ VerifyPossession c pop a seq prevHash = Ok tt.
Proof.
  intros Hk Hn H. unfold ProvePossession in H. gosimp H. injection H as <-. split; [done|].
  unfold VerifyPossession. destruct (HolderKey c) as [j|]; [|done]. rewrite Hk.
  cbn [wrap rbind Nonce Pop_Signature]. change (elems (Some nonce)) with nonce.
  rewrite bool_decide_false by done.
  cbn [reject_if rbind]. rewrite Ha. cbn [rbind].
  by rewrite (signer.sound (s := holder) _ _ Ha0).
Qed.

Definition test_holder : signer.Signer :=
  signer.mkSigner "did:web:agent.example" test_key (fun _ => Ok [Byte.x01]).
#[local] Instance test_holder_sound : signer.Sound test_holder.
Proof. intros data sig [= <-]. reflexivity. Qed.

Lemma prove_verify_witness :
  let pop := mkPoP (Some [Byte.x2a]) (Some [Byte.x01]) in
  Nonce pop = Some [Byte.x2a] /\ VerifyPossession test_credential pop test_action 3 (repeat Byte.x09 32) = Ok tt.
Proof.
  apply (prove_verify test_credential test_holder [Byte.x2a]).
  - vm_compute. reflexivity.
  - discriminate.
  - vm_compute. reflexivity.
Defined.

(** The revocation authority is never empty for a composed credential. *)
Lemma StatusAuthority_nonempty c : Issuer c <> ""%string -> StatusAuthority c <> ""%string.
Proof.
  unfold StatusAuthority. intros Hi. destruct (status.r_Issuer (StatusRef c) =?s "") eqn:E; [done|].
  by apply str_eqb_false in E.
Qed.

Lemma raw_free_Credential c j : Credential_json c = Ok j -> raw_free j.
Proof.
  unfold Credential_json. intros H. gosimp H. injection H as <-. unfold Credential_fields.
  apply raw_free_obj. raw_fields; try done.
  - unfold macaroon.Macaroon_json. apply raw_free_obj. raw_fields; try done.
    + destruct (macaroon.Caveats _) as [l|]; [|done]. simpl. apply raw_free_arr, Forall_map, Forall_forall. done.
    + by destruct (macaroon.Signature _).
  - unfold Reference_json. apply raw_free_obj. raw_fields; done.
  - destruct (HolderKey c); [|done]. unfold JWK_json. apply raw_free_obj. raw_fields; done.
  - eapply vc.raw_free_opt; [|exact Ha]. apply vc.raw_free_VC.
Qed.


(** *** The encoding of a credential determines it *)

Definition valid_credential (c : Credential) : bool := forallb (fun kv => valid_json kv.2) (Credential_fields c).

Lemma Macaroon_json_inj m1 m2 : macaroon.Macaroon_json m1 = macaroon.Macaroon_json m2 -> m1 = m2.
Proof.
  destruct m1 as [l1 i1 c1 s1], m2 as [l2 i2 c2 s2]. unfold macaroon.Macaroon_json, field. cbn [app].
  intros H. injection H as -> -> Hc Hs. cbn [macaroon.Caveats macaroon.Signature] in Hc, Hs. f_equal.
  - destruct c1 as [c1|], c2 as [c2|]; simpl in Hc; try discriminate; [|done]. injection Hc as Hc. f_equal.
    revert c2 Hc. induction c1 as [|x c1 IH]; intros [|y c2] Hc; try discriminate; [done|].
    simpl in Hc. injection Hc as E1 E2 E3 Hc. f_equal; [|by apply IH]. destruct x, y. simpl in *. congruence.
  - destruct s1 as [s1|], s2 as [s2|]; simpl in Hs; try discriminate; [|done]. f_equal. by apply j_bytes_inj.
Qed.

Lemma Reference_json_inj r1 r2 : Reference_json r1 = Reference_json r2 -> r1 = r2.
Proof.
  destruct r1 as [u1 i1 s1], r2 as [u2 i2 s2]. unfold Reference_json, str_field_omit, omit_if, field. simpl.
  destruct (s1 =?s "") eqn:E1, (s2 =?s "") eqn:E2; simpl; rewrite ?str_eqb_true in *; intros H; injection H; congruence.
Qed.

Lemma JWK_json_inj j1 j2 : JWK_json j1 = JWK_json j2 -> j1 = j2.
Proof.
  destruct j1 as [k1 c1 x1 y1], j2 as [k2 c2 x2 y2]. unfold JWK_json, str_field_omit, omit_if, field. simpl.
  destruct (y1 =?s "") eqn:E1, (y2 =?s "") eqn:E2; simpl; rewrite ?str_eqb_true in *; intros H; injection H; congruence.
Qed.

Lemma Credential_fields_inj c1 c2 :
  Credential_fields c1 = Credential_fields c2 ->
  Subject c1 = Subject c2 /\ Issuer c1 = Issuer c2 /\ Macaroon_ c1 = Macaroon_ c2
  /\ StatusRef c1 = StatusRef c2 /\ HolderKey c1 = HolderKey c2.
Proof.
  unfold Credential_fields, field. cbn [app].
  set (m1 := macaroon.Macaroon_json _). set (m2 := macaroon.Macaroon_json (Macaroon_ c2)).
  set (f1 := Reference_json _). set (f2 := Reference_json (StatusRef c2)).
  set (h1 := match HolderKey c1 with Some _ => _ | None => _ end). set (h2 := match HolderKey c2 with Some _ => _ | None => _ end).
  intros H. assert (m1 = m2 /\ f1 = f2 /\ h1 = h2 /\ Subject c1 = Subject c2 /\ Issuer c1 = Issuer c2)
    as (Hm & Hf & Hh & Hs & Hi) by (split_and!; congruence).
  apply Macaroon_json_inj in Hm. apply Reference_json_inj in Hf. split_and!; try done.
  unfold h1, h2 in Hh. destruct (HolderKey c1), (HolderKey c2); try done. f_equal. by apply JWK_json_inj.
Qed.

Lemma no_raw_fields c : forallb (fun kv => no_raw kv.2) (Credential_fields c) = true.
Proof.
  unfold Credential_fields, field. cbn [app forallb snd]. rewrite !andb_true_iff. split_and!; try done.
  - unfold macaroon.Macaroon_json, field. cbn [app plain_json forallb fst snd]. rewrite !andb_true_iff. split_and!; try done.
    + destruct (macaroon.Caveats _) as [l|]; [|done]. simpl. by induction l.
    + by destruct (macaroon.Signature _).
  - unfold Reference_json, str_field_omit, omit_if, field. by destruct (_ =?s _).
  - destruct (HolderKey c) as [j|]; [|done]. unfold JWK_json, str_field_omit, omit_if, field. by destruct (_ =?s _).
Qed.

Lemma Credential_json_front c1 c2 b :
  valid_credential c1 = true ->
  Marshal (Credential_json c1) = Ok b -> Marshal (Credential_json c2) = Ok b ->
  Credential_fields c1 = Credential_fields c2 /\
  match VCWrapper c1, VCWrapper c2 with
  | None, None => True
  | Some w1, Some w2 => Marshal (vc.VC_json w1) = Marshal (vc.VC_json w2)
  | _, _ => False
  end.
Proof.
  intros Hv H1 H2. unfold Marshal, Credential_json in H1, H2. gosimp H1. gosimp H2.
  apply Ok_inj in H1, H2, Ha, Ha1. subst a a1. rewrite <- H1 in H2. clear H1 b.
  assert (Hk : forall l, forallb (fun kv => valid_json kv.2) l = true -> forallb (fun kv => valid_utf8 kv.1) l = true ->
            forallb (fun kv => valid_utf8 kv.1 && valid_json kv.2) l = true).
  { intros l. rewrite !forallb_Forall_true, !Forall_forall. intros A B x Hx. rewrite A, B by done. done. }
  symmetry in H2. apply obj_front_inj in H2 as [Hf Ht]; [|done|done|by apply Hk|apply no_raw_fields].
  split; [done|]. unfold vc.opt_field in Ha0, Ha2.
  destruct (VCWrapper c1) as [w1|], (VCWrapper c2) as [w2|]; gosimp Ha0; gosimp Ha2; apply Ok_inj in Ha0, Ha2;
    subst; try done.
  unfold Marshal. rewrite Ha, Ha1. simpl in Ht. apply cons_tail in Ht. cbn [rbind]. f_equal.
  unfold member_encode in Ht. cbn [fst snd] in Ht. by apply app_inv_head, cons_tail in Ht.
Qed.

End credential.
