(* ===== verification/Randomkeys.v ===== *)
(** internal/signer and internal/credential: what is drawn at random - fresh keys
    and the challenge of a proof of possession - as functions of the source.

    Module [randomkeys] threads the random source explicitly.  crypto/ecdsa's own
    generation is a parameter. *)
From S2P Require Import Prelude GoFmt GoTime GoCrypto GoPath Types Signer Did Macaroon Credential.

Module randomkeys.

Section Source.
(** A source of random bytes: a full read of [n] bytes, or its error, and the
    source afterwards. *)
Context {CR : Crypto} {SK : signer.SeedKeys} {SL : signer.SeedLaws} {R : Type} (ReadFull : Z -> R -> result bytes * R).
Context (Hfull : forall n r b r', ReadFull n r = (Ok b, r') -> len b = n).
(** ecdsa.GenerateKey on P-256: the scalar and its point, in uncompressed form. *)
Context (GenerateKey : R -> result (bytes * bytes) * R).

Definition NewSoftwareSigner (d : types.DID) (r : R) : result signer.Signer * R :=
  let '(seed, r) := ReadFull signer.ed25519_SeedSize r in
  (let! seed := wrap (fun e => Errorf "signer: generate key: %w" [AErr e]) seed in
   Ok (signer.mkSigner d (Ed25519Key (signer.ed25519_NewKeyFromSeed seed)) (fun data => Ok (signer.ed25519_Sign seed data))), r).

Definition NewECDSASigner (d : types.DID) (r : R) : result signer.Signer * R :=
  let '(key, r) := GenerateKey r in
  (let! key := wrap (fun e => Errorf "signer: generate P-256 key: %w" [AErr e]) key in
   Ok (signer.mkSigner d (EcdsaKey P256 (SetBytes (take 32 (drop 1 key.2))) (SetBytes (drop 33 key.2)))
         (fun data => signer.ecdsa_SignASN1 key.1 (sha256.Sum256 data))), r).

Definition Challenge (r : R) : result bytes * R :=
  let '(nonce, r) := ReadFull 32 r in
  (wrap (fun e => Errorf "credential: challenge: %w" [AErr e]) nonce, r).

(** A fresh software key is the seeded key of the 32 bytes drawn. *)
Lemma fresh_is_seeded d r s r' :
  NewSoftwareSigner d r = (Ok s, r') ->
  exists seed, ReadFull signer.ed25519_SeedSize r = (Ok seed, r') /\ signer.NewSoftwareSignerFromSeed d seed = Ok s.
Proof.
  unfold NewSoftwareSigner. destruct (ReadFull _ r) as [[seed|e] r1] eqn:E; [|done]. cbn [wrap rbind]. intros [= <- <-]. exists seed. split; [done|].
  unfold signer.NewSoftwareSignerFromSeed. rewrite (Hfull _ _ _ _ E). done.
Qed.
Lemma challenge_size r nonce r' : Challenge r = (Ok nonce, r') -> len nonce = 32.
Proof. unfold Challenge. destruct (ReadFull 32 r) as [[b|e] r1] eqn:E; [|done]. cbn [wrap]. intros [= <- <-]. by eapply Hfull. Qed.

(** a fresh holder answers a fresh challenge.  Whatever the source gives, a
    credential bound to a key just generated accepts the proof its holder makes
    over a challenge just drawn. *)
Theorem fresh_possession d r s r1 nonce r2 c a seq prev pop :
  NewSoftwareSigner d r = (Ok s, r1) -> Challenge r1 = (Ok nonce, r2) ->
  did.JWK_PublicKey (credential.HolderKey c) = Ok (signer.Public s) ->
  credential.ProvePossession c s nonce a seq prev = Ok pop ->
  credential.Nonce pop = Some nonce /\ credential.VerifyPossession c pop a seq prev = Ok tt.
Proof.
  intros Hs Hn Hk Hp. apply fresh_is_seeded in Hs as (seed & _ & Hs). apply signer.NewSoftwareSigner_Ok in Hs as (_ & _ & HS & _).
  apply challenge_size in Hn. apply (credential.prove_verify c s nonce a seq prev pop Hk); [|exact Hp]. intros ->. done.
Qed.
End Source.
End randomkeys.
