(* ===== verification/Chain.v ===== *)
(** internal/chain: a delegation chain from a trust anchor to the actor, and
    its verification from public documents only. *)
From S2P Require Import Prelude GoFmt GoTime GoCrypto GoJson GoJsonText GoJsonInj Types Signer Did Status Vc.
From S2P Require Import Macaroon Credential.

Module chain.

Definition issuanceDomain : string := "kessa/issuance/v2".
Definition MaxDepth : Z := 8.

Record Link := mkLink { Credential_ : credential.Credential; IssuerProof : slice Byte.byte }.
Record Chain := mkChain { Links : slice Link }.
#[global] Instance Link_eq_dec : EqDecision Link.
Proof. solve_decision. Defined.
#[global] Instance Chain_eq_dec : EqDecision Chain.
Proof. solve_decision. Defined.

Definition Link_json (l : Link) : result json :=
  let! c := credential.Credential_json (Credential_ l) in
  Ok (JObj (field "credential" c ++ field "issuerProof" (j_slice j_bytes (IssuerProof l)))).

Definition IssuanceInput (c : credential.Credential) : result bytes :=
  let! body := wrap (fun e => Errorf "chain: canonicalize issuance: %w" [AErr e])
                 (Marshal (credential.Credential_json c)) in
  Ok (s2b issuanceDomain ++ Byte.x00 :: body).

Definition SignIssuance (issuer : signer.Signer) (c : credential.Credential) : result bytes :=
  check! reject_if (negb (signer.DID issuer =?s credential.Issuer c))
    (Errorf "chain: issuer %q does not match credential issuer %q"
       [AStr (signer.DID issuer); AStr (credential.Issuer c)]);
  let! input := IssuanceInput c in
  signer.Sign issuer input.

Section Verify.
Context {CR : Crypto} (r : did.Resolver).

(** One hop, given the credential of the hop before it. *)
Definition verify_hop (i : Z) (parent : option credential.Credential) (l : Link) : result unit :=
  let c := Credential_ l in
  let! issuerKey := wrap (fun e => Errorf "chain: hop %d: resolve issuer %q: %w"
                            [AInt i; AStr (credential.Issuer c); AErr e]) (did.ResolveKey r (credential.Issuer c)) in
  let! input := wrap (fun e => Errorf "chain: hop %d: %w" [AInt i; AErr e]) (IssuanceInput c) in
  check! reject_if (negb (signer.Verify issuerKey input (elems (IssuerProof l))))
    (Errorf "chain: hop %d: issuance signature invalid for %q" [AInt i; AStr (credential.Subject c)]);
  let! subjectKey := wrap (fun e => Errorf "chain: hop %d: resolve subject %q: %w"
                             [AInt i; AStr (credential.Subject c); AErr e]) (did.ResolveKey r (credential.Subject c)) in
  check! reject_if (bool_decide (credential.HolderKey c = None))
    (Errorf "chain: hop %d: credential has no bound holder key" [AInt i]);
  let! holderKey := wrap (fun e => Errorf "chain: hop %d: parse bound holder key: %w" [AInt i; AErr e])
                      (did.JWK_PublicKey (credential.HolderKey c)) in
  check! reject_if (negb (signer.KeysEqual subjectKey holderKey))
    (Errorf "chain: hop %d: holder key does not match subject %q DID key" [AInt i; AStr (credential.Subject c)]);
  match parent with
  | None => Ok tt
  | Some parent =>
      check! reject_if (negb (credential.Issuer c =?s credential.Subject parent))
        (Errorf "chain: hop %d: continuity broken (issuer %q != parent subject %q)"
           [AInt i; AStr (credential.Issuer c); AStr (credential.Subject parent)]);
      wrap (fun e => Errorf "chain: hop %d: not a valid attenuation of parent: %w" [AInt i; AErr e])
        (macaroon.Extends (credential.Macaroon_ c) (credential.Macaroon_ parent))
  end.

Fixpoint verify_from (i : Z) (parent : option credential.Credential) (links : list Link) : result unit :=
  match links with
  | [] => Ok tt
  | l :: links => check! verify_hop i parent l; verify_from (i + 1) (Some (Credential_ l)) links
  end.

Definition Verify (ch : Chain) : result unit :=
  let links := elems (Links ch) in
  check! reject_if (len links =? 0) (New "chain: empty chain");
  check! reject_if (MaxDepth <? len links)
    (Errorf "chain: depth %d exceeds max delegation depth %d" [AInt (len links); AInt MaxDepth]);
  verify_from 0 None links.
End Verify.

Definition subject (l : Link) : types.DID := credential.Subject (Credential_ l).

(** [Principals]; the nil slice for an empty chain. *)
Definition Principals (ch : Chain) : slice types.DID :=
  match elems (Links ch) with
  | [] => None
  | (l :: _) as links =>
      Some (credential.Issuer (Credential_ l) :: map subject links)
  end.
Definition Root (ch : Chain) : types.DID :=
  match elems (Links ch) with [] => "" | l :: _ => credential.Issuer (Credential_ l) end.
Definition Actor (ch : Chain) : types.DID :=
  match last (elems (Links ch)) with None => "" | Some l => credential.Subject (Credential_ l) end.

(** ** What a verified chain establishes *)

Section Laws.
Context {CR : Crypto} (r : did.Resolver).

(** The facts one hop establishes by itself. *)
Definition hop_ok (l : Link) : Prop :=
  let c := Credential_ l in
  exists ik input sk,
    did.ResolveKey r (credential.Issuer c) = Ok ik
    /\ IssuanceInput c = Ok input /\ signer.Verify ik input (elems (IssuerProof l)) = true
    /\ did.ResolveKey r (credential.Subject c) = Ok sk
    /\ did.JWK_PublicKey (credential.HolderKey c) = Ok sk.

(** The facts about two consecutive hops. *)
Definition step_ok (p l : Link) : Prop :=
  credential.Issuer (Credential_ l) = credential.Subject (Credential_ p)
  /\ macaroon.Extends (credential.Macaroon_ (Credential_ l)) (credential.Macaroon_ (Credential_ p)) = Ok tt.

Lemma KeysEqual_parsed j k : did.JWK_PublicKey j = Ok k -> signer.KeysEqual k k = true.
Proof.
  intros (jwk & Hj & _)%did.JWK_reencode. destruct k as [b|c x y|]; simpl in *; [|rewrite bool_decide_true|]; try done.
  - apply bytes_eqb_refl.
  - by rewrite !Z.eqb_refl.
Qed.

Lemma verify_hop_Ok i parent l :
  verify_hop r i parent l = Ok tt <->
  hop_ok l /\ match parent with
              | None => True
              | Some p => credential.Issuer (Credential_ l) = credential.Subject p
                  /\ macaroon.Extends (credential.Macaroon_ (Credential_ l)) (credential.Macaroon_ p) = Ok tt
              end.
Proof.
  unfold verify_hop, hop_ok. split.
  - intros H. gosimp H. apply signer.KeysEqual_true in Ha5. subst a2.
    split; [by exists a, a0, a1|]. destruct parent as [p|]; [|done]. gosimp H. done.
  - intros [(ik & input & sk & E1 & E2 & E3 & E4 & E5) Hp]. rewrite E1, E2, E4, E5.
    assert (Hne : credential.HolderKey (Credential_ l) <> None) by (intros Hn; by rewrite Hn in E5).
    rewrite (bool_decide_false _ Hne). cbn [wrap rbind]. rewrite E3, (KeysEqual_parsed _ _ E5). cbn [negb reject_if rbind].
    destruct parent as [p|]; [|done]. destruct Hp as [Hi He]. rewrite Hi, str_eqb_refl, He. done.
Qed.

Fixpoint linked (parent : option Link) (links : list Link) : Prop :=
  match links with
  | [] => True
  | l :: links => match parent with None => True | Some p => step_ok p l end /\ linked (Some l) links
  end.

Lemma verify_from_Ok i parent links :
  verify_from r i (Credential_ <$> parent) links = Ok tt <-> Forall hop_ok links /\ linked parent links.
Proof.
  revert i parent. induction links as [|l links IH]; intros i parent; simpl; [naive_solver|].
  rewrite rbind_Ok, Forall_cons. specialize (IH (i + 1) (Some l)). simpl in IH.
  assert (Hh : verify_hop r i (Credential_ <$> parent) l = Ok tt <->
               hop_ok l /\ match parent with None => True | Some p => step_ok p l end).
  { rewrite verify_hop_Ok. by destruct parent. }
  split.
  - intros ([] & H1 & H2). apply Hh in H1. apply IH in H2. tauto.
  - intros H. exists tt. rewrite Hh, IH. tauto.
Qed.

Lemma chain_Ok ch :
  Verify r ch = Ok tt <->
  elems (Links ch) <> [] /\ len (elems (Links ch)) <= MaxDepth
  /\ Forall hop_ok (elems (Links ch)) /\ linked None (elems (Links ch)).
Proof.
  unfold Verify. split.
  - intros H. gosimp H. apply Z.eqb_neq in Ha. rewrite len_zero in Ha. apply Z.ltb_ge in Ha0.
    apply (verify_from_Ok 0 None) in H. tauto.
  - intros (Hne & Hd & Hh). rewrite <- len_zero in Hne. apply Z.eqb_neq in Hne. rewrite Hne.
    apply Z.ltb_ge in Hd. rewrite Hd. simpl. by apply (verify_from_Ok 0 None).
Qed.

Lemma linked_app parent l1 l2 :
  linked parent (l1 ++ l2) <->
  linked parent l1 /\ linked (match last l1 with Some l => Some l | None => parent end) l2.
Proof.
  revert parent. induction l1 as [|l l1 IH]; intros parent; [simpl; tauto|].
  cbn [app linked]. rewrite IH. destruct l1 as [|x l1]; [simpl; tauto|].
  change (last (l :: x :: l1)) with (last (x :: l1)).
  destruct (last (x :: l1)) eqn:E; [tauto|]. by apply last_None in E.
Qed.

Lemma linked_step parent links i p l :
  linked parent links -> links !! i = Some p -> links !! S i = Some l -> step_ok p l.
Proof.
  revert parent i. induction links as [|x links IH]; intros parent i; [done|].
  intros [_ Hl] Hp Hn. destruct i as [|i]; [|by eapply IH].
  simpl in *. injection Hp as ->. destruct links as [|y links]; [done|]. simpl in *. injection Hn as ->. tauto.
Qed.

(** Authority along the chain: each hop's caveats imply those of every hop above it. *)
Lemma linked_extends parent links i j p l :
  linked parent links -> links !! i = Some p -> links !! j = Some l -> (i < j)%nat ->
  macaroon.Extends (credential.Macaroon_ (Credential_ l)) (credential.Macaroon_ (Credential_ p)) = Ok tt.
Proof.
  intros Hl Hi. revert l. induction j as [|j IH]; intros l Hj Hij; [lia|].
  assert (is_Some (links !! j)) as [q Hq].
  { apply lookup_lt_is_Some. apply lookup_lt_Some in Hj. lia. }
  pose proof (linked_step _ _ _ _ _ Hl Hq Hj) as [_ He].
  destruct (decide (i = j)) as [->|]; [congruence|].
  eapply macaroon.Extends_compose; [exact He|]. apply IH; [done|lia].
Qed.

Lemma linked_Satisfies parent links n h l ctx :
  linked parent links -> last links = Some l -> links !! n = Some h ->
  macaroon.Satisfies (credential.Macaroon_ (Credential_ l)) ctx = Ok tt ->
  macaroon.Satisfies (credential.Macaroon_ (Credential_ h)) ctx = Ok tt.
Proof.
  intros Hl He Hn Hs. rewrite last_lookup in He.
  destruct (decide (n = pred (length links))) as [->|]; [congruence|].
  eapply macaroon.Extends_Satisfies; [|exact Hs].
  eapply (linked_extends _ _ n); [done..|]. apply lookup_lt_Some in Hn. lia.
Qed.
End Laws.

Lemma last_cons_map {A B} (f : A -> B) x a l :
  last (x :: map f (a :: l)) = f <$> last (a :: l).
Proof. revert x a. induction l as [|b l IH]; intros x a; [done|]. exact (IH (f a) b). Qed.

Lemma Principals_ends {CR : Crypto} r ch ps :
  Verify r ch = Ok tt -> Principals ch = Some ps ->
  hd_error ps = Some (Root ch) /\ last ps = Some (Actor ch).
Proof.
  intros (Hne & _)%chain_Ok. unfold Principals, Root, Actor.
  destruct (elems (Links ch)) as [|l0 links]; [done|]. intros [= <-]. split; [done|].
  etransitivity; [exact (last_cons_map subject _ l0 links)|].
  by destruct (last (l0 :: links)) eqn:El; [|by apply last_None in El].
Qed.

(** C40: a chain that verifies has between one and eight hops; every hop is
    signed by its issuer's published key and bound to its subject's published
    key; each hop is issued by the subject of the one above it; and what a hop's
    macaroon permits, the macaroon of every hop above it permits. *)
Theorem verified_chain {CR : Crypto} r ch :
  Verify r ch = Ok tt ->
  1 <= len (elems (Links ch)) <= MaxDepth /\ Forall (hop_ok r) (elems (Links ch))
  /\ forall i j p l, elems (Links ch) !! i = Some p -> elems (Links ch) !! j = Some l -> (i < j)%nat ->
       (j = S i -> credential.Issuer (Credential_ l) = credential.Subject (Credential_ p))
       /\ forall ctx, macaroon.Satisfies (credential.Macaroon_ (Credential_ l)) ctx = Ok tt ->
                      macaroon.Satisfies (credential.Macaroon_ (Credential_ p)) ctx = Ok tt.
Proof.
  intros (Hne & Hd & Hh & Hl)%chain_Ok. split_and!.
  - rewrite <- len_zero in Hne. pose proof (len_nonneg (elems (Links ch))). lia.
  - done.
  - done.
  - intros i j p l Hi Hj Hij. split.
    + intros ->. by eapply linked_step.
    + intros ctx. eapply macaroon.Extends_Satisfies, linked_extends; done.
Qed.

(** the prefixes of a verified chain verify: removing hops at the end
    leaves a chain that ends in an earlier delegate. *)
Theorem verified_prefix {CR : Crypto} r ch n :
  Verify r ch = Ok tt -> (0 < n)%nat -> Verify r (mkChain (Some (take n (elems (Links ch))))) = Ok tt.
Proof.
  intros (Hne & Hd & Hh & Hl)%chain_Ok Hn. apply chain_Ok. simpl. split_and!.
  - destruct (elems (Links ch)); [done|]. by destruct n; [lia|].
  - unfold len in *. rewrite length_take. lia.
  - by apply Forall_take.
  - rewrite <- (take_drop n (elems (Links ch))) in Hl. by apply linked_app in Hl as [? _].
Qed.

(** delegation is complete: a verified chain of fewer than eight hops,
    extended by a credential that its actor issues and signs with its published
    key, that narrows the actor's macaroon and is bound to the published key of
    its subject, verifies; and its new actor is that subject. *)
Theorem delegation_verifies {CR : Crypto} r ch p c (issuer : signer.Signer) {HS : signer.Sound issuer} sig sk :
  Verify r ch = Ok tt -> last (elems (Links ch)) = Some p -> len (elems (Links ch)) < MaxDepth ->
  credential.Issuer c = credential.Subject (Credential_ p) ->
  SignIssuance issuer c = Ok sig -> did.ResolveKey r (credential.Issuer c) = Ok (signer.Public issuer) ->
  did.ResolveKey r (credential.Subject c) = Ok sk -> did.JWK_PublicKey (credential.HolderKey c) = Ok sk ->
  macaroon.Extends (credential.Macaroon_ c) (credential.Macaroon_ (Credential_ p)) = Ok tt ->
  let ch' := mkChain (Some (elems (Links ch) ++ [mkLink c (Some sig)])) in
  Verify r ch' = Ok tt /\ Actor ch' = credential.Subject c /\ Root ch' = Root ch.
Proof.
  intros (Hne & Hd & Hh & Hl)%chain_Ok Hp Hlen Hi Hsig Hik Hsk Hj He ch'. split_and!.
  - apply chain_Ok. simpl. split_and!.
    + by destruct (elems (Links ch)).
    + rewrite len_app. change (len [_]) with 1. lia.
    + apply Forall_app. split; [done|]. apply Forall_singleton.
      unfold SignIssuance in Hsig. gosimp Hsig. exists (signer.Public issuer), a, sk. split_and!; try done.
      by apply (signer.sound (s := issuer)).
    + apply linked_app. split; [done|]. rewrite Hp. simpl. done.
  - unfold Actor. simpl. by rewrite last_snoc.
  - unfold Root. simpl. destruct (elems (Links ch)); [done|]. done.
Qed.

(** the principals of a chain are its root and then the subject of each
    hop; in a verified chain consecutive principals are the issuer and the
    subject of a hop, so the list is the line of delegation. *)
Theorem principals_line {CR : Crypto} r ch ps :
  Verify r ch = Ok tt -> Principals ch = Some ps ->
  len ps = len (elems (Links ch)) + 1 /\ hd_error ps = Some (Root ch) /\ last ps = Some (Actor ch)
  /\ forall i l, elems (Links ch) !! i = Some l ->
       ps !! i = Some (credential.Issuer (Credential_ l)) /\ ps !! S i = Some (credential.Subject (Credential_ l)).
Proof.
  intros Hv Hp. destruct (Principals_ends _ _ _ Hv Hp) as [Hh Ht].
  apply chain_Ok in Hv as (Hne & _ & _ & Hl). rewrite Hh, Ht. revert Hp. clear Hh Ht. unfold Principals.
  destruct (elems (Links ch)) as [|l0 links] eqn:E; [done|]. intros [= <-]. split_and!; [|done..|].
  - rewrite len_cons, (len_cons l0). unfold len. simpl. rewrite length_map. lia.
  - intros i l Hi. split.
    + destruct i as [|i]; [simpl in Hi; by simplify_eq|].
      assert (is_Some ((l0 :: links) !! i)) as [q Hq].
      { apply lookup_lt_is_Some. apply lookup_lt_Some in Hi. simpl in *. lia. }
      pose proof (linked_step _ _ _ _ _ Hl Hq Hi) as [-> _].
      etransitivity; [exact (list_lookup_fmap subject (l0 :: links) i)|]. by rewrite Hq.
    + etransitivity; [exact (list_lookup_fmap subject (l0 :: links) i)|]. by rewrite Hi.
Qed.

(** an issuance signature covers the whole credential.  When the signed
    bytes of an issued credential whose strings are valid UTF-8 are also those
    of a presented one, the two agree on subject, issuer, macaroon, status
    reference and holder key, and on the presence and the encoding of the
    wrapper: no field can be edited, added or dropped under the signature. *)
Theorem issuance_binds c1 c2 b :
  credential.valid_credential c1 = true ->
  IssuanceInput c1 = Ok b -> IssuanceInput c2 = Ok b ->
  credential.Subject c1 = credential.Subject c2 /\ credential.Issuer c1 = credential.Issuer c2
  /\ credential.Macaroon_ c1 = credential.Macaroon_ c2 /\ credential.StatusRef c1 = credential.StatusRef c2
  /\ credential.HolderKey c1 = credential.HolderKey c2
  /\ match credential.VCWrapper c1, credential.VCWrapper c2 with
     | None, None => True
     | Some w1, Some w2 => Marshal (vc.VC_json w1) = Marshal (vc.VC_json w2)
     | _, _ => False
     end.
Proof.
  intros Hv H1 H2. unfold IssuanceInput in H1, H2. gosimp H1. gosimp H2.
  apply Ok_inj in H1, H2. subst b. apply app_inv_head, cons_tail in H2. subst a0.
  destruct (credential.Credential_json_front c1 c2 a Hv Ha Ha0) as [Hf Hw].
  apply credential.Credential_fields_inj in Hf. tauto.
Qed.

(** ** A concrete chain *)

#[local] Instance accepting : Crypto :=
  {| ed25519_Verify := fun k _ sig => bool_decide (head k = head sig); ecdsa_VerifyASN1 := fun _ _ _ _ => false;
     p256_NewPublicKey_ok := fun _ => false |}.
Definition test_key (b : Byte.byte) : PublicKey := Ed25519Key (repeat b 32).
Definition test_jwk (b : Byte.byte) : did.JWK := did.mkJWK "OKP" "Ed25519" (RawURLEncoding (repeat b 32)) "".
Definition test_doc (d : types.DID) (b : Byte.byte) : did.Document :=
  did.mkDocument [] d [did.mkVM (d +:+ "#key-1") "JsonWebKey2020" d (Some (test_jwk b))] [] [].
Definition org : types.DID := "did:web:org.example".
Definition agent : types.DID := "did:web:agent.example".
Definition helper : types.DID := "did:web:helper.example".
Definition test_resolver : did.Resolver := fun d =>
  if d =?s org then Ok (Some (test_doc org Byte.x01))
  else if d =?s agent then Ok (Some (test_doc agent Byte.x02))
  else if d =?s helper then Ok (Some (test_doc helper Byte.x03))
  else Err (New "no such document").
Definition test_credential (iss sub : types.DID) (b : Byte.byte) (cs : list macaroon.Caveat) : credential.Credential :=
  credential.mkCredential sub iss (macaroon.mkMacaroon "kessa" "cred-1" (Some cs) (Some [Byte.x01]))
    (status.mkReference "https://org.example/status.json" 7 "") (Some (test_jwk b)) None.
Definition cap (v : string) : macaroon.Caveat := macaroon.mkCaveat "amount" macaroon.OpLe v.
Definition link1 : Link := mkLink (test_credential org agent Byte.x02 [cap "100"]) (Some [Byte.x01]).
Definition link2 : Link := mkLink (test_credential agent helper Byte.x03 [cap "100"; cap "50"]) (Some [Byte.x02]).
Definition test_chain1 : Chain := mkChain (Some [link1]).
Definition test_chain : Chain := mkChain (Some [link1; link2]).
Definition test_agent : signer.Signer := signer.mkSigner agent (test_key Byte.x02) (fun _ => Ok [Byte.x02]).
#[local] Instance test_agent_sound : signer.Sound test_agent.
Proof. intros data sig [= <-]. reflexivity. Qed.

Definition issued_input : bytes :=
  Eval vm_compute in match IssuanceInput (Credential_ link1) with Ok b => b | Err _ => [] end.

Lemma issuance_binds_witness :
  credential.Subject (Credential_ link1) = credential.Subject (Credential_ link1).
Proof.
  apply (issuance_binds (Credential_ link1) (Credential_ link1) issued_input); vm_compute; reflexivity.
Defined.

Lemma verified_chain_witness : 1 <= len (elems (Links test_chain)) <= MaxDepth.
Proof. apply (verified_chain test_resolver test_chain). vm_compute. reflexivity. Defined.

Lemma verified_prefix_witness : Verify test_resolver test_chain1 = Ok tt.
Proof. apply (verified_prefix test_resolver test_chain 1); [vm_compute; reflexivity|lia]. Defined.

Lemma delegation_verifies_witness :
  Verify test_resolver test_chain = Ok tt /\ Actor test_chain = helper /\ Root test_chain = Root test_chain1.
Proof.
  apply (delegation_verifies test_resolver test_chain1 link1 (Credential_ link2) test_agent [Byte.x02] (test_key Byte.x03)).
  all: first [reflexivity|vm_compute; reflexivity].
Defined.

Lemma principals_line_witness :
  len [org; agent; helper] = len (elems (Links test_chain)) + 1
  /\ hd_error [org; agent; helper] = Some (Root test_chain) /\ last [org; agent; helper] = Some (Actor test_chain)
  /\ forall i l, elems (Links test_chain) !! i = Some l ->
       [org; agent; helper] !! i = Some (credential.Issuer (Credential_ l))
       /\ [org; agent; helper] !! S i = Some (credential.Subject (Credential_ l)).
Proof. apply (principals_line test_resolver test_chain [org; agent; helper]); vm_compute; reflexivity. Defined.

End chain.
