(* ===== verification/AuditLog.v ===== *)
(** internal/audit: the append-only, hash-chained, signed log, its
    verification, and human approvals bound to a position of it. *)
From S2P Require Import Prelude GoFmt GoTime GoCrypto GoJson GoJsonText GoJsonInj Types Signer.

Module audit.

Definition ExportVersion : string := "kessa-audit-export/v1".
Definition hashDomain : string := "kessa/audit-entry/v2".
Definition sigDomain : string := "kessa/audit-sig/v1".
Definition approvalDomain : string := "kessa/action-approval/v2".
Definition GenesisHash : bytes := repeat Byte.x00 32.

Record Entry := mkEntry
  { Seq : Z; PrevHash : slice Byte.byte; Action : types.Action; ResolvedChain : slice types.DID;
    ChainCredentialIDs : list string; Decision : types.Decision; PolicyID : string;
    PoPNonce : bytes; PoPSignature : bytes; ApprovedBy : types.DID; Approval : bytes;
    Timestamp : time; EntryHash : bytes; Signature : bytes }.
Record Export := mkExport { Version : string; Signer : types.DID; Entries_ : list Entry }.
Record EntryDraft := mkDraft
  { d_Action : types.Action; d_ResolvedChain : slice types.DID; d_ChainCredentialIDs : list string;
    d_Decision : types.Decision; d_PolicyID : string; d_PoPNonce : bytes; d_PoPSignature : bytes;
    d_ApprovedBy : types.DID; d_Approval : bytes; d_Timestamp : time }.
Record Log := mkLog { log_signer : signer.Signer; entries : list Entry }.

#[global] Instance Entry_eq_dec : EqDecision Entry.
Proof. solve_decision. Defined.

(** ** Hashing and signing *)

Definition strings_field_omit (k : string) (l : list string) : list (string * json) :=
  omit_if (bool_decide (l = [])) k (j_strings l).

Definition Entry_json (e : Entry) : result json :=
  let! action := types.Action_json (Action e) in
  let! ts := j_time (Timestamp e) in
  Ok (JObj (field "seq" (JInt (Seq e)) ++ field "prevHash" (j_slice j_bytes (PrevHash e))
            ++ field "action" action ++ field "resolvedChain" (j_slice j_strings (ResolvedChain e))
            ++ strings_field_omit "chainCredentialIDs" (ChainCredentialIDs e)
            ++ field "decision" (types.Decision_json (Decision e))
            ++ str_field_omit "policyID" (PolicyID e) ++ bytes_field_omit "popNonce" (PoPNonce e)
            ++ bytes_field_omit "popSignature" (PoPSignature e) ++ str_field_omit "approvedBy" (ApprovedBy e)
            ++ bytes_field_omit "approval" (Approval e) ++ field "timestamp" ts
            ++ bytes_field_omit "entryHash" (EntryHash e) ++ bytes_field_omit "signature" (Signature e))).

(** The entry as it is hashed: hash and signature cleared. *)
Definition unsealed (e : Entry) : Entry :=
  mkEntry (Seq e) (PrevHash e) (Action e) (ResolvedChain e) (ChainCredentialIDs e) (Decision e) (PolicyID e)
    (PoPNonce e) (PoPSignature e) (ApprovedBy e) (Approval e) (Timestamp e) [] [].

Definition hashInput (e : Entry) : result bytes :=
  let! body := wrap (fun err => Errorf "audit: canonicalize entry %d: %w" [AInt (Seq e); AErr err])
                 (Marshal (Entry_json (unsealed e))) in
  Ok (s2b hashDomain ++ Byte.x00 :: body).
Definition entryHash (e : Entry) : result bytes :=
  let! input := hashInput e in Ok (sha256.Sum256 input).

Definition sigInput (entryHash : bytes) : bytes := s2b sigDomain ++ Byte.x00 :: entryHash.

(** ** The log *)

Definition NewLog (s : signer.Signer) : Log := mkLog s [].

Definition Tip (l : Log) : Z * bytes :=
  match last (entries l) with
  | Some e => (len (entries l), EntryHash e)
  | None => (0, GenesisHash)
  end.

Definition set_hash (e : Entry) (h : bytes) : Entry :=
  mkEntry (Seq e) (PrevHash e) (Action e) (ResolvedChain e) (ChainCredentialIDs e) (Decision e) (PolicyID e)
    (PoPNonce e) (PoPSignature e) (ApprovedBy e) (Approval e) (Timestamp e) h (Signature e).
Definition set_signature (e : Entry) (s : bytes) : Entry :=
  mkEntry (Seq e) (PrevHash e) (Action e) (ResolvedChain e) (ChainCredentialIDs e) (Decision e) (PolicyID e)
    (PoPNonce e) (PoPSignature e) (ApprovedBy e) (Approval e) (Timestamp e) (EntryHash e) s.

Definition of_draft (seq : Z) (prev : bytes) (r : EntryDraft) : Entry :=
  mkEntry seq (Some prev) (d_Action r) (d_ResolvedChain r) (d_ChainCredentialIDs r) (d_Decision r) (d_PolicyID r)
    (d_PoPNonce r) (d_PoPSignature r) (d_ApprovedBy r) (d_Approval r) (d_Timestamp r) [] [].

Definition Seal (l : Log) (r : EntryDraft) : result Entry :=
  let '(seq, prev) := Tip l in
  let e := of_draft seq prev r in
  let! hash := entryHash e in
  let e := set_hash e hash in
  let! sig := wrap (fun err => Errorf "audit: sign entry %d: %w" [AInt (Seq e); AErr err])
                (signer.Sign (log_signer l) (sigInput hash)) in
  Ok (set_signature e sig).

Definition Commit (l : Log) (e : Entry) : result Log :=
  let '(seq, prev) := Tip l in
  check! reject_if (negb (Seq e =? seq) || negb (elems (PrevHash e) =?b prev))
    (Errorf "audit: commit entry seq %d does not match current tip seq %d (concurrent append or stale seal)"
       [AInt (Seq e); AInt seq]);
  Ok (mkLog (log_signer l) (entries l ++ [e])).

Definition Append (l : Log) (r : EntryDraft) : result (Log * Entry) :=
  let! e := Seal l r in
  let! l' := Commit l e in
  Ok (l', e).

Definition Entries (l : Log) : list Entry := entries l.

Definition Log_Export (l : Log) : Export := mkExport ExportVersion (signer.DID (log_signer l)) (entries l).

(** ** Verification

    [None] is the pair of index -1 and a nil error. *)
Section Verify.
Context {CR : Crypto} (pub : PublicKey).

Definition verify_entry (i : Z) (prev : bytes) (e : Entry) : result unit :=
  check! reject_if (negb (Seq e =? i))
    (Errorf "audit: entry %d has out-of-order seq %d" [AInt i; AInt (Seq e)]);
  check! reject_if (negb (elems (PrevHash e) =?b prev))
    (Errorf "audit: entry %d prevHash does not link to entry %d" [AInt i; AInt (i - 1)]);
  let! want := entryHash e in
  check! reject_if (negb (want =?b EntryHash e))
    (Errorf "audit: entry %d hash mismatch (tampered content)" [AInt i]);
  reject_if (negb (signer.Verify pub (sigInput (EntryHash e)) (Signature e)))
    (Errorf "audit: entry %d signature invalid" [AInt i]).

Fixpoint verify_from (i : Z) (prev : bytes) (es : list Entry) : option (Z * error) :=
  match es with
  | [] => None
  | e :: es =>
      match verify_entry i prev e with
      | Err err => Some (i, err)
      | Ok _ => verify_from (i + 1) (EntryHash e) es
      end
  end.
Definition VerifyEntries (es : list Entry) : option (Z * error) := verify_from 0 GenesisHash es.

Definition VerifyChain (exp : Export) : option (Z * error) :=
  if negb (Version exp =?s ExportVersion)
  then Some (0, Errorf "audit: unsupported export version %q" [AStr (Version exp)])
  else VerifyEntries (Entries_ exp).
End Verify.

Definition LoadLog {CR : Crypto} (s : signer.Signer) (es : list Entry) : result Log :=
  match VerifyEntries (signer.Public s) es with
  | Some (fi, err) => Err (Errorf "audit: recover: entry %d failed verification: %w" [AInt fi; AErr err])
  | None => Ok (mkLog s es)
  end.

(** ** Human approvals *)

Definition ApprovalInput (actor : types.DID) (a : types.Action) (seq : Z) (prevHash : bytes) : result bytes :=
  let! body := wrap (fun e => Errorf "audit: canonicalize action for approval: %w" [AErr e])
                 (Marshal (types.Action_json a)) in
  Ok (s2b approvalDomain ++ Byte.x00 :: s2b actor ++ Byte.x00 :: body ++ Byte.x00 :: be64 seq
      ++ Byte.x00 :: prevHash).

Definition SignApproval (human : signer.Signer) (actor : types.DID) (a : types.Action) (seq : Z) (prevHash : bytes)
  : result bytes :=
  let! input := ApprovalInput actor a seq prevHash in signer.Sign human input.

Definition VerifyApproval {CR : Crypto} (pub : PublicKey) (actor : types.DID) (a : types.Action) (seq : Z)
  (prevHash : bytes) (sig : bytes) : result unit :=
  let! input := ApprovalInput actor a seq prevHash in
  reject_if (negb (signer.Verify pub input sig))
    (Errorf "audit: approval signature is invalid for actor %q" [AStr actor]).

(** ** Checking a log *)

Section Laws.
Context {CR : Crypto}.

Definition last_hash (prev : bytes) (es : list Entry) : bytes :=
  match last es with Some e => EntryHash e | None => prev end.

Lemma last_hash_snoc prev es e : last_hash prev (es ++ [e]) = EntryHash e.
Proof. unfold last_hash. by rewrite last_snoc. Qed.

Lemma last_hash_cons prev e es : last_hash prev (e :: es) = last_hash (EntryHash e) es.
Proof.
  unfold last_hash. destruct es as [|x es]; [done|]. change (last (e :: x :: es)) with (last (x :: es)).
  destruct (last (x :: es)) eqn:E; [done|]. by apply last_None in E.
Qed.

Lemma Tip_last_hash l : Tip l = (len (entries l), last_hash GenesisHash (entries l)).
Proof.
  unfold Tip, last_hash. destruct (last (entries l)) eqn:E; [done|]. apply last_None in E. by rewrite E.
Qed.

Lemma verify_from_app pub i prev l1 l2 :
  verify_from pub i prev (l1 ++ l2) =
  match verify_from pub i prev l1 with
  | None => verify_from pub (i + len l1) (last_hash prev l1) l2
  | f => f
  end.
Proof.
  revert i prev. induction l1 as [|e l1 IH]; intros i prev; cbn [app verify_from].
  { by rewrite Z.add_0_r. }
  destruct (verify_entry pub i prev e); [|done]. rewrite IH, last_hash_cons, len_cons.
  by replace (i + 1 + len l1) with (i + (len l1 + 1)) by lia.
Qed.

Lemma verify_from_snoc pub i prev l e :
  verify_from pub i prev (l ++ [e]) = None <->
  verify_from pub i prev l = None /\ verify_entry pub (i + len l) (last_hash prev l) e = Ok tt.
Proof.
  rewrite verify_from_app. destruct (verify_from pub i prev l); [naive_solver|]. simpl.
  destruct (verify_entry _ _ _ e) as [[]|]; naive_solver.
Qed.

Lemma verify_entry_Ok pub i prev e :
  verify_entry pub i prev e = Ok tt <->
  Seq e = i /\ elems (PrevHash e) = prev
  /\ entryHash e = Ok (EntryHash e) /\ signer.Verify pub (sigInput (EntryHash e)) (Signature e) = true.
Proof.
  unfold verify_entry. split.
  - intros H. gosimp H. apply Z.eqb_eq in Ha. subst. done.
  - intros (<- & <- & -> & Hv). rewrite Z.eqb_refl, bytes_eqb_refl. simpl. by rewrite bytes_eqb_refl, Hv.
Qed.

(** The hash does not depend on the hash and signature fields. *)
Lemma entryHash_length e h : entryHash e = Ok h -> length h = 32%nat.
Proof. unfold entryHash. intros H. gosimp H. apply Ok_inj in H as <-. apply sha256.length_Sum256. Qed.

Lemma tip_length pub es : VerifyEntries pub es = None -> length (last_hash GenesisHash es) = 32%nat.
Proof.
  unfold VerifyEntries. destruct es as [|e es _] using rev_ind; [done|]. rewrite verify_from_snoc, last_hash_snoc.
  intros [_ (_ & _ & H & _)%verify_entry_Ok]. by apply entryHash_length in H.
Qed.

Lemma entryHash_unsealed e e' : unsealed e = unsealed e' -> Seq e = Seq e' -> entryHash e = entryHash e'.
Proof. unfold entryHash, hashInput. by intros -> ->. Qed.

Lemma Seal_Ok l r e :
  Seal l r = Ok e ->
  unsealed e = of_draft (len (entries l)) (last_hash GenesisHash (entries l)) r
  /\ Seq e = len (entries l) /\ elems (PrevHash e) = last_hash GenesisHash (entries l)
  /\ entryHash e = Ok (EntryHash e) /\ signer.Sign (log_signer l) (sigInput (EntryHash e)) = Ok (Signature e).
Proof.
  unfold Seal. rewrite Tip_last_hash. intros H. gosimp H. apply Ok_inj in H. subst e. by split_and!.
Qed.

Lemma Commit_Ok l e l' :
  Commit l e = Ok l' <->
  Seq e = len (entries l) /\ elems (PrevHash e) = last_hash GenesisHash (entries l)
  /\ l' = mkLog (log_signer l) (entries l ++ [e]).
Proof.
  unfold Commit. rewrite Tip_last_hash. split.
  - intros H. gosimp H. destruct Ha as [Hs Hp]. apply Z.eqb_eq in Hs. apply Ok_inj in H. done.
  - intros (Hs & Hp & ->). rewrite Hs, Z.eqb_refl, Hp, bytes_eqb_refl. done.
Qed.

(** The logs one signer writes: entries sealed against the tip and committed,
    with anything (or nothing) between the two. *)
Inductive written (s : signer.Signer) : Log -> Prop :=
| written_new : written s (NewLog s)
| written_step l r e l' : written s l -> Seal l r = Ok e -> Commit l e = Ok l' -> written s l'.

Lemma written_signer s l : written s l -> log_signer l = s.
Proof. induction 1 as [|l r e l' _ IH _ Hc]; [done|]. by apply Commit_Ok in Hc as (_ & _ & ->). Qed.

Lemma sealed_verifies (s : signer.Signer) {HS : signer.Sound s} l r e :
  log_signer l = s -> Seal l r = Ok e ->
  verify_entry (signer.Public s) (len (entries l)) (last_hash GenesisHash (entries l)) e = Ok tt.
Proof.
  intros <- (_ & Hs & Hp & Hh & Hsig)%Seal_Ok. apply verify_entry_Ok. split_and!; try done.
  by apply (signer.sound (s := log_signer l)).
Qed.

Lemma written_verifies (s : signer.Signer) {HS : signer.Sound s} l :
  written s l -> VerifyEntries (signer.Public s) (entries l) = None.
Proof.
  induction 1 as [|l r e l' Hw IH Hs Hc]; [done|]. pose proof (written_signer _ _ Hw) as Hl.
  apply Commit_Ok in Hc as (_ & _ & ->). simpl. apply verify_from_snoc. split; [done|].
  rewrite Z.add_0_l. by eapply sealed_verifies.
Qed.

(** C37: every log its signer writes by sealing and committing verifies under
    the signer's key, and loading its entries after a restart gives back the
    very same log, so writing resumes in the same slot. *)
Theorem written_log_verifies (s : signer.Signer) {HS : signer.Sound s} l :
  written s l ->
  VerifyEntries (signer.Public s) (Entries l) = None
  /\ VerifyChain (signer.Public s) (Log_Export l) = None
  /\ LoadLog s (Entries l) = Ok l.
Proof.
  intros Hw. pose proof (written_verifies s l Hw) as Hv. unfold VerifyChain, LoadLog, Entries, Log_Export. simpl.
  rewrite Hv. split_and!; try done. rewrite <- (written_signer _ _ Hw). by destruct l.
Qed.

(** sealing commits nothing and the sealed entry fits its slot: it can be
    committed exactly once, and no entry is committed to a log that has moved
    on; what is committed is the draft, with position, hash and signature
    filled in. *)
Theorem seal_commit l r e :
  Seal l r = Ok e ->
  Commit l e = Ok (mkLog (log_signer l) (entries l ++ [e]))
  /\ unsealed e = of_draft (len (entries l)) (last_hash GenesisHash (entries l)) r
  /\ forall l', len (entries l') <> len (entries l) -> is_ok (Commit l' e) = false.
Proof.
  intros (Hu & Hs & Hp & _)%Seal_Ok. split_and!; [by apply Commit_Ok|done|].
  intros l' Hne. apply not_true_iff_false. intros (x & Hx)%is_ok_true.
  apply Commit_Ok in Hx as (Hs' & _). congruence.
Qed.

Lemma verify_from_first pub fi err es i prev :
  verify_from pub i prev es = Some (fi, err) ->
  i <= fi < i + len es /\ verify_from pub i prev (take (Z.to_nat (fi - i)) es) = None
  /\ forall n, (Z.to_nat (fi - i) < n)%nat -> verify_from pub i prev (take n es) <> None.
Proof.
  revert i prev. induction es as [|e es IH]; intros i prev H; [done|]. cbn [verify_from] in H.
  destruct (verify_entry pub i prev e) as [[]|er] eqn:E.
  - apply IH in H as (Hr & Ht & Hn). rewrite len_cons. split; [lia|].
    replace (Z.to_nat (fi - i)) with (S (Z.to_nat (fi - (i + 1)))) by lia. cbn [take verify_from]. rewrite E.
    split; [done|]. intros [|n] Hlt; [lia|]. cbn [take verify_from]. rewrite E. apply Hn. lia.
  - injection H as -> ->. rewrite Z.sub_diag, len_cons. pose proof (len_nonneg es). split_and!; [lia|lia|done|].
    intros [|n] Hlt; [lia|]. cbn [take verify_from]. by rewrite E.
Qed.

Lemma fail_index_range pub es fi err : VerifyEntries pub es = Some (fi, err) -> 0 <= fi < len es.
Proof. intros (Hr & _)%verify_from_first. lia. Qed.

(** verification fails at the first entry that does not belong: everything
    before the reported index verifies, and nothing longer does. *)
Theorem fail_index_first pub es fi err :
  VerifyEntries pub es = Some (fi, err) ->
  0 <= fi < len es /\ VerifyEntries pub (take (Z.to_nat fi) es) = None
  /\ forall n, (Z.to_nat fi < n)%nat -> VerifyEntries pub (take n es) <> None.
Proof. intros H. apply verify_from_first in H. by rewrite Z.sub_0_r in H. Qed.
End Laws.

(** ** What an entry's hash covers *)

Definition same_content (e1 e2 : Entry) : Prop :=
  Seq e1 = Seq e2 /\ PrevHash e1 = PrevHash e2 /\ types.same_action (Action e1) (Action e2)
  /\ ResolvedChain e1 = ResolvedChain e2 /\ ChainCredentialIDs e1 = ChainCredentialIDs e2
  /\ Decision e1 = Decision e2 /\ PolicyID e1 = PolicyID e2 /\ PoPNonce e1 = PoPNonce e2
  /\ PoPSignature e1 = PoPSignature e2 /\ ApprovedBy e1 = ApprovedBy e2 /\ Approval e1 = Approval e2
  /\ format_RFC3339Nano (Timestamp e1) = format_RFC3339Nano (Timestamp e2).

(** The strings of an entry, all valid UTF-8. *)
Definition valid_entry (e : Entry) : bool :=
  types.valid_action (Action e) && forallb valid_utf8 (elems (ResolvedChain e))
  && forallb valid_utf8 (ChainCredentialIDs e) && valid_utf8 (types.RuleFired (Decision e))
  && valid_utf8 (types.PolicyVersion (Decision e)) && valid_utf8 (types.Reason (Decision e))
  && valid_utf8 (PolicyID e) && valid_utf8 (ApprovedBy e).

Lemma Decision_json_inj d1 d2 : types.Decision_json d1 = types.Decision_json d2 -> d1 = d2.
Proof. destruct d1, d2. unfold types.Decision_json, field. simpl. intros H. injection H. congruence. Qed.

Lemma Entry_json_inj e1 e2 j : Entry_json e1 = Ok j -> Entry_json e2 = Ok j -> same_content e1 e2.
Proof.
  unfold Entry_json.
  intros (a1 & Ha1 & (t1 & ->%j_time_str & H1)%rbind_Ok)%rbind_Ok (a2 & Ha2 & (t2 & ->%j_time_str & H2)%rbind_Ok)%rbind_Ok.
  apply Ok_inj in H1, H2. rewrite <- H2 in H1. clear H2 j. pose proof (JObj_inj _ _ H1) as Hm. clear H1.
  unfold strings_field_omit, str_field_omit, bytes_field_omit in Hm.
  split_and!.
  - by_member Hm "seq"%string. congruence.
  - by_member Hm "prevHash"%string. apply (inj Some) in Hf. apply j_slice_inj in Hf; [done|apply j_bytes_inj|done].
  - by_member Hm "action"%string. eapply types.Action_json_inj; [exact Ha1|congruence].
  - by_member Hm "resolvedChain"%string. apply (inj Some) in Hf. apply j_slice_inj in Hf; [done|apply j_strings_inj|done].
  - by_member Hm "chainCredentialIDs"%string. by apply omitted_strings.
  - by_member Hm "decision"%string. by apply (inj Some), Decision_json_inj in Hf.
  - by_member Hm "policyID"%string. by apply omitted_str.
  - by_member Hm "popNonce"%string. by apply omitted_bytes.
  - by_member Hm "popSignature"%string. by apply omitted_bytes.
  - by_member Hm "approvedBy"%string. by apply omitted_str.
  - by_member Hm "approval"%string. by apply omitted_bytes.
  - by_member Hm "timestamp"%string. injection Hf as Hf. by apply (inj b2s).
Qed.

Lemma no_raw_Entry e j : Entry_json e = Ok j -> no_raw j = true.
Proof.
  unfold Entry_json.
  intros (a & Ha & (t & Ht & H)%rbind_Ok)%rbind_Ok. apply Ok_inj in H. subst j.
  apply types.no_raw_Action in Ha. apply valid_time, plain_weaken in Ht.
  rewrite plain_obj. unfold strings_field_omit, str_field_omit, bytes_field_omit.
  rewrite !plain_field, !andb_true_iff.
  assert (Hp : forall s, no_raw (j_slice j_bytes s) = true) by (by intros [l|]).
  assert (Hc : forall s, no_raw (j_slice j_strings s) = true) by (intros [l|]; [apply no_raw_strings|done]).
  split_and!; try done. apply plain_omit; [done|intros _; apply no_raw_strings|].
  rewrite plain_field. apply andb_true_iff. split; [done|].
  do 5 (apply plain_omit; [done|done|]). rewrite plain_field, Ht. apply plain_omit; [done..|].
  unfold omit_if. by case_bool_decide.
Qed.

Lemma valid_Entry e j : valid_entry e = true -> Entry_json (unsealed e) = Ok j -> valid_json j = true.
Proof.
  unfold valid_entry. rewrite !andb_true_iff. intros (((((((Va & Vc) & Vi) & V1) & V2) & V3) & Vp) & Vb).
  unfold Entry_json.
  intros (a & Ha & (t & Ht & H)%rbind_Ok)%rbind_Ok. apply Ok_inj in H. subst j.
  apply (types.valid_Action _ _ Va) in Ha. apply valid_time in Ht.
  rewrite plain_obj. unfold strings_field_omit, str_field_omit, bytes_field_omit, unsealed. simpl Seq.
  cbn [PrevHash ResolvedChain ChainCredentialIDs Decision PolicyID PoPNonce PoPSignature ApprovedBy Approval EntryHash Signature].
  rewrite !plain_field, !andb_true_iff.
  assert (Hp : forall s, valid_json (j_slice j_bytes s) = true) by (intros [l|]; [apply valid_bytes|done]).
  split_and!; try done.
  - destruct (ResolvedChain e); [by apply valid_strings|done].
  - apply plain_omit; [done|by intros _; apply valid_strings|].
    rewrite plain_field. apply andb_true_iff. split.
    + simpl. by rewrite V1, V2, V3.
    + apply plain_omit; [done|by intros _|]. apply plain_omit; [done|intros _; apply valid_bytes|].
      apply plain_omit; [done|intros _; apply valid_bytes|]. apply plain_omit; [done|by intros _|].
      apply plain_omit; [done|intros _; apply valid_bytes|]. by rewrite plain_field, Ht.
Qed.

Lemma same_content_unsealed e1 e2 : same_content (unsealed e1) (unsealed e2) -> same_content e1 e2.
Proof. done. Qed.

Lemma hashInput_inj e1 e2 b :
  valid_entry e1 = true -> hashInput e1 = Ok b -> hashInput e2 = Ok b -> same_content e1 e2.
Proof.
  intros Hv H1 H2. unfold hashInput in H1, H2. gosimp H1. gosimp H2. apply Ok_inj in H1, H2. subst b.
  apply app_inv_head, cons_tail in H2. subst a0.
  pose proof (Marshal_inj _ _ _ Ha Ha0 (fun j => valid_Entry e1 j Hv) (no_raw_Entry (unsealed e2))) as He.
  unfold Marshal in Ha. apply rbind_Ok in Ha as (j & Hj & _).
  apply same_content_unsealed. eapply Entry_json_inj; [exact Hj|congruence].
Qed.

(** Two different inputs of the hash function, both of them hashed for an entry
    of the two logs, with the same digest. *)
Definition collision_between (es1 es2 : list Entry) : Prop :=
  exists e1 e2 b1 b2, e1 ∈ es1 /\ e2 ∈ es2 /\ hashInput e1 = Ok b1 /\ hashInput e2 = Ok b2
    /\ b1 <> b2 /\ sha256.Sum256 b1 = sha256.Sum256 b2.

Lemma collision_mono es1 es2 x1 x2 :
  collision_between es1 es2 -> collision_between (es1 ++ x1) (es2 ++ x2).
Proof.
  intros (e1 & e2 & b1 & b2 & H1 & H2 & H). exists e1, e2, b1, b2.
  split_and!; [apply elem_of_app; by left..|apply H|apply H|apply H|apply H].
Qed.

Lemma tip_determines {CR : Crypto} pub1 pub2 es1 es2 :
  VerifyEntries pub1 es1 = None -> VerifyEntries pub2 es2 = None ->
  Forall (fun e => valid_entry e = true) es1 -> es1 <> [] -> es2 <> [] ->
  last_hash GenesisHash es1 = last_hash GenesisHash es2 ->
  Forall2 same_content es1 es2 \/ collision_between es1 es2.
Proof.
  unfold VerifyEntries. revert es2.
  induction es1 as [|e1 l1 IH] using rev_ind; intros es2 V1 V2 Hv N1 N2 Hh; [done|].
  destruct es2 as [|e2 l2 _] using rev_ind; [done|].
  rewrite !last_hash_snoc in Hh. apply Forall_app in Hv as [Hv1 [Hve _]%Forall_cons].
  apply verify_from_snoc in V1 as [V1 E1]. apply verify_from_snoc in V2 as [V2 E2].
  apply verify_entry_Ok in E1 as (S1 & P1 & H1 & _). apply verify_entry_Ok in E2 as (S2 & P2 & H2 & _).
  unfold entryHash in H1, H2. gosimp H1. gosimp H2. apply Ok_inj in H1, H2.
  destruct (decide (a = a0)) as [<-|Hne].
  2: { right. exists e1, e2, a, a0. split_and!; try done; [apply elem_of_app; right; left..|congruence]. }
  pose proof (hashInput_inj e1 e2 a Hve Ha Ha0) as Hc. destruct Hc as (Cs & Cp & Hc).
  assert (Hlen : len l1 = len l2) by lia.
  destruct l1 as [|x1 l1].
  { apply eq_sym, len_zero in Hlen as ->. left. constructor; [|constructor]. done. }
  assert (N2' : l2 <> []) by (intros ->; by apply len_zero in Hlen).
  destruct (IH l2 V1 V2 Hv1 ltac:(done) N2' ltac:(congruence)) as [Hf|Hcol].
  - left. apply Forall2_app; [done|]. by constructor.
  - right. by apply collision_mono.
Qed.

(** tamper evidence.  Two logs that verify and end in the same hash have
    the same content entry by entry (whoever signed them), or they exhibit a
    SHA-256 collision between two of their own entries: the tip hash commits to
    the whole log, its length included. *)
Theorem tip_commits {CR : Crypto} pub1 pub2 es1 es2 :
  VerifyEntries pub1 es1 = None -> VerifyEntries pub2 es2 = None ->
  Forall (fun e => valid_entry e = true) es1 -> es1 <> [] -> es2 <> [] ->
  last_hash GenesisHash es1 = last_hash GenesisHash es2 ->
  Forall2 same_content es1 es2 \/ collision_between es1 es2.
Proof. apply tip_determines. Qed.

(** an approval signs the actor, the action and the position: equal signed
    bytes, for hashes of equal length, mean the same actor, the same action and
    the same slot after the same log. *)
Theorem approval_binds actor1 actor2 a1 a2 seq1 seq2 prev1 prev2 b :
  ApprovalInput actor1 a1 seq1 prev1 = Ok b -> ApprovalInput actor2 a2 seq2 prev2 = Ok b ->
  len prev1 = len prev2 ->
  actor1 = actor2 /\ (types.valid_action a1 = true -> types.same_action a1 a2)
  /\ be64 seq1 = be64 seq2 /\ prev1 = prev2.
Proof.
  unfold ApprovalInput. intros H1 H2 Hl. gosimp H1. gosimp H2.
  pose proof (Marshal_nul_free _ _ (types.raw_free_Action a1) Ha) as Hn.
  pose proof (Marshal_nul_free _ _ (types.raw_free_Action a2) Ha0) as Hn0.
  apply Ok_inj in H1, H2. pose proof (eq_trans H1 (eq_sym H2)) as H. apply app_inv_head, cons_tail in H.
  assert (Hr : forall n b s p, n ++ Byte.x00 :: b ++ Byte.x00 :: be64 s ++ Byte.x00 :: p
                               = (n ++ Byte.x00 :: b) ++ (Byte.x00 :: be64 s ++ Byte.x00 :: p)).
  { intros. by rewrite <- app_assoc. }
  rewrite !Hr in H. apply app_inj_2 in H as [H Ht].
  2: { unfold len in Hl. cbn [length]. rewrite !length_app, !length_be64. simpl. lia. }
  apply cons_tail, app_inj_length in Ht as [Hs Hp]; [|by rewrite !length_be64].
  apply sep_split_r in H as [Hact ->]; [|done..]. apply cons_tail in Hp.
  split_and!; [by apply (inj s2b)| |done|done]. intros Hv. by eapply types.Marshal_Action_inj.
Qed.

(** What a human signs verifies under the human's key. *)
Lemma approval_roundtrip {CR : Crypto} (human : signer.Signer) {HS : signer.Sound human} actor a seq prev sig :
  SignApproval human actor a seq prev = Ok sig ->
  VerifyApproval (signer.Public human) actor a seq prev sig = Ok tt.
Proof.
  unfold SignApproval, VerifyApproval. intros H. gosimp H. rewrite Ha. simpl.
  by rewrite (signer.sound (s := human) _ _ H).
Qed.

(** ** A concrete log *)

#[local] Instance accepting : Crypto :=
  {| ed25519_Verify := fun k _ sig => bool_decide (head k = head sig); ecdsa_VerifyASN1 := fun _ _ _ _ => false;
     p256_NewPublicKey_ok := fun _ => false |}.
Definition test_signer : signer.Signer :=
  signer.mkSigner "did:web:proxy.example" (Ed25519Key (repeat Byte.x07 32)) (fun _ => Ok [Byte.x07]).
#[local] Instance test_signer_sound : signer.Sound test_signer.
Proof. intros data sig [= <-]. reflexivity. Qed.
Definition test_action : types.Action := types.mkAction "read" "db" ∅ (mkTime 1700000000 0 0).
Definition test_draft : EntryDraft :=
  mkDraft test_action (Some ["did:web:a"]) [] (types.mkDecision true false "r" "v" 0 "ok") "" [] [] "" []
    (mkTime 1700000000 0 0).
Definition sealed (l : Log) : Entry :=
  match Seal l test_draft with Ok e => e | Err _ => of_draft 0 [] test_draft end.
Definition entry0 : Entry := Eval vm_compute in sealed (NewLog test_signer).
Definition log1 : Log := mkLog test_signer [entry0].
Definition entry1 : Entry := Eval vm_compute in sealed log1.
Definition log2 : Log := mkLog test_signer [entry0; entry1].

Lemma seal0 : Seal (NewLog test_signer) test_draft = Ok entry0.
Proof. vm_compute. reflexivity. Qed.
Lemma seal1 : Seal log1 test_draft = Ok entry1.
Proof. vm_compute. reflexivity. Qed.
Lemma log2_written : written test_signer log2.
Proof.
  eapply (written_step _ log1); [eapply (written_step _ (NewLog test_signer))| |];
    [constructor|apply seal0|apply Commit_Ok; done|apply seal1|apply Commit_Ok; done].
Qed.
Lemma log2_verifies : VerifyEntries (signer.Public test_signer) [entry0; entry1] = None.
Proof. exact (written_verifies test_signer log2 log2_written). Qed.

Lemma written_log_verifies_witness :
  VerifyEntries (signer.Public test_signer) (Entries log2) = None
  /\ VerifyChain (signer.Public test_signer) (Log_Export log2) = None
  /\ LoadLog test_signer (Entries log2) = Ok log2.
Proof. apply (written_log_verifies test_signer log2). exact log2_written. Defined.

Lemma seal_commit_witness :
  Commit log1 entry1 = Ok log2
  /\ unsealed entry1 = of_draft (len (entries log1)) (last_hash GenesisHash (entries log1)) test_draft
  /\ forall l', len (entries l') <> len (entries log1) -> is_ok (Commit l' entry1) = false.
Proof. apply (seal_commit log1 test_draft entry1). exact seal1. Defined.

Lemma fail_index_first_witness :
  0 <= 1 < len [entry0; entry0]
  /\ VerifyEntries (signer.Public test_signer) (take (Z.to_nat 1) [entry0; entry0]) = None
  /\ forall n, (Z.to_nat 1 < n)%nat -> VerifyEntries (signer.Public test_signer) (take n [entry0; entry0]) <> None.
Proof.
  apply (fail_index_first (signer.Public test_signer) [entry0; entry0] 1
           (Errorf "audit: entry %d has out-of-order seq %d" [AInt 1; AInt 0])).
  vm_compute. reflexivity.
Defined.

Lemma tip_commits_witness :
  Forall2 same_content [entry0; entry1] [entry0; entry1]
  \/ collision_between [entry0; entry1] [entry0; entry1].
Proof.
  apply (tip_commits (signer.Public test_signer) (signer.Public test_signer)).
  - exact log2_verifies.
  - exact log2_verifies.
  - repeat constructor; vm_compute; reflexivity.
  - discriminate.
  - discriminate.
  - reflexivity.
Defined.

Definition approval_bytes : bytes :=
  Eval vm_compute in match ApprovalInput "did:web:a" test_action 0 GenesisHash with Ok b => b | Err _ => [] end.
Lemma approval_binds_witness :
  "did:web:a"%string = "did:web:a"%string
  /\ (types.valid_action test_action = true -> types.same_action test_action test_action)
  /\ be64 0 = be64 0 /\ GenesisHash = GenesisHash.
Proof.
  apply (approval_binds "did:web:a" "did:web:a" test_action test_action 0 0 GenesisHash GenesisHash approval_bytes).
  - vm_compute. reflexivity.
  - vm_compute. reflexivity.
  - reflexivity.
Defined.

End audit.
