(* ===== verification/Signerd.v ===== *)
(** internal/signerd: the on-device signing daemon, which brokers the keys it
    holds over a local socket, and its client, which is a signer itself. *)
From S2P Require Import Prelude GoFmt GoCrypto GoPath GoJson GoJsonText GoJsonInj Types Signer Did Status Vc Macaroon Credential AuditLog.

Module signerd.

(** ** The protocol (protocol.go) *)

Definition OpList : string := "list".
Definition OpPublic : string := "public".
Definition OpSign : string := "sign".
Definition maxMessage : Z := Z.shiftl 1 20.

Record Request := mkRequest { Op : string; r_DID : types.DID; Data : bytes }.
Record Response := mkResponse
  { OK : bool; Error : string; Sig : bytes; PubJWK : option did.JWK; DIDs : list types.DID }.

Definition Request_json (r : Request) : json :=
  JObj (field "op" (JStr (Op r)) ++ str_field_omit "did" (r_DID r) ++ bytes_field_omit "data" (Data r)).
Definition Response_json (r : Response) : json :=
  JObj (field "ok" (JBool (OK r)) ++ str_field_omit "error" (Error r) ++ bytes_field_omit "sig" (Sig r)
        ++ match PubJWK r with Some j => field "pubJwk" (credential.JWK_json j) | None => [] end
        ++ audit.strings_field_omit "dids" (DIDs r)).
(** A message on the wire. *)
Definition request_text (r : Request) : bytes := encode (Request_json r) ++ [Byte.x0a].
Definition response_text (r : Response) : bytes := encode (Response_json r) ++ [Byte.x0a].

(** ** The keys of a daemon (server.go) *)

Definition KeyPolicy : Type := Z.
Definition Routine : KeyPolicy := 0.
Definition Approval : KeyPolicy := 1.
Definition Attestation : KeyPolicy := 2.

Definition KeyPolicy_String (p : KeyPolicy) : string :=
  if p =? Routine then "routine" else if p =? Approval then "approval"
  else if p =? Attestation then "attestation" else "unknown(" +:+ Itoa p +:+ ")".
Definition known (p : KeyPolicy) : bool := (p =? Routine) || (p =? Approval) || (p =? Attestation).
Definition requiresHardware (p : KeyPolicy) : bool :=
  if (p =? Routine) || (p =? Attestation) then false else true.

(** A signer, and the answer of its [Hardware] method if its type has one. *)
Record held := mkHeld { key : signer.Signer; Hardware : option bool }.
Record HeldKey := mkHeldKey { Signer_ : option held; Policy : KeyPolicy }.
Definition isHardwareBacked (h : held) : bool := match Hardware h with Some b => b | None => false end.

Record Server := mkServer { signers : gmap string signer.Signer; ownerUID : Z }.

Definition New (signers : gmap string signer.Signer) (getuid : Z) : Server := mkServer signers (getuid mod 2 ^ 32).

Fixpoint add_keys (m : gmap string signer.Signer) (keys : list HeldKey) : result (gmap string signer.Signer) :=
  match keys with
  | [] => Ok m
  | k :: keys =>
      match Signer_ k with
      | None => Err (Prelude.New "signerd: nil signer in key set")
      | Some h =>
          check! reject_if (negb (known (Policy k)))
            (Errorf "signerd: key %q declares policy %s, which this package does not define; refusing rather than guessing how it should be handled"
               [AStr (signer.DID (key h)); AStr (KeyPolicy_String (Policy k))]);
          check! reject_if (requiresHardware (Policy k) && negb (isHardwareBacked h))
            (Errorf "signerd: refusing to broker %s-policy key %q as a software signer; an approval/issuance key must be hardware-backed (Secure Enclave) so the per-use gesture is enforced"
               [AStr (KeyPolicy_String (Policy k)); AStr (signer.DID (key h))]);
          add_keys (<[signer.DID (key h) := key h]> m) keys
      end
  end.
Definition NewKeys (keys : list HeldKey) (getuid : Z) : result Server :=
  let! m := add_keys ∅ keys in Ok (mkServer m (getuid mod 2 ^ 32)).

Definition Add (s : Server) (sg : signer.Signer) : Server :=
  mkServer (<[signer.DID sg := sg]> (signers s)) (ownerUID s).

Definition lookup (s : Server) (d : types.DID) : option signer.Signer := signers s !! d.
Definition list_ (s : Server) : list types.DID := merge_sort String.le (map_to_list (signers s)).*1.

Definition notHeld {UT : UnicodeTables} (d : types.DID) : string := Sprintf "daemon holds no key for %q" [AStr d].

(** A key without a JWK makes [PublicKeyToJWK] panic, which [safeJWK] recovers;
    a nil key is one of them here. *)
Definition panic_text (pub : PublicKey) : string :=
  match pub with
  | EcdsaKey _ _ _ => "did: cannot encode ECDSA public key on a non-P-256 curve"
  | _ => "did: cannot encode unsupported public key type"
  end.
Definition publicJWK (sg : signer.Signer) : result did.JWK :=
  match did.PublicKeyToJWK (signer.Public sg) with
  | Some j => Ok j
  | None => Err (Errorf "unsupported public key type: %v" [AStr (panic_text (signer.Public sg))])
  end.

(** ** Serving (server.go) *)

Definition failure (msg : string) : Response := mkResponse false msg [] None [].

Section Serve.
Context {UT : UnicodeTables} (decode_request : bytes -> result Request).

Definition dispatch (s : Server) (line : bytes) : Response :=
  match decode_request line with
  | Err e => failure ("malformed request: " +:+ GoFmt.Error e)
  | Ok req =>
      if Op req =?s OpList then mkResponse true "" [] None (list_ s)
      else if Op req =?s OpPublic then
        match lookup s (r_DID req) with
        | None => failure (notHeld (r_DID req))
        | Some sg =>
            match publicJWK sg with
            | Err e => failure (GoFmt.Error e)
            | Ok jwk => mkResponse true "" [] (Some jwk) []
            end
        end
      else if Op req =?s OpSign then
        match lookup s (r_DID req) with
        | None => failure (notHeld (r_DID req))
        | Some sg =>
            match signer.Sign sg (Data req) with
            | Err e => failure ("sign failed: " +:+ GoFmt.Error e)
            | Ok sig => mkResponse true "" sig None []
            end
        end
      else failure ("unknown op: " +:+ Op req)
  end.

(** The loop over the lines of a connection.  [servers i] is the daemon as the
    [i]-th request finds it, since keys may be added meanwhile, and [writes i]
    says whether its response could be written.  The result is every response
    made, with that answer. *)
Context (servers : nat -> Server) (writes : nat -> bool).

Fixpoint serve (i : nat) (lines : list bytes) : list (Response * bool) :=
  match lines with
  | [] => []
  | l :: lines => (dispatch (servers i) l, writes i) :: if writes i then serve (S i) lines else []
  end.

(** A connection: the peer's uid, then what arrives before the reading ends. *)
Definition handle (owner : Z) (uid : result Z) (input : bytes) : list (Response * bool) :=
  match uid with
  | Err _ => [(failure "peer credential check failed", writes 0%nat)]
  | Ok uid =>
      if negb (uid =? owner) then [(failure "unauthorized: connection is not from the daemon owner", writes 0%nat)]
      else serve 0 (read_lines (take (Z.to_nat maxMessage) input))
  end.
End Serve.

(** ** The client (client.go) *)

Record Signer := mkSigner { sockPath : string; did_ : types.DID; pub : PublicKey }.

(** One short-lived connection: whether it is made and written, what comes back
    for what was sent, and the error that ends reading. *)
Record wire := mkWire { dial : option error; write : option error; reply : bytes -> bytes; read_end : error }.

Section Client.
Context {CR : Crypto} (decode_response : bytes -> result Response) (w : wire).

Definition roundtrip (sock : string) (req : Request) : result Response :=
  match dial w, write w with
  | Some e, _ => Err (Errorf "signerd: dial %q: %w" [AStr sock; AErr e])
  | None, Some e => Err (Errorf "signerd: write request: %w" [AErr e])
  | None, None =>
      let '(line, found) := read_line (take (Z.to_nat maxMessage) (reply w (request_text req))) in
      check! reject_if (negb found && bool_decide (line = [])) (Errorf "signerd: read response: %w" [AErr (read_end w)]);
      let! resp := wrap (fun e => Errorf "signerd: decode response: %w" [AErr e]) (decode_response line) in
      if negb (OK resp) then
        Err (if negb (Error resp =?s "") then Errorf "signerd: %s" [AStr (Error resp)] else Prelude.New "signerd: request failed")
      else Ok resp
  end.

Definition Dial (sock : string) (d : types.DID) : result Signer :=
  let! resp := roundtrip sock (mkRequest OpPublic d []) in
  check! reject_if (bool_decide (PubJWK resp = None)) (Errorf "signerd: daemon returned no public key for %q" [AStr d]);
  let! pub := wrap (fun e => Errorf "signerd: parse public key for %q: %w" [AStr d; AErr e]) (did.JWK_PublicKey (PubJWK resp)) in
  Ok (mkSigner sock d pub).

Definition Sign (s : Signer) (data : bytes) : result bytes :=
  let! resp := roundtrip (sockPath s) (mkRequest OpSign (did_ s) data) in
  check! reject_if (len (Sig resp) =? 0) (Prelude.New "signerd: daemon returned an empty signature");
  Ok (Sig resp).

Definition List_ (sock : string) : result (list types.DID) :=
  let! resp := roundtrip sock (mkRequest OpList "" []) in Ok (DIDs resp).

(** The client behind the signing seam. *)
Definition client (s : Signer) : signer.Signer := signer.mkSigner (did_ s) (pub s) (Sign s).
End Client.

(** The wire to a daemon of the same owner, whose writes succeed. *)
Definition daemon {UT : UnicodeTables} (decode_request : bytes -> result Request) (s : Server) (uid : result Z) : wire :=
  mkWire None None
    (fun input => concat (map (fun x => response_text x.1) (handle decode_request (fun _ => s) (fun _ => true) (ownerUID s) uid input)))
    (Prelude.New "EOF").

(** ** What a daemon brokers *)

(** A key [NewKeys] accepts: a policy the package defines, and hardware for the
    approval policy. *)
Definition acceptable (k : HeldKey) : Prop :=
  exists h, Signer_ k = Some h /\ (Policy k = Routine \/ Policy k = Attestation \/ Policy k = Approval /\ Hardware h = Some true).
Definition provides (k : HeldKey) (d : types.DID) (g : signer.Signer) : Prop :=
  exists h, Signer_ k = Some h /\ signer.DID (key h) = d /\ key h = g.

Lemma policy_ok p h :
  known p = true /\ requiresHardware p && negb (isHardwareBacked h) = false
  <-> p = Routine \/ p = Attestation \/ p = Approval /\ Hardware h = Some true.
Proof.
  unfold known, requiresHardware, isHardwareBacked, Routine, Attestation, Approval.
  destruct (Z.eqb_spec p 0), (Z.eqb_spec p 2), (Z.eqb_spec p 1); cbn [orb negb andb];
    destruct (Hardware h) as [[]|]; cbn [negb]; intuition (try lia; try congruence).
Qed.

Lemma add_keys_cons m k keys m' :
  add_keys m (k :: keys) = Ok m' <->
  exists h, Signer_ k = Some h /\ (Policy k = Routine \/ Policy k = Attestation \/ Policy k = Approval /\ Hardware h = Some true)
    /\ add_keys (<[signer.DID (key h) := key h]> m) keys = Ok m'.
Proof.
  cbn [add_keys]. destruct (Signer_ k) as [h|]; [|naive_solver]. split.
  - intros H. destruct (known (Policy k)) eqn:E1; [|done]. destruct (requiresHardware (Policy k) && _) eqn:E2; [done|].
    exists h. split_and!; [done|by apply policy_ok|exact H].
  - intros (h' & [= <-] & [Hk Hr]%policy_ok & H). by rewrite Hk, Hr.
Qed.

Lemma add_keys_Ok keys m : (exists m', add_keys m keys = Ok m') <-> Forall acceptable keys.
Proof.
  revert m. induction keys as [|k keys IH]; intros m; [split; [done|by exists m]|]. rewrite Forall_cons. unfold acceptable at 1. split.
  - intros [m' (h & Hs & Hp & H)%add_keys_cons]. split; [by exists h|]. by apply (IH (<[signer.DID (key h) := key h]> m)); exists m'.
  - intros [(h & Hs & Hp) Hk]. apply (IH (<[signer.DID (key h) := key h]> m)) in Hk as [m' H].
    exists m'. apply add_keys_cons. by exists h.
Qed.

Lemma add_keys_lookup keys m m' d g :
  add_keys m keys = Ok m' ->
  m' !! d = Some g <->
  (exists l1 k l2, keys = l1 ++ k :: l2 /\ provides k d g /\ Forall (fun k' => forall g', ~ provides k' d g') l2)
  \/ m !! d = Some g /\ Forall (fun k' => forall g', ~ provides k' d g') keys.
Proof.
  revert m. induction keys as [|k keys IH]; intros m H.
  { apply Ok_inj in H as <-. split; [by right|]. intros [(l1 & k & l2 & Hk & _)|[? _]]; [by destruct l1|done]. }
  apply add_keys_cons in H as (h & Hs & _ & H). rewrite (IH _ H). split.
  - intros [(l1 & k' & l2 & -> & Hp & Hl)|[Hm Hl]]; [left; by exists (k :: l1), k', l2|].
    destruct (decide (signer.DID (key h) = d)) as [<-|Hne].
    + rewrite lookup_insert_eq in Hm. injection Hm as <-. left. exists [], k, keys. split_and!; [done|by exists h|done].
    + rewrite lookup_insert_ne in Hm by done. right. split; [done|]. constructor; [|done].
      intros g' (h' & Hs' & Hd & _). congruence.
  - intros [(l1 & k' & l2 & Hk & Hp & Hl)|[Hm Hl]].
    + destruct l1 as [|x l1]; injection Hk as -> ->; [|left; by exists l1, k', l2].
      right. destruct Hp as (h' & Hs' & <- & <-). assert (h' = h) as -> by congruence. split; [apply lookup_insert_eq|done].
    + apply Forall_cons in Hl as [Hk Hl]. right. split; [|done]. rewrite lookup_insert_ne; [done|].
      intros Hd. by apply (Hk (key h)); exists h.
Qed.

(** a daemon is built exactly from keys that each have a signer and a
    defined policy, and are hardware-backed where the policy is approval; it then
    brokers for each identifier the last key given for it, and no other key.  So
    no software key is ever brokered under the approval policy. *)
Theorem daemon_policies keys uid :
  ((exists s, NewKeys keys uid = Ok s) <-> Forall acceptable keys)
  /\ forall s, NewKeys keys uid = Ok s ->
     (forall d g, lookup s d = Some g <->
        exists l1 k l2, keys = l1 ++ k :: l2 /\ provides k d g /\ Forall (fun k' => forall g', ~ provides k' d g') l2)
     /\ (forall d, d ∈ list_ s <-> is_Some (lookup s d)) /\ NoDup (list_ s) /\ Sorted String.le (list_ s)
     /\ (forall g d, lookup (Add s g) d = if d =?s signer.DID g then Some g else lookup s d).
Proof.
  split.
  - rewrite <- (add_keys_Ok keys ∅). unfold NewKeys. split; intros [x H].
    + gosimp H. by exists a.
    + rewrite H. cbn [rbind]. by eexists.
  - unfold NewKeys. intros s H. gosimp H. apply Ok_inj in H as <-. unfold lookup, list_. cbn [signers Add]. split_and!.
    + intros d g. rewrite (add_keys_lookup _ _ _ _ _ Ha). rewrite lookup_empty. naive_solver.
    + intros d. rewrite merge_sort_Permutation, list_elem_of_fmap. split.
      * intros ([d' g] & -> & Hin%elem_of_map_to_list). by exists g.
      * intros [g Hg]. exists (d, g). split; [done|]. by apply elem_of_map_to_list.
    + rewrite merge_sort_Permutation. apply NoDup_fst_map_to_list.
    + apply Sorted_merge_sort, _.
    + intros g d. unfold str_eqb. case_bool_decide as Hd; [subst d; apply lookup_insert_eq|by apply lookup_insert_ne].
Qed.

(** ** What a connection can obtain *)

Section Conversation.
Context {UT : UnicodeTables} (decode_request : bytes -> result Request).

(** a daemon signs only what it was asked to sign, with the key it was
    asked for.  Every line is answered by one response; a response that carries a
    signature answers a well-formed sign request for a held identifier, and is
    that signer's signature over exactly the bytes of the request; a failure
    carries no value. *)
Theorem dispatch_discloses s line :
  let r := dispatch decode_request s line in
  (Sig r <> [] -> exists req g, decode_request line = Ok req /\ Op req = OpSign /\ lookup s (r_DID req) = Some g
     /\ signer.Sign g (Data req) = Ok (Sig r))
  /\ (forall j, PubJWK r = Some j -> exists req g, decode_request line = Ok req /\ Op req = OpPublic
        /\ lookup s (r_DID req) = Some g /\ did.PublicKeyToJWK (signer.Public g) = Some j)
  /\ (OK r = false -> r = failure (Error r)) /\ (OK r = true -> Error r = ""%string).
Proof.
  intros r. unfold r, dispatch. destruct (decode_request line) as [req|e] eqn:Ed; [|by split_and!].
  destruct (Op req =?s OpList); [by split_and!|]. destruct (Op req =?s OpPublic) eqn:E2.
  { apply str_eqb_true in E2. destruct (lookup s _) as [g|] eqn:El; [|by split_and!]. unfold publicJWK.
    destruct (did.PublicKeyToJWK _) as [j|] eqn:Ej; [|by split_and!]. split_and!; try done. intros j' [= <-]. by exists req, g. }
  destruct (Op req =?s OpSign) eqn:E3; [|by split_and!]. apply str_eqb_true in E3.
  destruct (lookup s _) as [g|] eqn:El; [|by split_and!].
  destruct (signer.Sign g _) as [sig|e] eqn:Es; [|by split_and!]. split_and!; try done. intros _. by exists req, g.
Qed.

Lemma serve_fst servers i lines :
  map fst (serve decode_request servers (fun _ => true) i lines)
  = imap (fun n l => dispatch decode_request (servers (i + n)%nat) l) lines.
Proof.
  revert i. induction lines as [|l lines IH]; intros i; [done|]. simpl. rewrite Nat.add_0_r, IH. f_equal.
  apply imap_ext. intros n x _. simpl. f_equal. f_equal. lia.
Qed.
Lemma serve_length servers writes i lines : (length (serve decode_request servers writes i lines) <= length lines)%nat.
Proof. revert i. induction lines as [|l lines IH]; intros i; simpl; [lia|]. specialize (IH (S i)). destruct (writes i); simpl; lia. Qed.

(** C34: the peer gate comes before the first request.  A connection whose peer
    is not the owner, or cannot be identified, gets one refusal that does not
    depend on any key the daemon holds; the owner's gets at most one response a
    line, each from the keys held when it is served, and nothing beyond the first
    2^20 bytes of the connection is ever read, however they are divided into
    messages. *)
Theorem connection_gate servers writes owner uid input :
  (uid <> Ok owner -> exists msg, handle decode_request servers writes owner uid input = [(failure msg, writes 0%nat)]
     /\ forall servers', handle decode_request servers' writes owner uid input = [(failure msg, writes 0%nat)])
  /\ (length (handle decode_request servers writes owner (Ok owner) input) <= length (read_lines input))%nat
  /\ map fst (handle decode_request servers (fun _ => true) owner (Ok owner) input)
     = imap (fun n l => dispatch decode_request (servers n) l) (read_lines (take (Z.to_nat maxMessage) input))
  /\ forall more, (Z.to_nat maxMessage <= length input)%nat ->
       handle decode_request servers writes owner uid (input ++ more) = handle decode_request servers writes owner uid input.
Proof.
  unfold handle. rewrite Z.eqb_refl. cbn [negb]. split_and!.
  - intros Hne. destruct uid as [u|e]; [|by eexists]. destruct (Z.eqb_spec u owner) as [->|]; [done|by eexists].
  - etransitivity; [apply serve_length|]. generalize (Z.to_nat maxMessage). clear. intros n.
    revert n. induction input as [|c input IH]; intros n; [by rewrite take_nil|]. destruct n as [|n]; [simpl; lia|].
    cbn [take]. specialize (IH n). cbn [read_lines]. destruct (byte_is c 10); simpl; [lia|].
    destruct (read_lines (take n input)) as [|l1 ls1], (read_lines input) as [|l2 ls2]; simpl in *; lia.
  - apply serve_fst.
  - intros more Hl. by rewrite take_app_le.
Qed.
End Conversation.

(** ** The client behind the seam *)

Lemma single_line b : Byte.x0a ∉ b -> b <> [] -> read_lines b = [b] /\ read_lines (b ++ [Byte.x0a]) = [b ++ [Byte.x0a]].
Proof.
  intros Hn Hne. split.
  - by rewrite (read_lines_step b b false Hne (read_line_end b Hn)).
  - rewrite (read_lines_step (b ++ [Byte.x0a]) _ true ltac:(by destruct b) (read_line_newline b [] Hn)). by rewrite drop_all.
Qed.
Lemma take_snoc {A} (x : A) n b : take n (b ++ [x]) = if decide (n <= length b)%nat then take n b else b ++ [x].
Proof. case_decide; [by rewrite take_app_le|]. apply take_ge. rewrite length_app. simpl. lia. Qed.

(** A cut message is one line too. *)
Lemma cut_line n b :
  Byte.x0a ∉ b -> b <> [] -> (0 < n)%nat ->
  let t := take n (b ++ [Byte.x0a]) in
  read_lines t = [t] /\ t <> [] /\ exists found, read_line t = (t, found).
Proof.
  intros Hn Hne Hpos t. unfold t. rewrite take_snoc. case_decide as Hl.
  - assert (Hn' : Byte.x0a ∉ take n b) by (intros Hin; apply Hn; eapply elem_of_take in Hin as (i & Hi & _); by eapply list_elem_of_lookup_2).
    assert (Hne' : take n b <> []) by (destruct n; [lia|]; by destruct b).
    split_and!; [by apply single_line|done|]. exists false. by apply read_line_end.
  - split_and!; [by apply single_line|by destruct b|]. exists true. by apply read_line_newline.
Qed.

Lemma request_line r : Byte.x0a ∉ encode (Request_json r) /\ encode (Request_json r) <> [].
Proof.
  split; [|done]. apply one_line_newline, encode_one_line. unfold Request_json, str_field_omit, bytes_field_omit, omit_if.
  by destruct (r_DID r =?s ""), (bool_decide (Data r = [])).
Qed.
Lemma response_line r : Byte.x0a ∉ encode (Response_json r) /\ encode (Response_json r) <> [].
Proof.
  split; [|done]. apply one_line_newline, encode_one_line.
  assert (Hj : forall j, no_raw (credential.JWK_json j) = true).
  { intros j. unfold credential.JWK_json, str_field_omit, omit_if. by destruct (did.Y j =?s ""). }
  assert (Hd : no_raw (j_strings (DIDs r)) = true) by apply no_raw_strings.
  cbn [Response_json plain_json]. rewrite !forallb_app. unfold field, str_field_omit, bytes_field_omit, audit.strings_field_omit, omit_if.
  destruct (Error r =?s ""), (bool_decide (Sig r = [])), (PubJWK r), (bool_decide (DIDs r = []));
    cbn [forallb fst snd]; rewrite ?Hj, ?Hd; done.
Qed.

Lemma maxMessage_pos : (0 < Z.to_nat maxMessage)%nat.
Proof. unfold maxMessage. change (Z.shiftl 1 20) with 1048576. lia. Qed.

Section Broker.
Context {CR : Crypto} {UT : UnicodeTables}.
Context (decode_request : bytes -> result Request) (decode_response : bytes -> result Response).

(** encoding/json reads a message back, with or without its newline, and
    refuses one that is cut short. *)
Definition reads_request (r : Request) : Prop :=
  (forall tl, tl = [] \/ tl = [Byte.x0a] -> decode_request (encode (Request_json r) ++ tl) = Ok r)
  /\ forall n, (n < length (encode (Request_json r)))%nat -> is_ok (decode_request (take n (encode (Request_json r)))) = false.
Definition reads_response (r : Response) : Prop :=
  (forall tl, tl = [] \/ tl = [Byte.x0a] -> decode_response (encode (Response_json r) ++ tl) = Ok r)
  /\ forall n, (n < length (encode (Response_json r)))%nat -> is_ok (decode_response (take n (encode (Response_json r)))) = false.

(** What the daemon dispatches for a request of its owner, and what the client
    makes of the response: both messages are cut at 2^20 bytes. *)
Definition answered (s : Server) (req : Request) : Response :=
  dispatch decode_request s (take (Z.to_nat maxMessage) (request_text req)).

Lemma roundtrip_daemon s sock req :
  roundtrip decode_response (daemon decode_request s (Ok (ownerUID s))) sock req =
  let! resp := wrap (fun e => Errorf "signerd: decode response: %w" [AErr e])
                 (decode_response (take (Z.to_nat maxMessage) (response_text (answered s req)))) in
  if negb (OK resp) then
    Err (if negb (Error resp =?s "") then Errorf "signerd: %s" [AStr (Error resp)] else Prelude.New "signerd: request failed")
  else Ok resp.
Proof.
  unfold roundtrip, daemon, handle. cbn [dial write reply]. rewrite Z.eqb_refl. cbn [negb].
  destruct (request_line req) as [Hn Hne].
  destruct (cut_line _ _ Hn Hne maxMessage_pos) as (Hl & _ & _). fold (request_text req) in Hl. rewrite Hl. cbn [serve map concat fst]. rewrite app_nil_r.
  fold (answered s req). destruct (response_line (answered s req)) as [Hn' Hne'].
  destruct (cut_line _ _ Hn' Hne' maxMessage_pos) as (_ & Hcut & [found Hf]).
  fold (response_text (answered s req)) in Hcut, Hf. rewrite Hf.
  by rewrite (bool_decide_false _ Hcut), andb_false_r.
Qed.

Definition fits (j : json) : Prop := len (encode j) <= maxMessage.

(** A message that fits is read whole, any other is an error. *)
Lemma read_cut {A} (decode : bytes -> result A) (m : A) text :
  (forall tl, tl = [] \/ tl = [Byte.x0a] -> decode (text ++ tl) = Ok m) ->
  (forall n, (n < length text)%nat -> is_ok (decode (take n text)) = false) ->
  match decode (take (Z.to_nat maxMessage) (text ++ [Byte.x0a])) with
  | Ok x => x = m /\ len text <= maxMessage
  | Err _ => maxMessage < len text
  end.
Proof.
  intros H1 H2. pose proof maxMessage_pos. rewrite take_snoc. unfold len. case_decide as Hl.
  - destruct (decide (length text = Z.to_nat maxMessage)) as [He|Hne].
    + rewrite take_ge by lia. specialize (H1 [] ltac:(by left)). rewrite app_nil_r in H1. rewrite H1. split; [done|lia].
    + specialize (H2 (Z.to_nat maxMessage) ltac:(lia)). destruct (decode (take _ text)); [done|lia].
  - rewrite H1 by (by right). split; [done|lia].
Qed.

(** C33: signing through the daemon is signing with the held key.  The client's
    [Sign] succeeds exactly when the held signer signs those bytes with a
    non-empty signature and both messages fit in 2^20 bytes, and then returns
    exactly that signature; nothing shorter is ever signed in its place.  So a
    client of a sound signer is as sound as the signer. *)
Theorem brokered_sign s c g data :
  lookup s (did_ c) = Some g ->
  reads_request (mkRequest OpSign (did_ c) data) -> reads_response (answered s (mkRequest OpSign (did_ c) data)) ->
  forall sig,
  Sign decode_response (daemon decode_request s (Ok (ownerUID s))) c data = Ok sig <->
  signer.Sign g data = Ok sig /\ sig <> []
  /\ fits (Request_json (mkRequest OpSign (did_ c) data)) /\ fits (Response_json (mkResponse true "" sig None [])).
Proof.
  intros Hg [Hq1 Hq2] [Hr1 Hr2] sig. set (req := mkRequest OpSign (did_ c) data) in *.
  pose proof (read_cut decode_request req _ Hq1 Hq2) as Hq. pose proof (read_cut decode_response _ _ Hr1 Hr2) as Hr.
  unfold Sign. rewrite roundtrip_daemon. fold req. unfold response_text in *.
  assert (Ha : answered s req = match decode_request (take (Z.to_nat maxMessage) (encode (Request_json req) ++ [Byte.x0a])) with
                                | Err e => failure ("malformed request: " +:+ GoFmt.Error e)
                                | Ok _ => match signer.Sign g data with
                                          | Err e => failure ("sign failed: " +:+ GoFmt.Error e)
                                          | Ok sig => mkResponse true "" sig None [] end
                                end).
  { unfold answered, request_text, dispatch. destruct (decode_request _) as [x|e]; [|done]. destruct Hq as [-> _].
    change (Op req =?s OpList) with false. change (Op req =?s OpPublic) with false. change (Op req =?s OpSign) with true.
    change (r_DID req) with (did_ c). rewrite Hg. done. }
  unfold fits. destruct (decode_request _) as [x|e].
  2: { destruct (decode_response _) as [x|e']; cbn [wrap rbind]; [|split; [done|lia]].
       destruct Hr as [-> _]. rewrite Ha. cbn [OK failure negb rbind]. split; [done|]. lia. }
  destruct Hq as [_ Hq]. destruct (signer.Sign g data) as [sg|e].
  2: { destruct (decode_response _) as [x'|e']; cbn [wrap rbind]; [|naive_solver].
       destruct Hr as [-> _]. rewrite Ha. cbn [OK failure negb rbind]. naive_solver. }
  destruct (decode_response _) as [x'|e']; cbn [wrap rbind].
  - destruct Hr as [-> Hr]. rewrite Ha in *. cbn [OK negb rbind Sig]. destruct (len sg =? 0) eqn:El; cbn [reject_if rbind].
    + apply Z.eqb_eq in El. rewrite len_zero in El. naive_solver.
    + apply Z.eqb_neq in El. rewrite len_zero in El. naive_solver.
  - rewrite Ha in Hr. split; [done|]. intros ([= ->] & _ & _ & Hf). lia.
Qed.

(** dialling succeeds exactly for a held identifier whose key the client can
    read back, and the client then speaks for it with that key. *)
Theorem dial_held s sock d c :
  reads_request (mkRequest OpPublic d []) -> reads_response (answered s (mkRequest OpPublic d [])) ->
  Dial decode_response (daemon decode_request s (Ok (ownerUID s))) sock d = Ok c <->
  exists g j k, lookup s d = Some g /\ did.PublicKeyToJWK (signer.Public g) = Some j /\ did.JWK_PublicKey (Some j) = Ok k
    /\ c = mkSigner sock d k /\ fits (Request_json (mkRequest OpPublic d []))
    /\ fits (Response_json (mkResponse true "" [] (Some j) [])).
Proof.
  intros [Hq1 Hq2] [Hr1 Hr2]. set (req := mkRequest OpPublic d []) in *.
  pose proof (read_cut decode_request req _ Hq1 Hq2) as Hq. pose proof (read_cut decode_response _ _ Hr1 Hr2) as Hr.
  unfold Dial. rewrite roundtrip_daemon. fold req. unfold response_text in *.
  assert (Ha : answered s req = match decode_request (take (Z.to_nat maxMessage) (encode (Request_json req) ++ [Byte.x0a])) with
                                | Err e => failure ("malformed request: " +:+ GoFmt.Error e)
                                | Ok _ => match lookup s d with
                                          | None => failure (notHeld d)
                                          | Some g => match publicJWK g with
                                                      | Err e => failure (GoFmt.Error e)
                                                      | Ok j => mkResponse true "" [] (Some j) [] end
                                          end
                                end).
  { unfold answered, request_text, dispatch. destruct (decode_request _) as [x|e]; [|done]. by destruct Hq as [-> _]. }
  unfold fits. destruct (decode_request _) as [x|e].
  2: { destruct (decode_response _) as [x|e']; cbn [wrap rbind].
       - destruct Hr as [-> _]. rewrite Ha. cbn [OK failure negb rbind]. split; [done|]. intros (g & j & k & ?). lia.
       - split; [done|]. intros (g & j & k & ?). lia. }
  destruct Hq as [_ Hq]. destruct (lookup s d) as [g|].
  2: { destruct (decode_response _) as [x'|e']; cbn [wrap rbind]; [destruct Hr as [-> _]; rewrite Ha; cbn [OK failure negb rbind]|];
         (split; [done|]); intros (g & j & k & ? & _); done. }
  unfold publicJWK in Ha. destruct (did.PublicKeyToJWK _) as [j|] eqn:Ej.
  2: { destruct (decode_response _) as [x'|e']; cbn [wrap rbind]; [destruct Hr as [-> _]; rewrite Ha; cbn [OK failure negb rbind]|];
         (split; [done|]); intros (g' & j & k & [= <-] & Hj & _); congruence. }
  destruct (decode_response _) as [x'|e']; cbn [wrap rbind].
  - destruct Hr as [-> Hr]. rewrite Ha in *. cbn [OK negb rbind PubJWK]. rewrite bool_decide_false by done. cbn [reject_if rbind].
    destruct (did.JWK_PublicKey (Some j)) as [k|e] eqn:Ek; cbn [wrap rbind]; split; try done.
    + intros [= <-]. by exists g, j, k.
    + intros (g' & j' & k' & [= <-] & Hj & Hk & -> & _). congruence.
    + intros (g' & j' & k' & [= <-] & Hj & Hk & -> & _). congruence.
  - rewrite Ha in Hr. split; [done|]. intros (g' & j' & k' & [= <-] & Hj & _ & _ & _ & Hf). assert (j' = j) as -> by congruence. lia.
Qed.
End Broker.

(** ** Concrete daemons *)

#[local] Instance accepting : Crypto :=
  {| ed25519_Verify := fun _ _ sig => sig =?b [Byte.x01]; ecdsa_VerifyASN1 := fun _ _ _ _ => false;
     p256_NewPublicKey_ok := fun _ => false |}.
#[local] Instance printable : UnicodeTables := Build_UnicodeTables (fun _ => true).

Definition ana : types.DID := "did:web:ana.example".
Definition test_signer : signer.Signer := signer.mkSigner ana (Ed25519Key (repeat Byte.x07 32)) (fun _ => Ok [Byte.x01; Byte.x02]).
Definition soft : HeldKey := mkHeldKey (Some (mkHeld test_signer None)) Routine.
Definition bad : HeldKey := mkHeldKey (Some (mkHeld test_signer None)) Approval.
Definition test_server : Server := mkServer {[ ana := test_signer ]} 501.

Lemma daemon_policies_witness : lookup test_server ana = Some test_signer /\ ~ exists s, NewKeys [soft; bad] 501 = Ok s.
Proof.
  split.
  - apply (proj1 (proj2 (daemon_policies [soft] 501) test_server ltac:(vm_compute; reflexivity))).
    exists [], soft, []. split_and!; [done|by exists (mkHeld test_signer None)|done].
  - intros H%(proj1 (daemon_policies [soft; bad] 501)). apply Forall_cons in H as [_ H]. apply Forall_cons in H as [(h & Hh & Hp) _].
    injection Hh as <-. destruct Hp as [?|[?|[_ ?]]]; done.
Defined.

Definition sign_req : Request := mkRequest OpSign ana (s2b "hello").
Definition signed : Response := mkResponse true "" [Byte.x01; Byte.x02] None [].
Definition test_decode_request (b : bytes) : result Request :=
  if (b =?b encode (Request_json sign_req)) || (b =?b request_text sign_req) then Ok sign_req
  else Err (Prelude.New "unexpected end of JSON input").
Definition test_decode_response (b : bytes) : result Response :=
  if (b =?b encode (Response_json signed)) || (b =?b response_text signed) then Ok signed
  else Err (Prelude.New "unexpected end of JSON input").

Lemma dispatch_discloses_witness :
  exists req g, test_decode_request (request_text sign_req) = Ok req /\ Op req = OpSign /\ lookup test_server (r_DID req) = Some g
    /\ signer.Sign g (Data req) = Ok [Byte.x01; Byte.x02].
Proof.
  apply (proj1 (dispatch_discloses test_decode_request test_server (request_text sign_req))). vm_compute. discriminate.
Defined.

Lemma connection_gate_witness :
  handle test_decode_request (fun _ => test_server) (fun _ => true) 501 (Ok 502) (request_text sign_req)
  = [(failure "unauthorized: connection is not from the daemon owner", true)].
Proof.
  destruct (proj1 (connection_gate test_decode_request (fun _ => test_server) (fun _ => true) 501 (Ok 502) (request_text sign_req))
              ltac:(discriminate)) as (msg & H & _).
  rewrite H. f_equal. f_equal. vm_compute in H. injection H as <-. reflexivity.
Defined.

(** No strict prefix of a text is among the two a decoder knows. *)
Lemma prefix_unknown (t : bytes) n : (n < length t)%nat -> (take n t =?b t) || (take n t =?b (t ++ [Byte.x0a])) = false.
Proof.
  intros Hn. rewrite orb_false_iff, !bytes_eqb_false.
  split; intros H; apply (f_equal length) in H; rewrite length_take, ?length_app in H; simpl in H; lia.
Qed.
Lemma brokered_sign_witness :
  Sign test_decode_response (daemon test_decode_request test_server (Ok 501)) (mkSigner "/run/kessa.sock" ana (Ed25519Key (repeat Byte.x07 32))) (s2b "hello")
  = Ok [Byte.x01; Byte.x02].
Proof.
  apply (brokered_sign test_decode_request test_decode_response test_server (mkSigner "/run/kessa.sock" ana (Ed25519Key (repeat Byte.x07 32))) test_signer).
  - reflexivity.
  - change (reads_request test_decode_request sign_req). split; [intros tl [->| ->]; vm_compute; reflexivity|]. intros n Hn.
    unfold test_decode_request, request_text. by rewrite (prefix_unknown _ n Hn).
  - assert (E : answered test_decode_request test_server sign_req = signed).
    { unfold answered. rewrite take_ge by (apply Nat2Z.inj_le; rewrite Z2Nat.id; vm_compute; discriminate). vm_compute. reflexivity. }
    change (mkRequest OpSign (did_ _) (s2b "hello")) with sign_req. rewrite E.
    split; [intros tl [->| ->]; vm_compute; reflexivity|]. intros n Hn.
    unfold test_decode_response, response_text. by rewrite (prefix_unknown _ n Hn).
  - split_and!; [reflexivity|discriminate|vm_compute; discriminate|vm_compute; discriminate].
Defined.
End signerd.
