(* ===== verification/Peercred.v ===== *)
(** internal/signerd (peercred_linux.go, peercred_darwin.go): who is at the other
    end of the daemon's socket, as the system says.

    Module [peercred] has both platforms' questions to the kernel, and what a
    connection comes to when the daemon's gate stands on their answers. *)
From S2P Require Import Prelude GoFmt GoCrypto GoNet Signer Did Signerd.

Module peercred.

(** What the kernel and the runtime answer on a Unix socket: for its raw form,
    for running something on its descriptor, and for the socket option.  On
    darwin the option is an error number beside the record it fills. *)
Record socket := mkSocket
  { SyscallConn : option error; Control : option error; GetsockoptUcred : result Z; LOCAL_PEERCRED : Z * Z }.
Inductive Conn := UnixConn (s : socket) | OtherConn.

Definition not_unix : error := New "signerd: connection is not a Unix socket".

Section Peer.
(** The texts of the system's error numbers. *)
Context (Errno : Z -> error).

(** The value and the error a Go function returns together. *)
Definition peerUID_linux (conn : Conn) : Z * option error :=
  match conn with
  | OtherConn => (0, Some not_unix)
  | UnixConn s =>
      match SyscallConn s with
      | Some err => (0, Some err)
      | None =>
          match Control s with
          | Some err => (0, Some err)
          | None => match GetsockoptUcred s with Err e => (0, Some e) | Ok uid => (uid, None) end
          end
      end
  end.
Definition peerUID_darwin (conn : Conn) : Z * option error :=
  match conn with
  | OtherConn => (0, Some not_unix)
  | UnixConn s =>
      match SyscallConn s with
      | Some err => (0, Some err)
      | None =>
          match Control s with
          | Some err => (0, Some err)
          | None =>
              let '(opErr, uid) := LOCAL_PEERCRED s in
              if negb (opErr =? 0) then (0, Some (Errno opErr)) else (uid, None)
          end
      end
  end.

(** What the gate makes of the two: the value only without an error. *)
Definition identified (r : Z * option error) : result Z := match r with (uid, None) => Ok uid | (_, Some e) => Err e end.

(** What it takes for the kernel to name a peer. *)
Definition names (option_ : socket -> result Z) (conn : Conn) (uid : Z) : Prop :=
  exists s, conn = UnixConn s /\ SyscallConn s = None /\ Control s = None /\ option_ s = Ok uid.
Definition darwin_option (s : socket) : result Z := if fst (LOCAL_PEERCRED s) =? 0 then Ok (snd (LOCAL_PEERCRED s)) else Err (Errno (fst (LOCAL_PEERCRED s))).

Lemma linux_names conn uid : identified (peerUID_linux conn) = Ok uid <-> names GetsockoptUcred conn uid.
Proof.
  unfold names. destruct conn as [s|]; [|split; [done|by intros (? & ? & _)]]. cbn. split.
  - intros H. exists s. destruct (SyscallConn s); [done|]. destruct (Control s); [done|]. destruct (GetsockoptUcred s); [|done].
    cbn in H. apply Ok_inj in H as ->. done.
  - intros (? & [= <-] & -> & -> & ->). done.
Qed.
Lemma darwin_names conn uid : identified (peerUID_darwin conn) = Ok uid <-> names darwin_option conn uid.
Proof.
  unfold names, darwin_option. destruct conn as [s|]; [|split; [done|by intros (? & ? & _)]]. cbn. split.
  - intros H. exists s. destruct (SyscallConn s); [done|]. destruct (Control s); [done|]. destruct (LOCAL_PEERCRED s) as [n u]. cbn in *.
    destruct (n =? 0); [|done]. cbn in H. apply Ok_inj in H as ->. done.
  - intros (? & [= <-] & -> & -> & H). destruct (LOCAL_PEERCRED s) as [n u]. cbn in *. destruct (n =? 0); [|done]. cbn. by apply Ok_inj in H as ->.
Qed.

Section Gate.
Context {CR : Crypto} {UT : UnicodeTables} (decode_request : bytes -> result signerd.Request).

(** a peer the kernel does not name is refused.  On either platform, unless the
    connection is a Unix socket on which the kernel answered with the owner's
    uid, the daemon sends one refusal and nothing of what the peer sent reaches a
    key: an unanswered question is never taken for uid 0. *)
Theorem unnamed_peer_refused servers writes owner conn input :
  (~ names GetsockoptUcred conn owner ->
   exists msg, signerd.handle decode_request servers writes owner (identified (peerUID_linux conn)) input = [(signerd.failure msg, writes 0%nat)])
  /\ (~ names darwin_option conn owner ->
      exists msg, signerd.handle decode_request servers writes owner (identified (peerUID_darwin conn)) input = [(signerd.failure msg, writes 0%nat)]).
Proof.
  rewrite <- linux_names, <- darwin_names. unfold signerd.handle.
  split; (destruct (identified _) as [u|e]; [|by eexists]); destruct (Z.eqb_spec u owner) as [->|]; try done; by eexists.
Qed.
End Gate.
End Peer.

(** The owner, a stranger, and a socket whose option fails. *)
Example peers :
  let number := fun n => Errorf "errno %d" [AInt n] in
  let s o := UnixConn (mkSocket None None o (match o with Ok u => (0, u) | Err _ => (57, 0) end)) in
  identified (peerUID_linux (s (Ok 501))) = Ok 501 /\ identified (peerUID_darwin number (s (Ok 501))) = Ok 501
  /\ is_ok (identified (peerUID_linux (s (Err not_unix)))) = false /\ is_ok (identified (peerUID_darwin number (s (Err not_unix)))) = false
  /\ (peerUID_linux (s (Err not_unix))).1 = 0.
Proof. by vm_compute. Qed.
End peercred.
