(* ===== verification/Export.v ===== *)
(** internal/export (export.go): the evidence-carrying envelope of a log, its
    content addresses and the signature over its header. *)
From S2P Require Import Prelude GoFmt GoTime GoCrypto GoJson GoJsonText GoJsonInj Types Signer Policy Credential.
From S2P Require Import AuditLog.

Module export.

Definition Version : string := "kessa-audit-export/v2".
Definition credIDDomain : string := "kessa/credential-id/v1".
Definition policyIDDomain : string := "kessa/policy-id/v1".
Definition envelopeSigDomain : string := "kessa/audit-export-envelope/v2".

Record CredentialRecord := mkRecord
  { CredentialID_ : string; Credential_ : credential.Credential; IssuerProof : slice Byte.byte }.
#[global] Instance CredentialRecord_eq_dec : EqDecision CredentialRecord.
Proof. solve_decision. Defined.

Record Export := mkExport
  { Version_ : string; Signer : types.DID; Entries : list audit.Entry;
    Credentials : gmap string CredentialRecord; Policy : option policy.Policy; EnvelopeSignature : bytes }.

(** ** Content addresses *)

Definition address (domain : string) (body : bytes) : string :=
  RawURLEncoding (sha256.Sum256 (s2b domain ++ Byte.x00 :: body)).

Definition CredentialID (c : credential.Credential) : result string :=
  let! body := wrap (fun e => Errorf "export: canonicalize credential: %w" [AErr e])
                 (Marshal (credential.Credential_json c)) in
  Ok (address credIDDomain body).

(** The encoding of a policy cannot fail: it has no instants and no raw parts. *)
Definition PolicyID (p : policy.Policy) : result string :=
  let! body := wrap (fun e => Errorf "export: canonicalize policy: %w" [AErr e])
                 (Marshal (Ok (policy.Policy_json p))) in
  Ok (address policyIDDomain body).

(** ** The envelope *)

Definition envelopeSigningInput (version : string) (signerDID : types.DID) (policyID : string)
  (entryCount : Z) (tipHash : bytes) : bytes :=
  s2b envelopeSigDomain ++ Byte.x00 :: s2b version ++ Byte.x00 :: s2b signerDID ++ Byte.x00 :: s2b policyID
  ++ Byte.x00 :: be64 entryCount ++ Byte.x00 :: tipHash.

Definition logTip (es : list audit.Entry) : bytes :=
  match last es with Some e => audit.EntryHash e | None => audit.GenesisHash end.

(** ** The evidence set *)

Definition CredentialSet : Type := gmap string CredentialRecord.
Definition NewCredentialSet : CredentialSet := ∅.
Definition Has (s : CredentialSet) (id : string) : bool := bool_decide (is_Some (s !! id)).
Definition Add (s : CredentialSet) (c : credential.Credential) (issuerProof : slice Byte.byte)
  : result (CredentialSet * string) :=
  let! id := CredentialID c in
  Ok (if Has s id then s else <[id := mkRecord id c issuerProof]> s, id).
Definition Len (s : CredentialSet) : Z := Z.of_nat (size s).
Definition Records (s : CredentialSet) : gmap string CredentialRecord := s.

Definition policy_address (p : option policy.Policy) : result string :=
  match p with Some p => PolicyID p | None => Ok ""%string end.

Definition Build (ep : signer.Signer) (es : list audit.Entry) (set : CredentialSet) (pol : option policy.Policy)
  : result Export :=
  let! pid := policy_address pol in
  let! sig := wrap (fun e => Errorf "export: sign envelope: %w" [AErr e])
                (signer.Sign ep (envelopeSigningInput Version (signer.DID ep) pid (len es) (logTip es))) in
  Ok (mkExport Version (signer.DID ep) es (Records set) pol sig).

Definition IsV1 (e : Export) : bool := Version_ e =?s audit.ExportVersion.

(** The JSON forms; [Marshal] writes the indented text of the envelope's. *)
Definition CredentialRecord_json (r : CredentialRecord) : result json :=
  let! c := credential.Credential_json (Credential_ r) in
  Ok (JObj (field "credentialID" (JStr (CredentialID_ r)) ++ field "credential" c
            ++ field "issuerProof" (j_slice j_bytes (IssuerProof r)))).

(** [Parse], after encoding/json has decoded the envelope. *)
Definition Parse (e : Export) : result Export :=
  if Version_ e =?s Version then
    match Policy e with
    | Some p => check! wrap (fun e => Errorf "export: carried policy is invalid: %w" [AErr e]) (policy.Validate p); Ok e
    | None => Ok e
    end
  else if Version_ e =?s audit.ExportVersion then
    check! reject_if (0 <? Z.of_nat (size (Credentials e)))
      (New "export: v1 envelope must not carry a credential set");
    check! reject_if (bool_decide (Policy e <> None)) (New "export: v1 envelope must not carry a policy");
    check! reject_if (0 <? len (EnvelopeSignature e))
      (New "export: v1 envelope must not carry an envelope signature");
    Ok e
  else Err (Errorf "export: unsupported export version %q" [AStr (Version_ e)]).

(** ** Content addresses identify their content *)

Definition address_collision (domain : string) (b1 b2 : bytes) : Prop :=
  b1 <> b2 /\ sha256.Sum256 (s2b domain ++ Byte.x00 :: b1) = sha256.Sum256 (s2b domain ++ Byte.x00 :: b2).

Lemma address_inj domain b1 b2 : address domain b1 = address domain b2 -> b1 = b2 \/ address_collision domain b1 b2.
Proof.
  intros H%(inj RawURLEncoding). destruct (decide (b1 = b2)) as [|Hne]; [by left|right]. done.
Qed.

Definition same_credential (c1 c2 : credential.Credential) : Prop :=
  credential.Subject c1 = credential.Subject c2 /\ credential.Issuer c1 = credential.Issuer c2
  /\ credential.Macaroon_ c1 = credential.Macaroon_ c2 /\ credential.StatusRef c1 = credential.StatusRef c2
  /\ credential.HolderKey c1 = credential.HolderKey c2.

Lemma credential_id_inj c1 c2 id :
  credential.valid_credential c1 = true -> CredentialID c1 = Ok id -> CredentialID c2 = Ok id ->
  same_credential c1 c2
  \/ exists b1 b2, Marshal (credential.Credential_json c1) = Ok b1
       /\ Marshal (credential.Credential_json c2) = Ok b2 /\ address_collision credIDDomain b1 b2.
Proof.
  unfold CredentialID. intros Hv H1 H2. gosimp H1. gosimp H2. apply Ok_inj in H1, H2. subst id.
  apply address_inj in H2 as [<-|Hc].
  - left. destruct (credential.Credential_json_front c1 c2 a0 Hv Ha Ha0) as [Hf _].
    by apply credential.Credential_fields_inj.
  - right. exists a, a0. split_and!; [done|done|]. destruct Hc as [? ?]. by split.
Qed.

(** a credential id identifies a credential: two credentials with the same
    id, one of them with valid strings, agree in every field that carries
    authority, or their encodings are an explicit SHA-256 collision. *)
Theorem credential_id_binds c1 c2 id :
  credential.valid_credential c1 = true -> CredentialID c1 = Ok id -> CredentialID c2 = Ok id ->
  same_credential c1 c2
  \/ exists b1 b2, Marshal (credential.Credential_json c1) = Ok b1
       /\ Marshal (credential.Credential_json c2) = Ok b2 /\ address_collision credIDDomain b1 b2.
Proof. apply credential_id_inj. Qed.

(** *** Policies *)

Lemma Condition_json_inj c1 c2 : policy.Condition_json c1 = policy.Condition_json c2 -> c1 = c2.
Proof. destruct c1, c2. unfold policy.Condition_json, field. simpl. intros H. injection H. congruence. Qed.

Lemma Forall2_map_inj {A B} (f : A -> B) l1 l2 : (forall x y, f x = f y -> x = y) -> map f l1 = map f l2 -> l1 = l2.
Proof.
  intros Hf. revert l2. induction l1 as [|x l1 IH]; intros [|y l2] H; try discriminate; [done|].
  simpl in H. injection H as Hx H. apply Hf in Hx. f_equal; [done|by apply IH].
Qed.

Lemma JArr_map_inj {A} (f : A -> json) l1 l2 :
  (forall x y, f x = f y -> x = y) -> JArr (map f l1) = JArr (map f l2) -> l1 = l2.
Proof. intros Hf H. injection H as H. by apply Forall2_map_inj in H. Qed.

Lemma Rule_json_inj r1 r2 : policy.Rule_json r1 = policy.Rule_json r2 -> r1 = r2.
Proof.
  unfold policy.Rule_json. intros Hj. pose proof (JObj_inj _ _ Hj) as Hm.
  destruct r1 as [n1 w1 d1 c1 s1], r2 as [n2 w2 d2 c2 s2].
  cbn [policy.Name policy.When policy.Deny policy.RConsequential policy.RReason] in Hm. f_equal.
  - by_member Hm "name"%string. congruence.
  - by_member Hm "when"%string. apply (inj Some) in Hf. apply j_slice_inj in Hf; [done| |done].
    intros l1 l2. apply JArr_map_inj, Condition_json_inj.
  - by_member Hm "deny"%string. destruct d1, d2; simpl in Hf; congruence.
  - by_member Hm "consequential"%string. destruct c1, c2; simpl in Hf; congruence.
  - by_member Hm "reason"%string. congruence.
Qed.

(** Policies that differ at most in whether the default block was present. *)
Definition same_policy (p1 p2 : policy.Policy) : Prop :=
  policy.Ver p1 = policy.Ver p2 /\ policy.Rules p1 = policy.Rules p2 /\ policy.Dflt p1 = policy.Dflt p2.

Lemma Policy_json_inj p1 p2 : policy.Policy_json p1 = policy.Policy_json p2 -> same_policy p1 p2.
Proof.
  unfold policy.Policy_json. intros Hj. pose proof (JObj_inj _ _ Hj) as Hm. split_and!.
  - by_member Hm "version"%string. congruence.
  - by_member Hm "rules"%string. apply (inj Some) in Hf. apply j_slice_inj in Hf; [done| |done].
    intros l1 l2. apply JArr_map_inj, Rule_json_inj.
  - by_member Hm "default"%string. apply (inj Some) in Hf.
    destruct (policy.Dflt p1), (policy.Dflt p2). unfold policy.Default_json, field in Hf. simpl in Hf.
    injection Hf. congruence.
Qed.

Lemma no_raw_Policy p : no_raw (policy.Policy_json p) = true.
Proof.
  unfold policy.Policy_json. rewrite plain_obj, !plain_field.
  destruct (policy.Rules p) as [l|]; [|done]. unfold plain_members. simpl. rewrite !andb_true_r.
  apply forallb_Forall_true, Forall_map, Forall_forall. intros r _.
  unfold policy.Rule_json. rewrite plain_obj, !plain_field. rewrite !andb_true_iff. split_and!; try done.
  - destruct (policy.When r) as [cs|]; [|done]. simpl. by apply forallb_Forall_true, Forall_map, Forall_forall.
  - apply plain_omit; [done..|]. by apply plain_omit.
Qed.

(** a policy id identifies the ruleset: two policies with the same id, one
    of them with valid strings, evaluate every action alike, or their encodings
    are an explicit SHA-256 collision. *)
Theorem policy_id_binds {UT : UnicodeTables} p1 p2 id :
  valid_json (policy.Policy_json p1) = true -> PolicyID p1 = Ok id -> PolicyID p2 = Ok id ->
  (same_policy p1 p2 /\ forall a, policy.Evaluate p1 a = policy.Evaluate p2 a)
  \/ address_collision policyIDDomain (encode (policy.Policy_json p1)) (encode (policy.Policy_json p2)).
Proof.
  unfold PolicyID, Marshal. cbn [rbind wrap]. intros Hv H1 H2. apply Ok_inj in H1, H2. subst id.
  apply address_inj in H2 as [He|Hc].
  - left. symmetry in He. apply encode_inj in He; [|done|apply no_raw_Policy]. apply Policy_json_inj in He.
    split; [done|]. intros a. destruct He as (E1 & E2 & E3).
    assert (Her : forall rules ctx, policy.eval_rules p1 rules ctx = policy.eval_rules p2 rules ctx).
    { induction rules as [|r rules IH]; intros ctx; simpl; [done|]. by rewrite E1, IH. }
    unfold policy.Evaluate. by rewrite Her, E1, E2, E3.
  - right. destruct Hc as [? ?]. by split.
Qed.

(** ** The signed header *)

Lemma RawURL_nul_free b : nul_free (s2b (RawURLEncoding b)).
Proof.
  intros Hin. pose proof (RawURL_safe b) as Hs. rewrite Forall_forall in Hs. apply Hs in Hin. by vm_compute in Hin.
Qed.

Lemma policy_address_nul_free p id : policy_address p = Ok id -> nul_free (s2b id).
Proof.
  destruct p as [p|]; simpl; [|intros [= <-]; apply nul_free_nil].
  unfold PolicyID. simpl. intros [= <-]. apply RawURL_nul_free.
Qed.

Lemma envelope_inj v1 v2 s1 s2 p1 p2 id1 id2 n1 n2 t1 t2 :
  nul_free (s2b v1) -> nul_free (s2b v2) -> policy_address p1 = Ok id1 -> policy_address p2 = Ok id2 ->
  len t1 = len t2 -> 0 <= n1 < 2 ^ 64 -> 0 <= n2 < 2 ^ 64 ->
  envelopeSigningInput v1 s1 id1 n1 t1 = envelopeSigningInput v2 s2 id2 n2 t2 ->
  v1 = v2 /\ s1 = s2 /\ id1 = id2 /\ n1 = n2 /\ t1 = t2.
Proof.
  intros V1 V2 P1%policy_address_nul_free P2%policy_address_nul_free Hl N1 N2 H.
  unfold envelopeSigningInput in H. apply app_inv_head, cons_tail in H.
  apply sep_split in H as [Hv H]; [|done..].
  assert (Hr : forall s p n t, s ++ Byte.x00 :: p ++ Byte.x00 :: be64 n ++ Byte.x00 :: t
                               = (s ++ Byte.x00 :: p) ++ (Byte.x00 :: be64 n ++ Byte.x00 :: t)).
  { intros. by rewrite <- app_assoc. }
  rewrite !Hr in H. apply app_inj_2 in H as [H Ht].
  2: { unfold len in Hl. cbn [length]. rewrite !length_app, !length_be64. simpl. lia. }
  apply cons_tail, app_inj_length in Ht as [Hn Ht]; [|by rewrite !length_be64].
  apply sep_split_r in H as [Hs Hp]; [|done..]. apply cons_tail in Ht.
  split_and!; try (by apply (inj s2b)); [|done]. by apply be64_inj.
Qed.

(** the envelope signature's bytes determine version, signer, policy id,
    number of entries and tip hash: an envelope signed for one header cannot be
    read as one for another. *)
Theorem envelope_binds v1 v2 s1 s2 p1 p2 id1 id2 n1 n2 t1 t2 :
  nul_free (s2b v1) -> nul_free (s2b v2) -> policy_address p1 = Ok id1 -> policy_address p2 = Ok id2 ->
  len t1 = len t2 -> 0 <= n1 < 2 ^ 64 -> 0 <= n2 < 2 ^ 64 ->
  envelopeSigningInput v1 s1 id1 n1 t1 = envelopeSigningInput v2 s2 id2 n2 t2 ->
  v1 = v2 /\ s1 = s2 /\ id1 = id2 /\ n1 = n2 /\ t1 = t2.
Proof. apply envelope_inj. Qed.

(** ** The evidence set *)

Definition wf_set (s : CredentialSet) : Prop :=
  map_Forall (fun id r => CredentialID_ r = id /\ CredentialID (Credential_ r) = Ok id) s.

(** adding evidence is idempotent and conservative: the credential is
    stored under its own content address, records already present are kept as
    they were, and every record stays addressed by its content. *)
Theorem add_evidence s c proof s' id :
  wf_set s -> Add s c proof = Ok (s', id) ->
  wf_set s' /\ CredentialID c = Ok id /\ Has s' id = true /\ s ⊆ s'
  /\ (Has s id = false -> s' !! id = Some (mkRecord id c proof))
  /\ Add s' c proof = Ok (s', id).
Proof.
  intros Hw H. unfold Add in H. gosimp H. apply Ok_inj in H.
  destruct (Has s a) eqn:E; injection H as <- <-; unfold Add; rewrite Ha; cbn [rbind].
  - rewrite E. split_and!; done.
  - assert (Hn : s !! a = None) by (apply eq_None_not_Some; unfold Has in E; by apply bool_decide_eq_false in E).
    assert (Hi : Has (<[a:=mkRecord a c proof]> s) a = true).
    { apply bool_decide_eq_true. exists (mkRecord a c proof). apply lookup_insert_eq. }
    rewrite Hi. split_and!; try done.
    + by apply map_Forall_insert_2.
    + by apply insert_subseteq.
    + intros _. apply lookup_insert_eq.
Qed.

(** ** Parsing dispatches on the version *)

Lemma Parse_same e e' : Parse e = Ok e' -> e' = e.
Proof.
  unfold Parse. intros H. repeat case_in H; try discriminate; gosimp H; by apply Ok_inj in H.
Qed.

(** only two versions are accepted: an evidence envelope, whose carried
    policy then satisfies exactly the validation a proxy applies, and an
    integrity-only one, which carries no evidence, no policy and no envelope
    signature. *)
Theorem parse_versions e e' :
  Parse e = Ok e' ->
  e' = e /\ ((Version_ e = Version /\ IsV1 e = false /\ forall p, Policy e = Some p -> policy.Validate p = Ok tt)
             \/ (IsV1 e = true /\ Credentials e = ∅ /\ Policy e = None /\ EnvelopeSignature e = [])).
Proof.
  unfold Parse, IsV1. destruct (Version_ e =?s Version) eqn:E.
  - apply str_eqb_true in E. rewrite E. destruct (Policy e) as [p|]; intros H.
    + gosimp H. apply Ok_inj in H. split; [done|]. left. split_and!; [done..|]. by intros ? [= <-].
    + apply Ok_inj in H. split; [done|]. left. done.
  - destruct (Version_ e =?s audit.ExportVersion); [|done]. intros H. gosimp H. apply Ok_inj in H. split; [done|].
    right. apply Z.ltb_ge in Ha, Ha1. split_and!; [done| | |].
    + apply map_size_empty_iff. lia.
    + apply bool_decide_eq_false in Ha0. destruct (Policy e); [|done]. by destruct Ha0.
    + apply len_zero. pose proof (len_nonneg (EnvelopeSignature e)). lia.
Qed.

(** ** Concrete instances *)

#[local] Instance ascii_tables : UnicodeTables := Build_UnicodeTables (fun r => r <? 128).

Definition test_policy : policy.Policy := policy.example_policy.
Definition test_credential : credential.Credential := credential.test_credential.
Definition test_id : string := Eval vm_compute in match CredentialID test_credential with Ok s => s | Err _ => ""%string end.
Lemma test_id_Ok : CredentialID test_credential = Ok test_id.
Proof. vm_compute. reflexivity. Qed.
Definition test_pid : string := Eval vm_compute in match PolicyID test_policy with Ok s => s | Err _ => ""%string end.
Lemma test_pid_Ok : PolicyID test_policy = Ok test_pid.
Proof. vm_compute. reflexivity. Qed.

Lemma credential_id_binds_witness :
  same_credential test_credential test_credential
  \/ exists b1 b2, Marshal (credential.Credential_json test_credential) = Ok b1
       /\ Marshal (credential.Credential_json test_credential) = Ok b2 /\ address_collision credIDDomain b1 b2.
Proof.
  apply (credential_id_binds _ _ test_id); [vm_compute; reflexivity|exact test_id_Ok|exact test_id_Ok].
Defined.

Lemma policy_id_binds_witness :
  (same_policy test_policy test_policy /\ forall a, policy.Evaluate test_policy a = policy.Evaluate test_policy a)
  \/ address_collision policyIDDomain (encode (policy.Policy_json test_policy)) (encode (policy.Policy_json test_policy)).
Proof.
  apply (policy_id_binds test_policy test_policy test_pid); [vm_compute; reflexivity|exact test_pid_Ok|exact test_pid_Ok].
Defined.

Lemma envelope_binds_witness : Version = Version /\ "s"%string = "s"%string /\ test_pid = test_pid /\ 2 = 2 /\ [Byte.x01] = [Byte.x01].
Proof.
  apply (envelope_binds Version Version "s" "s" (Some test_policy) (Some test_policy) test_pid test_pid 2 2 [Byte.x01] [Byte.x01]);
    first [exact test_pid_Ok|lia|reflexivity|idtac].
  all: unfold nul_free; by apply (bool_decide_unpack _).
Defined.

Lemma add_evidence_witness :
  let s' := <[test_id := mkRecord test_id test_credential None]> (∅ : CredentialSet) in
  wf_set s' /\ CredentialID test_credential = Ok test_id /\ Has s' test_id = true /\ ∅ ⊆ s'
  /\ (Has ∅ test_id = false -> s' !! test_id = Some (mkRecord test_id test_credential None))
  /\ Add s' test_credential None = Ok (s', test_id).
Proof.
  apply (add_evidence ∅ test_credential None _ test_id).
  - apply map_Forall_empty.
  - unfold Add. rewrite test_id_Ok. cbn [rbind]. done.
Defined.

Definition test_export : Export := mkExport Version "did:web:proxy.example" [] ∅ (Some test_policy) [Byte.x01].
Lemma parse_versions_witness :
  test_export = test_export
  /\ ((Version_ test_export = Version /\ IsV1 test_export = false
       /\ forall p, Policy test_export = Some p -> policy.Validate p = Ok tt)
      \/ (IsV1 test_export = true /\ Credentials test_export = ∅ /\ Policy test_export = None
          /\ EnvelopeSignature test_export = [])).
Proof. apply (parse_versions test_export). vm_compute. reflexivity. Defined.

End export.
