(* ===== verification/Texts.v ===== *)
(** The text forms the program publishes: the indented JSON of credentials,
    chains, logs, exports, status lists and DID documents, and the files they
    are written to. *)
From S2P Require Import Prelude GoFmt GoTime GoCrypto GoPath GoJson GoJsonText GoIndent Types Signer Did Status Vc.
From S2P Require Import Policy Macaroon Credential Chain AuditLog Export.

(** ** Files

    A file system is the contents of its files by path.  A write is answered by
    the operating system: done, refused before the file was touched, or failed
    after [n] bytes of a truncated file were written. *)
Module files.
Definition files : Type := gmap string bytes.
Inductive answer := Done | Refused (e : error) | Partial (n : nat) (e : error).
Definition WriteFile (fs : files) (path : string) (data : bytes) (a : answer) : files * result unit :=
  match a with
  | Done => (<[path := data]> fs, Ok tt)
  | Refused e => (fs, Err e)
  | Partial n e => (<[path := take n data]> fs, Err e)
  end.
Definition ReadFile (fs : files) (path : bytes) : result bytes :=
  match fs !! b2s path with Some d => Ok d | None => Err (New "no such file or directory") end.

(** Directory creation, when it is refused; and the write after it. *)
Definition CreateAndWrite (mkdir write : error -> error) (fs : files) (path : string) (data : bytes)
  (m : option error) (a : answer) : files * result unit :=
  match m with
  | Some e => (fs, Err (mkdir e))
  | None => let '(fs, r) := WriteFile fs path data a in (fs, wrap write r)
  end.

Lemma CreateAndWrite_cases mkdir write fs path data m a fs' r :
  CreateAndWrite mkdir write fs path data m a = (fs', r) ->
  (r = Ok tt /\ fs' = <[path := data]> fs) \/ (is_ok r = false /\ (fs' = fs \/ exists d, fs' = <[path := d]> fs)).
Proof.
  unfold CreateAndWrite. destruct m as [e|]; [intros [= <- <-]; right; split; [done|by left]|].
  destruct a as [|e|n e]; intros [= <- <-]; [by left|right; split; [done|by left]|].
  right. split; [done|]. right. by eexists.
Qed.

Lemma ReadFile_eq (fs : files) p d : ReadFile (<[b2s p := d]> fs) p = Ok d.
Proof.
  unfold ReadFile. assert (E : (<[b2s p := d]> fs : files) !! b2s p = Some d) by apply lookup_insert_eq. by rewrite E.
Qed.
Lemma ReadFile_ne (fs : files) p q d : q <> p -> ReadFile (<[b2s p := d]> fs) q = ReadFile fs q.
Proof.
  intros Hn. unfold ReadFile. assert (E : (<[b2s p := d]> fs : files) !! b2s q = fs !! b2s q)
    by (apply lookup_insert_ne; intros He; apply Hn; by apply (inj b2s)). by rewrite E.
Qed.
End files.

Module texts.

(** ** The JSON of the structs that are only ever published

    A list field is never the nil slice here, except the entries of a bare log
    export, which are nil exactly when the log is empty. *)

Fixpoint json_list {A} (f : A -> result json) (l : list A) : result (list json) :=
  match l with
  | [] => Ok []
  | x :: l => let! j := f x in let! js := json_list f l in Ok (j :: js)
  end.
(** A list that may be the nil slice: [null]. *)
Definition json_slice {A} (f : A -> result json) (s : slice A) : result json :=
  match s with None => Ok JNull | Some l => let! js := json_list f l in Ok (JArr js) end.

Definition VerificationMethod_json (v : did.VerificationMethod) : json :=
  JObj (field "id" (JStr (did.VM_ID v)) ++ field "type" (JStr (did.VM_Type v))
        ++ field "controller" (JStr (did.Controller v))
        ++ match did.PublicKeyJwk v with Some j => field "publicKeyJwk" (credential.JWK_json j) | None => [] end).
Definition Document_json (d : did.Document) : json :=
  JObj (field "@context" (j_strings (did.Context_ d)) ++ field "id" (JStr (did.ID d))
        ++ field "verificationMethod" (JArr (map VerificationMethod_json (did.VerificationMethod_ d)))
        ++ audit.strings_field_omit "authentication" (did.Authentication d)
        ++ audit.strings_field_omit "assertionMethod" (did.AssertionMethod d)).

Definition published_json (p : status.published) : json :=
  JObj (field "issuer" (JStr (status.p_Issuer p)) ++ field "purpose" (JStr (status.p_Purpose p))
        ++ field "encoding" (JStr (status.Encoding p)) ++ field "bitstring" (JStr (status.Bitstring p))
        ++ field "signature" (JStr (status.p_Signature p))).

Definition Chain_json (c : chain.Chain) : result json :=
  let! links := json_slice chain.Link_json (chain.Links c) in
  Ok (JObj (field "links" links)).

Definition audit_Export_json (e : audit.Export) : result json :=
  let! es := json_list audit.Entry_json (audit.Entries_ e) in
  Ok (JObj (field "version" (JStr (audit.Version e)) ++ field "signer" (JStr (audit.Signer e)) ++ field "entries" (if bool_decide (audit.Entries_ e = []) then JNull else JArr es))).

(** A map of records, by ascending key. *)
Fixpoint record_members (l : list (string * export.CredentialRecord)) : result (list (string * json)) :=
  match l with
  | [] => Ok []
  | (k, r) :: l =>
      let! j := export.CredentialRecord_json r in
      let! js := record_members l in
      Ok ((k, j) :: js)
  end.
Definition Export_json (e : export.Export) : result json :=
  let! es := json_list audit.Entry_json (export.Entries e) in
  let! rs := record_members (map_to_list (export.Credentials e)) in
  Ok (JObj (field "version" (JStr (export.Version_ e)) ++ field "signer" (JStr (export.Signer e))
            ++ field "entries" (JArr es)
            ++ omit_if (bool_decide (export.Credentials e = ∅)) "credentials" (JObj (foldr insert_key [] rs))
            ++ match export.Policy e with Some p => field "policy" (policy.Policy_json p) | None => [] end
            ++ bytes_field_omit "envelopeSignature" (export.EnvelopeSignature e))).

(** ** Marshal *)

Definition VC_Marshal (c : vc.VerifiableCredential) : result bytes := MarshalIndent (vc.VC_json c).
Definition Credential_Marshal (c : credential.Credential) : result bytes := MarshalIndent (credential.Credential_json c).
Definition Chain_Marshal (c : chain.Chain) : result bytes := MarshalIndent (Chain_json c).
Definition Log_Export (l : audit.Log) : result bytes := MarshalIndent (audit_Export_json (audit.Log_Export l)).
Definition Export_Marshal (e : export.Export) : result bytes := MarshalIndent (Export_json e).
Definition StatusList_Marshal (l : status.StatusList) : result bytes :=
  let! p := status.Marshal l in MarshalIndent (Ok (published_json p)).

(** [WriteDocument]: the file written is the document's path beneath [root]. *)
Definition WriteDocument (fs : files.files) (root : bytes) (doc : option did.Document) (mkdir : option error)
  (a : files.answer) : files.files * result bytes :=
  match doc with
  | None => (fs, Err (New "did: nil document"))
  | Some doc =>
      match did.DocumentPath root (did.ID doc), mkdir with
      | Err e, _ => (fs, Err e)
      | Ok path, Some e => (fs, Err (Errorf "did: create %q: %w" [AStr (b2s (filepath_Dir path)); AErr e]))
      | Ok path, None =>
          match wrap (fun e => Errorf "did: marshal document %q: %w" [AStr (did.ID doc); AErr e]) (MarshalIndent (Ok (Document_json doc))) with
          | Err e => (fs, Err e)
          | Ok data =>
              let '(fs, r) := files.WriteFile fs (b2s path) (data ++ [Byte.x0a]) a in
              (fs, let! _ := wrap (fun e => Errorf "did: write %q: %w" [AStr (b2s path); AErr e]) r in Ok path)
          end
      end
  end.

(** [status.Save] and [status.Publish]. *)
Definition Save (fs : files.files) (l : status.StatusList) (path : string) (a : files.answer) : files.files * result unit :=
  match StatusList_Marshal l with
  | Err e => (fs, Err e)
  | Ok data => files.WriteFile fs path data a
  end.
Definition Publish (url_Parse : string -> result status.ParsedURL) (fs : files.files) (l : status.StatusList) (root : bytes)
  (listURL : string) (mkdir : option error) (a : files.answer) : files.files * result bytes :=
  match status.PublishPath url_Parse root listURL with
  | Err e => (fs, Err e)
  | Ok path =>
      match mkdir with
      | Some e => (fs, Err (Errorf "status: create %q: %w" [AStr (b2s (filepath_Dir path)); AErr e]))
      | None => let '(fs, r) := Save fs l (b2s path) a in (fs, let! _ := r in Ok path)
      end
  end.

(** [status.Parse] on a text, through encoding/json, and [status.Load]. *)
Definition status_Parse (Unmarshal : bytes -> result status.published) (data : bytes) : result status.StatusList :=
  let! p := wrap (fun e => Errorf "status: parse: %w" [AErr e]) (Unmarshal data) in status.Parse p.
Definition Load (Unmarshal : bytes -> result status.published) (fs : files.files) (path : bytes) : result status.StatusList :=
  let! data := wrap (fun e => Errorf "status: load %q: %w" [AStr (b2s path); AErr e]) (files.ReadFile fs path) in
  status_Parse Unmarshal data.

(** [policy.Parse] and [policy.Load], after encoding/json has decoded the raw
    fields; [chain.Parse]. *)
Definition policy_fields : Type := string * slice policy.Rule * option policy.Default.
Definition policy_Parse (Unmarshal : bytes -> result policy_fields) (data : bytes) : result policy.Policy :=
  let! f := wrap (fun e => Errorf "policy: parse: %w" [AErr e]) (Unmarshal data) in
  let p := policy.Unmarshal f.1.1 f.1.2 f.2 in
  check! policy.Validate p;
  Ok p.
Definition policy_Load (Unmarshal : bytes -> result policy_fields) (fs : files.files) (path : string) : result policy.Policy :=
  let! data := wrap (fun e => Errorf "policy: load %q: %w" [AStr path; AErr e]) (files.ReadFile fs (s2b path)) in
  policy_Parse Unmarshal data.
Definition Chain_Parse (Unmarshal : bytes -> result chain.Chain) (data : bytes) : result chain.Chain :=
  wrap (fun e => Errorf "chain: parse: %w" [AErr e]) (Unmarshal data).

(** ** Facts *)

(** A document is written at its own path, as the text of its JSON, or not at
    all; nothing else changes. *)
Lemma WriteDocument_Ok fs root doc mkdir a fs' path :
  WriteDocument fs root (Some doc) mkdir a = (fs', Ok path) ->
  did.DocumentPath root (did.ID doc) = Ok path
  /\ fs' = <[b2s path := Indent (encode (Document_json doc)) ++ [Byte.x0a]]> fs.
Proof.
  unfold WriteDocument. destruct (did.DocumentPath root (did.ID doc)) as [p|e]; [|done]. destruct mkdir; [done|].
  unfold MarshalIndent, Marshal. cbn [rbind wrap]. destruct a as [|e|n e]; cbn; [|done..]. intros [= <- Hr]. by subst p.
Qed.
Lemma WriteDocument_fails fs root doc mkdir a fs' e :
  WriteDocument fs root doc mkdir a = (fs', Err e) ->
  fs' = fs \/ exists d path data, doc = Some d /\ did.DocumentPath root (did.ID d) = Ok path /\ fs' = <[b2s path := data]> fs.
Proof.
  unfold WriteDocument. destruct doc as [doc|]; [|intros [= <- _]; by left].
  destruct (did.DocumentPath root (did.ID doc)) as [p|e'] eqn:Ep; [|intros [= <- _]; by left]. destruct mkdir; [intros [= <- _]; by left|].
  unfold MarshalIndent, Marshal. cbn [rbind wrap]. destruct a as [|e'|n e']; cbn; [done|intros [= <- _]; by left|].
  intros [= <- _]. right. by exists doc, p, (take n (Indent (encode (Document_json doc)) ++ [Byte.x0a])).
Qed.

(** A decoder that reads this document back from its own text, as encoding/json
    does for strings that are valid UTF-8. *)
Class Reads (Unmarshal : bytes -> result did.Document) (doc : did.Document) : Prop :=
  reads : Unmarshal (Indent (encode (Document_json doc)) ++ [Byte.x0a]) = Ok doc.

(** What is published is what the file resolver finds. *)
Lemma published_resolves Unmarshal fs root doc mkdir a fs' path {HR : Reads Unmarshal doc} :
  WriteDocument fs root (Some doc) mkdir a = (fs', Ok path) ->
  did.FileResolver_Resolve Unmarshal (files.ReadFile fs') root (did.ID doc) = Ok (Some doc).
Proof.
  intros (Hp & ->)%WriteDocument_Ok. unfold did.FileResolver_Resolve. rewrite Hp. cbn [rbind].
  rewrite files.ReadFile_eq. cbn [wrap rbind].
  unfold did.parseDocument. rewrite reads. cbn [wrap rbind]. unfold did.check_id. by rewrite str_eqb_refl.
Qed.
(** The key of an identifier whose own document is at its path. *)
Lemma document_key {CR : Crypto} Unmarshal fs root d k jwk doc p {HR : Reads Unmarshal doc} :
  did.DocumentPath root d = Ok p -> did.NewDocument d k = Some doc -> did.PublicKeyToJWK k = Some jwk ->
  files.ReadFile fs p = Ok (Indent (encode (Document_json doc)) ++ [Byte.x0a]) ->
  did.ResolveKey (did.FileResolver_Resolve Unmarshal (files.ReadFile fs) root) d = did.JWK_PublicKey (Some jwk).
Proof.
  intros Hp Hd Hj Hf. unfold did.ResolveKey, did.FileResolver_Resolve. rewrite Hp. cbn [rbind]. rewrite Hf.
  cbn [wrap rbind]. unfold did.parseDocument. rewrite reads. cbn [wrap rbind].
  unfold did.NewDocument in Hd. rewrite Hj in Hd. simpl in Hd. injection Hd as <-.
  unfold did.check_id. cbn [did.ID]. by rewrite str_eqb_refl.
Qed.
(** Publishing leaves every identifier with another path as it was. *)
Lemma published_frame Unmarshal fs root doc mkdir a fs' path d pd :
  WriteDocument fs root (Some doc) mkdir a = (fs', Ok path) ->
  did.DocumentPath root d = Ok pd -> pd <> path ->
  did.FileResolver_Resolve Unmarshal (files.ReadFile fs') root d = did.FileResolver_Resolve Unmarshal (files.ReadFile fs) root d.
Proof.
  intros (_ & ->)%WriteDocument_Ok Hd Hne. unfold did.FileResolver_Resolve. rewrite Hd. cbn [rbind].
  by rewrite files.ReadFile_ne.
Qed.

(** The same for lists: the decoder reads this published form back. *)
Class ReadsList (Unmarshal : bytes -> result status.published) (p : status.published) : Prop :=
  reads_list : Unmarshal (Indent (encode (published_json p))) = Ok p.

Lemma Publish_Ok url_Parse fs l root listURL mkdir a fs' path :
  Publish url_Parse fs l root listURL mkdir a = (fs', Ok path) ->
  status.PublishPath url_Parse root listURL = Ok path
  /\ exists p, status.Marshal l = Ok p /\ fs' = <[b2s path := Indent (encode (published_json p))]> fs.
Proof.
  unfold Publish. destruct (status.PublishPath _ _ _) as [q|e]; [|done]. destruct mkdir as [e|]; [done|].
  unfold Save, StatusList_Marshal. destruct (status.Marshal l) as [p|e]; cbn [rbind]; [|done].
  unfold MarshalIndent, Marshal. cbn [rbind]. destruct a as [|e|n e]; cbn [files.WriteFile rbind]; [|done..].
  intros [= <- <-]. split; [done|]. by exists p.
Qed.
(** A published list is what is loaded from its path, until the path is
    written again. *)
Lemma Load_published Unmarshal (fs : files.files) path l p {HR : ReadsList Unmarshal p} :
  status.Marshal l = Ok p -> Load Unmarshal (<[b2s path := Indent (encode (published_json p))]> fs) path = Ok l.
Proof.
  intros Hm. unfold Load. rewrite files.ReadFile_eq. cbn [wrap rbind]. unfold status_Parse. rewrite reads_list. cbn [wrap rbind].
  by apply status.Marshal_Parse.
Qed.
End texts.
