(* ===== verification/Genfixtures.v ===== *)
(** scripts/genfixtures (main.go): the did:web fixtures, written by a second
    implementation that shares no code with internal/did.

    Module [genfixtures] has that implementation and the proof that the two
    agree: on the path of a document, and on what it says. *)
From S2P Require Import Prelude GoFmt GoCrypto GoPath GoJson GoJsonText GoIndent Webhost Types Signer Did Credential Texts.

Module genfixtures.

Definition seed32 (b : Byte.byte) : bytes := repeat b 32.

(** The document as nested maps: encoding/json writes a map's members in the
    order of their keys. *)
Definition map_json (l : list (string * json)) : json := j_map (list_to_map l).
Definition doc (d : string) (pub : bytes) : json :=
  let vm := d +:+ "#key-1" in
  map_json
    [("@context", j_strings ["https://www.w3.org/ns/did/v1"; "https://w3id.org/security/suites/jws-2020/v1"]);
     ("id", JStr d);
     ("verificationMethod",
        JArr [map_json [("id", JStr vm); ("type", JStr "JsonWebKey2020"); ("controller", JStr d);
                        ("publicKeyJwk", map_json [("kty", JStr "OKP"); ("crv", JStr "Ed25519"); ("x", JStr (RawURLEncoding pub))])]]);
     ("authentication", j_strings [vm]);
     ("assertionMethod", j_strings [vm])]%string.

Record fixture := mkFixture { did_ : string; seed : Byte.byte; path : string }.
Definition fixtures : list fixture :=
  [mkFixture "did:web:localhost:orgs:acme" Byte.x11 "localhost/orgs/acme/did.json";
   mkFixture "did:web:localhost:orgs:bravo" Byte.x22 "localhost/orgs/bravo/did.json";
   mkFixture "did:web:localhost" Byte.x44 "localhost/.well-known/did.json";
   mkFixture "did:web:localhost:people:alice" Byte.x31 "localhost/people/alice/did.json";
   mkFixture "did:web:localhost:agents:worker" Byte.x33 "localhost/agents/worker/did.json";
   mkFixture "did:web:localhost:agents:helper" Byte.x34 "localhost/agents/helper/did.json";
   mkFixture "did:web:localhost:proxies:gatekeeper" Byte.x55 "localhost/proxies/gatekeeper/did.json"].

Section Write.
Context {SK : signer.SeedKeys}.

Definition full (root : bytes) (f : fixture) : bytes := filepath_Join [root; s2b (path f)].
Definition document (f : fixture) : result bytes :=
  let! b := MarshalIndent (Ok (doc (did_ f) (signer.ed25519_NewKeyFromSeed (seed32 (seed f))))) in Ok (b ++ [Byte.x0a]).

(** The loop: every failure is a panic, which ends it. *)
Fixpoint write_all (root : bytes) (fs : files.files) (l : list (fixture * option error * files.answer)) : files.files * result unit :=
  match l with
  | [] => (fs, Ok tt)
  | (f, m, a) :: l =>
      match m, document f with
      | Some e, _ => (fs, Err e)
      | None, Err e => (fs, Err e)
      | None, Ok b => let '(fs, r) := files.WriteFile fs (b2s (full root f)) b a in
                      match r with Ok _ => write_all root fs l | Err e => (fs, Err e) end
      end
  end.
Definition main (args : list string) (fs : files.files) (answers : list (option error * files.answer)) : files.files * result unit :=
  match args with
  | [root] => write_all (s2b root) fs (zip_with (fun f ma => (f, fst ma, snd ma)) fixtures answers)
  | _ => (fs, Err (New "usage: genfixtures <dids-root>"))
  end.

(** ** Two implementations of one document *)

(** A value with the members of every object in the order of their keys. *)
Fixpoint sorted (j : json) : json :=
  match j with
  | JArr l => JArr (map sorted l)
  | JObj l => JObj (foldr insert_key [] (map (fun kv => (fst kv, sorted (snd kv))) l))
  | _ => j
  end.

Lemma doc_sorted d pub :
  exists document, did.NewDocument d (Ed25519Key pub) = Some document /\ doc d pub = sorted (texts.Document_json document).
Proof. eexists. split; reflexivity. Qed.

Lemma full_paths root f : root <> [] -> f ∈ fixtures -> did.DocumentPath root (did_ f) = Ok (full root f).
Proof.
  intros Hr Hf. destruct root as [|c root]; [done|]. unfold fixtures in Hf.
  repeat (apply elem_of_cons in Hf as [->|Hf]; [reflexivity|]). by apply not_elem_of_nil in Hf.
Qed.

(** the second implementation agrees with internal/did: each fixture goes to the
    path where the resolver looks for its DID, and says, member for member, what
    NewDocument says of the DID and the key of its seed, the members of each
    object sorted by name. *)
Theorem fixtures_agree root f :
  root <> [] -> f ∈ fixtures ->
  did.DocumentPath root (did_ f) = Ok (full root f)
  /\ exists d, did.NewDocument (did_ f) (Ed25519Key (signer.ed25519_NewKeyFromSeed (seed32 (seed f)))) = Some d
       /\ document f = let! b := MarshalIndent (Ok (sorted (texts.Document_json d))) in Ok (b ++ [Byte.x0a]).
Proof.
  intros Hr Hf. split; [by apply full_paths|]. destruct (doc_sorted (did_ f) (signer.ed25519_NewKeyFromSeed (seed32 (seed f)))) as (d & Hd & He).
  exists d. split; [done|]. unfold document. by rewrite He.
Qed.
End Write.

(** The fixtures differ in DID, in key and in path. *)
Example fixtures_distinct : NoDup (map did_ fixtures) /\ NoDup (map seed fixtures) /\ NoDup (map path fixtures).
Proof. split_and!; apply (bool_decide_unpack _); vm_compute; exact I. Qed.
End genfixtures.
