(* ===== verification/Conformance.v ===== *)
(** internal/policy/conformance: the contract every evaluator is held to - the
    synthetic cases, the shipped example policies and the reported version - as
    the suite that runs them over any evaluator, from the text of each policy to
    the decision: one that gives every action what its policy means passes. *)
From S2P Require Import Prelude GoFmt GoTime GoCrypto GoPath GoJson GoJsonText GoJsonRead Webhost Types Signer Did Scalar Policy Meaning Macaroon Credential Chain AuditLog Export Texts.

Module conformance.

(** A Go raw string, written with backquotes for its double quotes. *)
Fixpoint q (s : string) : string :=
  match s with
  | EmptyString => EmptyString
  | String c s => String (if Ascii.eqb c "096"%char then dquote else c) (q s)
  end.

(** ** The contract (conformance.go) *)

(** [policy.Evaluator], and how a suite builds one from a policy's text. *)
Record Evaluator := mkEvaluator { Evaluate : types.Action -> result types.Decision; Version : string }.
Definition NewEvaluator : Type := bytes -> result Evaluator.

Record Want := mkWant { Allowed : bool; Consequential : bool; RuleFired : string; Reason : string }.
Record Case := mkCase { Name : string; Policy_ : string; Action_ : types.Action; Want_ : Want }.

Definition fixedTime : time := Date 2026 6 1 12 0 0 0.
Definition denyListDefault : string := q "`default`:{`allowed`:true,`consequential`:false,`reason`:`routine by default`}".
Definition allowListDefault : string := q "`default`:{`allowed`:true,`consequential`:true,`reason`:`approval-gated by default`}".

Definition matched : Want := mkWant true true "r" "rule fired".
Definition unmatched : Want := mkWant true false policy.DefaultRule "routine by default".
Definition matchedAllowList : Want := mkWant true false "r" "rule fired".
Definition unmatchedAllowList : Want := mkWant true true policy.DefaultRule "approval-gated by default".

Definition act (typ : string) (attrs : gmap string string) : types.Action := types.mkAction typ "res-1" attrs fixedTime.

Section Suite.
Context {UT : UnicodeTables}.

Definition oneRule (field op value : string) : string :=
  Sprintf (q "{`version`:`conformance-v1`,`rules`:[{`name`:`r`,`when`:[{`field`:%q,`op`:%q,`value`:%q}],`consequential`:true,`reason`:`rule fired`}],%s}")
    [AStr field; AStr op; AStr value; AStr denyListDefault].
Definition oneRuleAllowList (field op value : string) : string :=
  Sprintf (q "{`version`:`conformance-v1`,`rules`:[{`name`:`r`,`when`:[{`field`:%q,`op`:%q,`value`:%q}],`consequential`:false,`reason`:`rule fired`}],%s}")
    [AStr field; AStr op; AStr value; AStr allowListDefault].
Definition indeterminateOn (field : string) : Want :=
  mkWant false true "r" (Sprintf "rule %q could not be evaluated: %s is not comparable" [AStr "r"; AStr field]).

(** equality *)
Definition equality_cases : list Case :=
  [ mkCase "eq matches" (oneRule "amount" "==" "100") (act "payment.transfer" {["amount"%string := "100"%string]}) matched;
    mkCase "eq is exact string comparison, not numeric" (oneRule "amount" "==" "100") (act "payment.transfer" {["amount"%string := "100.0"%string]}) unmatched;
    mkCase "eq on absent field" (oneRule "amount" "==" "100") (act "payment.transfer" ∅) unmatched;
    mkCase "ne matches on a different value" (oneRule "audience" "!=" "internal") (act "post.publish" {["audience"%string := "external"%string]}) matched;
    mkCase "ne does not match on an equal value" (oneRule "audience" "!=" "internal") (act "post.publish" {["audience"%string := "internal"%string]}) unmatched;
    mkCase "ne on absent field fails closed" (oneRule "audience" "!=" "internal") (act "post.publish" ∅) unmatched ].

(** ordering, numeric *)
Definition numeric_cases : list Case :=
  [ mkCase "ge above bound" (oneRule "amount" ">=" "100") (act "payment.transfer" {["amount"%string := "500"%string]}) matched;
    mkCase "ge at bound" (oneRule "amount" ">=" "100") (act "payment.transfer" {["amount"%string := "100"%string]}) matched;
    mkCase "ge below bound" (oneRule "amount" ">=" "100") (act "payment.transfer" {["amount"%string := "99"%string]}) unmatched;
    mkCase "gt at bound does not match" (oneRule "amount" ">" "100") (act "payment.transfer" {["amount"%string := "100"%string]}) unmatched;
    mkCase "gt above bound" (oneRule "amount" ">" "100") (act "payment.transfer" {["amount"%string := "100.01"%string]}) matched;
    mkCase "le at bound" (oneRule "amount" "<=" "25") (act "payment.transfer" {["amount"%string := "25"%string]}) matched;
    mkCase "le above bound" (oneRule "amount" "<=" "25") (act "payment.transfer" {["amount"%string := "26"%string]}) unmatched;
    mkCase "lt below bound" (oneRule "amount" "<" "25") (act "payment.transfer" {["amount"%string := "24.9"%string]}) matched;
    mkCase "ordering handles a negative value" (oneRule "delta" "<" "0") (act "ledger.adjust" {["delta"%string := "-5"%string]}) matched;
    mkCase "ordering on absent field does not apply" (oneRule "amount" ">=" "100") (act "payment.transfer" ∅) unmatched;
    mkCase "ordering on absent field does not apply, allow-list" (oneRuleAllowList "amount" ">=" "100") (act "payment.transfer" ∅) unmatchedAllowList ].

(** ordering, an operand that cannot be compared *)
Definition uncomparable_cases : list Case :=
  [ mkCase "infinity does not satisfy an upper bound" (oneRule "amount" "<=" "25") (act "payment.transfer" {["amount"%string := "-Inf"%string]}) (indeterminateOn "amount");
    mkCase "infinity does not satisfy an upper bound, allow-list" (oneRuleAllowList "amount" "<=" "25") (act "payment.transfer" {["amount"%string := "-Inf"%string]}) (indeterminateOn "amount");
    mkCase "infinity does not satisfy a lower bound" (oneRule "amount" ">=" "100") (act "payment.transfer" {["amount"%string := "Inf"%string]}) (indeterminateOn "amount");
    mkCase "infinity does not satisfy a lower bound, allow-list" (oneRuleAllowList "amount" ">=" "100") (act "payment.transfer" {["amount"%string := "Inf"%string]}) (indeterminateOn "amount");
    mkCase "a spelled-out infinity is the same value" (oneRule "amount" ">=" "100") (act "payment.transfer" {["amount"%string := "Infinity"%string]}) (indeterminateOn "amount");
    mkCase "an overflowing literal reaches it too" (oneRule "amount" "<=" "25") (act "payment.transfer" {["amount"%string := "-1e400"%string]}) (indeterminateOn "amount");
    mkCase "an overflowing literal reaches it too, allow-list" (oneRuleAllowList "amount" "<=" "25") (act "payment.transfer" {["amount"%string := "-1e400"%string]}) (indeterminateOn "amount");
    mkCase "a non-numeric string cannot be ordered" (oneRule "amount" ">=" "100") (act "payment.transfer" {["amount"%string := "lots"%string]}) (indeterminateOn "amount");
    mkCase "a non-numeric string cannot be ordered, allow-list" (oneRuleAllowList "amount" ">=" "100") (act "payment.transfer" {["amount"%string := "lots"%string]}) (indeterminateOn "amount");
    mkCase "an empty string is present but not comparable" (oneRule "amount" ">=" "100") (act "payment.transfer" {["amount"%string := ""%string]}) (indeterminateOn "amount");
    mkCase "an empty string is present but not comparable, allow-list" (oneRuleAllowList "amount" ">=" "100") (act "payment.transfer" {["amount"%string := ""%string]}) (indeterminateOn "amount");
    mkCase "a base-prefixed literal is not a decimal scalar" (oneRule "amount" ">=" "100") (act "payment.transfer" {["amount"%string := "0x10"%string]}) (indeterminateOn "amount") ].

(** ordering, timestamps *)
Definition timestamp_cases : list Case :=
  [ mkCase "expiry before a later bound" (oneRule types.FieldExpiry "<" "2027-01-01T00:00:00Z") (act "document.export" ∅) matched;
    mkCase "expiry after an earlier bound" (oneRule types.FieldExpiry ">" "2025-01-01T00:00:00Z") (act "document.export" ∅) matched;
    mkCase "expiry not before an earlier bound" (oneRule types.FieldExpiry "<" "2025-01-01T00:00:00Z") (act "document.export" ∅) unmatched;
    mkCase "an attribute timestamp orders the same way" (oneRule "deadline" ">=" "2026-01-01T00:00:00Z") (act "task.close" {["deadline"%string := "2026-09-09T00:00:00Z"%string]}) matched ].

(** set membership *)
Definition membership_cases : list Case :=
  [ mkCase "in matches a member" (oneRule "region" "in" "us,eu,apac") (act "data.move" {["region"%string := "eu"%string]}) matched;
    mkCase "in does not match a non-member" (oneRule "region" "in" "us,eu,apac") (act "data.move" {["region"%string := "cn"%string]}) unmatched;
    mkCase "in trims whitespace around members" (oneRule "region" "in" "us, eu , apac") (act "data.move" {["region"%string := "eu"%string]}) matched;
    mkCase "in does not trim the action's value" (oneRule "region" "in" "us,eu") (act "data.move" {["region"%string := " eu"%string]}) unmatched;
    mkCase "in with a single member behaves as equality" (oneRule "region" "in" "us") (act "data.move" {["region"%string := "us"%string]}) matched;
    mkCase "in on absent field" (oneRule "region" "in" "us,eu") (act "data.move" ∅) unmatched;
    mkCase "a doubled comma is not an empty member" (oneRule "region" "in" "us,,eu") (act "data.move" {["region"%string := ""%string]}) unmatched;
    mkCase "a trailing comma is not an empty member" (oneRule "region" "in" "us,eu,") (act "data.move" {["region"%string := ""%string]}) unmatched;
    mkCase "a space-only member is not a member" (oneRule "region" "in" "us, ,eu") (act "data.move" {["region"%string := ""%string]}) unmatched;
    mkCase "members beside a discarded one still match" (oneRule "region" "in" "us,,eu") (act "data.move" {["region"%string := "eu"%string]}) matched ].

(** reserved fields *)
Definition reserved_cases : list Case :=
  [ mkCase "action.type is matchable" (oneRule types.FieldActionType "==" "payment.wire") (act "payment.wire" ∅) matched;
    mkCase "target is matchable" (oneRule types.FieldTarget "==" "res-1") (act "payment.wire" ∅) matched;
    mkCase "an attribute cannot shadow a reserved field" (oneRule types.FieldActionType "==" "payment.wire") (act "post.publish" {[types.FieldActionType := "payment.wire"%string]}) unmatched ].

(** conjunction *)
Definition conjunction_cases : list Case :=
  [ mkCase "all conditions must hold" (Sprintf (q "{`version`:`conformance-v1`,`rules`:[{`name`:`r`,`when`:[{`field`:`amount`,`op`:`>=`,`value`:`100`},{`field`:`currency`,`op`:`==`,`value`:`USD`}],`consequential`:true,`reason`:`rule fired`}],%s}") [AStr denyListDefault]) (act "payment.transfer" {["amount"%string := "500"%string; "currency"%string := "USD"%string]}) matched;
    mkCase "one failing condition sinks the rule" (Sprintf (q "{`version`:`conformance-v1`,`rules`:[{`name`:`r`,`when`:[{`field`:`amount`,`op`:`>=`,`value`:`100`},{`field`:`currency`,`op`:`==`,`value`:`USD`}],`consequential`:true,`reason`:`rule fired`}],%s}") [AStr denyListDefault]) (act "payment.transfer" {["amount"%string := "500"%string; "currency"%string := "EUR"%string]}) unmatched;
    mkCase "a rule with no conditions on the action's fields still needs them present" (Sprintf (q "{`version`:`conformance-v1`,`rules`:[{`name`:`r`,`when`:[{`field`:`amount`,`op`:`>=`,`value`:`100`},{`field`:`currency`,`op`:`==`,`value`:`USD`}],`consequential`:true,`reason`:`rule fired`}],%s}") [AStr denyListDefault]) (act "payment.transfer" {["amount"%string := "500"%string]}) unmatched ].

(** ordering between rules *)
Definition order_cases : list Case :=
  [ mkCase "the earlier of two matching rules wins" (Sprintf (q "{`version`:`conformance-v1`,`rules`:[
				{`name`:`first`,`when`:[{`field`:`amount`,`op`:`>=`,`value`:`100`}],`consequential`:true,`reason`:`first fired`},
				{`name`:`second`,`when`:[{`field`:`audience`,`op`:`==`,`value`:`external`}],`deny`:true,`reason`:`second fired`}
			],%s}") [AStr denyListDefault]) (act "payment.transfer" {["amount"%string := "500"%string; "audience"%string := "external"%string]}) (mkWant true true "first" "first fired");
    mkCase "order is the policy's order, not the order of severity" (Sprintf (q "{`version`:`conformance-v1`,`rules`:[
				{`name`:`routine`,`when`:[{`field`:`amount`,`op`:`<=`,`value`:`25`}],`reason`:`micro transfer`},
				{`name`:`forbidden`,`when`:[{`field`:`action.type`,`op`:`==`,`value`:`payment.wire`}],`deny`:true,`reason`:`wires are forbidden`}
			],%s}") [AStr denyListDefault]) (act "payment.wire" {["amount"%string := "5"%string]}) (mkWant true false "routine" "micro transfer");
    mkCase "a deny rule listed first wins over a later routine rule" (Sprintf (q "{`version`:`conformance-v1`,`rules`:[
				{`name`:`forbidden`,`when`:[{`field`:`action.type`,`op`:`==`,`value`:`payment.wire`}],`deny`:true,`reason`:`wires are forbidden`},
				{`name`:`routine`,`when`:[{`field`:`amount`,`op`:`<=`,`value`:`25`}],`reason`:`micro transfer`}
			],%s}") [AStr denyListDefault]) (act "payment.wire" {["amount"%string := "5"%string]}) (mkWant false false "forbidden" "wires are forbidden") ].

(** the default block as posture *)
Definition posture_cases : list Case :=
  [ mkCase "deny-list posture: unmatched is routine" (Sprintf (q "{`version`:`conformance-v1`,`rules`:[],%s}") [AStr denyListDefault]) (act "anything.at.all" ∅) unmatched;
    mkCase "allow-list posture: unmatched is consequential" (Sprintf (q "{`version`:`conformance-v1`,`rules`:[],%s}") [AStr allowListDefault]) (act "anything.at.all" ∅) (mkWant true true policy.DefaultRule "approval-gated by default");
    mkCase "a stated closed world denies with its stated reason" (q "{`version`:`conformance-v1`,`rules`:[],`default`:{`allowed`:false,`consequential`:false,`reason`:`closed world: deny anything unmatched`}}") (act "anything.at.all" ∅) (mkWant false false policy.DefaultRule "closed world: deny anything unmatched");
    mkCase "a deny rule and a deny default are distinguishable by RuleFired" (Sprintf (q "{`version`:`conformance-v1`,`rules`:[{`name`:`forbidden`,`when`:[{`field`:`action.type`,`op`:`==`,`value`:`payment.wire`}],`deny`:true,`reason`:`wires are forbidden`}],%s}") [AStr denyListDefault]) (act "payment.wire" ∅) (mkWant false false "forbidden" "wires are forbidden");
    mkCase "deny and consequential are independent bits" (Sprintf (q "{`version`:`conformance-v1`,`rules`:[{`name`:`both`,`when`:[{`field`:`action.type`,`op`:`==`,`value`:`db.drop`}],`deny`:true,`consequential`:true,`reason`:`denied and consequential`}],%s}") [AStr denyListDefault]) (act "db.drop" ∅) (mkWant false true "both" "denied and consequential") ].

Definition Cases : list Case :=
  equality_cases ++ numeric_cases ++ uncomparable_cases ++ timestamp_cases ++ membership_cases ++ reserved_cases ++ conjunction_cases ++ order_cases ++ posture_cases.

(** ** Running it: the failures it reports *)

Definition fail_if (b : bool) (msg : string) : list string := if b then [msg] else [].
Definition Bool_eqb (a b : bool) : bool := Bool.eqb a b.

Definition assertDecision (got : types.Decision) (want : Want) (version : string) : list string :=
  fail_if (negb (Bool_eqb (types.Allowed got) (Allowed want))) "Allowed"
  ++ fail_if (negb (Bool_eqb (types.Consequential got) (Consequential want))) "Consequential"
  ++ fail_if (negb (types.RuleFired got =?s RuleFired want)) "RuleFired"
  ++ fail_if (negb (types.Reason got =?s Reason want)) "Reason"
  ++ fail_if (negb (version =?s "") && negb (types.PolicyVersion got =?s version)) "PolicyVersion"
  ++ fail_if (negb (types.StatusCheckedHops got =? 0)) "StatusCheckedHops: policy does not check status".

Definition runCase (newEval : NewEvaluator) (tc : Case) : list string :=
  match newEval (s2b (Policy_ tc)) with
  | Err e => [Error e]
  | Ok ev =>
      match Evaluate ev (Action_ tc) with
      | Err e => ["Evaluate: " +:+ Error e]
      | Ok got => assertDecision got (Want_ tc) "conformance-v1"
      end
  end.
Definition runCases (cases : list Case) (newEval : NewEvaluator) : list (string * string) :=
  concat (map (fun tc => map (fun f => (Name tc, f)) (runCase newEval tc)) cases).
End Suite.

(** ** The shipped example policies *)

Record exampleCase := mkExample { name : string; action : types.Action; allowed : bool; conseq : bool; ruleFired : string }.
Record example_file := mkExamples { file : string; version : string; cases : list exampleCase }.

Definition commerce_cases : example_file := mkExamples "commerce-security.json" "commerce-security-v1"
  [ mkExample "below threshold" (act "payment.transfer" {["amount"%string := "50"%string]}) true false policy.DefaultRule;
    mkExample "at threshold" (act "payment.transfer" {["amount"%string := "100"%string]}) true true "high-value-transfer";
    mkExample "above threshold" (act "payment.transfer" {["amount"%string := "500"%string]}) true true "high-value-transfer";
    mkExample "forbidden wire" (act "payment.wire" {["amount"%string := "10"%string]}) false false "forbidden-wire";
    mkExample "production deploy" (act "code.deploy" {["environment"%string := "production"%string]}) true true "production-deploy";
    mkExample "staging deploy" (act "code.deploy" {["environment"%string := "staging"%string]}) true false policy.DefaultRule;
    mkExample "external audience" (act "post.publish" {["audience"%string := "external"%string]}) true true "external-audience";
    mkExample "internal audience" (act "post.publish" {["audience"%string := "internal"%string]}) true false policy.DefaultRule;
    mkExample "two matching rules" (act "payment.transfer" {["amount"%string := "500"%string; "audience"%string := "external"%string]}) true true "high-value-transfer";
    mkExample "bulk export is routine here" (act "document.export" {["docCount"%string := "2000"%string]}) true false policy.DefaultRule ].

Definition legal_cases : example_file := mkExamples "legal-ediscovery.json" "legal-ediscovery-v1"
  [ mkExample "privileged material" (act "document.review" {["privileged"%string := "true"%string]}) true true "privileged-material";
    mkExample "routine review" (act "document.review" {["privileged"%string := "false"%string]}) true false policy.DefaultRule;
    mkExample "bulk export" (act "document.export" {["docCount"%string := "2000"%string]}) true true "bulk-export";
    mkExample "small export" (act "document.export" {["docCount"%string := "500"%string]}) true false policy.DefaultRule;
    mkExample "opposing counsel" (act "document.produce" {["audience"%string := "opposing-counsel"%string]}) true true "external-production";
    mkExample "a large transfer is routine here" (act "payment.transfer" {["amount"%string := "500"%string]}) true false policy.DefaultRule ].

Definition allowlist_cases : example_file := mkExamples "commerce-security-allowlist.json" "commerce-security-allowlist-v1"
  [ mkExample "read-only lookup" (act "account.read" ∅) true false "read-only-lookup";
    mkExample "payment status" (act "payment.status" ∅) true false "read-only-lookup";
    mkExample "micro transfer" (act "payment.transfer" {["amount"%string := "10"%string]}) true false "micro-transfer";
    mkExample "at micro ceiling" (act "payment.transfer" {["amount"%string := "25"%string]}) true false "micro-transfer";
    mkExample "internal post" (act "post.publish" {["audience"%string := "internal"%string]}) true false "internal-post";
    mkExample "above micro ceiling" (act "payment.transfer" {["amount"%string := "26"%string]}) true true policy.DefaultRule;
    mkExample "unknown action type" (act "database.drop" ∅) true true policy.DefaultRule;
    mkExample "external post" (act "post.publish" {["audience"%string := "external"%string]}) true true policy.DefaultRule;
    mkExample "transfer with no amount fails closed" (act "payment.transfer" ∅) true true policy.DefaultRule;
    mkExample "forbidden wire still denies" (act "payment.wire" {["amount"%string := "1"%string]}) false false "forbidden-wire";
    mkExample "deny outranks a later routine rule" (act "payment.wire" {["amount"%string := "5"%string]}) false false "forbidden-wire" ].

Definition example_files : list example_file := [commerce_cases; legal_cases; allowlist_cases].

Section Run.
Context {UT : UnicodeTables}.

Definition runExample (ev : Evaluator) (version : string) (tc : exampleCase) : list string :=
  match Evaluate ev (action tc) with
  | Err e => ["Evaluate: " +:+ Error e]
  | Ok got =>
      if negb (Bool_eqb (types.Allowed got) (allowed tc)) || negb (Bool_eqb (types.Consequential got) (conseq tc))
         || negb (types.RuleFired got =?s ruleFired tc) then ["decision"%string]
      else fail_if (negb (types.PolicyVersion got =?s version)) "PolicyVersion"
           ++ fail_if (types.Reason got =?s "") "decision carries no reason"
  end.
Definition runFile (fs : files.files) (dir : string) (newEval : NewEvaluator) (f : example_file) : list (string * string) :=
  match files.ReadFile fs (filepath_Join [s2b dir; s2b (file f)]) with
  | Err e => [(file f, "read example policy: " +:+ Error e)]
  | Ok raw =>
      match newEval raw with
      | Err e => [(file f, Error e)]
      | Ok ev =>
          if negb (Version ev =?s version f) then [(file f, "Version()"%string)]
          else concat (map (fun tc => map (fun m => (name tc, m)) (runExample ev (version f) tc)) (cases f))
      end
  end.
Definition runExamples (fs : files.files) (dir : string) (newEval : NewEvaluator) : list (string * string) :=
  concat (map (runFile fs dir newEval) example_files).

Definition versionIsReported (newEval : NewEvaluator) : list (string * string) :=
  match newEval (s2b (Sprintf (q "{`version`:`a-particular-version`,`rules`:[],%s}") [AStr denyListDefault])) with
  | Err e => [("VersionIsReported"%string, Error e)]
  | Ok ev => if Version ev =?s "a-particular-version" then [] else [("VersionIsReported"%string, "Version()"%string)]
  end.

Definition Run (fs : files.files) (examplesDir : string) (newEval : NewEvaluator) : list (string * string) :=
  runCases Cases newEval ++ runExamples fs examplesDir newEval ++ versionIsReported newEval.

(** [TestHandRolledClassifierConformance]: the classifier of internal/policy. *)
Definition hand_rolled (Unmarshal : bytes -> result texts.policy_fields) : NewEvaluator := fun policyJSON =>
  let! p := wrap (fun e => Errorf "Parse: %v" [AErr e]) (texts.policy_Parse Unmarshal policyJSON) in
  Ok (mkEvaluator (policy.Evaluate p) (policy.Ver p)).
End Run.

(** ** Reading a policy's text *)

Definition read_condition (j : json) : option policy.Condition :=
  l ← members_of ["field"; "op"; "value"]%string j;
  f ← as_string (member "field" l); o ← as_string (member "op" l); v ← as_string (member "value" l);
  Some (policy.mkCondition f o v).
Definition read_rule (j : json) : option policy.Rule :=
  l ← members_of ["name"; "when"; "deny"; "consequential"; "reason"]%string j;
  n ← as_string (member "name" l); w ← as_slice read_condition (member "when" l);
  d ← as_bool (member "deny" l); c ← as_bool (member "consequential" l); r ← as_string (member "reason" l);
  Some (policy.mkRule n w d c r).
Definition read_default (j : json) : option policy.Default :=
  l ← members_of ["allowed"; "consequential"; "reason"]%string j;
  a ← as_bool (member "allowed" l); c ← as_bool (member "consequential" l); r ← as_string (member "reason" l);
  Some (policy.mkDefault a c r).
Definition read_policy (b : bytes) : option texts.policy_fields :=
  j ← read_document 100 b;
  l ← members_of ["version"; "rules"; "default"]%string j;
  v ← as_string (member "version" l); rs ← as_slice read_rule (member "rules" l); d ← as_pointer read_default (member "default" l);
  Some (v, rs, d).

(** The policies of examples/policies, as they are shipped. *)

Definition commerce_policy : bytes := s2b (q "{
  `version`: `commerce-security-v1`,
  `rules`: [
    {
      `name`: `forbidden-wire`,
      `when`: [
        { `field`: `action.type`, `op`: `==`, `value`: `payment.wire` }
      ],
      `deny`: true,
      `reason`: `wire transfers are not permitted for agents in this environment`
    },
    {
      `name`: `high-value-transfer`,
      `when`: [
        { `field`: `action.type`, `op`: `==`, `value`: `payment.transfer` },
        { `field`: `amount`, `op`: `>=`, `value`: `100` }
      ],
      `consequential`: true,
      `reason`: `transfers at or above $100 require a live status check and human approval`
    },
    {
      `name`: `production-deploy`,
      `when`: [
        { `field`: `action.type`, `op`: `in`, `value`: `code.deploy,code.merge` },
        { `field`: `environment`, `op`: `==`, `value`: `production` }
      ],
      `consequential`: true,
      `reason`: `changes to production are consequential`
    },
    {
      `name`: `external-audience`,
      `when`: [
        { `field`: `audience`, `op`: `==`, `value`: `external` }
      ],
      `consequential`: true,
      `reason`: `externally visible actions are consequential`
    }
  ],
  `default`: {
    `allowed`: true,
    `consequential`: false,
    `reason`: `routine action below all consequentiality thresholds`
  }
}
").

Definition legal_policy : bytes := s2b (q "{
  `version`: `legal-ediscovery-v1`,
  `rules`: [
    {
      `name`: `privileged-material`,
      `when`: [
        { `field`: `privileged`, `op`: `==`, `value`: `true` }
      ],
      `consequential`: true,
      `reason`: `accessing privileged material requires attorney review`
    },
    {
      `name`: `bulk-export`,
      `when`: [
        { `field`: `action.type`, `op`: `==`, `value`: `document.export` },
        { `field`: `docCount`, `op`: `>=`, `value`: `1000` }
      ],
      `consequential`: true,
      `reason`: `bulk document export (>= 1000 docs) requires supervising-partner approval`
    },
    {
      `name`: `external-production`,
      `when`: [
        { `field`: `action.type`, `op`: `==`, `value`: `document.produce` },
        { `field`: `audience`, `op`: `==`, `value`: `opposing-counsel` }
      ],
      `consequential`: true,
      `reason`: `producing documents to opposing counsel is consequential`
    }
  ],
  `default`: {
    `allowed`: true,
    `consequential`: false,
    `reason`: `routine review action; not consequential under this matter's protocol`
  }
}
").

Definition allowlist_policy : bytes := s2b (q "{
  `version`: `commerce-security-allowlist-v1`,
  `rules`: [
    {
      `name`: `forbidden-wire`,
      `when`: [
        { `field`: `action.type`, `op`: `==`, `value`: `payment.wire` }
      ],
      `deny`: true,
      `reason`: `wire transfers are not permitted for agents in this environment`
    },
    {
      `name`: `read-only-lookup`,
      `when`: [
        { `field`: `action.type`, `op`: `in`, `value`: `account.read,payment.status,invoice.view` }
      ],
      `consequential`: false,
      `reason`: `read-only lookups change nothing and are routine`
    },
    {
      `name`: `micro-transfer`,
      `when`: [
        { `field`: `action.type`, `op`: `==`, `value`: `payment.transfer` },
        { `field`: `amount`, `op`: `<=`, `value`: `25` }
      ],
      `consequential`: false,
      `reason`: `transfers at or below $25 are routine under this deployment's risk appetite`
    },
    {
      `name`: `internal-post`,
      `when`: [
        { `field`: `action.type`, `op`: `==`, `value`: `post.publish` },
        { `field`: `audience`, `op`: `==`, `value`: `internal` }
      ],
      `consequential`: false,
      `reason`: `internally visible posts are routine`
    }
  ],
  `default`: {
    `allowed`: true,
    `consequential`: true,
    `reason`: `no routine rule matched; default-consequential (allow-list posture)`
  }
}
").

Definition shipped (fs : files.files) (dir : string) : Prop :=
  files.ReadFile fs (filepath_Join [s2b dir; s2b "commerce-security.json"]) = Ok commerce_policy
  /\ files.ReadFile fs (filepath_Join [s2b dir; s2b "legal-ediscovery.json"]) = Ok legal_policy
  /\ files.ReadFile fs (filepath_Join [s2b dir; s2b "commerce-security-allowlist.json"]) = Ok allowlist_policy.

(** ** The classifier under the contract *)

Definition reads (Unmarshal : bytes -> result texts.policy_fields) : Prop :=
  forall b f, read_policy b = Some f -> Unmarshal b = Ok f.
Definition reader (b : bytes) : result texts.policy_fields :=
  match read_policy b with Some f => Ok f | None => Err (New "not read") end.

Section Conforms.
Context {UT : UnicodeTables}.

(** An evaluator that reports the version of a policy and gives its actions the
    decisions the policy means. *)
Definition meets (newEval : NewEvaluator) : Prop :=
  forall b p, texts.policy_Parse reader b = Ok p ->
  exists ev, newEval b = Ok ev /\ Version ev = policy.Ver p
    /\ forall a d, Evaluate ev a = Ok d <-> meaning.decides (types.Context a) p (elems (policy.Rules p)) d.

(** Such an evaluator cannot be told from the classifier by what it answers. *)
Definition alike (e e' : Evaluator) : Prop := Version e = Version e' /\ forall a, Evaluate e a = Evaluate e' a.
Lemma parsed_valid Unmarshal b p : texts.policy_Parse Unmarshal b = Ok p -> policy.Validate p = Ok tt.
Proof. unfold texts.policy_Parse. intros H. gosimp H. by match goal with H : Ok _ = Ok _ |- _ => apply Ok_inj in H as <- end. Qed.
Lemma meets_alike newEval b p :
  meets newEval -> texts.policy_Parse reader b = Ok p -> exists ev, newEval b = Ok ev /\ alike ev (mkEvaluator (policy.Evaluate p) (policy.Ver p)).
Proof.
  intros Hm Hp. destruct (Hm b p Hp) as (ev & He & Hv & Hd). exists ev. split; [done|]. split; [done|]. intros a. cbn [Evaluate].
  destruct (policy.Evaluate_ok p a) as [d Ed]. rewrite Ed. apply Hd. apply meaning.loop_iff; [by eapply parsed_valid|].
  unfold policy.Evaluate in Ed. by apply Ok_inj in Ed.
Qed.

Definition parses (b : bytes) : bool := is_ok (texts.policy_Parse reader b).
Lemma hand_rolled_alike newEval b :
  meets newEval -> parses b = true -> exists ev ev', newEval b = Ok ev /\ hand_rolled reader b = Ok ev' /\ alike ev ev'.
Proof.
  unfold parses. intros Hm Hb. apply is_ok_true in Hb as [p Hp]. destruct (meets_alike _ _ _ Hm Hp) as (ev & He & Ha). exists ev, (mkEvaluator (policy.Evaluate p) (policy.Ver p)).
  split; [exact He|]. split; [|exact Ha]. unfold hand_rolled. rewrite Hp. reflexivity.
Qed.
Lemma runCases_alike newEval cases : meets newEval ->
  forallb (fun tc => parses (s2b (Policy_ tc))) cases = true -> runCases cases newEval = runCases cases (hand_rolled reader).
Proof.
  intros Hm. unfold runCases. induction cases as [|tc cases IH]; cbn [forallb map concat]; [reflexivity|]. intros [Hr Hc]%andb_true_iff.
  rewrite (IH Hc). unfold runCase. destruct (hand_rolled_alike _ _ Hm Hr) as (ev & ev' & -> & -> & _ & Ha). by rewrite Ha.
Qed.
Lemma runFile_alike fs dir newEval f raw : meets newEval -> parses raw = true ->
  files.ReadFile fs (filepath_Join [s2b dir; s2b (file f)]) = Ok raw ->
  runFile fs dir newEval f = runFile fs dir (hand_rolled reader) f.
Proof.
  intros Hm Hr Hf. unfold runFile. rewrite Hf. destruct (hand_rolled_alike _ _ Hm Hr) as (ev & ev' & -> & -> & Hv & Ha). rewrite Hv.
  case_match; [done|]. f_equal. apply map_ext. intros tc. f_equal. unfold runExample. by rewrite Ha.
Qed.

(** What an example file reports, given its text. *)
Definition runText (f : example_file) (raw : bytes) : list (string * string) :=
  runFile (<[b2s (filepath_Join [s2b "."; s2b (file f)]) := raw]> ∅) "." (hand_rolled reader) f.
Lemma runFile_text fs dir f raw :
  files.ReadFile fs (filepath_Join [s2b dir; s2b (file f)]) = Ok raw -> runFile fs dir (hand_rolled reader) f = runText f raw.
Proof. intros Hf. unfold runText, runFile. by rewrite Hf, (files.ReadFile_eq ∅). Qed.

Lemma cases_parse : forallb (fun tc => parses (s2b (Policy_ tc))) Cases = true.
Proof. vm_compute. reflexivity. Qed.
Lemma examples_parse : parses commerce_policy = true /\ parses legal_policy = true /\ parses allowlist_policy = true.
Proof. split; [|split]; vm_compute; reflexivity. Qed.
Lemma cases_pass : runCases Cases (hand_rolled reader) = [].
Proof. vm_compute. reflexivity. Qed.
Lemma examples_pass :
  runText commerce_cases commerce_policy = [] /\ runText legal_cases legal_policy = [] /\ runText allowlist_cases allowlist_policy = [].
Proof. split; [|split]; vm_compute; reflexivity. Qed.
Lemma all_nil {A} (a b c : list A) : a = [] -> b = [] -> c = [] -> a ++ b ++ c = [].
Proof. by intros -> -> ->. Qed.
Lemma version_pass newEval : meets newEval -> versionIsReported newEval = [].
Proof.
  intros Hm. unfold versionIsReported.
  destruct (hand_rolled_alike newEval (s2b (Sprintf (q "{`version`:`a-particular-version`,`rules`:[],%s}") [AStr denyListDefault])) Hm)
    as (ev & ev' & -> & E & Hv & _); [vm_compute; reflexivity|]. vm_compute in E. apply Ok_inj in E as <-. by rewrite Hv.
Qed.

(** The suite asks nothing beyond what a policy means: an evaluator that gives
    every action the decision of the rules of inference passes it, wherever the
    shipped policies are. *)
Theorem suite_sound newEval fs dir : meets newEval -> shipped fs dir -> Run fs dir newEval = [].
Proof.
  intros Hm (H1 & H2 & H3). destruct examples_parse as (R1 & R2 & R3). destruct examples_pass as (P1 & P2 & P3).
  apply all_nil; [exact (eq_trans (runCases_alike _ _ Hm cases_parse) cases_pass)| |exact (version_pass _ Hm)].
  assert (E1 := eq_trans (runFile_alike fs dir newEval commerce_cases _ Hm R1 H1) (eq_trans (runFile_text fs dir commerce_cases _ H1) P1)).
  assert (E2 := eq_trans (runFile_alike fs dir newEval legal_cases _ Hm R2 H2) (eq_trans (runFile_text fs dir legal_cases _ H2) P2)).
  assert (E3 := eq_trans (runFile_alike fs dir newEval allowlist_cases _ Hm R3 H3) (eq_trans (runFile_text fs dir allowlist_cases _ H3) P3)).
  exact (all_nil _ _ _ E1 E2 (eq_trans (f_equal (fun l => l ++ []) E3) eq_refl)).
Qed.
(** The classifier of internal/policy is one, for any decoder that reads what is read here. *)
Lemma reads_parse Unmarshal b p : reads Unmarshal -> texts.policy_Parse reader b = Ok p -> texts.policy_Parse Unmarshal b = Ok p.
Proof.
  intros HU. assert (Hr : forall f, reader b = Ok f -> Unmarshal b = Ok f).
  { intros f. unfold reader. destruct (read_policy b) as [g|] eqn:E; [|discriminate]. intros Hg. apply Ok_inj in Hg as <-. exact (HU b g E). }
  unfold texts.policy_Parse. destruct (reader b) as [f|e]; [|discriminate]. rewrite (Hr f eq_refl). exact id.
Qed.
Theorem classifier_meets Unmarshal : reads Unmarshal -> meets (hand_rolled Unmarshal).
Proof.
  intros HU b p Hp. pose proof (parsed_valid _ _ _ Hp) as Hv. apply (reads_parse _ _ _ HU) in Hp.
  exists (mkEvaluator (policy.Evaluate p) (policy.Ver p)). unfold hand_rolled. rewrite Hp. split; [reflexivity|]. split; [reflexivity|].
  intros a d. exact (meaning.Evaluate_decides p a d Hv).
Qed.
End Conforms.

#[local] Instance no_tables : UnicodeTables := {| IsPrint := fun _ => false |}.
Definition test_files : files.files :=
  {[ "policies/commerce-security.json"%string := commerce_policy; "policies/legal-ediscovery.json"%string := legal_policy;
     "policies/commerce-security-allowlist.json"%string := allowlist_policy ]}.
Example classifier_conforms : Run test_files "policies" (hand_rolled reader) = [].
Proof.
  apply suite_sound; [apply classifier_meets; intros b f H; unfold reader; by rewrite H|].
  split; [vm_compute; reflexivity|split; vm_compute; reflexivity].
Qed.

(** On the shipped policy a transfer of NaN is routine, where any transfer that
    orders at or above the threshold is not. *)
Example nan_is_routine :
  match hand_rolled reader commerce_policy with
  | Ok ev => match Evaluate ev (act "payment.transfer" {["amount"%string := "NaN"%string]}) with
             | Ok d => types.Allowed d && negb (types.Consequential d) && (types.RuleFired d =?s policy.DefaultRule)
             | Err _ => false end
  | Err _ => false end = true.
Proof. vm_compute. reflexivity. Qed.

(** The suite tells evaluators apart: one that allows everything fails it. *)
Example permissive_fails :
  runCases numeric_cases (fun _ => Ok (mkEvaluator (fun _ => Ok (types.mkDecision true false "default" "conformance-v1" 0 "routine by default")) "conformance-v1"))
  <> [].
Proof. vm_compute. discriminate. Qed.
End conformance.
