(* ===== verification/Enroll.v ===== *)
(** internal/enroll: the enrollment ceremony of a device key, and the durable
    mapping from employees to the credentials of their devices. *)
From S2P Require Import Prelude GoFmt GoTime GoCrypto GoPath GoJson GoJsonText GoIndent Types Signer Did Status Macaroon.
From S2P Require Import Credential Chain AuditLog Export Texts.

Module enroll.

(** ** The mapping (mapping.go) *)

Definition mappingVersion : Z := 1.

Record Credential := mkCredential
  { DID : types.DID; CredentialID : string; StatusURL_ : string; StatusIndex_ : Z; KeyFingerprint : string;
    KeyBackend : string; KeyTag : string; Algorithm_ : string; EnrolledAt : time; Revoked : bool }.
Record Employee := mkEmployee { Identity_ : string; Credentials : list Credential }.
Record Mapping := mkMapping { Version : Z; Employees : gmap string Employee }.

Definition NewMapping : Mapping := mkMapping mappingVersion ∅.

(** [LoadMapping]: [data] is what reading the file gives, [None] when it does
    not exist; the decoder is encoding/json's.  A decoder that leaves a nil
    employee in the map, which the code dereferences, is not represented. *)
Definition LoadMapping (decode : bytes -> result Mapping) (path : string) (data : result (option bytes)) : result Mapping :=
  match data with
  | Err e => Err (Errorf "enroll: read mapping %q: %w" [AStr path; AErr e])
  | Ok None => Ok NewMapping
  | Ok (Some data) =>
      let! m := wrap (fun e => Errorf "enroll: parse mapping %q: %w" [AStr path; AErr e]) (decode data) in
      check! reject_if (negb (Version m =? mappingVersion))
        (Errorf "enroll: mapping %q is schema version %d, want %d" [AStr path; AInt (Version m); AInt mappingVersion]);
      Ok m
  end.

(** The identity that holds a credential for [d], in an iteration order of the
    map (Go's is unspecified). *)
Definition holds (d : types.DID) (e : Employee) : bool := existsb (fun c => DID c =?s d) (Credentials e).
Definition findByDID (m : Mapping) (d : types.DID) : option string :=
  fst <$> find (fun ie => holds d ie.2) (map_to_list (Employees m)).

Definition registered_error (d : types.DID) (owner : string) : error :=
  Errorf "enroll: mapping: DID %q is already registered to identity %q" [AStr d; AStr owner].

Definition AddCredential (m : Mapping) (identity : string) (cred : Credential) : result Mapping :=
  check! reject_if (identity =?s "") (New "enroll: mapping: empty identity");
  check! reject_if (DID cred =?s "") (New "enroll: mapping: credential has empty DID");
  match findByDID m (DID cred) with
  | Some owner => Err (registered_error (DID cred) owner)
  | None =>
      let e := default (mkEmployee identity []) (Employees m !! identity) in
      Ok (mkMapping (Version m) (<[identity := mkEmployee (Identity_ e) (Credentials e ++ [cred])]> (Employees m)))
  end.

Definition Credential_json (c : Credential) : result json :=
  let! at_ := j_time (EnrolledAt c) in
  Ok (JObj (field "did" (JStr (DID c)) ++ field "credentialID" (JStr (CredentialID c))
            ++ field "statusURL" (JStr (StatusURL_ c)) ++ field "statusIndex" (JInt (StatusIndex_ c))
            ++ field "keyFingerprint" (JStr (KeyFingerprint c)) ++ field "keyBackend" (JStr (KeyBackend c))
            ++ str_field_omit "keyTag" (KeyTag c) ++ field "algorithm" (JStr (Algorithm_ c))
            ++ field "enrolledAt" at_ ++ field "revoked" (JBool (Revoked c)))).
Definition Employee_json (e : Employee) : result json :=
  let! cs := texts.json_list Credential_json (Credentials e) in
  Ok (JObj (field "identity" (JStr (Identity_ e)) ++ field "credentials" (JArr cs))).
Fixpoint employee_members (l : list (string * Employee)) : result (list (string * json)) :=
  match l with
  | [] => Ok []
  | (k, e) :: l => let! j := Employee_json e in let! js := employee_members l in Ok ((k, j) :: js)
  end.
Definition Mapping_json (m : Mapping) : result json :=
  let! es := employee_members (map_to_list (Employees m)) in
  Ok (JObj (field "version" (JInt (Version m)) ++ field "employees" (JObj (foldr insert_key [] es)))).

(** The step of the atomic replacement that the operating system refuses. *)
Inductive save_step := SaveMkdir | SaveTemp | SaveChmod | SaveWrite | SaveClose | SaveRename.
Definition save_error (path : string) (s : save_step) (e : error) : error :=
  match s with
  | SaveMkdir => Errorf "enroll: create mapping dir %q: %w" [AStr (b2s (filepath_Dir (s2b path))); AErr e]
  | SaveTemp => Errorf "enroll: temp mapping: %w" [AErr e]
  | SaveChmod => Errorf "enroll: chmod mapping: %w" [AErr e]
  | SaveWrite => Errorf "enroll: write mapping: %w" [AErr e]
  | SaveClose => Errorf "enroll: close mapping: %w" [AErr e]
  | SaveRename => Errorf "enroll: install mapping %q: %w" [AStr path; AErr e]
  end.

(** [Save]: the file is replaced whole by the rename, or left alone. *)
Definition Save (fs : files.files) (m : Mapping) (path : string) (refused : option (save_step * error))
  : files.files * result unit :=
  let m := if Version m =? 0 then mkMapping mappingVersion (Employees m) else m in
  match wrap (fun e => Errorf "enroll: marshal mapping: %w" [AErr e]) (MarshalIndent (Mapping_json m)) with
  | Err e => (fs, Err e)
  | Ok data =>
      match refused with
      | Some (s, e) => (fs, Err (save_error path s e))
      | None => (<[path := data ++ [Byte.x0a]]> fs, Ok tt)
      end
  end.

(** ** The confirmation backend (backend.go) *)

Record ConfirmRequest := mkConfirm { c_Identity : string; c_DID : types.DID; c_Fingerprint : string; c_Algorithm : string }.
Record Backend := mkBackend { Confirm : ConfirmRequest -> result unit; BName : string }.

(** [Input] (the field In) is what the reader gives before it ends; [None] is a nil reader. *)
Record LocalTOFU := mkTOFU { Input : option bytes; AssumeYes : bool }.
Definition TOFU_Name (b : LocalTOFU) : string := if AssumeYes b then "local-tofu (assume-yes)" else "local-tofu".

Definition TOFU_Confirm {CT : CaseTables} (b : LocalTOFU) (req : ConfirmRequest) : result unit :=
  if AssumeYes b then Ok tt
  else match Input b with
  | None => Err (New "enroll: no input to confirm fingerprint on (run interactively or pass --yes)")
  | Some input =>
      let '(line, found) := read_line input in
      if negb found && bool_decide (line = []) then
        Err (Errorf "enroll: enrollment not confirmed (no input read): %w" [AErr (New "EOF")])
      else reject_if (negb (TrimSpace (b2s (ToLower line)) =?s "yes"))
             (New "enroll: enrollment declined at fingerprint confirmation")
  end.
Definition TOFU {CT : CaseTables} (b : LocalTOFU) : Backend := mkBackend (TOFU_Confirm b) (TOFU_Name b).

(** ** The device key (devicekey.go) *)

Definition backendSecureEnclave : string := "secure-enclave".
Definition backendSoftware : string := "software".

Record DeviceKeyOptions := mkDevice { ForceSoftware : bool; Seed : bytes; Tag : bytes }.
Record KeyInfo := mkKeyInfo { Algorithm : string; Fingerprint_ : string; KBackend : string; KTag : bytes }.

(** What the platform provides: the secure element (internal/signer/enclave)
    and the key generation of crypto/ecdsa.  A failed generation says whether a
    key was put in the keychain all the same. *)
Inductive generated := Generated (s : signer.Signer) | MissingEntitlement (e : error) | GenerateFailed (e : error) (stored : bool).
Record Platform := mkPlatform
  { Available : bool; Generate : types.DID -> bytes -> generated;
    NewECDSASigner : types.DID -> result signer.Signer;
    NewECDSASignerFromSeed : types.DID -> bytes -> result signer.Signer }.

Definition algorithmOf (pub : PublicKey) : result string :=
  match pub with
  | Ed25519Key _ => Ok "Ed25519"%string
  | EcdsaKey _ _ _ => Ok "P-256"%string
  | UnsupportedKey => Err (New "enroll: unsupported device key type")
  end.

(** A key that [PublicKeyToJWK] cannot encode makes it panic. *)
Definition Fingerprint (pub : PublicKey) : result string :=
  let! _ := algorithmOf pub in
  match did.PublicKeyToJWK pub with
  | None => Err (New "panic")
  | Some jwk => Ok ("SHA256:" +:+ RawURLEncoding (sha256.Sum256 (encode (credential.JWK_json jwk))))
  end.

Definition describeKey (s : signer.Signer) (backend : string) (tag : bytes) : result KeyInfo :=
  let! alg := algorithmOf (signer.Public s) in
  let! fp := Fingerprint (signer.Public s) in
  Ok (mkKeyInfo alg fp backend tag).

Definition softwareKey (pl : Platform) (d : types.DID) (seed : bytes) : result signer.Signer :=
  if 0 <? len seed then NewECDSASignerFromSeed pl d seed else NewECDSASigner pl d.

(** [ProvisionDeviceKey]: the result, and whether a key was put in the keychain. *)
Definition ProvisionDeviceKey (pl : Platform) (d : types.DID) (o : DeviceKeyOptions)
  : result (signer.Signer * KeyInfo) * bool :=
  if ForceSoftware o || negb (Available pl) then
    (let! s := softwareKey pl d (Seed o) in
     let! info := describeKey s backendSoftware [] in Ok (s, info), false)
  else
    match Generate pl d (Tag o) with
    | MissingEntitlement e =>
        (Err (Errorf "enroll: secure element requires a code-signed binary with a keychain-access-group entitlement (see docs/enclave-runbook.md); code-sign kessa-issuer, or pass --software-key for a non-production key: %w" [AErr e]), false)
    | GenerateFailed e stored => (Err (Errorf "enroll: generate secure-element key: %w" [AErr e]), stored)
    | Generated s => (let! info := describeKey s backendSecureEnclave (Tag o) in Ok (s, info), true)
    end.

(** ** The ceremony (enroll.go) *)

Record Config := mkConfig
  { Identity : string; DeviceDID : types.DID; OrgDID : types.DID; OrgSigner : option signer.Signer;
    MacaroonRootKey : bytes; Identifier : string; Location : string; Caveats : list macaroon.Caveat;
    StatusURL : string; StatusIndex : Z; Root : string; Resolver : option did.Resolver; MappingPath : string;
    CredentialOut : string; Device : DeviceKeyOptions; Backend_ : option Backend }.
Record Result := mkResult
  { r_Identity : string; r_DeviceDID : types.DID; r_CredentialID : string; Key : KeyInfo; DIDDocPath : bytes;
    r_CredentialOut : string; r_MappingPath : string; BackendName : string; Chain : chain.Chain }.

Definition validate (c : Config) : result signer.Signer :=
  check! reject_if (Identity c =?s "") (New "enroll: identity is required");
  check! reject_if (DeviceDID c =?s "") (New "enroll: device DID is required");
  check! reject_if (OrgDID c =?s "") (New "enroll: org DID is required");
  match OrgSigner c with
  | None => Err (New "enroll: org signer is required")
  | Some s =>
      check! reject_if (negb (signer.DID s =?s OrgDID c))
        (Errorf "enroll: org signer DID %q does not match org DID %q" [AStr (signer.DID s); AStr (OrgDID c)]);
      check! reject_if (DeviceDID c =?s OrgDID c) (New "enroll: device DID must differ from org DID");
      check! reject_if (len (MacaroonRootKey c) =? 0) (New "enroll: macaroon root key is required");
      check! reject_if (Identifier c =?s "") (New "enroll: macaroon identifier is required");
      check! reject_if (StatusURL c =?s "") (New "enroll: status URL is required");
      check! reject_if (StatusIndex c <? 0) (New "enroll: status index must be >= 0");
      check! reject_if (Root c =?s "") (New "enroll: publication root is required");
      check! reject_if (MappingPath c =?s "") (New "enroll: mapping path is required");
      check! reject_if (CredentialOut c =?s "") (New "enroll: credential output path is required");
      Ok s
  end.

(** The loop over the caveats. *)
Fixpoint attenuate_all (msg : macaroon.Caveat -> error -> error) (m : macaroon.Macaroon) (cs : list macaroon.Caveat)
  : result macaroon.Macaroon :=
  match cs with
  | [] => Ok m
  | c :: cs => let! m := wrap (msg c) (macaroon.Attenuate m c) in attenuate_all msg m cs
  end.

Section Enroll.
Context {CR : Crypto}.

Definition mintCredential (c : Config) (s : signer.Signer) (holderPub : PublicKey)
  : result (credential.Credential * chain.Link) :=
  let! m := attenuate_all (fun cav e => Errorf "enroll: attenuate caveat %q: %w" [macaroon.ACav cav; AErr e])
              (macaroon.Mint (MacaroonRootKey c) (Identifier c) (Location c)) (Caveats c) in
  let! cred := wrap (fun e => Errorf "enroll: compose credential: %w" [AErr e])
                 (credential.New (credential.mkOptions (DeviceDID c) (OrgDID c) m (Some holderPub)
                                    (status.mkReference (StatusURL c) (StatusIndex c) "") None)) in
  let! proof := wrap (fun e => Errorf "enroll: sign issuance: %w" [AErr e]) (chain.SignIssuance s cred) in
  Ok (cred, chain.mkLink cred (Some proof)).

(** The files and the keychain the ceremony works on, and what the operating
    system answers to each of its operations; [delete_key] is the answer to
    enclave.Delete, which leaves the key where it is when it refuses. *)
Record world := mkWorld { fs : files.files; keychain : gset string }.
Record answers := mkAnswers
  { read_mapping : option error; doc_mkdir : option error; doc_write : files.answer;
    chain_mkdir : option error; chain_write : files.answer; save : option (save_step * error); delete_key : option error }.

Context (pl : Platform) (Unmarshal : bytes -> result did.Document) (decode : bytes -> result Mapping).

Definition mapping_data (w : world) (path : string) (a : answers) : result (option bytes) :=
  match read_mapping a with Some e => Err e | None => Ok (fs w !! path) end.

Definition preflight (c : Config) (w : world) : result PublicKey :=
  let r := match Resolver c with
           | Some r => r
           | None => did.FileResolver_Resolve Unmarshal (files.ReadFile (fs w)) (s2b (Root c))
           end in
  wrap (fun e => Errorf "enroll: org DID %q is not resolvable (publish the org DID document first): %w" [AStr (OrgDID c); AErr e])
    (did.ResolveKey r (OrgDID c)).

Definition writeChain (f : files.files) (path : string) (ch : chain.Chain) (a : answers) : files.files * result unit :=
  match wrap (fun e => Errorf "enroll: marshal credential: %w" [AErr e]) (texts.Chain_Marshal ch) with
  | Err e => (f, Err e)
  | Ok data =>
      files.CreateAndWrite (fun e => Errorf "enroll: create credential dir %q: %w" [AStr (b2s (filepath_Dir (s2b path))); AErr e])
        (fun e => Errorf "enroll: write credential %q: %w" [AStr path; AErr e])
        f path (data ++ [Byte.x0a]) (chain_mkdir a) (chain_write a)
  end.

Definition record_of (c : Config) (credID : string) (info : KeyInfo) (now : time) : Credential :=
  mkCredential (DeviceDID c) credID (StatusURL c) (StatusIndex c) (Fingerprint_ info) (KBackend info)
    (b2s (KTag info)) (Algorithm info) (UTC now) false.

(** Steps 4 to 7, once a key exists. *)
Definition commit (c : Config) (org : signer.Signer) (b : Backend) (m : Mapping) (s : signer.Signer) (info : KeyInfo)
  (now : time) (a : answers) (f : files.files) : files.files * result Result :=
  match Confirm b (mkConfirm (Identity c) (DeviceDID c) (Fingerprint_ info) (Algorithm info)) with
  | Err e => (f, Err e)
  | Ok _ =>
      match did.NewDocument (DeviceDID c) (signer.Public s) with
      | None => (f, Err (New "panic"))
      | Some doc =>
          let '(f, docPath) := texts.WriteDocument f (s2b (Root c)) (Some doc) (doc_mkdir a) (doc_write a) in
          match wrap (fun e => Errorf "enroll: write device DID document: %w" [AErr e]) docPath with
          | Err e => (f, Err e)
          | Ok docPath =>
              match (let! cl := mintCredential c org (signer.Public s) in
                     let! id := wrap (fun e => Errorf "enroll: credential id: %w" [AErr e]) (export.CredentialID cl.1) in
                     Ok (cl.2, id)) with
              | Err e => (f, Err e)
              | Ok (link, credID) =>
                  let ch := chain.mkChain (Some [link]) in
                  let '(f, written) := writeChain f (CredentialOut c) ch a in
                  match (let! _ := written in AddCredential m (Identity c) (record_of c credID info now)) with
                  | Err e => (f, Err e)
                  | Ok m' =>
                      let '(f, saved) := Save f m' (MappingPath c) (save a) in
                      (f, let! _ := saved in
                          Ok (mkResult (Identity c) (DeviceDID c) credID info docPath (CredentialOut c) (MappingPath c)
                                (BName b) ch))
                  end
              end
          end
      end
  end.

(** enclave.Delete on the keychain, and the teardown, which ignores its error.
    The handle it closes is the process's ([Enclave]). *)
Definition Delete (a : answers) (tag : bytes) (k : gset string) : gset string * result unit :=
  match delete_key a with Some e => (k, Err e) | None => (k ∖ {[b2s tag]}, Ok tt) end.
Definition cleanupDeviceKey (a : answers) (info : KeyInfo) (k : gset string) : gset string :=
  if (KBackend info =?s backendSecureEnclave) && (0 <? len (KTag info)) then (Delete a (KTag info) k).1 else k.

(** What stands before any side effect: the configuration, the backend, the
    organization's document, and a mapping that does not know the device. *)
Definition gates (c : Config) (a : answers) (w : world) : result (signer.Signer * Backend * Mapping) :=
  let! org := validate c in
  match Backend_ c with
  | None => Err (New "enroll: no enrollment backend configured")
  | Some b =>
      let! _ := preflight c w in
      let! m := LoadMapping decode (MappingPath c) (mapping_data w (MappingPath c) a) in
      match findByDID m (DeviceDID c) with
      | Some owner => Err (registered_error (DeviceDID c) owner)
      | None => Ok (org, b, m)
      end
  end.

Definition Enroll (c : Config) (now : time) (a : answers) (w : world) : world * result Result :=
  match gates c a w with
  | Err e => (w, Err e)
  | Ok (org, b, m) =>
      let '(provisioned, stored) := ProvisionDeviceKey pl (DeviceDID c) (Device c) in
      let k := if stored then keychain w ∪ {[b2s (Tag (Device c))]} else keychain w in
      match provisioned with
      | Err e => (mkWorld (fs w) k, Err e)
      | Ok (s, info) =>
          let '(f, r) := commit c org b m s info now a (fs w) in
          (mkWorld f (if is_ok r then k else cleanupDeviceKey a info k), r)
      end
  end.
End Enroll.

(** ** The mapping keeps device identifiers apart *)

Definition device_at (m : Mapping) (id : string) (i : nat) (c : Credential) : Prop :=
  exists e, Employees m !! id = Some e /\ Credentials e !! i = Some c.
Definition registered (m : Mapping) (d : types.DID) : Prop := exists id i c, device_at m id i c /\ DID c = d.

(** One credential per device identifier, and none without one. *)
Definition wf_mapping (m : Mapping) : Prop :=
  (forall id1 i c1 id2 j c2, device_at m id1 i c1 -> device_at m id2 j c2 -> DID c1 = DID c2 -> id1 = id2 /\ i = j)
  /\ forall id i c, device_at m id i c -> DID c <> ""%string /\ id <> ""%string.

Lemma holds_true d e : holds d e = true <-> exists i c, Credentials e !! i = Some c /\ DID c = d.
Proof.
  unfold holds. rewrite existsb_exists. split.
  - intros (c & Hc & Hd%str_eqb_true). apply list_elem_of_In, list_elem_of_lookup in Hc as [i Hi]. by exists i, c.
  - intros (i & c & Hi & <-). exists c. rewrite str_eqb_refl. split; [|done].
    apply list_elem_of_In. by eapply list_elem_of_lookup_2.
Qed.

Lemma findByDID_None m d : findByDID m d = None <-> ~ registered m d.
Proof.
  unfold findByDID. destruct (find _ _) as [[id e]|] eqn:E; simpl.
  - apply find_some in E as [Hin Hh]. apply list_elem_of_In, elem_of_map_to_list in Hin.
    apply holds_true in Hh as (i & c & Hc & Hd). split; [done|]. intros Hn. exfalso. apply Hn. exists id, i, c.
    split; [by exists e|done].
  - split; [|done]. intros _ (id & i & c & (e & He & Hc) & Hd).
    assert (Hin : In (id, e) (map_to_list (Employees m))) by (by apply list_elem_of_In, elem_of_map_to_list).
    apply (find_none _ _ E) in Hin. simpl in Hin. assert (Hh : holds d e = true) by (apply holds_true; by exists i, c).
    congruence.
Qed.

Lemma AddCredential_Ok m id c m' :
  AddCredential m id c = Ok m' <->
  id <> ""%string /\ DID c <> ""%string /\ ~ registered m (DID c)
  /\ m' = let e := default (mkEmployee id []) (Employees m !! id) in
          mkMapping (Version m) (<[id := mkEmployee (Identity_ e) (Credentials e ++ [c])]> (Employees m)).
Proof.
  unfold AddCredential. rewrite <- findByDID_None. split.
  - intros H. gosimp H. destruct (findByDID m (DID c)); [done|]. by apply Ok_inj in H.
  - intros (Hi%str_eqb_false & Hd%str_eqb_false & -> & ->). by rewrite Hi, Hd.
Qed.

Lemma device_at_add m id c m' id' i c' :
  AddCredential m id c = Ok m' ->
  device_at m' id' i c' <->
  device_at m id' i c' \/ id' = id /\ c' = c /\ i = length (Credentials (default (mkEmployee id []) (Employees m !! id))).
Proof.
  intros (_ & _ & _ & ->)%AddCredential_Ok. unfold device_at. cbn [Employees]. destruct (decide (id' = id)) as [->|Hne].
  - rewrite lookup_insert_eq. set (e := default _ _). split.
    + intros (x & [= <-] & Hc). cbn [Credentials] in Hc. apply lookup_app_Some in Hc as [Hc|[Hl Hc]].
      * left. unfold e in Hc. destruct (Employees m !! id) as [x|]; [by exists x|done].
      * right. apply list_lookup_singleton_Some in Hc as [Hz <-]. split_and!; [done..|lia].
    + intros [(x & Hx & Hc)|(_ & -> & ->)]; eexists; (split; [done|]); cbn [Credentials].
      * unfold e. rewrite Hx. by apply lookup_app_l_Some.
      * rewrite lookup_app_r, Nat.sub_diag by lia. done.
  - rewrite lookup_insert_ne by done. naive_solver.
Qed.

(** a credential is added exactly when it names an identity and a device
    that is not registered under any identity; it is then the newest of its
    identity, every other record stays where it was, and a device identifier
    never names two records. *)
Theorem add_credential m id c :
  ((exists m', AddCredential m id c = Ok m') <-> id <> ""%string /\ DID c <> ""%string /\ ~ registered m (DID c))
  /\ forall m', AddCredential m id c = Ok m' ->
     (forall id' i c', device_at m' id' i c' <->
        device_at m id' i c' \/ id' = id /\ c' = c /\ i = length (Credentials (default (mkEmployee id []) (Employees m !! id))))
     /\ (wf_mapping m -> wf_mapping m') /\ AddCredential m' id c = Err (registered_error (DID c) id).
Proof.
  split; [split|].
  - intros [m' (? & ? & ? & _)%AddCredential_Ok]. done.
  - intros (? & ? & ?). eexists. by apply AddCredential_Ok.
  - intros m' H. pose proof H as (Hi & Hd & Hn & _)%AddCredential_Ok. split_and!.
    + intros id' i c'. by apply device_at_add.
    + intros [Hu He]. split.
      * intros id1 i c1 id2 j c2 H1 H2 E. apply (device_at_add _ _ _ _ _ _ _ H) in H1, H2.
        destruct H1 as [H1|(-> & -> & ->)], H2 as [H2|(-> & -> & ->)]; [by eapply Hu| | |done].
        -- exfalso. apply Hn. rewrite <- E. by exists id1, i, c1.
        -- exfalso. apply Hn. rewrite E. by exists id2, j, c2.
      * intros id' i c' [Hc|(-> & -> & _)]%(device_at_add _ _ _ _ _ _ _ H); [by eapply He|done].
    + assert (Hreg : device_at m' id (length (Credentials (default (mkEmployee id []) (Employees m !! id)))) c)
        by (apply (device_at_add _ _ _ _ _ _ _ H); by right).
      unfold AddCredential. apply str_eqb_false in Hi, Hd. rewrite Hi, Hd. cbn [reject_if rbind].
      unfold findByDID. destruct (find _ _) as [[id' e]|] eqn:E; simpl.
      * apply find_some in E as [Hin Hh]. apply list_elem_of_In, elem_of_map_to_list in Hin.
        apply holds_true in Hh as (j & c' & Hc & Hd'). do 2 f_equal.
        assert (Hat : device_at m' id' j c') by (by exists e).
        apply (device_at_add _ _ _ _ _ _ _ H) in Hat as [Hat|(-> & _)]; [|done].
        exfalso. apply Hn. by exists id', j, c'.
      * exfalso. destruct Hreg as (e & He & Hc).
        assert (Hin : In (id, e) (map_to_list (Employees m'))) by (by apply list_elem_of_In, elem_of_map_to_list).
        apply (find_none _ _ E) in Hin. simpl in Hin. assert (Hh : holds (DID c) e = true) by (apply holds_true; by eexists _, c).
        congruence.
Qed.

(** ** What an enrollment establishes *)

Section Laws.
Context {CR : Crypto}.
Context (pl : Platform) (Unmarshal : bytes -> result did.Document) (decode : bytes -> result Mapping).

Lemma gates_Ok c a w org b m :
  gates Unmarshal decode c a w = Ok (org, b, m) ->
  validate c = Ok org /\ Backend_ c = Some b /\ is_ok (preflight Unmarshal c w) = true
  /\ LoadMapping decode (MappingPath c) (mapping_data w (MappingPath c) a) = Ok m /\ ~ registered m (DeviceDID c).
Proof.
  unfold gates. intros H. gosimp H. destruct (Backend_ c) as [b'|]; [|done]. gosimp H.
  destruct (findByDID _ _) eqn:E; [done|]. apply findByDID_None in E. apply Ok_inj in H. injection H as <- <- <-.
  rewrite Ha0. by split_and!.
Qed.

Lemma validate_Ok c org : validate c = Ok org -> OrgSigner c = Some org /\ signer.DID org = OrgDID c /\ DeviceDID c <> OrgDID c.
Proof.
  unfold validate. intros H. gosimp H. destruct (OrgSigner c) as [s|]; [|done]. gosimp H. apply Ok_inj in H. by subst s.
Qed.

Lemma mint_Ok c s k cred link :
  mintCredential c s k = Ok (cred, link) ->
  exists proof jwk k', link = chain.mkLink cred (Some proof) /\ chain.SignIssuance s cred = Ok proof
    /\ credential.Subject cred = DeviceDID c /\ credential.Issuer cred = OrgDID c
    /\ credential.StatusRef cred = status.mkReference (StatusURL c) (StatusIndex c) ""
    /\ credential.HolderKey cred = Some jwk /\ did.PublicKeyToJWK k = Some jwk /\ did.JWK_PublicKey (Some jwk) = Ok k'.
Proof.
  unfold mintCredential. intros H. gosimp H. apply Ok_inj in H. injection H as <- <-.
  rename a0 into cr. rename a1 into proof. unfold credential.New in Ha0. gosimp Ha0. apply Ok_inj in Ha0. subst cr.
  match goal with Hh : credential.holderJWK _ = Ok _ |- _ => apply credential.holderJWK_Ok in Hh as (k0 & k' & Hk & Hj & Hp) end.
  injection Hk as ->. exists proof. eexists. exists k'. by split_and!.
Qed.

(** A committed ceremony, file by file. *)
Lemma commit_Ok c org b m s info now a f f' res :
  commit c org b m s info now a f = (f', Ok res) ->
  exists doc path cred link text m' mtext,
    did.NewDocument (DeviceDID c) (signer.Public s) = Some doc /\ did.DocumentPath (s2b (Root c)) (DeviceDID c) = Ok path
    /\ mintCredential c org (signer.Public s) = Ok (cred, link) /\ export.CredentialID cred = Ok (r_CredentialID res)
    /\ texts.Chain_Marshal (chain.mkChain (Some [link])) = Ok text
    /\ AddCredential m (Identity c) (record_of c (r_CredentialID res) info now) = Ok m'
    /\ MarshalIndent (Mapping_json (if Version m' =? 0 then mkMapping mappingVersion (Employees m') else m')) = Ok mtext
    /\ Chain res = chain.mkChain (Some [link])
    /\ Confirm b (mkConfirm (Identity c) (DeviceDID c) (Fingerprint_ info) (Algorithm info)) = Ok tt
    /\ f' = <[MappingPath c := mtext ++ [Byte.x0a]]>
              (<[CredentialOut c := text ++ [Byte.x0a]]>
                 (<[b2s path := Indent (encode (texts.Document_json doc)) ++ [Byte.x0a]]> f)).
Proof.
  unfold commit. destruct (Confirm b _) as [[]|e] eqn:Ec; [|done].
  destruct (did.NewDocument _ _) as [doc|] eqn:Ed; [|done].
  destruct (texts.WriteDocument f _ (Some doc) _ _) as [f1 [path|e]] eqn:Ew; cbn [wrap]; [|done].
  destruct (rbind (mintCredential c org _) _) as [[link id]|e] eqn:Em; [|done].
  gosimp Em. destruct a0 as [cred link']. apply Ok_inj in Em. injection Em as -> ->.
  destruct (writeChain f1 _ _ a) as [f2 written] eqn:Ech. destruct written as [[]|e]; cbn [rbind]; [|done].
  destruct (AddCredential _ _ _) as [m'|e] eqn:Ea; [|done].
  destruct (Save f2 m' _ _) as [f3 saved] eqn:Es. destruct saved as [[]|e]; cbn [rbind]; intros [= <- Hr]. subst res.
  apply texts.WriteDocument_Ok in Ew as [Hp ->].
  assert (Hid : did.ID doc = DeviceDID c).
  { unfold did.NewDocument in Ed. destruct (did.PublicKeyToJWK _); [|done]. simpl in Ed. by injection Ed as <-. }
  rewrite Hid in Hp. unfold writeChain in Ech. destruct (texts.Chain_Marshal _) as [text|e] eqn:Et; cbn [wrap] in Ech; [|done].
  apply files.CreateAndWrite_cases in Ech as [[_ ->]|[Hf _]]; [|done].
  unfold Save in Es. destruct (MarshalIndent _) as [mtext|e] eqn:Emt; cbn [wrap] in Es; [|done].
  destruct (save a) as [[st e]|]; [done|]. injection Es as <-.
  exists doc, path, cred, link, text, m', mtext. by split_and!.
Qed.

Lemma Enroll_Ok c now a w w' res :
  Enroll pl Unmarshal decode c now a w = (w', Ok res) ->
  exists org b m s info, gates Unmarshal decode c a w = Ok (org, b, m)
    /\ (ProvisionDeviceKey pl (DeviceDID c) (Device c)).1 = Ok (s, info)
    /\ commit c org b m s info now a (fs w) = (fs w', Ok res).
Proof.
  unfold Enroll. destruct (gates _ _ _ _ _) as [[[org b] m]|e] eqn:Eg; [|done].
  destruct (ProvisionDeviceKey _ _ _) as [[[s info]|e] stored] eqn:Ep; [|done].
  destruct (commit _ _ _ _ _ _ _ _ _) as [f r] eqn:Ec. intros [= <- ->]. by exists org, b, m, s, info.
Qed.

Lemma FileResolver_frame f f' root d p :
  did.DocumentPath root d = Ok p -> files.ReadFile f' p = files.ReadFile f p ->
  did.FileResolver_Resolve Unmarshal (files.ReadFile f') root d = did.FileResolver_Resolve Unmarshal (files.ReadFile f) root d.
Proof. intros Hp He. unfold did.FileResolver_Resolve. rewrite Hp. cbn [rbind]. by rewrite He. Qed.

(** C30: a completed enrollment is usable: the chain it mints verifies for
    everyone who reads the published documents, names the device as its actor
    and the organization as its root, and the saved mapping registers exactly
    this device's record under the employee.  The organization's published key
    must be the key it signs with, and the private outputs must lie outside the
    two published documents. *)
Theorem enrolled_chain_verifies c now a w w' res org q :
  Enroll pl Unmarshal decode c now a w = (w', Ok res) -> Resolver c = None -> OrgSigner c = Some org ->
  signer.Sound org ->
  did.ResolveKey (did.FileResolver_Resolve Unmarshal (files.ReadFile (fs w)) (s2b (Root c))) (OrgDID c) = Ok (signer.Public org) ->
  did.DocumentPath (s2b (Root c)) (OrgDID c) = Ok q ->
  (forall p, did.DocumentPath (s2b (Root c)) (DeviceDID c) = Ok p ->
     p <> q /\ (forall x, x = CredentialOut c \/ x = MappingPath c -> x <> b2s p /\ x <> b2s q)) ->
  (forall s info doc, (ProvisionDeviceKey pl (DeviceDID c) (Device c)).1 = Ok (s, info) ->
     did.NewDocument (DeviceDID c) (signer.Public s) = Some doc -> texts.Reads Unmarshal doc) ->
  let r := did.FileResolver_Resolve Unmarshal (files.ReadFile (fs w')) (s2b (Root c)) in
  chain.Verify r (Chain res) = Ok tt /\ chain.Actor (Chain res) = DeviceDID c /\ chain.Root (Chain res) = OrgDID c
  /\ exists m m' i, LoadMapping decode (MappingPath c) (mapping_data w (MappingPath c) a) = Ok m
       /\ (exists id info, AddCredential m (Identity c) (record_of c id info now) = Ok m'
             /\ device_at m' (Identity c) i (record_of c id info now))
       /\ exists mtext, MarshalIndent (Mapping_json m') = Ok mtext /\ fs w' !! MappingPath c = Some (mtext ++ [Byte.x0a]).
Proof.
  intros H Hres Hsig HS Hkey Hq Hsep Hread r.
  apply Enroll_Ok in H as (org' & b & m & s & info & Hg & Hprov & Hc).
  apply gates_Ok in Hg as (Hv & _ & _ & Hm & _). apply validate_Ok in Hv as (Ho & Hod & _). rewrite Hsig in Ho. injection Ho as <-.
  apply commit_Ok in Hc as (doc & p & cred & link & text & m' & mtext & Hdoc & Hp & Hmint & Hid & _ & Hadd & Hmt & Hch & _ & Hfs).
  destruct (Hsep p Hp) as (Hpq & Hout). destruct (Hout _ (or_introl eq_refl)) as [O1 O2]. destruct (Hout _ (or_intror eq_refl)) as [M1 M2].
  apply mint_Ok in Hmint as (proof & jwk & k' & -> & Hs & Hsub & Hiss & _ & Hhk & Hj & Hjk).
  assert (Hrp : files.ReadFile (fs w') p = Ok (Indent (encode (texts.Document_json doc)) ++ [Byte.x0a])).
  { rewrite Hfs. rewrite <- (b2s_s2b (MappingPath c)), <- (b2s_s2b (CredentialOut c)).
    rewrite 2!files.ReadFile_ne; [apply files.ReadFile_eq| |]; intros ->; rewrite b2s_s2b in *; done. }
  assert (Hrq : files.ReadFile (fs w') q = files.ReadFile (fs w) q).
  { rewrite Hfs. rewrite <- (b2s_s2b (MappingPath c)), <- (b2s_s2b (CredentialOut c)).
    rewrite 3!files.ReadFile_ne; [done|..]; intros ->; rewrite ?b2s_s2b in *; done. }
  assert (Hdev : did.ResolveKey r (DeviceDID c) = Ok k').
  { pose proof (Hread _ _ _ Hprov Hdoc) as HR. unfold r. rewrite <- Hjk. by eapply texts.document_key. }
  assert (Horg : did.ResolveKey r (OrgDID c) = Ok (signer.Public org)).
  { unfold did.ResolveKey, r. rewrite (FileResolver_frame _ _ _ _ _ Hq Hrq). exact Hkey. }
  rewrite Hch. split_and!.
  - apply chain.chain_Ok. cbn [chain.Links elems default]. split_and!; [done|unfold len, chain.MaxDepth; simpl; lia| |done].
    apply Forall_singleton. unfold chain.hop_ok. cbn [chain.Credential_ chain.IssuerProof]. rewrite Hsub, Hiss, Hhk.
    unfold chain.SignIssuance in Hs. gosimp Hs. eexists (signer.Public org), _, k'.
    split_and!; [exact Horg|eassumption| |exact Hdev|exact Hjk]. by apply (signer.sound (s := org)).
  - unfold chain.Actor. simpl. done.
  - unfold chain.Root. simpl. done.
  - assert (Hver : Version m' = Version m) by (by apply AddCredential_Ok in Hadd as (_ & _ & _ & ->)).
    assert (Hv1 : Version m = 1).
    { unfold LoadMapping in Hm. destruct (mapping_data _ _ _) as [[d|]|e]; [|by apply Ok_inj in Hm as <-|done].
      gosimp Hm. apply Ok_inj in Hm. rewrite <- Hm. match goal with Hz : (_ =? _) = true |- _ => by apply Z.eqb_eq in Hz end. }
    rewrite Hver, Hv1 in Hmt. change (1 =? 0) with false in Hmt. cbn [negb] in Hmt.
    exists m, m', (length (Credentials (default (mkEmployee (Identity c) []) (Employees m !! Identity c)))). split_and!; [done| |].
    + exists (r_CredentialID res), info. split; [done|]. apply (device_at_add _ _ _ _ _ _ _ Hadd). by right.
    + exists mtext. split; [exact Hmt|]. rewrite Hfs.
      assert (E : forall f : files.files, (<[MappingPath c := mtext ++ [Byte.x0a]]> f : files.files) !! MappingPath c = Some (mtext ++ [Byte.x0a]))
        by (intros f; apply lookup_insert_eq). apply E.
Qed.

Lemma commit_Err c org b m s info now a f f' e :
  commit c org b m s info now a f = (f', Err e) ->
  f' = f \/ (Confirm b (mkConfirm (Identity c) (DeviceDID c) (Fingerprint_ info) (Algorithm info)) = Ok tt
             /\ exists p, did.DocumentPath (s2b (Root c)) (DeviceDID c) = Ok p
                  /\ forall x, x <> b2s p -> x <> CredentialOut c -> f' !! x = f !! x).
Proof.
  unfold commit. destruct (Confirm b _) as [[]|e0] eqn:Ec; [|intros [= <- _]; by left].
  destruct (did.NewDocument _ _) as [doc|] eqn:Ed; [|intros [= <- _]; by left].
  assert (Hid : did.ID doc = DeviceDID c).
  { unfold did.NewDocument in Ed. destruct (did.PublicKeyToJWK _); [|done]. simpl in Ed. by injection Ed as <-. }
  destruct (texts.WriteDocument f _ (Some doc) _ _) as [f1 [path|e1]] eqn:Ew; cbn [wrap].
  2: { intros [= <- _]. apply texts.WriteDocument_fails in Ew as [->|(d & p & data & [= <-] & Hp & ->)]; [by left|].
       right. split; [done|]. exists p. rewrite Hid in Hp. split; [done|]. intros x Hx _. by apply lookup_insert_ne. }
  apply texts.WriteDocument_Ok in Ew as [Hp ->]. rewrite Hid in Hp. intros H. right. split; [done|]. exists path. split; [done|].
  set (f1 := <[b2s path := _]> f) in H. assert (H1 : forall x, x <> b2s path -> f1 !! x = f !! x) by (intros x Hx; by apply lookup_insert_ne).
  clearbody f1. intros x Hx Ho. rewrite <- (H1 x Hx).
  destruct (rbind (mintCredential c org _) _) as [[link id]|e1]; [|by injection H as <- _].
  destruct (writeChain f1 _ _ a) as [f2 written] eqn:Ech.
  assert (H2 : f2 !! x = f1 !! x).
  { unfold writeChain in Ech. destruct (wrap _ _) as [text|e1]; [|by injection Ech as <- _].
    apply files.CreateAndWrite_cases in Ech as [[_ ->]|[_ [->|[d ->]]]]; [by apply lookup_insert_ne|done|by apply lookup_insert_ne]. }
  rewrite <- H2. destruct (rbind written _) as [m'|e1]; [|by injection H as <- _].
  destruct (Save f2 m' _ _) as [f3 saved] eqn:Es. unfold Save in Es. destruct (wrap _ _) as [data|e1].
  - destruct (save a) as [[st e1]|]; injection Es as <- <-; [by injection H as <- _|done].
  - injection Es as <- <-. by injection H as <- _.
Qed.

Lemma provisioned_where d o s info st :
  ProvisionDeviceKey pl d o = (Ok (s, info), st) ->
  st = bool_decide (KBackend info = backendSecureEnclave) /\ (KBackend info = backendSecureEnclave -> KTag info = Tag o).
Proof.
  unfold ProvisionDeviceKey, describeKey. intros Ep. destruct (_ || _).
  - injection Ep as Ep <-. gosimp Ep. apply Ok_inj in Ep. injection Ep as <- <-.
    match goal with Hq : Ok (mkKeyInfo _ _ _ _) = Ok _ |- _ => apply Ok_inj in Hq; rewrite <- Hq end. cbn [KBackend].
    split; [by rewrite bool_decide_false|intros Hk; discriminate Hk].
  - destruct (Generate pl _ _) as [s'|e1|e1 st']; try done. injection Ep as Ep <-. gosimp Ep. apply Ok_inj in Ep. injection Ep as <- <-.
    match goal with Hq : Ok (mkKeyInfo _ _ _ _) = Ok _ |- _ => apply Ok_inj in Hq; rewrite <- Hq end. cbn [KBackend KTag].
    split; [by rewrite bool_decide_true|done].
Qed.
(** The teardown of a key of the secure element: gone, unless its deletion is refused. *)
Lemma cleanup_element a info k :
  KBackend info = backendSecureEnclave -> KTag info <> [] ->
  cleanupDeviceKey a info k = match delete_key a with None => k ∖ {[b2s (KTag info)]} | Some _ => k end.
Proof.
  intros Hk Hne. unfold cleanupDeviceKey, Delete. rewrite Hk, str_eqb_refl.
  assert (E : (0 <? len (KTag info)) = true) by (apply Z.ltb_lt; pose proof (len_nonneg (KTag info)); rewrite <- len_zero in Hne; lia).
  rewrite E. cbn [andb]. by destruct (delete_key a).
Qed.
Lemma cleanup_software a info k : KBackend info <> backendSecureEnclave -> cleanupDeviceKey a info k = k.
Proof. intros Hk. unfold cleanupDeviceKey. by rewrite (proj2 (str_eqb_false _ _) Hk). Qed.

(** C31: what a rejected enrollment leaves behind.  A gate leaves everything as
    it was.  A key that could not be provisioned leaves no file changed, but the
    key where the element had already stored it.  After that, a key of the element
    is deleted again when the deletion is granted, and stays in the keychain under
    its tag when the deletion is refused, whose error is ignored; a software key
    was never there.  A declined confirmation leaves no changed file; afterwards a
    failure can leave the device's document and the credential file, never a
    mapping entry.  The document does stay: a caveat that cannot be attenuated
    rejects an enrollment whose document has already been published, over
    whatever was published there before. *)
Theorem rejection_footprint c now a w :
  (forall w' e, Enroll pl Unmarshal decode c now a w = (w', Err e) ->
     (gates Unmarshal decode c a w = Err e /\ w' = w)
     \/ (exists st, ProvisionDeviceKey pl (DeviceDID c) (Device c) = (Err e, st) /\ fs w' = fs w
           /\ keychain w' = if st then keychain w ∪ {[b2s (Tag (Device c))]} else keychain w)
     \/ exists org b m s info,
          gates Unmarshal decode c a w = Ok (org, b, m)
          /\ ProvisionDeviceKey pl (DeviceDID c) (Device c) = (Ok (s, info), bool_decide (KBackend info = backendSecureEnclave))
          /\ (KBackend info <> backendSecureEnclave -> keychain w' = keychain w)
          /\ (KBackend info = backendSecureEnclave -> Tag (Device c) <> [] -> delete_key a = None ->
                keychain w' = keychain w ∖ {[b2s (Tag (Device c))]})
          /\ (KBackend info = backendSecureEnclave -> Tag (Device c) <> [] -> delete_key a <> None ->
                keychain w' = keychain w ∪ {[b2s (Tag (Device c))]})
          /\ (fs w' = fs w
              \/ (Confirm b (mkConfirm (Identity c) (DeviceDID c) (Fingerprint_ info) (Algorithm info)) = Ok tt
                  /\ exists p, did.DocumentPath (s2b (Root c)) (DeviceDID c) = Ok p
                       /\ forall x, x <> b2s p -> x <> CredentialOut c -> fs w' !! x = fs w !! x)))
  /\ forall org b m s info st p doc e,
       gates Unmarshal decode c a w = Ok (org, b, m) ->
       ProvisionDeviceKey pl (DeviceDID c) (Device c) = (Ok (s, info), st) ->
       Confirm b (mkConfirm (Identity c) (DeviceDID c) (Fingerprint_ info) (Algorithm info)) = Ok tt ->
       did.NewDocument (DeviceDID c) (signer.Public s) = Some doc ->
       did.DocumentPath (s2b (Root c)) (DeviceDID c) = Ok p -> doc_mkdir a = None -> doc_write a = files.Done ->
       mintCredential c org (signer.Public s) = Err e ->
       exists w', Enroll pl Unmarshal decode c now a w = (w', Err e)
         /\ fs w' = <[b2s p := Indent (encode (texts.Document_json doc)) ++ [Byte.x0a]]> (fs w).
Proof.
  split.
  - intros w' e. unfold Enroll. destruct (gates _ _ _ _ _) as [[[org b] m]|e0] eqn:Eg; [|intros [= <- <-]; by left].
    destruct (ProvisionDeviceKey _ _ _) as [[[s info]|e0] st] eqn:Ep; [|intros [= <- <-]; right; left; by exists st].
    destruct (commit _ _ _ _ _ _ _ _ _) as [f [r|e0]] eqn:Ec; [done|]. intros [= <- ->]. right; right.
    destruct (provisioned_where _ _ _ _ _ Ep) as [-> Htag]. exists org, b, m, s, info. cbn [fs keychain is_ok]. split_and!; try done.
    + intros Hk. by rewrite bool_decide_false, cleanup_software by done.
    + intros Hk Hne Hd. rewrite <- (Htag Hk) in *. rewrite bool_decide_true, cleanup_element, Hd by done. set_solver.
    + intros Hk Hne Hd. rewrite <- (Htag Hk) in *. rewrite bool_decide_true, cleanup_element by done. by destruct (delete_key a).
    + apply commit_Err in Ec as [->|(Hc & p & Hp & Hf)]; [by left|]. right. split; [done|]. by exists p.
  - intros org b m s info st p doc e Hg Hp Hc Hd Hpath Hm Hw Hmint.
    unfold Enroll. rewrite Hg, Hp. unfold commit. rewrite Hc, Hd.
    assert (Hid : did.ID doc = DeviceDID c).
    { unfold did.NewDocument in Hd. destruct (did.PublicKeyToJWK _); [|done]. simpl in Hd. by injection Hd as <-. }
    unfold texts.WriteDocument. rewrite Hid, Hpath, Hm, Hw. unfold MarshalIndent, Marshal. cbn [rbind wrap files.WriteFile].
    rewrite Hmint. cbn [rbind is_ok]. eexists. split; done.
Qed.
End Laws.

(** ** A concrete enrollment *)

#[local] Existing Instance chain.accepting.
#[local] Instance same_case : CaseTables := Build_CaseTables (fun r => r).

Definition laptop : types.DID := "did:web:laptop.example".
Definition test_org : signer.Signer := signer.mkSigner chain.org (chain.test_key Byte.x01) (fun _ => Ok [Byte.x01]).
Lemma test_org_sound : signer.Sound test_org.
Proof. intros data sig [= <-]. reflexivity. Qed.
Definition test_device : signer.Signer := signer.mkSigner laptop (chain.test_key Byte.x04) (fun _ => Ok [Byte.x04]).
Definition test_platform : Platform :=
  mkPlatform false (fun _ _ => GenerateFailed (New "enclave: not available") false) (fun _ => Ok test_device) (fun _ _ => Ok test_device).
Definition doc_of (d : types.DID) (k : PublicKey) : did.Document :=
  default (did.mkDocument [] d [] [] []) (did.NewDocument d k).
Definition doc_text (d : did.Document) : bytes := Indent (encode (texts.Document_json d)) ++ [Byte.x0a].
(** A decoder that knows the documents of any key for the two identifiers. *)
Definition test_unmarshal (data : bytes) : result did.Document :=
  match find (fun d => bool_decide (doc_text d = data))
          [doc_of chain.org (chain.test_key Byte.x01); doc_of laptop (chain.test_key Byte.x04)] with
  | Some d => Ok d
  | None => Err (New "unexpected end of JSON input")
  end.
Definition test_decode (data : bytes) : result Mapping := Err (New "invalid character").
Definition test_config (cs : list macaroon.Caveat) : Config :=
  mkConfig "ana" laptop chain.org (Some test_org) [Byte.x07] "cred-9" "kessa" cs "https://org.example/status.json" 9
    "/srv" None "/etc/mapping.json" "/etc/ana.json" (mkDevice false [] []) (Some (TOFU (mkTOFU (Some (s2b "Yes ")) false))).
Definition test_now : time := mkTime 1700000000 0 0.
Definition test_answers : answers := mkAnswers None None files.Done None files.Done None None.
Definition org_path : bytes := s2b "/srv/org.example/.well-known/did.json".
Definition test_world : world := mkWorld {[ b2s org_path := doc_text (doc_of chain.org (chain.test_key Byte.x01)) ]} ∅.
Definition enrolled : world * result Result :=
  Eval vm_compute in Enroll test_platform test_unmarshal test_decode (test_config [chain.cap "100"]) test_now test_answers test_world.
Definition enrolled_result : Result :=
  Eval vm_compute in match enrolled.2 with Ok r => r | Err _ => mkResult "" "" "" (mkKeyInfo "" "" "" []) [] "" "" "" (chain.mkChain None) end.

Lemma enrolled_chain_verifies_witness :
  chain.Actor (Chain enrolled_result) = laptop /\ chain.Root (Chain enrolled_result) = chain.org.
Proof.
  destruct (enrolled_chain_verifies test_platform test_unmarshal test_decode (test_config [chain.cap "100"]) test_now
              test_answers test_world enrolled.1 enrolled_result test_org org_path) as (_ & Ha & Hr & _).
  - vm_compute. reflexivity.
  - reflexivity.
  - reflexivity.
  - exact test_org_sound.
  - vm_compute. reflexivity.
  - vm_compute. reflexivity.
  - intros p Hp. vm_compute in Hp. injection Hp as <-. split; [by vm_compute|].
    intros x [->| ->]; by vm_compute.
  - intros s info doc Hs Hd. vm_compute in Hs. injection Hs as <- <-. vm_compute in Hd. injection Hd as <-.
    vm_compute. reflexivity.
  - by split.
Defined.

(** A caveat no macaroon accepts. *)
Definition bad_caveat : macaroon.Caveat := macaroon.mkCaveat "amount" "~" "100".
Definition rejected : world * result Result :=
  Eval vm_compute in Enroll test_platform test_unmarshal test_decode (test_config [bad_caveat]) test_now test_answers test_world.
Definition test_info : KeyInfo :=
  Eval vm_compute in match (ProvisionDeviceKey test_platform laptop (mkDevice false [] [])).1 with
                     | Ok (_, i) => i | Err _ => mkKeyInfo "" "" "" [] end.
Definition mint_error : error :=
  Eval vm_compute in match mintCredential (test_config [bad_caveat]) test_org (chain.test_key Byte.x04) with
                     | Err e => e | Ok _ => New "" end.
(** The same device with a secure element, an operator who declines, and a
    keychain that refuses the deletion. *)
Definition element_platform : Platform :=
  mkPlatform true (fun _ _ => Generated test_device) (fun _ => Ok test_device) (fun _ _ => Ok test_device).
Definition declined_config : Config :=
  mkConfig "ana" laptop chain.org (Some test_org) [Byte.x07] "cred-9" "kessa" [] "https://org.example/status.json" 9
    "/srv" None "/etc/mapping.json" "/etc/ana.json" (mkDevice false [] (s2b "ana-key")) (Some (TOFU (mkTOFU (Some (s2b "no ")) false))).
Definition refused_delete : answers := mkAnswers None None files.Done None files.Done None (Some (New "enclave: delete key")).
Definition kept : world * result Result :=
  Eval vm_compute in Enroll element_platform test_unmarshal test_decode declined_config test_now refused_delete test_world.
Example refused_deletion :
  Enroll element_platform test_unmarshal test_decode declined_config test_now refused_delete test_world = kept
  /\ is_ok kept.2 = false /\ bool_decide ("ana-key"%string ∈ keychain kept.1) = true.
Proof. split; [vm_compute; reflexivity|split; vm_compute; reflexivity]. Qed.
Lemma rejection_footprint_witness :
  exists w', Enroll test_platform test_unmarshal test_decode (test_config [bad_caveat]) test_now test_answers test_world = (w', Err mint_error)
    /\ fs w' = <[b2s (s2b "/srv/laptop.example/.well-known/did.json") := doc_text (doc_of laptop (chain.test_key Byte.x04))]> (fs test_world).
Proof.
  apply (proj2 (rejection_footprint test_platform test_unmarshal test_decode (test_config [bad_caveat]) test_now test_answers test_world)
           test_org (TOFU (mkTOFU (Some (s2b "Yes ")) false)) NewMapping test_device test_info false
           (s2b "/srv/laptop.example/.well-known/did.json") (doc_of laptop (chain.test_key Byte.x04)) mint_error);
    vm_compute; reflexivity.
Defined.

Definition test_record (d : types.DID) : Credential :=
  mkCredential d "id" "https://org.example/status.json" 9 "SHA256:x" "software" "" "P-256" test_now false.
Definition test_mapping : Mapping := mkMapping 1 {[ "ana"%string := mkEmployee "ana" [test_record laptop] ]}.
Lemma add_credential_witness :
  AddCredential test_mapping "ana" (test_record laptop) = Err (registered_error laptop "ana").
Proof.
  apply (proj2 (add_credential NewMapping "ana" (test_record laptop)) test_mapping); vm_compute; reflexivity.
Defined.

Example confirmations :
  is_ok (TOFU_Confirm (mkTOFU (Some (s2b "yes" ++ [Byte.x0a])) false) (mkConfirm "" "" "" "")) = true
  /\ is_ok (TOFU_Confirm (mkTOFU (Some (s2b "y" ++ [Byte.x0a])) false) (mkConfirm "" "" "" "")) = false
  /\ is_ok (TOFU_Confirm (mkTOFU (Some []) false) (mkConfirm "" "" "" "")) = false
  /\ is_ok (TOFU_Confirm (mkTOFU None false) (mkConfirm "" "" "" "")) = false.
Proof. by vm_compute. Qed.

End enroll.
