(* ===== verification/Enclave.v ===== *)
(** internal/signer/enclave: signing keys of the macOS Secure Enclave.

    Module [enclave] has the Go side of the backend (enclave.go,
    enclave_darwin.go): what it asks of the Security framework, what it makes of
    the answers, and the references to keys it holds.  The framework is a record
    of answers, which may change between any two calls; references are counted as
    CoreFoundation counts them.  The theorems say that every reference obtained is
    held by exactly one open signer and given back once, and what an enrollment
    gets from this backend. *)
From S2P Require Import Prelude GoFmt GoCrypto GoPath Types Signer Did Enroll.

Module enclave.

(** ** The vocabulary (enclave.go) *)

Definition Policy : Type := Z.
Definition DeviceUnlock : Policy := 0.
Definition Biometric : Policy := 1.
Definition Policy_String (p : Policy) : string :=
  if p =? DeviceUnlock then "device-unlock" else if p =? Biometric then "biometric" else "unknown".

Definition ErrUnsupported : error := New "enclave: no secure element on this platform/build".
Definition ErrNotFound : error := New "enclave: no key found for tag".
Definition ErrMissingEntitlement : error :=
  New "enclave: keychain-access-group entitlement required (code-sign the binary)".

Definition errSecItemNotFound : Z := -25300.
Definition errSecMissingEntitlement : Z := -34018.

Definition oserr (code : Z) : string :=
  if code =? -34018 then "errSecMissingEntitlement (-34018): key use needs a code-signed binary with a keychain-access-group entitlement"
  else if code =? errSecItemNotFound then "errSecItemNotFound (-25300)"
  else if code =? -25293 then "errSecAuthFailed (-25293): access-control gate not satisfied"
  else if code =? -128 then "user canceled the authentication (-128)"
  else if code =? -25291 then "errSecNotAvailable (-25291): no keychain / secure element available"
  else "Security framework error " +:+ Itoa code.

(** ** The Security framework, through the file's C functions

    A reference is a non-null SecKeyRef, which the caller then owns; a null one
    comes with a code.  The last two functions answer bytes or a code. *)
Inductive obtained := Ref (r : positive) | Null (code : Z).
Record Framework := mkFramework
  { kessa_se_generate : bytes -> Z -> Z -> obtained; kessa_se_load : bytes -> obtained;
    kessa_se_public : positive -> bytes + Z; kessa_se_sign : positive -> bytes -> bytes + Z;
    kessa_se_delete : bytes -> Z }.

(** ** The process

    A signer is an object: it is named by its place in [signers].  [retained]
    counts the references owned by the process, [over_released] records that one
    was given back that it did not own, which CoreFoundation does not survive.
    [keychain] holds the tags keys were stored under by this process. *)
Record Signer := mkSigner { did : types.DID; pub : PublicKey; key : option positive }.
Record process := mkProcess
  { retained : gmap positive nat; over_released : bool; signers : list Signer; keychain : gset string }.
Definition start (kc : gset string) : process := mkProcess ∅ false [] kc.

Definition count (p : process) (r : positive) : nat := default 0%nat (retained p !! r).
Definition set_retained (p : process) (m : gmap positive nat) : process :=
  mkProcess m (over_released p) (signers p) (keychain p).
Definition retain (p : process) (r : positive) : process := set_retained p (<[r := S (count p r)]> (retained p)).
Definition kessa_se_release (p : process) (r : positive) : process :=
  match count p r with
  | O => mkProcess (retained p) true (signers p) (keychain p)
  | S n => set_retained p (<[r := n]> (retained p))
  end.
Definition set_signers (p : process) (l : list Signer) : process :=
  mkProcess (retained p) (over_released p) l (keychain p).
Definition set_keychain (p : process) (k : gset string) : process :=
  mkProcess (retained p) (over_released p) (signers p) k.

Section Operations.
Context {CR : Crypto}.

Definition publicKey (fw : Framework) (r : positive) : result PublicKey :=
  match kessa_se_public fw r with
  | inr code => Err (Errorf "enclave: read public key: %s" [AStr (oserr code)])
  | inl x963 =>
      if negb (p256_NewPublicKey_ok x963) then
        Err (Errorf "enclave: enclave returned an invalid P-256 public key: %w" [AErr (New "ecdh: invalid public key")])
      else if negb (len x963 =? 65) || negb (bool_decide (head x963 = Some Byte.x04)) then
        Err (Errorf "enclave: unexpected public key encoding (%d bytes)" [AInt (len x963)])
      else Ok (EcdsaKey P256 (SetBytes (take 32 (drop 1 x963))) (SetBytes (take 32 (drop 33 x963))))
  end.

(** The result of a constructor: the place of the signer, or an error, which may
    wrap [ErrMissingEntitlement] or be [ErrNotFound]. *)
Inductive made := Made (i : nat) | MissingEntitlement (e : error) | NotFound | Failed (e : error).

Definition newSigner (fw : Framework) (d : types.DID) (r : positive) (p : process) : process * made :=
  match publicKey fw r with
  | Err e => (kessa_se_release p r, Failed e)
  | Ok pk => (set_signers p (signers p ++ [mkSigner d pk (Some r)]), Made (length (signers p)))
  end.

Definition generate (fw : Framework) (d : types.DID) (tag : bytes) (policy : Policy) (permanent : bool) (p : process) : process * made :=
  let bio := if policy =? Biometric then 1 else 0 in
  let perm := if permanent then 1 else 0 in
  match kessa_se_generate fw tag bio perm with
  | Null code =>
      (p, if code =? errSecMissingEntitlement
          then MissingEntitlement (Errorf "enclave: generate key: %s: %w" [AStr (oserr code); AErr ErrMissingEntitlement])
          else Failed (Errorf "enclave: generate key: %s" [AStr (oserr code)]))
  | Ref r =>
      let p := retain p r in
      newSigner fw d r (if permanent then set_keychain p ({[ b2s tag ]} ∪ keychain p) else p)
  end.
Definition Generate (fw : Framework) (d : types.DID) (tag : bytes) (policy : Policy) (p : process) : process * made :=
  if len tag =? 0 then (p, Failed (New "enclave: empty tag")) else generate fw d tag policy true p.
Definition GenerateEphemeral (fw : Framework) (d : types.DID) (policy : Policy) (p : process) : process * made :=
  generate fw d [] policy false p.

Definition Load (fw : Framework) (d : types.DID) (tag : bytes) (p : process) : process * made :=
  if len tag =? 0 then (p, Failed (New "enclave: empty tag"))
  else
    match kessa_se_load fw tag with
    | Null code => (p, if code =? errSecItemNotFound then NotFound
                       else Failed (Errorf "enclave: load key: %s" [AStr (oserr code)]))
    | Ref r => newSigner fw d r (retain p r)
    end.

Definition Delete (fw : Framework) (tag : bytes) (p : process) : process * result unit :=
  if len tag =? 0 then (p, Err (New "enclave: empty tag"))
  else
    let st := kessa_se_delete fw tag in
    (if st =? 0 then set_keychain p (keychain p ∖ {[ b2s tag ]}) else p,
     reject_if (negb (st =? 0) && negb (st =? errSecItemNotFound)) (Errorf "enclave: delete key: %s" [AStr (oserr st)])).

Definition Sign (fw : Framework) (s : Signer) (data : bytes) : result bytes :=
  match key s with
  | None => Err (New "enclave: signer is closed")
  | Some r =>
      match kessa_se_sign fw r data with
      | inr code => Err (Errorf "enclave: sign: %s" [AStr (oserr code)])
      | inl sig => Ok sig
      end
  end.

(** [Close] of the signer at [i], also what its finalizer calls. *)
Definition Close (i : nat) (p : process) : process :=
  match signers p !! i with
  | Some s =>
      match key s with
      | Some r => let p := kessa_se_release p r in set_signers p (<[i := mkSigner (did s) (pub s) None]> (signers p))
      | None => p
      end
  | None => p
  end.

(** ** Any use of the package *)
Inductive op :=
  | GenerateOp (d : types.DID) (tag : bytes) (policy : Policy)
  | EphemeralOp (d : types.DID) (policy : Policy)
  | LoadOp (d : types.DID) (tag : bytes)
  | CloseOp (i : nat)
  | DeleteOp (tag : bytes).
Definition apply (fw : Framework) (o : op) (p : process) : process :=
  match o with
  | GenerateOp d tag policy => (Generate fw d tag policy p).1
  | EphemeralOp d policy => (GenerateEphemeral fw d policy p).1
  | LoadOp d tag => (Load fw d tag p).1
  | CloseOp i => Close i p
  | DeleteOp tag => (Delete fw tag p).1
  end.
Definition run (ops : list (Framework * op)) (p : process) : process :=
  fold_left (fun p o => apply o.1 o.2 p) ops p.
End Operations.

(** enclave_stub.go: every build without the backend. *)
Module Stub.
Definition Available : bool := false.
Definition Generate (d : types.DID) (tag : bytes) (policy : Policy) : result signer.Signer := Err ErrUnsupported.
Definition GenerateEphemeral (d : types.DID) (policy : Policy) : result signer.Signer := Err ErrUnsupported.
Definition Load (d : types.DID) (tag : bytes) : result signer.Signer := Err ErrUnsupported.
Definition Delete (tag : bytes) : result unit := Err ErrUnsupported.
End Stub.
Definition Available : bool := true.

(** ** References are balanced *)

Section Balance.
Context {CR : Crypto}.

Definition holders (r : positive) (l : list Signer) : nat :=
  length (List.filter (fun s => bool_decide (key s = Some r)) l).
(** The public half of a signer is a point crypto/ecdh accepted. *)
Definition valid_pub (s : Signer) : Prop :=
  exists xb yb, len xb = 32 /\ len yb = 32 /\ p256_NewPublicKey_ok (Byte.x04 :: xb ++ yb) = true
    /\ pub s = EcdsaKey P256 (SetBytes xb) (SetBytes yb).
Definition balanced (p : process) : Prop :=
  over_released p = false /\ (forall r, count p r = holders r (signers p)) /\ Forall valid_pub (signers p).

Lemma holders_app r l l' : holders r (l ++ l') = (holders r l + holders r l')%nat.
Proof. unfold holders. by rewrite List.filter_app, length_app. Qed.
Lemma holders_one r s : holders r [s] = if bool_decide (key s = Some r) then 1%nat else 0%nat.
Proof. unfold holders. cbn. by case_bool_decide. Qed.
Lemma holders_close r l i s :
  l !! i = Some s ->
  holders r l = (holders r (<[i := mkSigner (did s) (pub s) None]> l) + (if bool_decide (key s = Some r) then 1 else 0))%nat.
Proof.
  revert i. induction l as [|x l IH]; intros i Hi; [done|].
  change (x :: l) with ([x] ++ l). rewrite holders_app, holders_one. destruct i as [|i]; cbn in Hi.
  - injection Hi as ->. change (<[0%nat := ?y]> ([s] ++ l)) with ([y] ++ l). rewrite holders_app, holders_one. cbn [key].
    rewrite (bool_decide_eq_false_2 (None = Some r)) by done. lia.
  - change (<[S i := ?y]> ([x] ++ l)) with ([x] ++ <[i := y]> l). rewrite holders_app, holders_one, (IH i Hi). lia.
Qed.
Lemma held_counted r l i s : l !! i = Some s -> key s = Some r -> (0 < holders r l)%nat.
Proof. intros Hi Hk. rewrite (holders_close r l i s Hi), bool_decide_eq_true_2 by done. lia. Qed.

Lemma count_retain p r q : count (retain p r) q = (count p q + if bool_decide (q = r) then 1 else 0)%nat.
Proof.
  unfold retain, set_retained, count. cbn [retained]. case_bool_decide as E.
  - subst q. rewrite lookup_insert_eq. cbn. lia.
  - rewrite lookup_insert_ne by done. lia.
Qed.
Lemma count_release p r q :
  (0 < count p r)%nat ->
  over_released (kessa_se_release p r) = over_released p /\ signers (kessa_se_release p r) = signers p
  /\ keychain (kessa_se_release p r) = keychain p
  /\ count p q = (count (kessa_se_release p r) q + if bool_decide (q = r) then 1 else 0)%nat.
Proof.
  intros Hr. unfold kessa_se_release. destruct (count p r) as [|n] eqn:E; [lia|]. split_and!; [done..|].
  unfold count, set_retained. cbn [retained]. case_bool_decide as Eq.
  - subst q. rewrite lookup_insert_eq. unfold count in E. rewrite E. cbn. lia.
  - rewrite lookup_insert_ne by done. lia.
Qed.
Lemma balanced_keychain p k : balanced p -> balanced (set_keychain p k).
Proof. done. Qed.

Lemma publicKey_valid fw r pk d k : publicKey fw r = Ok pk -> valid_pub (mkSigner d pk k).
Proof.
  unfold publicKey. destruct (kessa_se_public fw r) as [x|]; [|done]. destruct (p256_NewPublicKey_ok x) eqn:Ev; [|done].
  destruct (len x =? 65) eqn:El; [|done]. cbn [negb orb]. case_bool_decide as Eh; [|done]. intros [= <-].
  destruct x as [|c x]; [done|]. injection Eh as ->. unfold len in El. cbn [length] in El.
  assert (Hx : length x = 64%nat) by (apply Z.eqb_eq in El; lia).
  change (take 32 (drop 1 (Byte.x04 :: x))) with (take 32 x). change (take 32 (drop 33 (Byte.x04 :: x))) with (take 32 (drop 32 x)).
  exists (take 32 x), (take 32 (drop 32 x)). unfold len. rewrite !length_take, !length_drop, Hx. split_and!; [done|done| |done].
  rewrite (take_ge (drop 32 x)) by (rewrite length_drop, Hx; done). by rewrite take_drop.
Qed.

(** A constructor keeps the balance: the reference it was given is either held
    by the new signer or given back. *)
Lemma newSigner_balanced fw d r p :
  over_released p = false -> (forall q, count p q = (holders q (signers p) + if bool_decide (q = r) then 1 else 0)%nat) ->
  Forall valid_pub (signers p) -> balanced (newSigner fw d r p).1.
Proof.
  intros Ho Hc Hv. unfold newSigner. destruct (publicKey fw r) as [pk|e] eqn:E; cbn [fst].
  - split; [done|]. split; [|apply Forall_app; split; [done|]; constructor; [by eapply publicKey_valid|constructor]].
    intros q. change (count (set_signers p ?l) q) with (count p q). cbn [signers set_signers]. rewrite holders_app, holders_one, Hc. cbn [key].
    f_equal. by repeat case_bool_decide; congruence.
  - assert (Hr : (0 < count p r)%nat) by (rewrite Hc, bool_decide_eq_true_2 by done; lia).
    destruct (count_release p r r Hr) as (O & S & _ & _). split; [by rewrite O|]. rewrite S. split; [|done].
    intros q. destruct (count_release p r q Hr) as (_ & _ & _ & C). specialize (Hc q). lia.
Qed.
Lemma retained_balanced fw d r p k : balanced p -> balanced (newSigner fw d r (set_keychain (retain p r) k)).1.
Proof.
  intros (Ho & Hc & Hv). apply newSigner_balanced; [done| |done].
  intros q. change (count (set_keychain (retain p r) k) q) with (count (retain p r) q). rewrite count_retain. cbn. by rewrite Hc.
Qed.
Lemma keychain_same p : set_keychain p (keychain p) = p.
Proof. by destruct p. Qed.
Lemma generate_balanced fw d tag policy permanent p : balanced p -> balanced (generate fw d tag policy permanent p).1.
Proof.
  intros B. unfold generate. destruct (kessa_se_generate fw tag _ _) as [r|code]; [|done]. destruct permanent; [by apply retained_balanced|].
  rewrite <- (keychain_same (retain p r)). by apply retained_balanced.
Qed.
Lemma Close_balanced i p : balanced p -> balanced (Close i p).
Proof.
  intros (Ho & Hc & Hv). unfold Close. destruct (signers p !! i) as [s|] eqn:Es; [|done].
  destruct (key s) as [r|] eqn:Ek; [|done].
  assert (Hr : (0 < count p r)%nat) by (rewrite Hc; by eapply held_counted).
  destruct (count_release p r r Hr) as (O & S & _ & _). split; [cbn; by rewrite O|]. split.
  - intros q. change (count (set_signers ?x ?l) q) with (count x q). cbn [signers set_signers]. rewrite S.
    destruct (count_release p r q Hr) as (_ & _ & _ & C). pose proof (holders_close q _ _ _ Es) as H. rewrite Ek in H. specialize (Hc q).
    assert (bool_decide (Some r = Some q) = bool_decide (q = r)) as E by (repeat case_bool_decide; congruence). rewrite E in H. lia.
  - cbn [signers set_signers]. rewrite S. apply Forall_insert; [done|]. by apply (Forall_lookup_1 _ _ _ _ Hv Es).
Qed.
Lemma apply_balanced fw o p : balanced p -> balanced (apply fw o p).
Proof.
  intros B. destruct o as [d tag policy|d policy|d tag|i|tag]; cbn [apply].
  - unfold Generate. destruct (len tag =? 0); [done|]. by apply generate_balanced.
  - by apply generate_balanced.
  - unfold Load. destruct (len tag =? 0); [done|]. destruct (kessa_se_load fw tag) as [r|code]; [|done].
    rewrite <- (keychain_same (retain p r)). by apply retained_balanced.
  - by apply Close_balanced.
  - unfold Delete. destruct (len tag =? 0); [done|]. by destruct (kessa_se_delete fw tag =? 0).
Qed.
Lemma run_balanced ops p : balanced p -> balanced (run ops p).
Proof. revert p. induction ops as [|[fw o] ops IH]; intros p B; [done|]. by apply IH, apply_balanced. Qed.
End Balance.

(** ** Properties *)

Section Properties.
Context {CR : Crypto}.

Lemma Close_at i p s :
  signers p !! i = Some s ->
  signers (Close i p) = <[i := mkSigner (did s) (pub s) None]> (signers p).
Proof.
  intros Hi. unfold Close. rewrite Hi. destruct s as [d pk [r|]]; cbn [key did pub].
  - unfold kessa_se_release. by destruct (count p r).
  - by rewrite list_insert_id.
Qed.
Lemma none_open l r : Forall (fun s => key s = None) l -> holders r l = 0%nat.
Proof. induction 1 as [|s l Hs _ IH]; [done|]. change (s :: l) with ([s] ++ l). by rewrite holders_app, holders_one, Hs, IH. Qed.

(** C22: whatever the program does with the package, in any order and whatever the
    framework answers, no reference is given back that is not owned; each reference
    is owned as many times as open signers hold it, so none is leaked by a
    constructor that fails; every signer's public half is a point on the curve; a
    closed signer signs nothing more, closing it again does nothing and closing it
    leaves the others alone; and once all are closed the process owns nothing. *)
Theorem references_balanced ops kc :
  let p := run ops (start kc) in
  over_released p = false
  /\ (forall r, count p r = holders r (signers p))
  /\ Forall valid_pub (signers p)
  /\ (forall i s, signers p !! i = Some s ->
       let q := Close i p in
       (exists s', signers q !! i = Some s' /\ pub s' = pub s
          /\ forall fw data, Sign fw s' data = Err (New "enclave: signer is closed"))
       /\ Close i q = q /\ forall j, j <> i -> signers q !! j = signers p !! j)
  /\ (Forall (fun s => key s = None) (signers p) -> forall r, count p r = 0%nat).
Proof.
  intros p. assert (B : balanced p) by (apply run_balanced; split_and!; done). destruct B as (Ho & Hc & Hv).
  split; [exact Ho|]. split; [exact Hc|]. split; [exact Hv|]. split.
  - intros i s Hi q. pose proof (Close_at i p s Hi) as Hq. pose proof (lookup_lt_Some _ _ _ Hi) as Hl.
    assert (Hn : signers q !! i = Some (mkSigner (did s) (pub s) None)) by (unfold q; by rewrite Hq, list_lookup_insert_eq).
    split; [by exists (mkSigner (did s) (pub s) None)|]. split; [unfold Close at 1; by rewrite Hn|].
    intros j Hj. unfold q. by rewrite Hq, list_lookup_insert_ne.
  - intros Hn r. by rewrite Hc, none_open.
Qed.

(** what a Generate leaves behind.  A refusal of the framework changes
    nothing, and is told apart as a missing entitlement exactly by its code.  A
    key that was made is in the keychain under its tag before its public half has
    been read: when that fails the call fails too, having given its reference
    back, and the key stays under the tag. *)
Theorem generate_leaves fw d tag policy p :
  balanced p -> len tag <> 0 ->
  match kessa_se_generate fw tag (if policy =? Biometric then 1 else 0) 1 with
  | Null code =>
      exists e, Generate fw d tag policy p
                = (p, if code =? errSecMissingEntitlement then MissingEntitlement e else Failed e)
  | Ref r =>
      keychain (Generate fw d tag policy p).1 = {[ b2s tag ]} ∪ keychain p
      /\ match publicKey fw r with
         | Ok pk => (Generate fw d tag policy p).2 = Made (length (signers p))
                    /\ signers (Generate fw d tag policy p).1 = signers p ++ [mkSigner d pk (Some r)]
         | Err e => (Generate fw d tag policy p).2 = Failed e /\ signers (Generate fw d tag policy p).1 = signers p
                    /\ forall q, count (Generate fw d tag policy p).1 q = count p q
         end
  end.
Proof.
  intros B Ht. unfold Generate. apply Z.eqb_neq in Ht as ->. pose proof (generate_balanced fw d tag policy true p B) as (_ & C & _).
  unfold generate in *. destruct (kessa_se_generate fw tag _ _) as [r|code]; [|destruct (code =? _); by eexists].
  unfold newSigner in *. destruct (publicKey fw r) as [pk|e]; [done|]. cbn [fst snd] in *.
  set (q0 := set_keychain _ _) in *.
  assert (Hr : (0 < count q0 r)%nat) by (unfold q0; change (count (set_keychain ?x _) r) with (count x r); rewrite count_retain, bool_decide_eq_true_2 by done; lia).
  destruct (count_release q0 r r Hr) as (_ & S & K & _). rewrite K, S in *. split; [done|]. split_and!; [done|done|].
  intros q. rewrite C. destruct B as (_ & Hc & _). by rewrite Hc.
Qed.
End Properties.

(** ** The backend under an enrollment (internal/enroll) *)

Section Enrollment.
Context {CR : Crypto}.

Definition as_signer (fw : Framework) (s : Signer) : signer.Signer := signer.mkSigner (did s) (pub s) (Sign fw s).

(** What enroll.ProvisionDeviceKey sees: a key is asked for under the biometric
    policy.  The last branch of [Made] is never taken. *)
Definition platform (fw : Framework) (p : process) (fresh : types.DID -> result signer.Signer)
  (seeded : types.DID -> bytes -> result signer.Signer) : enroll.Platform :=
  enroll.mkPlatform Available
    (fun d tag =>
       match Generate fw d tag Biometric p with
       | (p', Made i) =>
           match signers p' !! i with
           | Some s => enroll.Generated (as_signer fw s)
           | None => enroll.GenerateFailed (New "nil") false
           end
       | (_, MissingEntitlement e) => enroll.MissingEntitlement e
       | (_, NotFound) => enroll.GenerateFailed ErrNotFound false
       | (_, Failed e) =>
           enroll.GenerateFailed e
             (negb (len tag =? 0) && match kessa_se_generate fw tag 1 1 with Ref _ => true | Null _ => false end)
       end) fresh seeded.

(** kSecKeyAlgorithmECDSASignatureMessageX962SHA256: what the element signs
    verifies, over the digest of the message, under the point it names. *)
Definition signs_as_documented (fw : Framework) : Prop :=
  forall r pk data sig, publicKey fw r = Ok pk -> kessa_se_sign fw r data = inl sig -> signer.Verify pk data sig = true.

Lemma valid_pub_jwk s :
  valid_pub s -> exists j, did.PublicKeyToJWK (pub s) = Some j /\ did.JWK_PublicKey (Some j) = Ok (pub s).
Proof.
  intros (xb & yb & Hx & Hy & Hok & ->).
  apply (did.JWK_reencode (Some (did.mkJWK "EC" "P-256" (RawURLEncoding xb) (RawURLEncoding yb)))).
  unfold did.JWK_PublicKey. cbn [did.Kty did.Crv did.X did.Y]. change ("EC" =?s "OKP") with false. change (("EC" =?s "EC") && ("P-256" =?s "P-256")) with true.
  cbn [andb]. rewrite !did.decodeBase64URL_encoded. cbn [wrap rbind]. unfold did.p256CoordSize in *. rewrite Hx, Hy, Hok. done.
Qed.

(** an enrollment on the element.  When the backend is compiled in and a
    software key was not asked for, a provisioned key is one the element made under
    the tag, permanently and under the biometric policy: it is described as such,
    never replaced by a software key; its public half is the element's, survives
    its JWK form, and what the signer signs verifies under it. *)
Theorem provisioned_on_element fw p fresh seeded d o s info stored :
  balanced p -> enroll.ForceSoftware o = false ->
  enroll.ProvisionDeviceKey (platform fw p fresh seeded) d o = (Ok (s, info), stored) ->
  (exists r, kessa_se_generate fw (enroll.Tag o) 1 1 = Ref r /\ publicKey fw r = Ok (signer.Public s)
     /\ forall data, signer.Sign s data = Sign fw (mkSigner d (signer.Public s) (Some r)) data)
  /\ signer.DID s = d /\ stored = true /\ len (enroll.Tag o) <> 0
  /\ enroll.KBackend info = enroll.backendSecureEnclave /\ enroll.KTag info = enroll.Tag o /\ enroll.Algorithm info = "P-256"%string
  /\ (exists j, did.PublicKeyToJWK (signer.Public s) = Some j /\ did.JWK_PublicKey (Some j) = Ok (signer.Public s))
  /\ (signs_as_documented fw -> signer.Sound s).
Proof.
  intros B Hf H. unfold enroll.ProvisionDeviceKey in H. rewrite Hf in H. cbn [orb negb enroll.Available platform Available enroll.Generate] in H.
  destruct (Z.eq_dec (len (enroll.Tag o)) 0) as [Ht|Ht].
  { unfold Generate in H. rewrite Ht in H. discriminate. }
  pose proof (generate_balanced fw d (enroll.Tag o) Biometric true p B) as (_ & _ & Hv).
  assert (Hg : generate fw d (enroll.Tag o) Biometric true p = Generate fw d (enroll.Tag o) Biometric p)
    by (unfold Generate; by rewrite (proj2 (Z.eqb_neq _ _) Ht)).
  rewrite Hg in Hv.
  assert (G : match kessa_se_generate fw (enroll.Tag o) 1 1 with
    | Ref r => match publicKey fw r with
               | Ok pk => (Generate fw d (enroll.Tag o) Biometric p).2 = Made (length (signers p))
                          /\ signers (Generate fw d (enroll.Tag o) Biometric p).1 = signers p ++ [mkSigner d pk (Some r)]
               | Err e => (Generate fw d (enroll.Tag o) Biometric p).2 = Failed e end
    | Null code => exists e, (Generate fw d (enroll.Tag o) Biometric p).2
                             = (if code =? errSecMissingEntitlement then MissingEntitlement e else Failed e) end).
  { rewrite <- Hg. unfold generate, newSigner. change (if Biometric =? Biometric then 1 else 0) with 1. change (if true then 1 else 0) with 1. destruct (kessa_se_generate fw _ 1 1) as [r|code]; [by destruct (publicKey fw r)|].
    cbn [snd]. destruct (code =? _); by eexists. }
  destruct (Generate fw d (enroll.Tag o) Biometric p) as [p' m]. cbn [fst snd] in G, Hv.
  destruct (kessa_se_generate fw (enroll.Tag o) 1 1) as [r|code]; [|destruct G as [e ->]; destruct (code =? _); discriminate].
  destruct (publicKey fw r) as [pk|e] eqn:Epk; [|subst m; discriminate]. destruct G as [-> Hs].
  rewrite Hs, list_lookup_middle in H by done. injection H as H <-.
  gosimp H. apply Ok_inj in H. injection H as <- <-. unfold enroll.describeKey in Ha. gosimp Ha. apply Ok_inj in Ha as <-.
  cbn [signer.Public as_signer pub] in Ha0. pose proof (publicKey_valid fw r pk d (Some r) Epk) as Hvp.
  pose proof Hvp as (xb & yb & _ & _ & _ & Ep). cbn in Ep. rewrite Ep in Ha0. apply Ok_inj in Ha0 as <-.
  split; [exists r; by split_and!|]. split_and!; try done.
  - exact (valid_pub_jwk _ Hvp).
  - intros Hd data sig Hsig. apply (Hd r pk); [done|]. cbn in Hsig. by destruct (kessa_se_sign fw r data); simplify_eq.
Qed.
End Enrollment.

(** The deletion an enrollment's teardown asks for is [Delete]: with its answer,
    the ceremony's keychain is the process's.  "No such item" is an answer for a
    keychain without the tag. *)
Lemma teardown_is_delete fw tag p a :
  len tag <> 0 -> enroll.delete_key a = match (Delete fw tag p).2 with Ok _ => None | Err e => Some e end ->
  (kessa_se_delete fw tag = errSecItemNotFound -> b2s tag ∉ keychain p) ->
  (enroll.Delete a tag (keychain p)).1 = keychain (Delete fw tag p).1.
Proof.
  intros Ht Ha Hn. unfold enroll.Delete. rewrite Ha. unfold Delete. rewrite (proj2 (Z.eqb_neq _ _) Ht).
  destruct (Z.eqb_spec (kessa_se_delete fw tag) 0) as [->|H0]; [done|]. cbn [negb andb].
  destruct (Z.eqb_spec (kessa_se_delete fw tag) errSecItemNotFound) as [E|E]; cbn; [|done]. specialize (Hn E). set_solver.
Qed.

(** ** What a rejected enrollment can leave in the keychain

    The ceremony tears a key down only when provisioning has returned it: one
    whose public half could not be read stays under its tag. *)
Section Orphan.
Context {CR : Crypto}.
Context (Unmarshal : bytes -> result did.Document) (decode : bytes -> result enroll.Mapping).

Lemma enrollment_orphans_key fw p fresh seeded c now a w org b m r e :
  enroll.ForceSoftware (enroll.Device c) = false -> len (enroll.Tag (enroll.Device c)) <> 0 ->
  enroll.gates Unmarshal decode c a w = Ok (org, b, m) ->
  kessa_se_generate fw (enroll.Tag (enroll.Device c)) 1 1 = Ref r -> publicKey fw r = Err e ->
  exists err, enroll.Enroll (platform fw p fresh seeded) Unmarshal decode c now a w
    = (enroll.mkWorld (enroll.fs w) (enroll.keychain w ∪ {[ b2s (enroll.Tag (enroll.Device c)) ]}), Err err).
Proof.
  intros Hf Ht Hg Hr He. unfold enroll.Enroll. rewrite Hg. unfold enroll.ProvisionDeviceKey. rewrite Hf.
  cbn [orb negb enroll.Available platform Available enroll.Generate]. unfold Generate, generate, newSigner.
  rewrite (proj2 (Z.eqb_neq _ _) Ht). change (if Biometric =? Biometric then 1 else 0) with 1. change (if true then 1 else 0) with 1.
  rewrite Hr, He. cbn [negb andb]. by eexists.
Qed.
End Orphan.

(** ** A concrete element *)

#[local] Instance on_curve : Crypto :=
  {| ed25519_Verify := fun _ _ _ => false; ecdsa_VerifyASN1 := fun x y _ sig => (x =? 1) && (y =? 2) && (sig =?b [Byte.x30]);
     p256_NewPublicKey_ok := fun b => len b =? 65 |}.
Definition test_point : bytes := Byte.x04 :: (repeat Byte.x00 31 ++ [Byte.x01]) ++ (repeat Byte.x00 31 ++ [Byte.x02]).
Definition test_framework : Framework :=
  mkFramework (fun _ _ _ => Ref 7) (fun tag => if tag =?b s2b "laptop" then Ref 7 else Null errSecItemNotFound)
    (fun _ => inl test_point) (fun _ _ => inl [Byte.x30]) (fun _ => 0).
Definition test_broken : Framework :=
  mkFramework (fun _ _ _ => Ref 9) (fun _ => Null (-128)) (fun _ => inl [Byte.x04]) (fun _ _ => inr (-25293)) (fun _ => -25300).

(** Two signers over one key, a constructor that fails, and one Close. *)
Example test_run :
  let p := run [(test_framework, GenerateOp "did:web:a" (s2b "laptop") Biometric); (test_framework, LoadOp "did:web:a" (s2b "laptop"));
                (test_broken, GenerateOp "did:web:b" (s2b "phone") DeviceUnlock); (test_framework, CloseOp 0%nat); (test_framework, CloseOp 0%nat)] (start ∅) in
  count p 7 = 1%nat /\ count p 9 = 0%nat /\ over_released p = false /\ map key (signers p) = [None; Some 7%positive]
  /\ bool_decide (keychain p = {[ "laptop"%string; "phone"%string ]}) = true.
Proof. vm_compute. done. Qed.

Lemma provisioned_on_element_witness :
  exists s info,
    enroll.ProvisionDeviceKey (platform test_framework (start ∅) (fun _ => Err (New "?")) (fun _ _ => Err (New "?"))) "did:web:a"
      (enroll.mkDevice false [] (s2b "laptop")) = (Ok (s, info), true)
    /\ enroll.KBackend info = "secure-enclave"%string /\ signer.Sound s.
Proof.
  destruct (enroll.ProvisionDeviceKey (platform test_framework (start ∅) (fun _ => Err (New "?")) (fun _ _ => Err (New "?"))) "did:web:a"
    (enroll.mkDevice false [] (s2b "laptop"))) as [[[s info]|e] st] eqn:E; [|exfalso; revert E; vm_compute; discriminate].
  assert (B : balanced (start ∅)) by (split; [reflexivity|split; [intros r; reflexivity|constructor]]).
  destruct (provisioned_on_element test_framework (start ∅) (fun _ => Err (New "?")) (fun _ _ => Err (New "?")) "did:web:a"
    (enroll.mkDevice false [] (s2b "laptop")) s info st B eq_refl E) as (_ & _ & Hst & _ & Hb & _ & _ & _ & Hs).
  subst st. exists s, info. split; [reflexivity|]. split; [exact Hb|]. apply Hs.
  intros r pk data sig Hp Hsig. change (publicKey test_framework r) with (publicKey test_framework 7%positive) in Hp.
  assert (Hk : publicKey test_framework 7%positive = Ok (EcdsaKey P256 1 2)) by (vm_compute; reflexivity). rewrite Hk in Hp.
  injection Hp as <-. injection Hsig as <-. vm_compute. reflexivity.
Defined.
End enclave.
