(* ===== verification/Issuer.v ===== *)
(** cmd/issuer (publish.go): minting a delegation chain from a declarative
    specification, publishing the documents and the status list a verifier
    reads, and revoking a credential. *)
From S2P Require Import Prelude GoFmt GoTime GoCrypto GoPath GoJson GoJsonText GoIndent Types Signer Keystore Did Status Macaroon.
From S2P Require Import Credential Chain AuditLog Export Texts Enroll.

Module issuer.

(** ** The specification *)

Record CaveatSpec := mkCaveatSpec { Field : string; Op : string; Value : string }.
Record HopSpec := mkHopSpec
  { Issuer : types.DID; Subject : types.DID; Caveats : list CaveatSpec; StatusIndex : option Z }.
Record StatusSpec := mkStatusSpec { URL : string; s_Issuer : types.DID; Bits : Z }.
Record Spec := mkSpec
  { RootKeyHex : string; Identifier : string; Location : string; Status : StatusSpec; Hops : list HopSpec;
    ExtraPrincipals : list types.DID }.

(** The loop over the hops, given the hop before. *)
Fixpoint validate_hops (i : Z) (prev : option HopSpec) (hops : list HopSpec) : result unit :=
  match hops with
  | [] => Ok tt
  | h :: hops =>
      check! reject_if ((Issuer h =?s "") || (Subject h =?s ""))
        (Errorf "spec: hop %d needs both issuer and subject" [AInt i]);
      check! reject_if (Issuer h =?s Subject h) (Errorf "spec: hop %d delegates to itself" [AInt i]);
      check! match prev with
             | None => Ok tt
             | Some p => reject_if (negb (Issuer h =?s Subject p))
                 (Errorf "spec: hop %d issuer %q is not hop %d's subject %q"
                    [AInt i; AStr (Issuer h); AInt (i - 1); AStr (Subject p)])
             end;
      validate_hops (i + 1) (Some h) hops
  end.
Definition validate (s : Spec) : result unit :=
  check! reject_if (RootKeyHex s =?s "") (New "spec: rootKeyHex is required");
  check! reject_if (Identifier s =?s "") (New "spec: identifier is required");
  check! reject_if (len (Hops s) =? 0) (New "spec: at least one hop is required");
  check! reject_if (chain.MaxDepth <? len (Hops s))
    (Errorf "spec: %d hops exceeds max delegation depth %d" [AInt (len (Hops s)); AInt chain.MaxDepth]);
  check! reject_if ((URL (Status s) =?s "") || (s_Issuer (Status s) =?s ""))
    (New "spec: status.url and status.issuer are required");
  validate_hops 0 None (Hops s).

(** The closure [add]: what was seen is what the list holds. *)
Definition add (out : list types.DID) (d : types.DID) : list types.DID :=
  if negb (d =?s "") && negb (bool_decide (d ∈ out)) then out ++ [d] else out.
Definition principals (s : Spec) : list types.DID :=
  let out := fold_left (fun out h => add (add out (Issuer h)) (Subject h)) (Hops s) [] in
  fold_left add (ExtraPrincipals s) (add out (s_Issuer (Status s))).

Record Result := mkResult
  { Root : string; DIDDocs : list bytes; StatusPath : bytes; ChainPath : string; Chain : chain.Chain;
    CredentialIDs : list string }.

(** What the operating system answers: per document, for the list, for the chain. *)
Record answers := mkAnswers
  { doc : nat -> option error * files.answer; status_mkdir : option error; status_write : files.answer;
    chain_mkdir : option error; chain_write : files.answer }.

Section Publish.
Context {CR : Crypto} {SK : signer.SeedKeys} (url_Parse : string -> result status.ParsedURL).

(** Step 1: one document per principal. *)
Fixpoint publish_documents (ks : keystore.Keystore) (root : string) (a : answers) (i : nat) (ds : list types.DID) (fs : files.files)
  : files.files * result (list bytes) :=
  match ds with
  | [] => (fs, Ok [])
  | d :: ds =>
      match keystore.Signer ks d with
      | Err e => (fs, Err e)
      | Ok s =>
          match did.NewDocument d (signer.Public s) with
          | None => (fs, Err (New "panic"))
          | Some document =>
              let '(fs, r) := texts.WriteDocument fs (s2b root) (Some document) (doc a i).1 (doc a i).2 in
              match r with
              | Err e => (fs, Err e)
              | Ok path =>
                  let '(fs, r) := publish_documents ks root a (S i) ds fs in
                  (fs, let! paths := r in Ok (path :: paths))
              end
          end
      end
  end.

(** Step 2: one credential per hop, each extending the running macaroon. *)
Definition reference (spec : Spec) (h : HopSpec) : status.Reference :=
  match StatusIndex h with
  | None => status.mkReference "" 0 ""
  | Some i =>
      status.mkReference (URL (Status spec)) i
        (if negb (s_Issuer (Status spec) =?s Issuer h) then s_Issuer (Status spec) else "")
  end.
Definition caveat (cv : CaveatSpec) : macaroon.Caveat := macaroon.mkCaveat (Field cv) (Op cv) (Value cv).
Definition mint_hop (spec : Spec) (ks : keystore.Keystore) (i : Z) (m : macaroon.Macaroon) (h : HopSpec)
  : result (macaroon.Macaroon * chain.Link * string) :=
  let! m := enroll.attenuate_all
              (fun _ e => Errorf "hop %d (%s -> %s): %w" [AInt i; AStr (Issuer h); AStr (Subject h); AErr e])
              m (map caveat (Caveats h)) in
  let! holder := keystore.Signer ks (Subject h) in
  let! cred := wrap (fun e => Errorf "hop %d: %w" [AInt i; AErr e])
                 (credential.New (credential.mkOptions (Subject h) (Issuer h) m (Some (signer.Public holder))
                                    (reference spec h) None)) in
  let! issuerSigner := keystore.Signer ks (Issuer h) in
  let! proof := wrap (fun e => Errorf "hop %d: %w" [AInt i; AErr e]) (chain.SignIssuance issuerSigner cred) in
  let! id := export.CredentialID cred in
  Ok (m, chain.mkLink cred (Some proof), id).
Fixpoint mint_hops (spec : Spec) (ks : keystore.Keystore) (i : Z) (m : macaroon.Macaroon) (hops : list HopSpec)
  : result (list (chain.Link * string)) :=
  match hops with
  | [] => Ok []
  | h :: hops =>
      let! minted := mint_hop spec ks i m h in
      let '(m, l, id) := minted in
      let! ls := mint_hops spec ks (i + 1) m hops in
      Ok ((l, id) :: ls)
  end.
Definition mint (spec : Spec) (ks : keystore.Keystore) : result (list (chain.Link * string)) :=
  let! rootKey := wrap (fun e => Errorf "spec: rootKeyHex is not hex: %w" [AErr e]) (DecodeString (RootKeyHex spec)) in
  mint_hops spec ks 0 (macaroon.Mint rootKey (Identifier spec) (Location spec)) (Hops spec).

(** Step 3: the signed, all-clear list. *)
Definition publish_list (spec : Spec) (ks : keystore.Keystore) (root : string) (a : answers) (fs : files.files)
  : files.files * result bytes :=
  match keystore.Signer ks (s_Issuer (Status spec)) with
  | Err e => (fs, Err e)
  | Ok s =>
      let '(l, r) := status.Sign (status.New (Bits (Status spec))) s in
      match r with
      | Err e => (fs, Err e)
      | Ok _ => texts.Publish url_Parse fs l (s2b root) (URL (Status spec)) (status_mkdir a) (status_write a)
      end
  end.

(** Step 4: the credentials, outside the root. *)
Definition write_chain (ch : chain.Chain) (chainOut : string) (a : answers) (fs : files.files) : files.files * result unit :=
  match texts.Chain_Marshal ch with
  | Err e => (fs, Err e)
  | Ok data =>
      files.CreateAndWrite (fun e => Errorf "create %q: %w" [AStr (b2s (filepath_Dir (s2b chainOut))); AErr e])
        (fun e => Errorf "write %q: %w" [AStr chainOut; AErr e])
        fs chainOut (data ++ [Byte.x0a]) (chain_mkdir a) (chain_write a)
  end.

Definition publish (spec : Spec) (ks : keystore.Keystore) (root chainOut : string) (a : answers) (fs : files.files)
  : files.files * result Result :=
  match validate spec with
  | Err e => (fs, Err e)
  | Ok _ =>
      let '(fs, docs) := publish_documents ks root a 0 (principals spec) fs in
      match (let! docs := docs in let! ls := mint spec ks in Ok (docs, ls)) with
      | Err e => (fs, Err e)
      | Ok (docs, ls) =>
          let ch := chain.mkChain (Some (map fst ls)) in
          let '(fs, statusPath) := publish_list spec ks root a fs in
          match statusPath with
          | Err e => (fs, Err e)
          | Ok statusPath =>
              let '(fs, written) := write_chain ch chainOut a fs in
              (fs, let! _ := written in Ok (mkResult root docs statusPath chainOut ch (map snd ls)))
          end
      end
  end.

(** [revoke]: the bit is set, or cleared, in the published list, which is
    signed again and written back. *)
Context (Unmarshal_list : bytes -> result status.published).

Definition revoke (spec : Spec) (ks : keystore.Keystore) (root : string) (index : Z) (clear : bool)
  (mkdir : option error) (a : files.answer) (fs : files.files) : files.files * result bytes :=
  match (check! validate spec;
         let! path := status.PublishPath url_Parse (s2b root) (URL (Status spec)) in
         let! l := wrap (fun e => Errorf "load published status list (run `publish` first): %w" [AErr e])
                     (texts.Load Unmarshal_list fs path) in
         let! l := status.Set_ l index (negb clear) in
         let! s := keystore.Signer ks (s_Issuer (Status spec)) in
         let '(l, r) := status.Sign l s in
         let! _ := r in Ok l) with
  | Err e => (fs, Err e)
  | Ok l => texts.Publish url_Parse fs l (s2b root) (URL (Status spec)) mkdir a
  end.
End Publish.

(** ** Validation and principals *)

(** Each hop is issued by the subject of the one before. *)
Fixpoint line (prev : option HopSpec) (hops : list HopSpec) : Prop :=
  match hops with
  | [] => True
  | h :: hops => Issuer h <> ""%string /\ Subject h <> ""%string
      /\ match prev with Some p => Issuer h = Subject p | None => True end /\ line (Some h) hops
  end.

Lemma validate_hops_Ok i prev hops : validate_hops i prev hops = Ok tt -> line prev hops.
Proof.
  revert i prev. induction hops as [|h hops IH]; intros i prev H; [done|]. simpl in *. gosimp H.
  destruct Ha as [Hi Hs]. split_and!; [done..| |by eapply IH]. destruct prev as [p|]; [|done]. by gosimp Ha1.
Qed.
Lemma spec_Ok s :
  validate s = Ok tt ->
  Hops s <> [] /\ len (Hops s) <= chain.MaxDepth /\ s_Issuer (Status s) <> ""%string /\ line None (Hops s).
Proof.
  unfold validate. intros H. gosimp H. destruct Ha3 as [_ Hs]. apply validate_hops_Ok in H.
  apply Z.eqb_neq in Ha1. rewrite len_zero in Ha1. apply Z.ltb_ge in Ha2. done.
Qed.

Lemma elem_of_add x out d : x ∈ add out d <-> x ∈ out \/ x = d /\ d <> ""%string.
Proof.
  unfold add. destruct (d =?s "") eqn:E; cbn [negb andb].
  - apply str_eqb_true in E as ->. naive_solver.
  - apply str_eqb_false in E. case_bool_decide as Hd; cbn [negb]; [naive_solver|]. rewrite elem_of_app, list_elem_of_singleton. naive_solver.
Qed.
Lemma elem_of_fold_add x ds out : x ∈ fold_left add ds out <-> x ∈ out \/ x ∈ ds /\ x <> ""%string.
Proof.
  revert out. induction ds as [|d ds IH]; intros out; simpl; [set_solver|]. rewrite IH, elem_of_add, elem_of_cons. naive_solver.
Qed.
Lemma elem_of_fold_hops x hops out :
  x ∈ fold_left (fun out h => add (add out (Issuer h)) (Subject h)) hops out
  <-> x ∈ out \/ (exists h, h ∈ hops /\ (x = Issuer h \/ x = Subject h)) /\ x <> ""%string.
Proof.
  revert out. induction hops as [|h hops IH]; intros out; simpl; [set_solver|]. rewrite IH, !elem_of_add. setoid_rewrite elem_of_cons.
  naive_solver.
Qed.
Lemma elem_of_principals s d :
  d ∈ principals s <-> d <> ""%string
    /\ ((exists h, h ∈ Hops s /\ (d = Issuer h \/ d = Subject h)) \/ d = s_Issuer (Status s) \/ d ∈ ExtraPrincipals s).
Proof.
  unfold principals. rewrite elem_of_fold_add, elem_of_add, elem_of_fold_hops. set_solver.
Qed.
Lemma line_named prev hops h : line prev hops -> h ∈ hops -> Issuer h <> ""%string /\ Subject h <> ""%string.
Proof.
  revert prev. induction hops as [|x hops IH]; intros prev; [set_solver|]. intros (Hi & Hs & _ & Hl) [->|Hin]%elem_of_cons; [done|by eapply IH].
Qed.

(** ** Minting *)

Section Laws.
Context {CR : Crypto} {SK : signer.SeedKeys} {SL : signer.SeedLaws}.
Context (url_Parse : string -> result status.ParsedURL).

(** A minted link is the hop's, signed and bound by the keystore's keys. *)
Definition minted (spec : Spec) (ks : keystore.Keystore) (h : HopSpec) (l : chain.Link) : Prop :=
  let c := chain.Credential_ l in
  credential.Subject c = Subject h /\ credential.Issuer c = Issuer h /\ credential.StatusRef c = reference spec h
  /\ exists si ss jwk input sig,
       keystore.Signer ks (Issuer h) = Ok si /\ keystore.Signer ks (Subject h) = Ok ss
       /\ chain.IssuanceInput c = Ok input /\ signer.Sign si input = Ok sig /\ chain.IssuerProof l = Some sig
       /\ did.PublicKeyToJWK (signer.Public ss) = Some jwk /\ credential.HolderKey c = Some jwk.

Lemma attenuate_all_Extends msg m cs m' :
  enroll.attenuate_all msg m cs = Ok m' -> macaroon.Extends m' m = Ok tt.
Proof.
  revert m. induction cs as [|c cs IH]; intros m H; simpl in H.
  - apply Ok_inj in H as ->. apply macaroon.Extends_Ok. split; [done|]. exists []. by rewrite app_nil_r.
  - gosimp H. apply macaroon.Attenuate_Extends in Ha. eapply macaroon.Extends_compose; [by apply IH|done].
Qed.

Lemma mint_hop_Ok spec ks i m h m' l id :
  mint_hop spec ks i m h = Ok (m', l, id) ->
  macaroon.Extends m' m = Ok tt /\ credential.Macaroon_ (chain.Credential_ l) = m' /\ minted spec ks h l
  /\ export.CredentialID (chain.Credential_ l) = Ok id.
Proof.
  unfold mint_hop. intros H. gosimp H. apply Ok_inj in H. injection H as <- <- <-.
  unfold credential.New in Ha1. gosimp Ha1. apply Ok_inj in Ha1. subst a1.
  match goal with Hh : credential.holderJWK _ = Ok _ |- _ => apply credential.holderJWK_Ok in Hh as (k0 & k' & Hk & Hj & Hp) end.
  injection Hk as <-. unfold chain.SignIssuance in Ha3. gosimp Ha3.
  split_and!; [by eapply attenuate_all_Extends|done| |done]. unfold minted. cbn [chain.Credential_ chain.IssuerProof].
  split_and!; [done..|]. eexists _, _, _, _, _. split_and!; done.
Qed.

Lemma mint_hops_Ok spec ks i m hops ls prev :
  mint_hops spec ks i m hops = Ok ls -> line (fst <$> prev) hops ->
  (forall p l, prev = Some (p, l) -> credential.Subject (chain.Credential_ l) = Subject p /\ credential.Macaroon_ (chain.Credential_ l) = m) ->
  Forall2 (minted spec ks) hops (map fst ls) /\ chain.linked (snd <$> prev) (map fst ls)
  /\ Forall (fun x => export.CredentialID (chain.Credential_ x.1) = Ok x.2) ls.
Proof.
  revert i m ls prev. induction hops as [|h hops IH]; intros i m ls prev H Hl Hp; simpl in H.
  { apply Ok_inj in H as <-. by split_and!. }
  gosimp H. destruct a as [[m' l] id]. gosimp H. apply Ok_inj in H as <-. destruct Hl as (_ & _ & Hi & Hl).
  apply mint_hop_Ok in Ha as (He & Hm & Hmint & Hid). pose proof Hmint as (Hsub & Hiss & _).
  destruct (IH _ _ _ (Some (h, l)) Ha0 Hl) as (IH1 & IH2 & IH3); [by intros p l' [= <- <-]|].
  simpl. split_and!; [by constructor| |exact IH2|by constructor].
  destruct prev as [[p q]|]; [|done]. destruct (Hp p q eq_refl) as [Hq Hqm]. simpl in *.
  unfold chain.step_ok. rewrite Hiss, Hq, Hm, Hqm. by split.
Qed.

(** ** Publishing *)

Definition doc_text (d : did.Document) : bytes := Indent (encode (texts.Document_json d)) ++ [Byte.x0a].
Definition separate_paths (root : string) (ds : list types.DID) : Prop :=
  forall d1 d2 p, d1 ∈ ds -> d2 ∈ ds -> did.DocumentPath (s2b root) d1 = Ok p -> did.DocumentPath (s2b root) d2 = Ok p -> d1 = d2.
(** The document of [d]'s key is at its path. *)
Definition published_at (ks : keystore.Keystore) (root : string) (fs : files.files) (d : types.DID) : Prop :=
  exists s doc p, keystore.Signer ks d = Ok s /\ did.NewDocument d (signer.Public s) = Some doc
    /\ did.DocumentPath (s2b root) d = Ok p /\ fs !! b2s p = Some (doc_text doc).

Lemma NewDocument_ID d k doc : did.NewDocument d k = Some doc -> did.ID doc = d.
Proof. unfold did.NewDocument. destruct (did.PublicKeyToJWK k); [|done]. simpl. by intros [= <-]. Qed.

Lemma publish_documents_Ok ks root a i ds fs fs' paths :
  publish_documents ks root a i ds fs = (fs', Ok paths) ->
  Forall2 (fun d p => did.DocumentPath (s2b root) d = Ok p) ds paths
  /\ (forall x, (forall p, p ∈ paths -> x <> b2s p) -> fs' !! x = fs !! x)
  /\ (separate_paths root ds -> forall d, d ∈ ds -> published_at ks root fs' d).
Proof.
  revert i fs fs' paths. induction ds as [|d ds IH]; intros i fs fs' paths.
  { intros [= <- <-]. split_and!; [done..|]. intros _ d Hd. by apply not_elem_of_nil in Hd. }
  cbn [publish_documents]. destruct (keystore.Signer ks d) as [s|e] eqn:Es; [|done].
  destruct (did.NewDocument d _) as [document|] eqn:Ed; [|done].
  destruct (texts.WriteDocument _ _ _ _ _) as [fs1 [path|e]] eqn:Ew; [|done].
  destruct (publish_documents ks root a (S i) ds fs1) as [fs2 r] eqn:Er.
  destruct r as [paths'|e]; cbn [rbind]; intros [= <- Hr]. subst paths.
  apply texts.WriteDocument_Ok in Ew as [Hp Hfs]. rewrite (NewDocument_ID _ _ _ Ed) in Hp.
  destruct (IH _ _ _ _ Er) as (H1 & H2 & H3). split_and!.
  - by constructor.
  - intros x Hx. rewrite H2 by (intros p Hin; apply Hx; by right).
    rewrite Hfs. apply lookup_insert_ne. intros Hc. apply (Hx path); [by left|done].
  - intros Hsep. intros d' [->|Hd']%elem_of_cons; [|apply H3; [|done]; intros d1 d2 p ??; apply Hsep; by right].
    destruct (decide (d ∈ ds)) as [Hin|Hin]; [apply H3; [|done]; intros d1 d2 p ??; apply Hsep; by right|].
    exists s, document, path. split_and!; [done..|]. rewrite H2.
    + rewrite Hfs. apply lookup_insert_eq.
    + intros p Hpin Heq. apply (inj b2s) in Heq as <-. apply list_elem_of_lookup in Hpin as [j Hj].
      destruct (Forall2_lookup_r _ _ _ _ _ H1 Hj) as (d' & Hd' & Hdp). apply Hin.
      assert (d = d') as -> by (eapply Hsep; [by left|right; by eapply list_elem_of_lookup_2|done..]).
      by eapply list_elem_of_lookup_2.
Qed.

Lemma published_key Unmarshal ks root fs d :
  published_at ks root fs d ->
  (forall s doc, keystore.Signer ks d = Ok s -> did.NewDocument d (signer.Public s) = Some doc -> texts.Reads Unmarshal doc) ->
  forall s, keystore.Signer ks d = Ok s ->
  did.ResolveKey (did.FileResolver_Resolve Unmarshal (files.ReadFile fs) (s2b root)) d = Ok (signer.Public s).
Proof.
  intros (s' & doc & p & Hs & Hd & Hp & Hf) Hr s Hs'. assert (s' = s) as -> by congruence.
  apply keystore.Signer_Ok in Hs as (_ & _ & _ & h & seed & _ & _ & Hpub).
  destruct (did.ed25519_jwk (signer.ed25519_NewKeyFromSeed seed)) as (jwk & Hj & Hk); [apply signer.seed_public_size|].
  rewrite Hpub in *. rewrite <- Hk. pose proof (Hr _ _ Hs' ltac:(by rewrite Hpub)).
  eapply (texts.document_key Unmarshal); [done..|]. unfold files.ReadFile. by rewrite Hf.
Qed.

Lemma Sign_list l s : (forall data, exists sig, signer.Sign s data = Ok sig /\ sig <> []) ->
  exists sig, status.Sign l s = (status.mkStatusList (signer.DID s) (status.Purpose_ l) (status.Bits l) sig, Ok tt)
    /\ sig <> []
    /\ signer.Sign s (status.signingInput (status.mkStatusList (signer.DID s) (status.Purpose_ l) (status.Bits l) (status.Signature l))) = Ok sig.
Proof.
  intros Hs. unfold status.Sign. set (inp := status.signingInput _). destruct (Hs inp) as (sig & E & Hn). rewrite E. by exists sig.
Qed.
(** A list signed by a keystore's signer is accepted from that authority. *)
Lemma signed_accepted l l' s :
  signer.Sound s -> (forall data, exists sig, signer.Sign s data = Ok sig /\ sig <> []) -> signer.DID s <> ""%string ->
  status.MinBits <= status.Len l -> status.Sign l s = (l', Ok tt) ->
  status.Verify l' (signer.DID s) (signer.Public s) = Ok tt /\ (forall i, status.Lookup l' i = status.Lookup l i)
  /\ status.Len l' = status.Len l /\ status.Signature l' <> [].
Proof.
  intros HS Hs Hd Hlen H. destruct (Sign_list l s Hs) as (sig & E & Hn & Hsig). rewrite E in H. injection H as <-.
  split_and!; [|done..]. apply status.Verify_Ok. split_and!; [done..|]. by apply (HS _ _ Hsig).
Qed.

Lemma publish_list_Ok spec ks root a fs fs' path :
  publish_list url_Parse spec ks root a fs = (fs', Ok path) -> s_Issuer (Status spec) <> ""%string ->
  exists s l p, keystore.Signer ks (s_Issuer (Status spec)) = Ok s /\ status.Sign (status.New (Bits (Status spec))) s = (l, Ok tt)
    /\ status.Verify l (s_Issuer (Status spec)) (signer.Public s) = Ok tt
    /\ Bits (Status spec) <= status.Len l /\ (forall i, 0 <= i < status.Len l -> status.Lookup l i = Ok false)
    /\ status.PublishPath url_Parse (s2b root) (URL (Status spec)) = Ok path
    /\ status.Marshal l = Ok p /\ fs' = <[b2s path := Indent (encode (texts.published_json p))]> fs.
Proof.
  unfold publish_list. intros H Hne. destruct (keystore.Signer ks _) as [s|e] eqn:Es; [|done].
  destruct (status.Sign _ s) as [l [[]|e]] eqn:El; [|done]. apply texts.Publish_Ok in H as (Hp & p & Hm & Hfs).
  pose proof (keystore.Signer_Ok _ _ _ Es) as (Hd & HS & Hsig & _). exists s, l, p.
  destruct (status.new_clear (Bits (Status spec))) as (Hmin & Hbits & Hclear).
  destruct (signed_accepted _ _ _ HS Hsig ltac:(by rewrite Hd) Hmin El) as (Hv & Hlk & Hlen & _). rewrite Hd in Hv.
  split_and!; try done; [by rewrite Hlen|]. intros i Hi. rewrite Hlk. apply Hclear. by rewrite <- Hlen.
Qed.

(** What a completed publication did, file by file. *)
Lemma publish_Ok spec ks root out a fs fs' res :
  publish url_Parse spec ks root out a fs = (fs', Ok res) ->
  exists fs1 fs2 ls text,
    validate spec = Ok tt
    /\ publish_documents ks root a 0 (principals spec) fs = (fs1, Ok (DIDDocs res))
    /\ mint spec ks = Ok ls /\ Chain res = chain.mkChain (Some (map fst ls)) /\ CredentialIDs res = map snd ls
    /\ publish_list url_Parse spec ks root a fs1 = (fs2, Ok (StatusPath res))
    /\ texts.Chain_Marshal (Chain res) = Ok text /\ fs' = <[out := text ++ [Byte.x0a]]> fs2.
Proof.
  unfold publish. destruct (validate spec) as [[]|e] eqn:Ev; [|done].
  destruct (publish_documents _ _ _ _ _ _) as [fs1 docs] eqn:Ed.
  destruct (rbind docs _) as [[paths ls]|e] eqn:Em; [|done]. gosimp Em. apply Ok_inj in Em. injection Em as -> ->. subst docs.
  destruct (publish_list _ _ _ _ _ _) as [fs2 [sp|e]] eqn:El; [|done].
  unfold write_chain. destruct (texts.Chain_Marshal _) as [text|e] eqn:Et; [|done].
  destruct (files.CreateAndWrite _ _ fs2 _ _ _ _) as [fs3 written] eqn:Ew.
  destruct written as [[]|e]; cbn [rbind]; [|done]. intros [= <- <-].
  apply files.CreateAndWrite_cases in Ew as [[_ ->]|[Hf _]]; [|done].
  exists fs1, fs2, ls, text. by split_and!.
Qed.

(** A minted hop is a good hop for a resolver that knows the keystore's keys. *)
Lemma minted_hop_ok r spec ks h l :
  minted spec ks h l ->
  (forall d s, d = Issuer h \/ d = Subject h -> keystore.Signer ks d = Ok s -> did.ResolveKey r d = Ok (signer.Public s)) ->
  chain.hop_ok r l.
Proof.
  intros (Hsub & Hiss & _ & si & ss & jwk & input & sig & Hsi & Hss & Hinp & Hsig & Hpr & Hjwk & Hhk) Hkey.
  pose proof (keystore.Signer_Ok _ _ _ Hss) as (_ & _ & _ & hh & seed & _ & _ & Hpub).
  destruct (did.ed25519_jwk (signer.ed25519_NewKeyFromSeed seed)) as (jwk' & Hj1 & Hj2); [apply signer.seed_public_size|].
  rewrite <- Hpub in Hj1, Hj2. assert (jwk' = jwk) as -> by congruence.
  unfold chain.hop_ok. rewrite Hsub, Hiss, Hhk, Hpr. exists (signer.Public si), input, (signer.Public ss).
  split_and!; [apply Hkey; [by left|done]|done| |apply Hkey; [by right|done]|done].
  apply keystore.Signer_Ok in Hsi as (_ & HS & _). by apply (HS _ _ Hsig).
Qed.

Lemma minted_subjects spec ks hops links :
  Forall2 (minted spec ks) hops links -> map chain.subject links = map Subject hops.
Proof. induction 1 as [|h l hops links (Hs & _) _ IH]; [done|]. simpl. unfold chain.subject at 1. by rewrite Hs, IH. Qed.
Lemma minted_principals spec ks hops links :
  Forall2 (minted spec ks) hops links ->
  chain.Principals (chain.mkChain (Some links)) = (h ← head hops; Some (Issuer h :: map Subject hops)).
Proof.
  intros HF. rewrite <- (minted_subjects _ _ _ _ HF). unfold chain.Principals. cbn [chain.Links elems default].
  destruct HF as [|h l hops links (_ & Hi & _) _]; [done|]. simpl. simpl in Hi. by rewrite Hi.
Qed.
Lemma minted_authority spec ks h l i :
  minted spec ks h l -> s_Issuer (Status spec) <> ""%string -> StatusIndex h = Some i ->
  status.ListURL (credential.StatusRef (chain.Credential_ l)) = URL (Status spec)
  /\ status.Index (credential.StatusRef (chain.Credential_ l)) = i
  /\ credential.StatusAuthority (chain.Credential_ l) = s_Issuer (Status spec).
Proof.
  intros (_ & Hiss & Href & _) Hauth Hi. unfold credential.StatusAuthority. rewrite Href, Hiss. unfold reference. rewrite Hi.
  cbn [status.ListURL status.Index status.r_Issuer]. split_and!; [done..|].
  destruct (s_Issuer (Status spec) =?s Issuer h) eqn:E; cbn [negb].
  - rewrite str_eqb_refl. by apply str_eqb_true in E.
  - apply str_eqb_false in Hauth. by rewrite Hauth.
Qed.

(** The keys of the principals resolve from what a publication leaves. *)
Lemma publication_keys Unmarshal spec ks root out a fs fs1 fs2 paths path data text d s :
  publish_documents ks root a 0 (principals spec) fs = (fs1, Ok paths) -> separate_paths root (principals spec) ->
  (forall p, p ∈ paths -> p <> path /\ b2s p <> out) ->
  (forall d s doc, keystore.Signer ks d = Ok s -> did.NewDocument d (signer.Public s) = Some doc -> texts.Reads Unmarshal doc) ->
  fs2 = <[out := text]> (<[b2s path := data]> fs1) -> d ∈ principals spec -> keystore.Signer ks d = Ok s ->
  did.ResolveKey (did.FileResolver_Resolve Unmarshal (files.ReadFile fs2) (s2b root)) d = Ok (signer.Public s).
Proof.
  intros Hd Hsep Hdocs Hread Hfs Hin Hs. apply publish_documents_Ok in Hd as (Hpaths & _ & Hat).
  apply (published_key Unmarshal ks); [|intros s0 doc0; apply Hread|done].
  destruct (Hat Hsep d Hin) as (s0 & doc & q & H1 & H2 & H3 & H4). exists s0, doc, q. split_and!; [done..|].
  apply list_elem_of_lookup in Hin as [j Hj]. destruct (Forall2_lookup_l _ _ _ _ _ Hpaths Hj) as (q' & Hq' & Hqp).
  assert (q' = q) as -> by congruence. destruct (Hdocs q) as [Hq1 Hq2]; [by eapply list_elem_of_lookup_2|].
  rewrite Hfs. etransitivity; [apply lookup_insert_ne; congruence|]. etransitivity; [apply lookup_insert_ne|done].
  intros Hc. apply Hq1. by apply (inj b2s).
Qed.

(** C32: publishing works end to end.  The chain a completed publication mints
    verifies for everyone who reads the published root and is the line of
    delegation the specification states; the published status list is accepted
    from the authority the specification names, is large enough, and shows
    nobody revoked; and every credential with a position in it points at that
    list and that authority.  The documents, the list and the private chain file
    must be different files. *)
Theorem publication_verifies Unmarshal Unmarshal_list spec ks root out a fs fs' res :
  publish url_Parse spec ks root out a fs = (fs', Ok res) ->
  separate_paths root (principals spec) -> out <> b2s (StatusPath res) ->
  (forall p, p ∈ DIDDocs res -> p <> StatusPath res /\ b2s p <> out) ->
  (forall d s doc, keystore.Signer ks d = Ok s -> did.NewDocument d (signer.Public s) = Some doc -> texts.Reads Unmarshal doc) ->
  (forall s p, keystore.Signer ks (s_Issuer (Status spec)) = Ok s ->
     status.Marshal (status.Sign (status.New (Bits (Status spec))) s).1 = Ok p -> texts.ReadsList Unmarshal_list p) ->
  let r := did.FileResolver_Resolve Unmarshal (files.ReadFile fs') (s2b root) in
  chain.Verify r (Chain res) = Ok tt
  /\ chain.Principals (Chain res) = (h ← head (Hops spec); Some (Issuer h :: map Subject (Hops spec)))
  /\ (exists l k, texts.Load Unmarshal_list fs' (StatusPath res) = Ok l /\ did.ResolveKey r (s_Issuer (Status spec)) = Ok k
       /\ status.Verify l (s_Issuer (Status spec)) k = Ok tt /\ Bits (Status spec) <= status.Len l
       /\ forall i, 0 <= i < status.Len l -> status.Lookup l i = Ok false)
  /\ forall n h l i, Hops spec !! n = Some h -> elems (chain.Links (Chain res)) !! n = Some l -> StatusIndex h = Some i ->
       status.ListURL (credential.StatusRef (chain.Credential_ l)) = URL (Status spec)
       /\ status.Index (credential.StatusRef (chain.Credential_ l)) = i
       /\ credential.StatusAuthority (chain.Credential_ l) = s_Issuer (Status spec).
Proof.
  intros H Hsep Hout Hdocs Hread Hlist r.
  apply publish_Ok in H as (fs1 & fs2 & ls & text & Hv & Hd & Hm & Hch & _ & Hl & _ & Hfs).
  apply spec_Ok in Hv as (Hne & Hlen & Hauth & Hline).
  apply publish_list_Ok in Hl as (s & l & p & Hs & Hsign & Hver & Hbits & Hclear & _ & Hmar & Hfs2); [|done].
  assert (Hkey : forall d s, d ∈ principals spec -> keystore.Signer ks d = Ok s -> did.ResolveKey r d = Ok (signer.Public s)).
  { intros d s'. eapply publication_keys; [done..|]. by rewrite Hfs, Hfs2. }
  unfold mint in Hm. gosimp Hm. apply (mint_hops_Ok spec ks 0 _ _ _ None) in Hm as (HF & Hlink & _); [|done|done].
  rewrite Hch. split_and!.
  - apply chain.chain_Ok. cbn [chain.Links elems default]. apply Forall2_length in HF as Hlen2. split_and!; [| | |done].
    + intros Hz. change (map fst ls = []) in Hz. rewrite Hz in Hlen2. by destruct (Hops spec).
    + change (len (map fst ls) <= chain.MaxDepth). unfold len in *. by rewrite <- Hlen2.
    + apply Forall_forall. intros x Hx. apply list_elem_of_lookup in Hx as [j Hj].
      destruct (Forall2_lookup_r _ _ _ _ _ HF Hj) as (h & Hh & Hmint). apply (minted_hop_ok r _ _ _ _ Hmint).
      intros d s' Hds. apply Hkey. apply list_elem_of_lookup_2 in Hh. apply elem_of_principals.
      destruct (line_named _ _ _ Hline Hh). naive_solver.
  - by apply (minted_principals spec ks).
  - exists l, (signer.Public s). split_and!; [| |done..].
    + rewrite Hfs, Hfs2. rewrite <- (b2s_s2b out). pose proof (Hlist s p Hs ltac:(by rewrite Hsign)).
      unfold texts.Load. rewrite files.ReadFile_ne by (intros Hc; apply Hout; by rewrite Hc, b2s_s2b).
      by apply (texts.Load_published _ _ _ _ _ Hmar).
    + apply Hkey; [|done]. apply elem_of_principals. naive_solver.
  - intros n h x i Hh Hx Hi. apply (minted_authority spec ks h x i); [|done..]. by eapply Forall2_lookup_lr.
Qed.

(** ** Revoking *)

(** The published form of the list a revocation writes back. *)
Definition resigned Unmarshal_list (spec : Spec) (ks : keystore.Keystore) (root : string) (index : Z) (clear : bool) (fs : files.files)
  (p : status.published) : Prop :=
  exists path l l1 s, status.PublishPath url_Parse (s2b root) (URL (Status spec)) = Ok path
    /\ texts.Load Unmarshal_list fs path = Ok l /\ status.Set_ l index (negb clear) = Ok l1
    /\ keystore.Signer ks (s_Issuer (Status spec)) = Ok s /\ status.Marshal (status.Sign l1 s).1 = Ok p.

(** A revocation, as its two outcomes. *)
Lemma revoke_cases Unmarshal_list spec ks root index clear mkdir a fs :
  let '(fs', r) := revoke url_Parse Unmarshal_list spec ks root index clear mkdir a fs in
  match r with
  | Err _ => fs' = fs \/ exists path data, status.PublishPath url_Parse (s2b root) (URL (Status spec)) = Ok path
                          /\ fs' = <[b2s path := data]> fs /\ a <> files.Done
  | Ok path =>
      exists p l l1 s, validate spec = Ok tt /\ status.PublishPath url_Parse (s2b root) (URL (Status spec)) = Ok path
        /\ texts.Load Unmarshal_list fs path = Ok l /\ status.Set_ l index (negb clear) = Ok l1
        /\ keystore.Signer ks (s_Issuer (Status spec)) = Ok s /\ status.Marshal (status.Sign l1 s).1 = Ok p
        /\ fs' = <[b2s path := Indent (encode (texts.published_json p))]> fs
  end.
Proof.
  unfold revoke. destruct (rbind (validate spec) _) as [l'|e0] eqn:E; [|by left].
  gosimp E. destruct (status.Sign a2 a3) as [l2 r] eqn:Es. destruct r as [[]|e]; cbn [rbind] in E; [|done]. apply Ok_inj in E as ->.
  destruct (texts.Publish url_Parse fs l' (s2b root) (URL (Status spec)) mkdir a) as [fs' [path|e]] eqn:Ep.
  - apply texts.Publish_Ok in Ep as (Hp & p & Hm & ->). assert (a0 = path) as -> by congruence.
    exists p, a1, a2, a3. rewrite Es. by split_and!.
  - unfold texts.Publish in Ep. rewrite Ha0 in Ep. destruct mkdir as [e1|]; [injection Ep as <- _; by left|].
    unfold texts.Save in Ep. destruct (texts.StatusList_Marshal l') as [data|e1]; [|injection Ep as <- _; by left].
    destruct a as [|e1|n e1]; cbn [files.WriteFile rbind] in Ep; [done|injection Ep as <- _; by left|].
    injection Ep as <- _. right. by exists a0, (take n data).
Qed.

(** A revocation that succeeds, when the decoder reads the new list back. *)
Lemma revoke_Ok Unmarshal_list spec ks root index clear mkdir a fs fs' path :
  (forall p, resigned Unmarshal_list spec ks root index clear fs p -> texts.ReadsList Unmarshal_list p) ->
  revoke url_Parse Unmarshal_list spec ks root index clear mkdir a fs = (fs', Ok path) ->
  validate spec = Ok tt /\ status.PublishPath url_Parse (s2b root) (URL (Status spec)) = Ok path
  /\ (forall x, x <> b2s path -> fs' !! x = fs !! x)
  /\ exists l l' s, texts.Load Unmarshal_list fs path = Ok l /\ texts.Load Unmarshal_list fs' path = Ok l'
       /\ (forall j, status.Lookup l' j = if j =? index then Ok (negb clear) else status.Lookup l j)
       /\ keystore.Signer ks (s_Issuer (Status spec)) = Ok s
       /\ (status.MinBits <= status.Len l -> status.Verify l' (s_Issuer (Status spec)) (signer.Public s) = Ok tt).
Proof.
  intros Hread H. pose proof (revoke_cases Unmarshal_list spec ks root index clear mkdir a fs) as Hc. rewrite H in Hc.
  destruct Hc as (p & l & l1 & s & Hv & Hp & Hl & Hset & Hs & Hm & ->).
  assert (HR : texts.ReadsList Unmarshal_list p) by (apply Hread; by exists path, l, l1, s).
  pose proof (spec_Ok _ Hv) as (_ & _ & Hauth & _). pose proof (keystore.Signer_Ok _ _ _ Hs) as (Hd & HS & Hsig & _).
  pose proof (status.set_lookup l index (negb clear)) as Hlk. rewrite Hset in Hlk. destruct Hlk as (Hlen & _ & _ & Hlk).
  destruct (Sign_list l1 s Hsig) as (sig & Eq & _).
  split_and!; [done..|by intros x Hx; apply lookup_insert_ne|]. exists l, (status.Sign l1 s).1, s. split_and!; [done| | |done|].
  - by apply texts.Load_published.
  - intros j. rewrite Eq. change (status.Lookup (_, _).1 j) with (status.Lookup l1 j). rewrite Hlk.
    destruct (j =? index); [done|]. by destruct (status.Lookup l j).
  - intros Hmin. rewrite <- Hlen in Hmin. rewrite <- Hd. apply (signed_accepted l1 _ s); [done|done|by rewrite Hd|done|by rewrite Eq].
Qed.

(** a revocation changes one bit and nothing else.  When [revoke] succeeds
    the list at the published path is the one that was there with exactly the
    named bit set (or cleared), signed again, so it is still accepted from its
    authority; no other file changes.  When it fails, nothing changed, or the
    write of the list itself failed. *)
Theorem revoke_effect Unmarshal_list spec ks root index clear mkdir a fs fs' :
  (forall p, resigned Unmarshal_list spec ks root index clear fs p -> texts.ReadsList Unmarshal_list p) ->
  (forall path, revoke url_Parse Unmarshal_list spec ks root index clear mkdir a fs = (fs', Ok path) ->
     status.PublishPath url_Parse (s2b root) (URL (Status spec)) = Ok path
     /\ (forall x, x <> b2s path -> fs' !! x = fs !! x)
     /\ exists l l' s, texts.Load Unmarshal_list fs path = Ok l /\ texts.Load Unmarshal_list fs' path = Ok l'
          /\ (forall j, status.Lookup l' j = if j =? index then Ok (negb clear) else status.Lookup l j)
          /\ keystore.Signer ks (s_Issuer (Status spec)) = Ok s
          /\ (status.MinBits <= status.Len l -> status.Verify l' (s_Issuer (Status spec)) (signer.Public s) = Ok tt))
  /\ forall e, revoke url_Parse Unmarshal_list spec ks root index clear mkdir a fs = (fs', Err e) ->
     fs' = fs \/ exists path data, status.PublishPath url_Parse (s2b root) (URL (Status spec)) = Ok path
                   /\ fs' = <[b2s path := data]> fs /\ a <> files.Done.
Proof.
  intros Hread. split.
  - intros path H. destruct (revoke_Ok _ _ _ _ _ _ _ _ _ _ _ Hread H) as (_ & Hp & Hx & l & l' & s & ? & ? & ? & ? & ?).
    split_and!; [done..|]. by exists l, l', s.
  - intros e H. pose proof (revoke_cases Unmarshal_list spec ks root index clear mkdir a fs) as Hc. by rewrite H in Hc.
Qed.
End Laws.

(** ** A concrete publication *)

#[local] Instance accepting : Crypto :=
  {| ed25519_Verify := fun _ _ sig => sig =?b [Byte.x01]; ecdsa_VerifyASN1 := fun _ _ _ _ => false;
     p256_NewPublicKey_ok := fun _ => false |}.
#[local] Instance padded_keys : signer.SeedKeys :=
  {| signer.ed25519_NewKeyFromSeed := fun seed => take 32 (seed ++ repeat Byte.x00 32);
     signer.ed25519_Sign := fun _ _ => [Byte.x01]; signer.p256_NewPrivateKey := fun _ => None;
     signer.ecdsa_SignASN1 := fun _ _ => Err (New "no key") |}.
#[local] Instance padded_laws : signer.SeedLaws.
Proof.
  split; [|done..]. intros s. unfold len. cbn [signer.ed25519_NewKeyFromSeed padded_keys].
  rewrite length_take, length_app, repeat_length. unfold signer.ed25519_PublicKeySize. lia.
Qed.

Fixpoint hex_seed (n : nat) (b : string) : string := match n with O => "" | S n => b +:+ hex_seed n b end.
Definition test_keys : keystore.Keystore :=
  {[ "_comment"%string := "mock keys"%string; chain.org := hex_seed 32 "01"; chain.agent := hex_seed 32 "02"; chain.helper := hex_seed 32 "0A" ]}.
Definition test_url : string := "https://org.example/status.json".
Definition test_parse (u : string) : result status.ParsedURL :=
  if u =?s test_url then Ok (status.mkParsedURL "https" false (s2b "org.example") (s2b "/status.json") "" false "")
  else Err (New "not a URL").
Definition test_spec : Spec :=
  mkSpec "00ff" "cred-1" "kessa" (mkStatusSpec test_url chain.org 0)
    [mkHopSpec chain.org chain.agent [mkCaveatSpec "amount" "<=" "100"] (Some 7);
     mkHopSpec chain.agent chain.helper [mkCaveatSpec "amount" "<=" "50"] (Some 8)] [].
Definition test_answers : answers := mkAnswers (fun _ => (None, files.Done)) None files.Done None files.Done.
Definition test_run : files.files * result Result := publish test_parse test_spec test_keys "/srv" "/etc/chain.json" test_answers ∅.
Definition test_result : Result :=
  match test_run.2 with Ok r => r | Err _ => mkResult "" [] [] "" (chain.mkChain None) [] end.

Lemma test_completes : test_run = (test_run.1, Ok test_result).
Proof.
  assert (H : is_ok test_run.2 = true) by (vm_compute; reflexivity). unfold test_result.
  destruct test_run as [fs [r|e]]; [done|discriminate H].
Qed.

Definition test_docs : list did.Document :=
  omap (fun d => match keystore.Signer test_keys d with Ok s => did.NewDocument d (signer.Public s) | Err _ => None end)
    [chain.org; chain.agent; chain.helper].
Definition test_unmarshal (data : bytes) : result did.Document :=
  match find (fun d => bool_decide (doc_text d = data)) test_docs with
  | Some d => Ok d
  | None => Err (New "unexpected end of JSON input")
  end.
Definition test_list : option status.published :=
  match keystore.Signer test_keys chain.org with
  | Ok s => match status.Marshal (status.Sign (status.New 0) s).1 with Ok p => Some p | Err _ => None end
  | Err _ => None
  end.
Definition test_unmarshal_list (data : bytes) : result status.published :=
  match test_list with Some p => Ok p | None => Err (New "unexpected end of JSON input") end.

Lemma test_principals d s :
  keystore.Signer test_keys d = Ok s -> d = chain.org \/ d = chain.agent \/ d = chain.helper.
Proof.
  intros H. destruct (decide (d = "_comment"%string)) as [->|H0]; [vm_compute in H; discriminate H|].
  destruct (decide (d = chain.org)); [tauto|]. destruct (decide (d = chain.agent)); [tauto|]. destruct (decide (d = chain.helper)); [tauto|].
  assert (E : (test_keys : gmap string string) !! d = None).
  { unfold test_keys. do 3 (etransitivity; [apply lookup_insert_ne; congruence|]). apply lookup_singleton_ne. congruence. }
  unfold keystore.Signer in H. change ((test_keys : keystore.Keystore) !! d) with ((test_keys : gmap string string) !! d) in H.
  by rewrite E in H.
Qed.
Lemma test_reads d s doc :
  keystore.Signer test_keys d = Ok s -> did.NewDocument d (signer.Public s) = Some doc -> texts.Reads test_unmarshal doc.
Proof.
  intros Hs Hd. destruct (test_principals d s Hs) as [->|[->| ->]]; vm_compute in Hs; injection Hs as <-;
    vm_compute in Hd; injection Hd as <-; by vm_compute.
Qed.

Lemma publication_verifies_witness :
  chain.Verify (did.FileResolver_Resolve test_unmarshal (files.ReadFile test_run.1) (s2b "/srv")) (Chain test_result) = Ok tt
  /\ chain.Principals (Chain test_result) = Some [chain.org; chain.agent; chain.helper].
Proof.
  destruct (publication_verifies test_parse test_unmarshal test_unmarshal_list test_spec test_keys "/srv" "/etc/chain.json"
              test_answers ∅ test_run.1 test_result) as (Hv & Hp & _).
  - exact test_completes.
  - intros d1 d2 p H1 H2. change (principals test_spec) with [chain.org; chain.agent; chain.helper] in H1, H2.
    rewrite !elem_of_cons, elem_of_nil in H1, H2. intros Hp1 Hp2.
    destruct H1 as [->|[->|[->|[]]]], H2 as [->|[->|[->|[]]]]; try reflexivity; vm_compute in Hp1, Hp2; congruence.
  - vm_compute. discriminate.
  - intros p Hp. change (p ∈ [s2b "/srv/org.example/.well-known/did.json"; s2b "/srv/agent.example/.well-known/did.json"; s2b "/srv/helper.example/.well-known/did.json"]) in Hp.
    rewrite !elem_of_cons, elem_of_nil in Hp. destruct Hp as [->|[->|[->|[]]]]; split; vm_compute; discriminate.
  - exact test_reads.
  - intros s p Hs Hm. unfold texts.ReadsList, test_unmarshal_list, test_list.
    change (s_Issuer (Status test_spec)) with chain.org in Hs. rewrite Hs. change (Bits (Status test_spec)) with 0 in Hm. by rewrite Hm.
  - split; [exact Hv|exact Hp].
Defined.

(** The first published list, and the one with the second hop revoked. *)
Definition test_lists : list status.published :=
  match keystore.Signer test_keys chain.org with
  | Ok s => omap (fun l => match status.Marshal (status.Sign l s).1 with Ok p => Some p | Err _ => None end)
              [status.New 0; match status.Set_ (status.Sign (status.New 0) s).1 8 true with Ok l => l | Err _ => status.New 0 end]
  | Err _ => []
  end.
Definition test_unmarshal_lists (data : bytes) : result status.published :=
  match find (fun p => bool_decide (Indent (encode (texts.published_json p)) = data)) test_lists with
  | Some p => Ok p
  | None => Err (New "unexpected end of JSON input")
  end.
Definition test_revoked : files.files * result bytes :=
  revoke test_parse test_unmarshal_lists test_spec test_keys "/srv" 8 false None files.Done test_run.1.
Definition test_path : bytes := s2b "/srv/org.example/status.json".

Lemma test_resigned_reads p :
  resigned test_parse test_unmarshal_lists test_spec test_keys "/srv" 8 false test_run.1 p -> texts.ReadsList test_unmarshal_lists p.
Proof.
intros (path & l & l1 & s & Hp & Hl & Hset & Hs & Hm). change (Ok test_path = Ok path) in Hp. apply Ok_inj in Hp as <-.
  assert (E : match texts.Load test_unmarshal_lists test_run.1 test_path with
              | Ok l => match status.Set_ l 8 true with
                        | Ok l1 => match keystore.Signer test_keys chain.org with
                                   | Ok s => match status.Marshal (status.Sign l1 s).1 with
                                             | Ok p => match test_unmarshal_lists (Indent (encode (texts.published_json p))) with
                                                       | Ok q => bool_decide (q = p) | Err _ => false end
                                             | Err _ => false end
                                   | Err _ => false end
                        | Err _ => false end
              | Err _ => false end = true) by (vm_compute; reflexivity).
  rewrite Hl in E. change (negb false) with true in Hset. rewrite Hset in E. change (s_Issuer (Status test_spec)) with chain.org in Hs.
  rewrite Hs, Hm in E. unfold texts.ReadsList. destruct (test_unmarshal_lists _) as [q|e]; [|done].
  apply bool_decide_eq_true in E. by rewrite E.
Qed.
Lemma test_revokes : test_revoked = (test_revoked.1, Ok test_path).
Proof.
  assert (Hok : match test_revoked.2 with Ok p => bool_decide (p = test_path) | Err _ => false end = true) by (vm_compute; reflexivity).
  destruct test_revoked as [fs' [p|e]]; [|done]. by apply bool_decide_eq_true in Hok as ->.
Qed.

Lemma revoke_effect_witness :
  exists l', texts.Load test_unmarshal_lists test_revoked.1 test_path = Ok l' /\ status.Lookup l' 8 = Ok true.
Proof.
  destruct (revoke_effect test_parse test_unmarshal_lists test_spec test_keys "/srv" 8 false None files.Done test_run.1 test_revoked.1
              test_resigned_reads) as [H _].
  destruct (H test_path test_revokes) as (_ & _ & l & l' & s & _ & Hl' & Hlk & _). exists l'. split; [exact Hl'|]. by rewrite Hlk.
Defined.
End issuer.
