(* ===== verification/Verifier.v ===== *)
(** internal/export (verify.go): the independent verifier, which re-derives
    every verdict of a log from its evidence and public documents. *)
From S2P Require Import Prelude GoFmt GoTime GoCrypto GoJson GoJsonText GoJsonInj Types Signer Did Status Policy.
From S2P Require Import Macaroon Credential Chain AuditLog Export.

Module verifier.

Inductive Outcome := OutcomePass | OutcomePassDeny | OutcomeIntegrityOnly | OutcomeFail | OutcomeUnverified.
#[global] Instance Outcome_eq_dec : EqDecision Outcome.
Proof. solve_decision. Defined.

(** A reason or a limitation is the format and operands of its message. *)
Record EntryResult := mkResult
  { Seq : Z; Outcome_ : Outcome; Reason : error; Chain : slice types.DID; Limitations : list error }.
Record Result := mkVerdict
  { Version : string; EvidenceCarried : bool; FatalReason : option error; Entries : list EntryResult }.

Definition bad (o : Outcome) : bool := bool_decide (o = OutcomeFail) || bool_decide (o = OutcomeUnverified).
Definition Pass (r : Result) : bool :=
  if bool_decide (FatalReason r <> None) || negb (EvidenceCarried r) then false
  else negb (existsb (fun e => bad (Outcome_ e)) (Entries r)).

(** The interface over published lists; [None] is the nil interface. *)
Definition StatusResolver : Type := string -> result status.StatusList.
Definition MapStatusResolver (m : gmap string status.StatusList) : StatusResolver := fun listURL =>
  match m !! listURL with
  | Some l => Ok l
  | None => Err (Errorf "no status list provided for %q" [AStr listURL])
  end.
Record Inputs := mkInputs { DIDs : did.Resolver; Status : option StatusResolver }.

Section Verify.
Context {CR : Crypto} {UT : UnicodeTables}.

Definition verifyList (l : status.StatusList) (authority : types.DID) (pub : PublicKey) : result unit :=
  wrap (fun e => Errorf "status list does not verify: %w" [AErr e]) (status.Verify l authority pub).

Definition hopRevoked (c : credential.Credential) (inp : Inputs) : result bool :=
  match Status inp with
  | None => Err (Errorf "credential references status list %q but no status list was provided"
                   [AStr (status.ListURL (credential.StatusRef c))])
  | Some st =>
      let! list := st (status.ListURL (credential.StatusRef c)) in
      let authority := credential.StatusAuthority c in
      let! authorityKey := wrap (fun e => Errorf "resolve status authority %q: %w" [AStr authority; AErr e])
                             (did.ResolveKey (DIDs inp) authority) in
      check! verifyList list authority authorityKey;
      status.Lookup list (status.Index (credential.StatusRef c))
  end.

Definition verifyEnvelope (exp : export.Export) (pub : PublicKey) : result unit :=
  let! pid := wrap (fun e => Errorf "cannot content-address the carried policy: %w" [AErr e])
                (export.policy_address (export.Policy exp)) in
  check! reject_if (bool_decide (export.EnvelopeSignature exp = []))
    (New "export carries no envelope signature over its version/signer/policy/length");
  let input := export.envelopeSigningInput (export.Version_ exp) (export.Signer exp) pid
                 (len (export.Entries exp)) (export.logTip (export.Entries exp)) in
  reject_if (negb (signer.Verify pub input (export.EnvelopeSignature exp)))
    (New "envelope signature invalid (version, signer, policy, or the log's length/tip tampered: entries may have been removed)").

(** *** One entry

    The steps in order; the error of a step is the reason of a failed entry. *)

(** Step 3: the credentials the entry names, each checked against its address. *)
Definition lookup_link (exp : export.Export) (hop : Z) (id : string) : result chain.Link :=
  match export.Credentials exp !! id with
  | None => Err (Errorf "hop %d references credential %q, which is missing from the export's credential set"
                   [AInt hop; AStr id])
  | Some rec =>
      check! reject_if (negb (export.CredentialID_ rec =?s id))
        (Errorf "hop %d: credential record's own ID %q does not match its map key %q"
           [AInt hop; AStr (export.CredentialID_ rec); AStr id]);
      let! got := wrap (fun e => Errorf "hop %d: %v" [AInt hop; AErr e]) (export.CredentialID (export.Credential_ rec)) in
      check! reject_if (negb (got =?s id))
        (Errorf "hop %d: credential content hash %q does not match its ID %q (evidence substituted)"
           [AInt hop; AStr got; AStr id]);
      Ok (chain.mkLink (export.Credential_ rec) (export.IssuerProof rec))
  end.
Fixpoint lookup_links (exp : export.Export) (hop : Z) (ids : list string) : result (list chain.Link) :=
  match ids with
  | [] => Ok []
  | id :: ids =>
      let! l := lookup_link exp hop id in
      let! ls := lookup_links exp (hop + 1) ids in
      Ok (l :: ls)
  end.

(** Step 4: the chain re-resolved from the evidence reproduces the principals. *)
Fixpoint same_principals (i : Z) (principals recorded : list types.DID) : result unit :=
  match principals, recorded with
  | p :: principals, q :: recorded =>
      check! reject_if (negb (p =?s q))
        (Errorf "re-resolved chain differs at position %d: evidence says %q, entry records %q"
           [AInt i; AStr p; AStr q]);
      same_principals (i + 1) principals recorded
  | _, _ => Ok tt
  end.
Definition resolve_chain (links : list chain.Link) (e : audit.Entry) (inp : Inputs) : result (slice types.DID) :=
  let resolved := chain.mkChain (Some links) in
  check! wrap (fun err => Errorf "delegation chain does not verify: %v" [AErr err]) (chain.Verify (DIDs inp) resolved);
  let principals := chain.Principals resolved in
  let recorded := elems (audit.ResolvedChain e) in
  check! reject_if (negb (len (elems principals) =? len recorded))
    (Errorf "re-resolved chain has %d principals; entry records %d" [AInt (len (elems principals)); AInt (len recorded)]);
  check! same_principals 0 (elems principals) recorded;
  Ok principals.

(** Step 4.5: consequentiality and attribution from the carried policy. *)
Definition rederive (exp : export.Export) (e : audit.Entry) : result types.Decision :=
  match export.Policy exp with
  | None => Err (New "action was ALLOWED but the export carries no policy to re-derive consequentiality from (evidence withheld?)")
  | Some p =>
      let! wantPID := wrap (fun err => Errorf "cannot content-address the carried policy: %v" [AErr err]) (export.PolicyID p) in
      check! reject_if (audit.PolicyID e =?s "")
        (New "action was ALLOWED but the entry pins no policy id (evidence withheld?)");
      check! reject_if (negb (audit.PolicyID e =?s wantPID))
        (Errorf "entry pins policy %q but the carried policy hashes to %q (policy substituted)"
           [AStr (audit.PolicyID e); AStr wantPID]);
      let! derived := wrap (fun err => Errorf "policy re-derivation failed: %v" [AErr err])
                        (policy.Evaluate p (audit.Action e)) in
      check! reject_if (negb (types.Allowed derived))
        (Errorf "action was ALLOWED but the carried policy denies it (rule %q)" [AStr (types.RuleFired derived)]);
      check! reject_if (negb (Bool.eqb (types.Consequential derived) (types.Consequential (audit.Decision e))))
        (Errorf "consequentiality mismatch: entry asserts consequential=%t but the carried policy derives %t (misclassified)"
           [ABool (types.Consequential (audit.Decision e)); ABool (types.Consequential derived)]);
      check! reject_if (negb (types.RuleFired derived =?s types.RuleFired (audit.Decision e)))
        (Errorf "rule attribution mismatch: entry records rule %q but the carried policy fires %q"
           [AStr (types.RuleFired (audit.Decision e)); AStr (types.RuleFired derived)]);
      check! reject_if (negb (types.PolicyVersion derived =?s types.PolicyVersion (audit.Decision e)))
        (Errorf "policy version mismatch: entry records %q but the carried policy declares %q"
           [AStr (types.PolicyVersion (audit.Decision e)); AStr (types.PolicyVersion derived)]);
      Ok derived
  end.

(** Step 6: every hop that publishes a list is checked, and none is revoked. *)
Definition publishes (l : chain.Link) : bool :=
  negb (status.ListURL (credential.StatusRef (chain.Credential_ l)) =?s "").
Definition check_hop (inp : Inputs) (hop : Z) (l : chain.Link) : result unit :=
  let c := chain.Credential_ l in
  if negb (publishes l) then Ok tt
  else
    let! revoked := wrap (fun e => Errorf "hop %d (%s): %v" [AInt hop; AStr (credential.Subject c); AErr e])
                      (hopRevoked c inp) in
    reject_if revoked
      (Errorf "action was ALLOWED but hop %d's credential (%s -> %s) is revoked at index %d"
         [AInt hop; AStr (credential.Issuer c); AStr (credential.Subject c);
          AInt (status.Index (credential.StatusRef c))]).
Definition check_status (links : list chain.Link) (e : audit.Entry) (inp : Inputs) : result (list error) :=
  let want := len (List.filter publishes links) in
  check! reject_if (negb (types.StatusCheckedHops (audit.Decision e) =? want))
    (Errorf "action was ALLOWED and consequential, but the entry records %d status-checked hop(s) where the signed evidence requires %d"
       [AInt (types.StatusCheckedHops (audit.Decision e)); AInt want]);
  check! check_alli (check_hop inp) 0 links;
  let skipped := len links - want in
  Ok (if 0 <? skipped
      then [Errorf "revocation NOT checkable for %d of %d hops: those credentials carry no status list reference, so their issuer published no way to revoke them"
              [AInt skipped; AInt (len links)]]
      else []).

(** Step 7. *)
Definition check_possession (terminal : credential.Credential) (e : audit.Entry) : result unit :=
  check! reject_if (bool_decide (audit.PoPNonce e = []) || bool_decide (audit.PoPSignature e = []))
    (New "action was ALLOWED but carries no proof of possession (evidence withheld?)");
  wrap (fun err => Errorf "proof of possession failed: %v" [AErr err])
    (credential.VerifyPossession terminal
       (credential.mkPoP (Some (audit.PoPNonce e)) (Some (audit.PoPSignature e)))
       (audit.Action e) (audit.Seq e) (elems (audit.PrevHash e))).

(** Step 8. *)
Definition no_approval (e : audit.Entry) : bool :=
  (audit.ApprovedBy e =?s "") || bool_decide (audit.Approval e = []).
Definition check_approval (consequential : bool) (terminal : credential.Credential) (e : audit.Entry) (inp : Inputs)
  : result unit :=
  check! reject_if (consequential && no_approval e)
    (New "action was ALLOWED and consequential, but carries no human approval (evidence withheld?)");
  if negb (audit.ApprovedBy e =?s "") || negb (bool_decide (audit.Approval e = [])) then
    check! reject_if (no_approval e) (New "action carries a partial approval (approver or signature missing)");
    let! approverKey := wrap (fun err => Errorf "resolve approver %q: %v" [AStr (audit.ApprovedBy e); AErr err])
                          (did.ResolveKey (DIDs inp) (audit.ApprovedBy e)) in
    wrap (fun err => Errorf "recorded approval does not verify: %v" [AErr err])
      (audit.VerifyApproval approverKey (credential.Subject terminal) (audit.Action e) (audit.Seq e)
         (elems (audit.PrevHash e)) (audit.Approval e))
  else Ok tt.

(** The caveat context of a presented action. *)
Definition action_context (terminal : credential.Credential) (a : types.Action) : gmap string string :=
  credential.HolderContext terminal ∪ types.Context a.

(** Steps 4.5 to 8, for an allowed entry. *)
Definition check_allow (exp : export.Export) (e : audit.Entry) (inp : Inputs) (links : list chain.Link)
  : result (list error) :=
  match last links with
  | None => Err (New "panic")
  | Some l =>
      let terminal := chain.Credential_ l in
      let! derived := rederive exp e in
      check! wrap (fun err => Errorf "action was ALLOWED but exceeds the delegated authority: %v" [AErr err])
        (macaroon.Satisfies (credential.Macaroon_ terminal) (action_context terminal (audit.Action e)));
      let! limitations := (if types.Consequential derived then check_status links e inp else Ok []) in
      check! check_possession terminal e;
      check! check_approval (types.Consequential derived) terminal e inp;
      Ok limitations
  end.

Definition judge (exp : export.Export) (e : audit.Entry) (inp : Inputs) : result EntryResult :=
  let recorded := elems (audit.ResolvedChain e) in
  check! reject_if (len recorded <? 2)
    (Errorf "entry records a chain of %d principals; expected at least 2" [AInt (len recorded)]);
  let want := len recorded - 1 in
  check! reject_if (negb (len (audit.ChainCredentialIDs e) =? want))
    (Errorf "entry carries %d credential IDs for a %d-principal chain; expected %d (evidence withheld?)"
       [AInt (len (audit.ChainCredentialIDs e)); AInt (len recorded); AInt want]);
  let! links := lookup_links exp 0 (audit.ChainCredentialIDs e) in
  let! principals := resolve_chain links e inp in
  if negb (types.Allowed (audit.Decision e)) then
    Ok (mkResult (audit.Seq e) OutcomePassDeny
          (Errorf "action was denied (%q); hash, signature, and chain evidence intact"
             [AStr (types.Reason (audit.Decision e))]) principals [])
  else
    let! limitations := check_allow exp e inp links in
    Ok (mkResult (audit.Seq e) OutcomePass (New "allow justified by evidence") principals limitations).

Definition verifyEntry (exp : export.Export) (e : audit.Entry) (inp : Inputs) : EntryResult :=
  if export.IsV1 exp then
    mkResult (audit.Seq e) OutcomeIntegrityOnly
      (New "integrity verified; v1 export carries no evidence, authority NOT re-derived") (audit.ResolvedChain e) []
  else match judge exp e inp with
       | Ok r => r
       | Err reason => mkResult (audit.Seq e) OutcomeFail reason None []
       end.

(** The loop over the entries, around the first entry that breaks the chain. *)
Fixpoint entry_results (exp : export.Export) (inp : Inputs) (broken : option (Z * error)) (i : Z)
  (es : list audit.Entry) : list EntryResult :=
  match es with
  | [] => []
  | e :: es =>
      match broken with
      | Some (failIdx, err) =>
          if i =? failIdx then mkResult (audit.Seq e) OutcomeFail err None []
          else if failIdx <? i then
            mkResult (audit.Seq e) OutcomeUnverified
              (Errorf "hash chain broke at entry %d; nothing after it can be trusted" [AInt failIdx]) None []
          else verifyEntry exp e inp
      | None => verifyEntry exp e inp
      end :: entry_results exp inp broken (i + 1) es
  end.

Definition Verify (exp : export.Export) (inp : Inputs) : result Result :=
  let! signerKey := wrap (fun e => Errorf "export: resolve enforcement point %q: %w" [AStr (export.Signer exp); AErr e])
                      (did.ResolveKey (DIDs inp) (export.Signer exp)) in
  let res := mkVerdict (export.Version_ exp) (negb (export.IsV1 exp)) in
  match (if negb (export.IsV1 exp) then verifyEnvelope exp signerKey else Ok tt) with
  | Err e => Ok (res (Some e) [])
  | Ok _ =>
      let broken := audit.VerifyEntries signerKey (export.Entries exp) in
      Ok (res None (entry_results exp inp broken 0 (export.Entries exp)))
  end.
End Verify.

(** ** What the verdicts mean *)

Section Meaning.
Context {CR : Crypto} {UT : UnicodeTables}.

(** The evidence for an entry: per hop a record under its own content address. *)
Definition evidence_for (exp : export.Export) (id : string) (l : chain.Link) : Prop :=
  exists rec, export.Credentials exp !! id = Some rec /\ export.CredentialID_ rec = id
    /\ export.CredentialID (export.Credential_ rec) = Ok id
    /\ l = chain.mkLink (export.Credential_ rec) (export.IssuerProof rec).
Definition chain_evidence (exp : export.Export) (inp : Inputs) (e : audit.Entry) (links : list chain.Link) : Prop :=
  Forall2 (evidence_for exp) (audit.ChainCredentialIDs e) links
  /\ chain.Verify (DIDs inp) (chain.mkChain (Some links)) = Ok tt
  /\ chain.Principals (chain.mkChain (Some links)) = Some (elems (audit.ResolvedChain e)).

(** The decision re-derived from the carried policy is the recorded one. *)
Definition rederived (exp : export.Export) (e : audit.Entry) (derived : types.Decision) : Prop :=
  exists p, export.Policy exp = Some p /\ export.PolicyID p = Ok (audit.PolicyID e)
    /\ policy.Evaluate p (audit.Action e) = Ok derived /\ types.Allowed derived = true
    /\ types.Consequential derived = types.Consequential (audit.Decision e)
    /\ types.RuleFired derived = types.RuleFired (audit.Decision e)
    /\ types.PolicyVersion derived = types.PolicyVersion (audit.Decision e).

Definition not_revoked (inp : Inputs) (l : chain.Link) : Prop :=
  publishes l = true -> hopRevoked (chain.Credential_ l) inp = Ok false.

Definition possession_proved (terminal : credential.Credential) (e : audit.Entry) : Prop :=
  audit.PoPNonce e <> [] /\ audit.PoPSignature e <> []
  /\ credential.VerifyPossession terminal
       (credential.mkPoP (Some (audit.PoPNonce e)) (Some (audit.PoPSignature e)))
       (audit.Action e) (audit.Seq e) (elems (audit.PrevHash e)) = Ok tt.

Definition approved (inp : Inputs) (terminal : credential.Credential) (e : audit.Entry) : Prop :=
  audit.ApprovedBy e <> ""%string /\ audit.Approval e <> []
  /\ exists key, did.ResolveKey (DIDs inp) (audit.ApprovedBy e) = Ok key
     /\ audit.VerifyApproval key (credential.Subject terminal) (audit.Action e) (audit.Seq e)
          (elems (audit.PrevHash e)) (audit.Approval e) = Ok tt.

Definition justified (exp : export.Export) (inp : Inputs) (e : audit.Entry) (links : list chain.Link) : Prop :=
  exists l derived, last links = Some l /\ rederived exp e derived
    /\ macaroon.Satisfies (credential.Macaroon_ (chain.Credential_ l))
         (action_context (chain.Credential_ l) (audit.Action e)) = Ok tt
    /\ (types.Consequential derived = true ->
        types.StatusCheckedHops (audit.Decision e) = len (List.filter publishes links)
        /\ Forall (not_revoked inp) links /\ approved inp (chain.Credential_ l) e)
    /\ possession_proved (chain.Credential_ l) e
    /\ (audit.ApprovedBy e = ""%string /\ audit.Approval e = [] \/ approved inp (chain.Credential_ l) e).

Lemma lookup_link_Ok exp hop id l : lookup_link exp hop id = Ok l <-> evidence_for exp id l.
Proof.
  unfold lookup_link, evidence_for. destruct (export.Credentials exp !! id) as [rec|]; [|naive_solver].
  split.
  - intros H. gosimp H. apply Ok_inj in H. subst a. by exists rec.
  - intros (r & [= <-] & E1 & E2 & ->). rewrite E1, str_eqb_refl. simpl. rewrite E2. simpl. by rewrite str_eqb_refl.
Qed.

Lemma lookup_links_Ok exp hop ids links :
  lookup_links exp hop ids = Ok links <-> Forall2 (evidence_for exp) ids links.
Proof.
  revert hop links. induction ids as [|id ids IH]; intros hop links; simpl.
  - split; [by intros [= <-]|intros H; by inversion H].
  - split.
    + intros H. gosimp H. apply Ok_inj in H. subst links. constructor; [by eapply lookup_link_Ok|by eapply IH].
    + intros H. inversion H as [|? l ? ls Hl Hls]; subst.
      rewrite (proj2 (lookup_link_Ok exp hop id l) Hl). simpl. by rewrite (proj2 (IH (hop + 1) ls) Hls).
Qed.

Lemma same_principals_Ok i l1 l2 : length l1 = length l2 -> same_principals i l1 l2 = Ok tt <-> l1 = l2.
Proof.
  revert i l2. induction l1 as [|p l1 IH]; intros i [|q l2] Hl; simpl; try done.
  injection Hl as Hl. split.
  - intros H. gosimp H. apply IH in H; [|done]. congruence.
  - intros [= -> ->]. rewrite str_eqb_refl. simpl. by apply IH.
Qed.

Lemma resolve_chain_Ok links e inp ps :
  links <> [] ->
  resolve_chain links e inp = Ok ps <->
  chain.Verify (DIDs inp) (chain.mkChain (Some links)) = Ok tt
  /\ ps = chain.Principals (chain.mkChain (Some links)) /\ ps = Some (elems (audit.ResolvedChain e)).
Proof.
  intros Hne. unfold resolve_chain.
  assert (Hp : exists q, chain.Principals (chain.mkChain (Some links)) = Some q).
  { unfold chain.Principals. simpl. destruct links; [done|]. by eexists. }
  destruct Hp as [q Hq]. rewrite Hq. simpl elems. split.
  - intros H. gosimp H. apply Ok_inj in H. subst ps. split; [done|]. split; [done|].
    apply Z.eqb_eq in Ha0. unfold len in Ha0. apply same_principals_Ok in Ha1; [congruence|lia].
  - intros (Hv & -> & [= ->]). rewrite Hv. simpl. rewrite Z.eqb_refl. simpl.
    by rewrite (proj2 (same_principals_Ok 0 _ _ eq_refl) eq_refl).
Qed.

Lemma PolicyID_nonempty p id : export.PolicyID p = Ok id -> id <> ""%string.
Proof.
  unfold export.PolicyID, Marshal. cbn [rbind wrap]. intros [= <-] H. unfold export.address in H.
  apply (f_equal RawURLDecode) in H. rewrite RawURL_roundtrip in H. apply (f_equal (fmap length)) in H.
  cbn [fmap option_fmap option_map] in H. by rewrite sha256.length_Sum256 in H.
Qed.

Lemma rederive_Ok exp e d : rederive exp e = Ok d <-> rederived exp e d.
Proof.
  unfold rederive, rederived. destruct (export.Policy exp) as [p|]; [|naive_solver]. split.
  - intros H. gosimp H. apply Ok_inj in H. subst. exists p. apply eqb_prop in Ha4. split_and!; congruence || done.
  - intros (q & [= <-] & Hid & He & Ha & Hc & Hr & Hv). rewrite Hid. cbn [wrap rbind].
    rewrite (proj2 (str_eqb_false _ _) (PolicyID_nonempty _ _ Hid)), str_eqb_refl. cbn [negb reject_if rbind].
    rewrite He. cbn [wrap rbind]. rewrite Ha, Hc, Hr, Hv, eqb_reflx, !str_eqb_refl. done.
Qed.

Lemma check_hop_Ok inp i l : check_hop inp i l = Ok tt <-> not_revoked inp l.
Proof.
  unfold check_hop, not_revoked. destruct (publishes l); simpl; [|done]. split.
  - intros H _. gosimp H. by subst.
  - intros H. by rewrite (H eq_refl).
Qed.

Lemma check_status_Ok links e inp :
  (exists lims, check_status links e inp = Ok lims) <->
  types.StatusCheckedHops (audit.Decision e) = len (List.filter publishes links) /\ Forall (not_revoked inp) links.
Proof.
  unfold check_status. split.
  - intros [lims H]. gosimp H. apply Z.eqb_eq in Ha. split; [done|].
    apply check_alli_Ok in Ha0 || (rewrite check_alli_Ok in Ha0). apply Forall_lookup. intros n l Hl.
    by eapply check_hop_Ok, Ha0.
  - intros [Hc Hf]. rewrite Hc, Z.eqb_refl. cbn [negb reject_if rbind].
    assert (Ha : check_alli (check_hop inp) 0 links = Ok tt).
    { apply check_alli_Ok. intros n l Hl. apply check_hop_Ok. by eapply Forall_lookup_1. }
    rewrite Ha. by eexists.
Qed.

Lemma check_possession_Ok t e : check_possession t e = Ok tt <-> possession_proved t e.
Proof.
  unfold check_possession, possession_proved. split.
  - intros H. gosimp H. destruct Ha as [H1 H2]. rewrite bool_decide_eq_false in H1, H2. done.
  - intros (H1 & H2 & ->). by rewrite !bool_decide_false.
Qed.

Lemma check_approval_Ok c t e inp :
  check_approval c t e inp = Ok tt <->
  (c = true -> approved inp t e)
  /\ (audit.ApprovedBy e = ""%string /\ audit.Approval e = [] \/ approved inp t e).
Proof.
  unfold check_approval, approved, no_approval. split.
  - intros H. gosimp H.
    destruct (audit.ApprovedBy e =?s "") eqn:E1, (bool_decide (audit.Approval e = [])) eqn:E2; simpl in *;
      rewrite ?str_eqb_true, ?str_eqb_false, ?bool_decide_eq_true, ?bool_decide_eq_false in *; try done.
    + split; [|by left]. intros ->. by destruct Ha as [|[]].
    + gosimp H.
      assert (G : audit.ApprovedBy e <> ""%string /\ audit.Approval e <> []
        /\ exists key, did.ResolveKey (DIDs inp) (audit.ApprovedBy e) = Ok key
           /\ audit.VerifyApproval key (credential.Subject t) (audit.Action e) (audit.Seq e)
                (elems (audit.PrevHash e)) (audit.Approval e) = Ok tt) by (split_and!; [done|done|by exists a]).
      split; [done|by right].
  - intros [Hc [[H1 H2]|(H1 & H2 & key & Hk & Hv)]].
    + destruct c; [destruct Hc as (H1' & _); [done|]; done|].
      rewrite H1, H2. simpl. done.
    + apply str_eqb_false in H1. rewrite H1, (bool_decide_false _ H2). rewrite andb_false_r. simpl.
      rewrite Hk. simpl. by rewrite Hv.
Qed.

Lemma check_allow_Ok exp e inp links :
  (exists lims, check_allow exp e inp links = Ok lims) <-> justified exp inp e links.
Proof.
  unfold check_allow, justified. destruct (last links) as [l|]; [|naive_solver]. split.
  - intros [lims H]. gosimp H. apply rederive_Ok in Ha. apply check_possession_Ok in Ha2.
    apply check_approval_Ok in Ha3 as [Hc Hap]. exists l, a. split_and!; try done.
    intros E. rewrite E in Ha1. destruct (proj1 (check_status_Ok links e inp) (ex_intro _ _ Ha1)). split_and!; [done..|].
    by apply Hc.
  - intros (l' & d & [= <-] & Hd & Hs & Hc & Hp & Hap). rewrite (proj2 (rederive_Ok exp e d) Hd). cbn [rbind].
    rewrite Hs. cbn [wrap rbind].
    assert (Hst : exists lims, (if types.Consequential d then check_status links e inp else Ok []) = Ok lims).
    { destruct (types.Consequential d); [|by eexists]. apply check_status_Ok. destruct (Hc eq_refl) as (? & ? & _). done. }
    destruct Hst as [lims ->]. cbn [rbind]. rewrite (proj2 (check_possession_Ok _ _) Hp). cbn [rbind].
    assert (Hca : check_approval (types.Consequential d) (chain.Credential_ l) e inp = Ok tt).
    { apply check_approval_Ok. split; [|done]. intros E. by apply Hc. }
    rewrite Hca. by eexists.
Qed.

(** The verdict of one entry of an evidence export, exactly. *)
Lemma judge_Ok exp e inp :
  (exists r, judge exp e inp = Ok r) <->
  2 <= len (elems (audit.ResolvedChain e))
  /\ len (audit.ChainCredentialIDs e) = len (elems (audit.ResolvedChain e)) - 1
  /\ exists links, chain_evidence exp inp e links
     /\ (types.Allowed (audit.Decision e) = true -> justified exp inp e links).
Proof.
  unfold judge. split.
  - intros [r H]. gosimp H. apply Z.ltb_ge in Ha. apply Z.eqb_eq in Ha0. split_and!; [done..|].
    apply lookup_links_Ok in Ha1. rename a into links. exists links.
    assert (Hne : links <> []).
    { intros ->. apply Forall2_nil_inv_r in Ha1. rewrite Ha1 in Ha0. change (len []) with 0 in Ha0. lia. }
    apply resolve_chain_Ok in Ha2 as (Hv & -> & Hp); [|done]. split; [done|].
    intros E. rewrite E in H. simpl in H. gosimp H. apply check_allow_Ok. by eexists.
  - intros (Hr & Hl & links & (Hf & Hv & Hp) & Hj).
    rewrite (proj2 (Z.ltb_ge _ _) Hr). simpl. rewrite Hl, Z.eqb_refl. simpl.
    rewrite (proj2 (lookup_links_Ok exp 0 _ _) Hf). simpl.
    assert (Hne : links <> []).
    { intros ->. apply Forall2_nil_inv_r in Hf. rewrite Hf in Hl. change (len []) with 0 in Hl. lia. }
    rewrite (proj2 (resolve_chain_Ok links e inp (Some (elems (audit.ResolvedChain e))) Hne)) by done. simpl.
    destruct (types.Allowed (audit.Decision e)); simpl; [|by eexists].
    destruct (proj2 (check_allow_Ok exp e inp links) (Hj eq_refl)) as [lims ->]. by eexists.
Qed.

Lemma judge_outcome exp e inp r :
  judge exp e inp = Ok r ->
  Outcome_ r = (if types.Allowed (audit.Decision e) then OutcomePass else OutcomePassDeny) /\ Seq r = audit.Seq e.
Proof.
  unfold judge. intros H. gosimp H. destruct (types.Allowed (audit.Decision e)); simpl in H; gosimp H;
    apply Ok_inj in H; by subst r.
Qed.

Definition entry_backed (exp : export.Export) (inp : Inputs) (e : audit.Entry) : Prop :=
  exists links, chain_evidence exp inp e links
    /\ (types.Allowed (audit.Decision e) = true -> justified exp inp e links).

(** What a clean verdict asserts. *)
Definition evidence_backed (exp : export.Export) (inp : Inputs) : Prop :=
  export.IsV1 exp = false
  /\ exists key, did.ResolveKey (DIDs inp) (export.Signer exp) = Ok key
     /\ verifyEnvelope exp key = Ok tt /\ audit.VerifyEntries key (export.Entries exp) = None
     /\ Forall (entry_backed exp inp) (export.Entries exp).

Lemma chain_evidence_lengths exp inp e links :
  chain_evidence exp inp e links ->
  2 <= len (elems (audit.ResolvedChain e))
  /\ len (audit.ChainCredentialIDs e) = len (elems (audit.ResolvedChain e)) - 1.
Proof.
  intros (Hf & Hv & Hp). apply chain.chain_Ok in Hv as (Hne & _). simpl in Hne.
  apply Forall2_length in Hf. unfold chain.Principals in Hp. simpl in Hp.
  destruct links as [|l links]; [done|]. apply (inj Some) in Hp. rewrite <- Hp. unfold len. rewrite Hf.
  cbn [length map]. rewrite length_map. lia.
Qed.

Lemma judge_backed exp e inp : (exists r, judge exp e inp = Ok r) <-> entry_backed exp inp e.
Proof.
  rewrite judge_Ok. unfold entry_backed. split; [by intros (_ & _ & H)|].
  intros (links & H & Hj). pose proof (chain_evidence_lengths _ _ _ _ H) as [? ?]. split_and!; [done..|]. by exists links.
Qed.

Lemma verifyEntry_bad exp e inp :
  export.IsV1 exp = false -> bad (Outcome_ (verifyEntry exp e inp)) = false <-> entry_backed exp inp e.
Proof.
  intros Hv. rewrite <- judge_backed. unfold verifyEntry. rewrite Hv.
  destruct (judge exp e inp) as [r|err] eqn:E; simpl.
  - apply judge_outcome in E as [-> _]. split; [by exists r|]. by destruct (types.Allowed _).
  - split; [done|]. by intros [? ?].
Qed.

Lemma entry_results_clean exp inp i es :
  export.IsV1 exp = false ->
  existsb (fun r => bad (Outcome_ r)) (entry_results exp inp None i es) = false <-> Forall (entry_backed exp inp) es.
Proof.
  intros Hv. revert i. induction es as [|e es IH]; intros i; simpl; [by split|].
  rewrite orb_false_iff, Forall_cons, IH, verifyEntry_bad; done.
Qed.

Lemma entry_results_lookup exp inp broken i es n e :
  es !! n = Some e ->
  entry_results exp inp broken i es !! n =
  Some match broken with
       | Some (failIdx, err) =>
           if i + Z.of_nat n =? failIdx then mkResult (audit.Seq e) OutcomeFail err None []
           else if failIdx <? i + Z.of_nat n then
             mkResult (audit.Seq e) OutcomeUnverified
               (Errorf "hash chain broke at entry %d; nothing after it can be trusted" [AInt failIdx]) None []
           else verifyEntry exp e inp
       | None => verifyEntry exp e inp
       end.
Proof.
  revert i n. induction es as [|x es IH]; intros i [|n]; try done.
  - intros [= ->]. simpl. by rewrite Z.add_0_r.
  - intros H. cbn [entry_results]. change ((?a :: ?l) !! S n) with (l !! n). rewrite (IH (i + 1) n H).
    by replace (i + 1 + Z.of_nat n) with (i + Z.of_nat (S n)) by lia.
Qed.

Lemma length_entry_results exp inp broken i es : length (entry_results exp inp broken i es) = length es.
Proof. revert i. induction es as [|e es IH]; intros i; simpl; [done|]. by rewrite IH. Qed.

(** A log that breaks is not clean: its broken entry fails. *)
Lemma entry_results_broken exp inp key es fi err :
  audit.VerifyEntries key es = Some (fi, err) ->
  existsb (fun r => bad (Outcome_ r)) (entry_results exp inp (Some (fi, err)) 0 es) = true.
Proof.
  intros H. pose proof (audit.fail_index_range _ _ _ _ H) as Hr.
  assert (is_Some (es !! Z.to_nat fi)) as [e He].
  { apply lookup_lt_is_Some. unfold len in Hr. lia. }
  pose proof (entry_results_lookup exp inp (Some (fi, err)) 0 es _ _ He) as Hl.
  simpl in Hl. rewrite Z2Nat.id in Hl by lia. rewrite Z.eqb_refl in Hl.
  apply existsb_exists. eexists. split; [|shelve]. apply list_elem_of_In. eapply list_elem_of_lookup_2, Hl.
  Unshelve. done.
Qed.

Lemma Pass_backed exp inp :
  (exists res, Verify exp inp = Ok res /\ Pass res = true) <-> evidence_backed exp inp.
Proof.
  unfold Verify, evidence_backed. destruct (did.ResolveKey (DIDs inp) (export.Signer exp)) as [key|err]; cbn [wrap rbind].
  2: { split; [by intros (? & ? & _)|]. by intros (_ & ? & ? & _). }
  destruct (export.IsV1 exp) eqn:Ev; cbn [negb].
  { split; [|by intros [? _]]. intros (res & H & Hp). apply Ok_inj in H. subst res.
    unfold Pass in Hp. cbn [FatalReason EvidenceCarried] in Hp. by rewrite orb_true_r in Hp. }
  destruct (verifyEnvelope exp key) as [[]|err] eqn:Ee.
  2: { split.
       - intros (res & H & Hp). apply Ok_inj in H. by subst res.
       - intros (_ & k & Hk & He & _). apply Ok_inj in Hk. subst k. congruence. }
  split.
  - intros (res & H & Hp). split; [done|]. apply Ok_inj in H. subst res. exists key. split_and!; [done..| |].
    + destruct (audit.VerifyEntries key (export.Entries exp)) as [[fi err]|] eqn:Eb; [|done].
      unfold Pass in Hp. simpl in Hp. by rewrite (entry_results_broken _ _ _ _ _ _ Eb) in Hp.
    + destruct (audit.VerifyEntries key (export.Entries exp)) as [[fi err]|] eqn:Eb; unfold Pass in Hp; simpl in Hp.
      * by rewrite (entry_results_broken _ _ _ _ _ _ Eb) in Hp.
      * apply negb_true_iff in Hp. by apply entry_results_clean in Hp.
  - intros (_ & k & Hk & _ & Hb & Hf). apply Ok_inj in Hk. subst k. rewrite Hb. eexists. split; [done|].
    unfold Pass. simpl. apply negb_true_iff. by apply entry_results_clean.
Qed.

(** C5: the verdict is exact: an export passes clean if and only if it is an
    evidence envelope, the enforcement point's published key signed its header
    and every link of its hash chain, every entry's delegation chain verifies
    against evidence stored under its own content address and reproduces the
    recorded principals, and every allowed entry is justified: the pinned
    policy derives the recorded decision, the credential's caveats hold of the
    action, possession is proved, and a consequential action was approved and
    no hop of its chain is revoked.  In particular an integrity-only envelope
    never passes. *)
Theorem pass_iff exp inp :
  (exists res, Verify exp inp = Ok res /\ Pass res = true) <-> evidence_backed exp inp.
Proof. apply Pass_backed. Qed.

(** C6: in an export that passes clean, every allowed action was within the
    authority of every hop of its delegation chain, not only of the credential
    presented, and the chain runs from the recorded root to the recorded actor;
    if the policy makes it consequential, no hop of the chain is revoked. *)
Theorem allowed_within_authority exp inp res e :
  Verify exp inp = Ok res -> Pass res = true -> e ∈ export.Entries exp -> types.Allowed (audit.Decision e) = true ->
  exists links l, chain_evidence exp inp e links /\ last links = Some l
    /\ Forall (fun h => macaroon.Satisfies (credential.Macaroon_ (chain.Credential_ h))
                          (action_context (chain.Credential_ l) (audit.Action e)) = Ok tt) links
    /\ hd_error (elems (audit.ResolvedChain e)) = Some (chain.Root (chain.mkChain (Some links)))
    /\ last (elems (audit.ResolvedChain e)) = Some (credential.Subject (chain.Credential_ l))
    /\ (types.Consequential (audit.Decision e) = true ->
        Forall (not_revoked inp) links /\ approved inp (chain.Credential_ l) e)
    /\ possession_proved (chain.Credential_ l) e.
Proof.
  intros Hv Hp He Ha. assert (Hb : evidence_backed exp inp) by (apply Pass_backed; by exists res).
  destruct Hb as (_ & key & _ & _ & _ & Hf). rewrite Forall_forall in Hf.
  apply Hf in He as (links & Hc & Hj). destruct (Hj Ha) as (l & d & Hl & Hd & Hs & Hcons & Hpop & _).
  exists links, l. destruct Hc as (Hev & Hch & Hpr).
  assert (Hline := chain.Principals_ends _ _ _ Hch Hpr). simpl in Hline. destruct Hline as [Hroot Hlast].
  split_and!; try done.
  - apply chain.chain_Ok in Hch as (_ & _ & _ & Hlk). simpl in Hlk. apply Forall_lookup. intros n h Hn.
    by eapply (chain.linked_Satisfies None links).
  - rewrite Hlast. unfold chain.Actor. simpl. by rewrite Hl.
  - intros E. destruct Hd as (p & _ & _ & _ & _ & Hdc & _). rewrite <- Hdc in E. destruct (Hcons E) as (_ & ? & ?). done.
Qed.

Lemma judged_outcome exp e inp :
  export.IsV1 exp = false ->
  let r := verifyEntry exp e inp in
  Seq r = audit.Seq e
  /\ (Outcome_ r = OutcomePass \/ Outcome_ r = OutcomePassDeny \/ Outcome_ r = OutcomeFail)
  /\ (Outcome_ r = OutcomePass -> types.Allowed (audit.Decision e) = true)
  /\ (Outcome_ r = OutcomePassDeny -> types.Allowed (audit.Decision e) = false).
Proof.
  intros Hv r. unfold r, verifyEntry. rewrite Hv. destruct (judge exp e inp) as [x|err] eqn:E; simpl.
  - apply judge_outcome in E as [-> ->]. destruct (types.Allowed _); naive_solver.
  - naive_solver.
Qed.

(** the verdict of an evidence envelope covers the log position by
    position: one result per entry, under the entry's sequence number.  If the
    hash chain breaks at an entry, that entry fails, everything after it is
    unverified, and what precedes it is judged as in an unbroken log; a pass is
    reported for allowed entries only and a denial pass for denied ones. *)
Theorem verdict_positions exp inp key res :
  export.IsV1 exp = false -> did.ResolveKey (DIDs inp) (export.Signer exp) = Ok key ->
  Verify exp inp = Ok res -> FatalReason res = None ->
  length (Entries res) = length (export.Entries exp)
  /\ forall n e, export.Entries exp !! n = Some e ->
     exists r, Entries res !! n = Some r /\ Seq r = audit.Seq e
       /\ (Outcome_ r = OutcomePass -> types.Allowed (audit.Decision e) = true)
       /\ (Outcome_ r = OutcomePassDeny -> types.Allowed (audit.Decision e) = false)
       /\ match audit.VerifyEntries key (export.Entries exp) with
          | None => r = verifyEntry exp e inp
          | Some (fi, _) =>
              (Z.of_nat n < fi -> r = verifyEntry exp e inp)
              /\ (Z.of_nat n = fi -> Outcome_ r = OutcomeFail)
              /\ (fi < Z.of_nat n -> Outcome_ r = OutcomeUnverified)
          end.
Proof.
  intros Hv Hk H Hf. unfold Verify in H. rewrite Hk in H. cbn [wrap rbind] in H. rewrite Hv in H. simpl in H.
  destruct (verifyEnvelope exp key) as [[]|err]; apply Ok_inj in H; subst res; [|done]. simpl.
  split; [apply length_entry_results|]. intros n e Hn. eexists. split; [by apply entry_results_lookup|].
  rewrite Z.add_0_l. pose proof (judged_outcome exp e inp Hv) as (Hs & _ & Hp & Hd).
  destruct (audit.VerifyEntries key (export.Entries exp)) as [[fi err]|]; [|done].
  destruct (Z.eqb_spec (Z.of_nat n) fi); [|destruct (Z.ltb_spec fi (Z.of_nat n))];
    split_and!; simpl; (done || lia || by intros).
Qed.
End Meaning.

(** ** Removing entries from a signed export *)

(** The header an enforcement point signs for an export. *)
Definition header (exp : export.Export) (pid : string) : bytes :=
  export.envelopeSigningInput (export.Version_ exp) (export.Signer exp) pid
    (len (export.Entries exp)) (export.logTip (export.Entries exp)).

(** Unforgeability, as the signature scheme documents it, for a signer that
    has signed one export header: every other header fails verification. *)
Definition signed_once {CR : Crypto} (key : PublicKey) (genuine : bytes) : Prop :=
  forall v s pid n tip sig,
    signer.Verify key (export.envelopeSigningInput v s pid n tip) sig = true ->
    export.envelopeSigningInput v s pid n tip = genuine.

Lemma logTip_last_hash es : export.logTip es = audit.last_hash audit.GenesisHash es.
Proof. done. Qed.

(** C10: no entry can be removed from, added to or altered in a signed export:
    if the enforcement point signed one header, that of [genuine], then every
    envelope whose header and log it is taken to have signed has the same
    version, signer and policy id as [genuine] and the same entries in content
    and number, or exhibits a SHA-256 collision. *)
Theorem truncation_detected {CR : Crypto} key genuine pid exp pid' :
  export.policy_address (export.Policy genuine) = Ok pid -> signed_once key (header genuine pid) ->
  nul_free (s2b (export.Version_ genuine)) -> nul_free (s2b (export.Version_ exp)) ->
  Forall (fun e => audit.valid_entry e = true) (export.Entries genuine) ->
  len (export.Entries genuine) < 2 ^ 64 -> len (export.Entries exp) < 2 ^ 64 ->
  audit.VerifyEntries key (export.Entries genuine) = None ->
  export.policy_address (export.Policy exp) = Ok pid' ->
  verifyEnvelope exp key = Ok tt -> audit.VerifyEntries key (export.Entries exp) = None ->
  export.Version_ exp = export.Version_ genuine /\ export.Signer exp = export.Signer genuine /\ pid' = pid
  /\ len (export.Entries exp) = len (export.Entries genuine)
  /\ (Forall2 audit.same_content (export.Entries genuine) (export.Entries exp)
      \/ audit.collision_between (export.Entries genuine) (export.Entries exp)).
Proof.
  intros Hp Honce Hn1 Hn2 Hval Hl1 Hl2 Hv1 Hp' He Hv2. unfold verifyEnvelope in He. rewrite Hp' in He.
  cbn [wrap rbind] in He. gosimp He. apply Honce in He. unfold header in He.
  pose proof (audit.tip_length _ _ Hv1) as T1. pose proof (audit.tip_length _ _ Hv2) as T2.
  assert (Hlen : len (export.logTip (export.Entries exp)) = len (export.logTip (export.Entries genuine))).
  { unfold len. f_equal. by etransitivity; [exact T2|symmetry; exact T1]. }
  pose proof (len_nonneg (export.Entries exp)). pose proof (len_nonneg (export.Entries genuine)).
  eapply export.envelope_inj in He as (Ev & Es & Ep & En & Et); try done.
  split_and!; [done..|]. rewrite !logTip_last_hash in Et.
  destruct (decide (export.Entries genuine = [])) as [E1|N1].
  { left. rewrite E1 in En |- *. apply len_zero in En as ->. constructor. }
  apply (audit.tip_determines key key); try done.
  intros E2. rewrite E2 in En. apply eq_sym, len_zero in En. done.
Qed.

(** ** A concrete export *)

#[local] Instance accepting : Crypto :=
  {| ed25519_Verify := fun k _ sig => bool_decide (head k = head sig); ecdsa_VerifyASN1 := fun _ _ _ _ => false;
     p256_NewPublicKey_ok := fun _ => false |}.
#[local] Instance ascii_tables : UnicodeTables := Build_UnicodeTables (fun r => r <? 128).

(** A consequential payment by the agent of one delegation, approved by the
    organization; the enforcement point signs with the helper's key. *)
Definition test_action : types.Action := policy.example_action "50".
Definition test_link : chain.Link := chain.link1.
Definition test_id : string :=
  Eval vm_compute in match export.CredentialID (chain.Credential_ test_link) with Ok s => s | Err _ => ""%string end.
Definition test_draft : audit.EntryDraft :=
  audit.mkDraft test_action (Some [chain.org; chain.agent]) [test_id]
    (types.mkDecision true true "default" "v1" 1 "gated") export.test_pid [Byte.x2a] [Byte.x02] chain.org [Byte.x01]
    (mkTime 1700000000 0 0).
Definition test_proxy : signer.Signer :=
  signer.mkSigner chain.helper (chain.test_key Byte.x03) (fun _ => Ok [Byte.x03]).
Definition test_entry : audit.Entry :=
  Eval vm_compute in match audit.Seal (audit.NewLog test_proxy) test_draft with
                     | Ok e => e | Err _ => audit.of_draft 0 [] test_draft end.
Definition test_set : export.CredentialSet :=
  {[test_id := export.mkRecord test_id (chain.Credential_ test_link) (chain.IssuerProof test_link)]}.
Definition test_export : export.Export :=
  export.mkExport export.Version chain.helper [test_entry] test_set (Some export.test_policy) [Byte.x03].
Definition test_list : status.StatusList :=
  status.mkStatusList chain.org status.PurposeRevocation (status.Bits (status.New 0)) [Byte.x01].
Definition test_inputs : Inputs :=
  mkInputs chain.test_resolver (Some (MapStatusResolver {["https://org.example/status.json"%string := test_list]})).
Definition test_result : Result :=
  Eval vm_compute in match Verify test_export test_inputs with Ok r => r | Err e => mkVerdict "" false (Some e) [] end.
Lemma test_verdict_Ok : Verify test_export test_inputs = Ok test_result.
Proof. vm_compute. reflexivity. Qed.

Lemma allowed_within_authority_witness :
  Pass test_result = true
  /\ exists links l, chain_evidence test_export test_inputs test_entry links /\ last links = Some l
     /\ Forall (fun h => macaroon.Satisfies (credential.Macaroon_ (chain.Credential_ h))
                           (action_context (chain.Credential_ l) test_action) = Ok tt) links.
Proof.
  split; [reflexivity|].
  destruct (allowed_within_authority test_export test_inputs test_result test_entry test_verdict_Ok)
    as (links & l & Hc & Hl & Hs & _); [reflexivity|by apply list_elem_of_here|reflexivity|].
  by exists links, l.
Defined.

(** A log with a duplicated entry: the second copy breaks the chain. *)
Definition broken_export : export.Export :=
  export.mkExport export.Version chain.helper [test_entry; test_entry] test_set (Some export.test_policy) [Byte.x03].
Definition broken_result : Result :=
  Eval vm_compute in match Verify broken_export test_inputs with Ok r => r | Err e => mkVerdict "" false (Some e) [] end.

Lemma verdict_positions_witness : length (Entries broken_result) = 2%nat /\ Pass broken_result = false.
Proof.
  split; [|reflexivity].
  apply (verdict_positions broken_export test_inputs (chain.test_key Byte.x03) broken_result);
    [reflexivity|vm_compute; reflexivity|vm_compute; reflexivity|reflexivity].
Defined.

(** A signer that has signed one header and nothing else in that domain. *)
Definition sole_export : export.Export :=
  export.mkExport export.Version chain.helper [test_entry] ∅ (Some export.test_policy) [Byte.x03].
Definition sole_header : bytes := Eval vm_compute in header sole_export export.test_pid.
Definition one_signature : Crypto :=
  {| ed25519_Verify := fun _ d _ =>
       if bool_decide (take (length (s2b export.envelopeSigDomain)) d = s2b export.envelopeSigDomain)
       then d =?b sole_header else true;
     ecdsa_VerifyASN1 := fun _ _ _ _ => false; p256_NewPublicKey_ok := fun _ => false |}.

Lemma one_signature_once : @signed_once one_signature (chain.test_key Byte.x03) sole_header.
Proof.
  intros v s pid n tip sig. unfold export.envelopeSigningInput. cbn [signer.Verify chain.test_key].
  change (negb (len (repeat Byte.x03 32) =? signer.ed25519_PublicKeySize)) with false. cbn [ed25519_Verify one_signature].
  rewrite take_app_length, bool_decide_true by done. apply bytes_eqb_true.
Qed.

Lemma truncation_detected_witness :
  export.Version_ sole_export = export.Version_ sole_export
  /\ (Forall2 audit.same_content [test_entry] [test_entry] \/ audit.collision_between [test_entry] [test_entry]).
Proof.
  destruct (@truncation_detected one_signature (chain.test_key Byte.x03) sole_export export.test_pid sole_export
              export.test_pid) as (? & _ & _ & _ & ?).
  - exact export.test_pid_Ok.
  - exact one_signature_once.
  - by apply (bool_decide_unpack _).
  - by apply (bool_decide_unpack _).
  - constructor; [vm_compute; reflexivity|constructor].
  - reflexivity.
  - reflexivity.
  - vm_compute. reflexivity.
  - exact export.test_pid_Ok.
  - vm_compute. reflexivity.
  - vm_compute. reflexivity.
  - by split.
Defined.

End verifier.
