(* ===== verification/Auditsink.v ===== *)
(** auditsink (auditsink.go, json.go, file.go): the record an enforcement point
    forwards to a sink, and the JSON Lines the shipped sinks write. *)
From S2P Require Import Prelude GoFmt GoTime GoCrypto GoJson GoJsonText.

Module auditsink.

Record AuditRecord := mkAuditRecord
  { Seq : Z; Timestamp : time; Actor : string; ActionType : string; ActionTarget : string; Allowed : bool;
    Consequential : bool; Reason : string; EntryHash : slice Byte.byte; Outcome : string }.

Definition OutcomeRecorded : string := "recorded".
Definition OutcomeUnattributable : string := "unattributable".

Definition AuditRecord_json (r : AuditRecord) : result json :=
  let! ts := j_time (Timestamp r) in
  Ok (JObj (field "seq" (JInt (Seq r)) ++ field "timestamp" ts ++ field "actor" (JStr (Actor r))
            ++ field "actionType" (JStr (ActionType r)) ++ field "actionTarget" (JStr (ActionTarget r))
            ++ field "allowed" (JBool (Allowed r)) ++ field "consequential" (JBool (Consequential r))
            ++ field "reason" (JStr (Reason r)) ++ field "entryHash" (j_slice j_bytes (EntryHash r))
            ++ field "outcome" (JStr (Outcome r)))).

(** [Encoder.Encode]: the compact encoding and a newline, written to [out]. *)
Definition Encode (out : bytes) (r : AuditRecord) : result bytes :=
  let! line := Marshal (AuditRecord_json r) in
  Ok (out ++ line ++ [Byte.x0a]).

(** [Write] of the writer sink and of the file sink, over a writer that accepts
    the bytes; [Sinks] has the sinks over writers that may not. *)
Definition JSONSink_Write (out : bytes) (r : AuditRecord) : result bytes :=
  wrap (fun e => Errorf "auditsink: encode record %d: %w" [AInt (Seq r); AErr e]) (Encode out r).
Definition FileSink_Write (out : bytes) (r : AuditRecord) : result bytes :=
  wrap (fun e => Errorf "auditsink: write record %d: %w" [AInt (Seq r); AErr e]) (Encode out r).

End auditsink.
