(* ===== verification/Sinks.v ===== *)
(** auditsink (file.go, json.go): the shipped sinks as objects over a writer that
    can fail.

    Module [sinks] has the state of a sink: the bytes its writer has taken, the
    error its encoder keeps, and whether its file is closed.  Records arrive one
    at a time, which the sink's mutex sees to.  The theorem says what is in the
    writer after any sequence of records and answers. *)
From S2P Require Import Prelude GoFmt GoTime GoCrypto GoJson GoJsonText GoJsonInj Auditsink Texts.

Module sinks.

(** What the operating system answers to one write. *)
Inductive disk := Written | Short (n : nat) (e : error).

(** A json.Encoder over a writer keeps the first error of the writer and answers
    every later Encode with it. *)
Record encoder := mkEncoder { out : bytes; err : option error }.
Definition NewEncoder (present : bytes) : encoder := mkEncoder present None.
Definition Encode (enc : encoder) (r : auditsink.AuditRecord) (closed : bool) (d : disk) : encoder * result unit :=
  match err enc with
  | Some e => (enc, Err e)
  | None =>
      match Marshal (auditsink.AuditRecord_json r) with
      | Err e => (enc, Err e)
      | Ok line =>
          let b := line ++ [Byte.x0a] in
          if closed then let e := New "file already closed" in (mkEncoder (out enc) (Some e), Err e)
          else
            match d with
            | Written => (mkEncoder (out enc ++ b) None, Ok tt)
            | Short n e => (mkEncoder (out enc ++ take n b) (Some e), Err e)
            end
      end
  end.

(** *** JSONSink, over any io.Writer *)
Definition NewJSONSink (present : bytes) : encoder := NewEncoder present.
Definition JSONSink_Write (s : encoder) (r : auditsink.AuditRecord) (d : disk) : encoder * result unit :=
  let '(enc, res) := Encode s r false d in
  (enc, wrap (fun e => Errorf "auditsink: encode record %d: %w" [AInt (auditsink.Seq r); AErr e]) res).

(** *** FileSink, over a file opened for appending *)
Record FileSink := mkFileSink { path : string; enc : encoder; closed : bool }.

(** [refused]: why the file cannot be opened, if it cannot. *)
Definition NewFileSink (fs : files.files) (path : string) (refused : option error) : files.files * result FileSink :=
  match refused with
  | Some e => (fs, Err (Errorf "auditsink: open %q: %w" [AStr path; AErr e]))
  | None =>
      let present := default [] (fs !! path) in
      (<[path := present]> fs, Ok (mkFileSink path (NewEncoder present) false))
  end.
Definition FileSink_Write (s : FileSink) (r : auditsink.AuditRecord) (d : disk) : FileSink * result unit :=
  let '(e, res) := Encode (enc s) r (closed s) d in
  (mkFileSink (path s) e (closed s),
   wrap (fun e => Errorf "auditsink: write record %d: %w" [AInt (auditsink.Seq r); AErr e]) res).
Definition Close (s : FileSink) : FileSink * result unit :=
  (mkFileSink (path s) (enc s) true, reject_if (closed s) (New "file already closed")).

(** A run of the sink: the answer to each record. *)
Fixpoint write_all (s : FileSink) (l : list (auditsink.AuditRecord * disk)) : FileSink * list (result unit) :=
  match l with
  | [] => (s, [])
  | (r, d) :: l =>
      let '(s, res) := FileSink_Write s r d in
      let '(s, rest) := write_all s l in (s, res :: rest)
  end.

(** ** What reaches the file *)

Definition line_of (r : auditsink.AuditRecord) : bytes :=
  match Marshal (auditsink.AuditRecord_json r) with Ok b => b ++ [Byte.x0a] | Err _ => [] end.
Definition encodable (r : auditsink.AuditRecord) : bool := is_ok (Marshal (auditsink.AuditRecord_json r)).

(** The records up to the first failed write, and what that write left. *)
Fixpoint reached (l : list (auditsink.AuditRecord * disk)) : list auditsink.AuditRecord * bytes :=
  match l with
  | [] => ([], [])
  | (r, d) :: l =>
      if encodable r then
        match d with
        | Written => let '(rs, torn) := reached l in (r :: rs, torn)
        | Short n _ => ([], take n (line_of r))
        end
      else reached l
  end.

Lemma Write_failed s r d e : err (enc s) = Some e -> FileSink_Write s r d = (s, Err (Errorf "auditsink: write record %d: %w" [AInt (auditsink.Seq r); AErr e])).
Proof. intros He. unfold FileSink_Write, Encode. rewrite He. by destruct s. Qed.
Lemma write_all_failed s l e :
  err (enc s) = Some e -> (write_all s l).1 = s /\ Forall (fun res => is_ok res = false) (write_all s l).2.
Proof.
  intros He. induction l as [|[r d] l [IH1 IH2]]; [by split|]. cbn [write_all]. rewrite (Write_failed _ _ _ _ He).
  destruct (write_all s l) as [s' rest]. cbn in *. by split; [|constructor].
Qed.
Lemma record_one_line r b : Marshal (auditsink.AuditRecord_json r) = Ok b -> Byte.x0a ∉ b.
Proof.
  intros H. unfold Marshal in H. apply rbind_Ok in H as (j & Hj & H). apply Ok_inj in H as <-.
  apply one_line_newline, encode_one_line. unfold auditsink.AuditRecord_json, j_time in Hj. gosimp Hj.
  apply Ok_inj in Ha. apply Ok_inj in Hj as <-. subst a. cbn. by destruct (auditsink.EntryHash r).
Qed.
Lemma line_of_encodable r : encodable r = true -> exists b, line_of r = b ++ [Byte.x0a] /\ Byte.x0a ∉ b.
Proof.
  unfold encodable, line_of. destruct (Marshal _) as [b|] eqn:E; [|done]. intros _. exists b. split; [done|]. by apply (record_one_line r).
Qed.

(** A line, or the part of one that was written, reads as one line. *)
Lemma read_lines_line b r : Byte.x0a ∉ b -> read_lines (b ++ Byte.x0a :: r) = (b ++ [Byte.x0a]) :: read_lines r.
Proof.
  intros Hb. rewrite (read_lines_step _ (b ++ [Byte.x0a]) true); [|by destruct b|by apply read_line_newline].
  replace (b ++ Byte.x0a :: r) with ((b ++ [Byte.x0a]) ++ r) by by rewrite <- app_assoc. by rewrite drop_app_length.
Qed.
Lemma read_lines_part b n : Byte.x0a ∉ b -> take n (b ++ [Byte.x0a]) <> [] -> read_lines (take n (b ++ [Byte.x0a])) = [take n (b ++ [Byte.x0a])].
Proof.
  intros Hb Hne. destruct (decide (n <= length b)%nat) as [Hle|Hgt].
  - rewrite take_app_le in * by done. rewrite (read_lines_step _ (take n b) false); [done|done|].
    apply read_line_end. intros H. apply Hb. rewrite <- (take_drop n b). apply elem_of_app. by left.
  - rewrite take_ge by (rewrite length_app; cbn; lia). by apply (read_lines_line b []).
Qed.

Lemma reached_lines l :
  read_lines (concat (map line_of (reached l).1) ++ (reached l).2)
  = map line_of (reached l).1 ++ (if bool_decide ((reached l).2 = []) then [] else [(reached l).2]).
Proof.
  induction l as [|[r d] l IH]; [done|]. cbn [reached]. destruct (encodable r) eqn:E; [|done].
  destruct (line_of_encodable r E) as (b & Hb & Hn). destruct d as [|n e].
  - destruct (reached l) as [rs torn]. cbn [fst snd map concat app] in *. rewrite Hb, <- !app_assoc. cbn [app].
    by rewrite read_lines_line, IH by done.
  - clear IH. cbn [fst snd map concat app]. rewrite Hb. case_bool_decide as Ht; [by rewrite Ht|]. by apply read_lines_part.
Qed.
Lemma write_reached s l :
  closed s = false -> err (enc s) = None ->
  out (enc (write_all s l).1) = out (enc s) ++ concat (map line_of (reached l).1) ++ (reached l).2
  /\ map (fun x => x.1.1) (List.filter (fun x => is_ok x.2) (zip l (write_all s l).2)) = (reached l).1
  /\ (err (enc (write_all s l).1) = None -> (reached l).2 = []).
Proof.
  revert s. induction l as [|[r d] l IH]; intros s Hc He; [cbn; by rewrite app_nil_r|]. cbn [reached write_all].
  unfold FileSink_Write, Encode. rewrite He, Hc. unfold encodable, line_of.
  destruct (Marshal (auditsink.AuditRecord_json r)) as [b|e] eqn:Em; cbn [is_ok].
  - destruct d as [|n e].
    + set (s1 := mkFileSink _ _ _). specialize (IH s1 eq_refl eq_refl). destruct (write_all s1 l) as [s' rest], (reached l) as [rs torn].
      cbn [fst snd wrap] in *. destruct IH as (IH1 & IH2 & IH3). split_and!; [|cbn; by rewrite IH2|done].
      rewrite IH1. cbn [out enc s1 map concat]. rewrite Em. by rewrite <- !app_assoc.
    + set (s1 := mkFileSink _ _ _). destruct (write_all_failed s1 l e eq_refl) as [F1 F2]. destruct (write_all s1 l) as [s' rest].
      cbn [fst snd wrap] in *. subst s'. split_and!; [done| |done]. cbn [zip zip_with List.filter is_ok snd]. clear -F2.
      revert l. induction F2 as [|x rest Hx _ IH]; intros [|y l]; cbn; try done. rewrite Hx. apply IH.
  - set (s1 := mkFileSink _ _ _). assert (E1 : s1 = s) by by destruct s as [pa en cl]; unfold s1; cbn in *; subst cl.
    specialize (IH s Hc He). rewrite E1. destruct (write_all s l) as [s' rest]. cbn [fst snd wrap] in *. exact IH.
Qed.

(** what a file sink leaves.  Whatever records it is given and whatever the
    disk answers, the file has grown by one line for each record that was
    answered without an error, in order, and by at most the start of one more
    line, which only a failed write leaves; reading those bytes by lines gives the
    records' lines back.  After the first failed write nothing reaches the file any
    more and every record is answered with an error, until the sink is opened
    anew. *)
Theorem file_sink_lines s l :
  closed s = false -> err (enc s) = None ->
  let s' := (write_all s l).1 in
  let rs := (reached l).1 in let torn := (reached l).2 in
  out (enc s') = out (enc s) ++ concat (map line_of rs) ++ torn
  /\ map (fun x => x.1.1) (List.filter (fun x => is_ok x.2) (zip l (write_all s l).2)) = rs
  /\ read_lines (concat (map line_of rs) ++ torn) = map line_of rs ++ (if bool_decide (torn = []) then [] else [torn])
  /\ (err (enc s') = None -> torn = [])
  /\ (forall e more, err (enc s') = Some e ->
        (write_all s' more).1 = s' /\ Forall (fun res => is_ok res = false) (write_all s' more).2).
Proof.
  intros Hc He. destruct (write_reached s l Hc He) as (H1 & H2 & H3). split_and!; [done|done|apply reached_lines|done|].
  intros e more H. by apply (write_all_failed _ _ e).
Qed.

(** ** A disk that fills up *)

Definition test_record (n : Z) (year : Z) : auditsink.AuditRecord :=
  auditsink.mkAuditRecord n (Date year 7 9 12 0 0 0) "did:web:localhost:agents:helper" "payment.transfer" "acct/999" true true
    "within delegated authority" (Some [Byte.xde; Byte.xad]) auditsink.OutcomeRecorded.
Definition test_sink : FileSink := mkFileSink "audit.jsonl" (NewEncoder []) false.
Definition test_writes : list (auditsink.AuditRecord * disk) :=
  [(test_record 0 2026, Written); (test_record 1 20260, Written); (test_record 2 2026, Short 10 (New "no space left on device"));
   (test_record 3 2026, Written)].
(** TestFileSink_AppendsAndRoundTrips, and a date no JSON can carry. *)
Example test_answers : map is_ok (write_all test_sink test_writes).2 = [true; false; false; false].
Proof. vm_compute. reflexivity. Qed.
Lemma file_sink_lines_witness :
  out (enc (write_all test_sink test_writes).1) = line_of (test_record 0 2026) ++ take 10 (line_of (test_record 2 2026))
  /\ length (read_lines (out (enc (write_all test_sink test_writes).1))) = 2%nat.
Proof.
  destruct (file_sink_lines test_sink test_writes eq_refl eq_refl) as (H1 & _ & H3 & _ & _).
  assert (E : reached test_writes = ([test_record 0 2026], take 10 (line_of (test_record 2 2026)))) by (vm_compute; reflexivity).
  rewrite E in H1, H3. cbn [fst snd map concat out enc test_sink NewEncoder app] in H1, H3. rewrite app_nil_r in H1, H3.
  split; [exact H1|]. rewrite H1, H3. vm_compute. reflexivity.
Defined.
End sinks.
