(* ===== verification/Wal.v ===== *)
(** internal/enforce (wal.go): the durable write-ahead log behind a proxy, as
    the bytes of its file. *)
From S2P Require Import Prelude GoFmt GoTime GoCrypto GoJson GoJsonText AuditLog Export.

Module wal.

Record walRecord := mkWalRecord { Entry : audit.Entry; Credentials : list export.CredentialRecord }.

Fixpoint records_json (l : list export.CredentialRecord) : result (list json) :=
  match l with
  | [] => Ok []
  | r :: l => let! j := export.CredentialRecord_json r in let! js := records_json l in Ok (j :: js)
  end.
Definition walRecord_json (r : walRecord) : result json :=
  let! e := audit.Entry_json (Entry r) in
  let! cs := records_json (Credentials r) in
  Ok (JObj (field "entry" e ++ omit_if (bool_decide (Credentials r = [])) "credentials" (JArr cs))).

(** The file is its durable bytes; [open] is false once [f] is nil. *)
Record WAL := mkWAL { file : bytes; open : bool; recovered : list walRecord }.

(** What the operating system answers to one write and the sync after it: a
    failed write may have put a part of the line into the file. *)
Inductive disk := DiskOK | WriteFails (n : nat) (e : error) | SyncFails (e : error).

(** [OpenWAL] over the present bytes of the file; [None] is a missing file.
    The decoder is the JSON library's: the records it decodes, and the error
    that stops it before the end of the data. *)
Definition decoder : Type := bytes -> list walRecord * option error.
Definition readWAL (decode : decoder) (path : string) (data : option bytes) : result (list walRecord) :=
  match data with
  | None => Ok []
  | Some data =>
      match decode data with
      | (out, None) => Ok out
      | (out, Some e) => Err (Errorf "wal: parse %q (record %d): %w" [AStr path; AInt (len out); AErr e])
      end
  end.
Definition OpenWAL (decode : decoder) (path : string) (data : option bytes) : result WAL :=
  let! recs := readWAL decode path data in
  Ok (mkWAL (match data with Some d => d | None => [] end) true recs).

Definition Recovered (w : WAL) : list walRecord := recovered w.

(** [json.Marshal] of a record and the newline. *)
Definition line (r : walRecord) : result bytes :=
  let! body := Marshal (walRecord_json r) in Ok (body ++ [Byte.x0a]).

Definition written (w : WAL) (b : bytes) : WAL := mkWAL (file w ++ b) (open w) (recovered w).

(** [Append]: the file after the call, and what the call returns. *)
Definition Append (w : WAL) (entry : audit.Entry) (creds : list export.CredentialRecord) (d : disk)
  : WAL * result unit :=
  if negb (open w) then (w, Err (New "wal: append to closed log"))
  else
    match wrap (fun e => Errorf "wal: marshal entry %d: %w" [AInt (audit.Seq entry); AErr e])
            (line (mkWalRecord entry creds)) with
    | Err e => (w, Err e)
    | Ok l =>
        match d with
        | WriteFails n e => (written w (take n l), Err (Errorf "wal: write entry %d: %w" [AInt (audit.Seq entry); AErr e]))
        | SyncFails e => (written w l, Err (Errorf "wal: sync entry %d: %w" [AInt (audit.Seq entry); AErr e]))
        | DiskOK => (written w l, Ok tt)
        end
    end.

Definition Close (w : WAL) : WAL := mkWAL (file w) false (recovered w).

(** The file that a sequence of records leaves. *)
Fixpoint lines (rs : list walRecord) : result bytes :=
  match rs with
  | [] => Ok []
  | r :: rs => let! l := line r in let! ls := lines rs in Ok (l ++ ls)
  end.

Lemma lines_app rs1 rs2 b1 b2 : lines rs1 = Ok b1 -> lines rs2 = Ok b2 -> lines (rs1 ++ rs2) = Ok (b1 ++ b2).
Proof.
  revert b1. induction rs1 as [|r rs1 IH]; intros b1 H1 H2; simpl in *.
  - apply Ok_inj in H1. by subst b1.
  - gosimp H1. apply Ok_inj in H1. subst b1. rewrite Ha. cbn [rbind]. rewrite (IH a0 Ha0 H2). cbn [rbind].
    by rewrite app_assoc.
Qed.

(** A success is durable: the whole record is in the file before it is
    reported, after everything that was there. *)
Lemma Append_Ok w e cs d w' :
  Append w e cs d = (w', Ok tt) <->
  open w = true /\ d = DiskOK /\ exists l, line (mkWalRecord e cs) = Ok l /\ w' = written w l.
Proof.
  unfold Append. destruct (open w); simpl; [|naive_solver].
  destruct (line (mkWalRecord e cs)) as [l|err]; simpl; [|naive_solver].
  destruct d; naive_solver.
Qed.

Lemma Append_fails w e cs w' err : Append w e cs DiskOK = (w', Err err) -> w' = w.
Proof. unfold Append. destruct (open w); simpl; [|naive_solver]. destruct (line _); simpl; naive_solver. Qed.

(** Whatever happens, the file only grows. *)
Lemma Append_grows w e cs d : exists b, (Append w e cs d).1 = written w b.
Proof.
  assert (Hw : w = written w []) by (destruct w; unfold written; simpl; by rewrite app_nil_r).
  unfold Append. destruct (open w); simpl; [|by exists []].
  destruct (line (mkWalRecord e cs)) as [l|err]; simpl; [|by exists []]. destruct d; simpl; by eexists.
Qed.

End wal.
