(* ===== verification/Enforce.v ===== *)
(** internal/enforce (enforce.go): the enforcement chokepoint, which turns an
    action attempt into a decision and a signed audit entry. *)
From S2P Require Import Prelude GoFmt GoTime GoCrypto GoJson GoJsonText Types Signer Did Status Policy Macaroon.
From S2P Require Import Credential Chain AuditLog Export Verifier Auditsink Wal.

Module enforce.

(** What a call of the policy evaluator ends in: a decision with a possibly
    non-nil error, or a panic. *)
Inductive evaluation := Returned (d : types.Decision) (err : option error) | Panicked.

(** The evaluator interface: the shipped policy, or another implementation. *)
Inductive Evaluator := PolicyEvaluator (p : policy.Policy) | OtherEvaluator (f : types.Action -> evaluation).

Record Proxy := mkProxy
  { enforcementPoint : signer.Signer; evaluator : Evaluator; carriedPolicy : option policy.Policy; policyID : string;
    dids : did.Resolver; status_ : option verifier.StatusResolver;
    log : audit.Log; set : export.CredentialSet;
    (* whether a sink is configured, and the writes to it that have not ended *)
    sink : bool; inFlight : list auditsink.AuditRecord; unattrInFlight : list auditsink.AuditRecord;
    wal_ : option wal.WAL }.

(** [None] is a nil field. *)
Record Config := mkConfig
  { EnforcementPoint : option signer.Signer; Policy : option Evaluator; DIDs : option did.Resolver;
    Status : option verifier.StatusResolver; Sink : bool; WAL : option wal.WAL }.

Record Request := mkRequest
  { Chain : option chain.Chain; Action : types.Action; PoP : credential.PoP; Approver : types.DID; Approval : bytes }.
Record Result := mkResult { Decision : types.Decision; Entry : audit.Entry }.

Record UnattributableError := mkUnattributable
  { Stage : string; Claim : types.DID; UAction : types.Action; USeq : Z; UErr : error }.

(** The error of [Handle]: an [UnattributableError], or any other. *)
Inductive failure := Unattributable (u : UnattributableError) | Failure (e : error).

(** *** Updates of one field *)
Definition set_log (p : Proxy) (l : audit.Log) : Proxy :=
  mkProxy (enforcementPoint p) (evaluator p) (carriedPolicy p) (policyID p) (dids p) (status_ p) l (set p)
    (sink p) (inFlight p) (unattrInFlight p) (wal_ p).
Definition set_set (p : Proxy) (s : export.CredentialSet) : Proxy :=
  mkProxy (enforcementPoint p) (evaluator p) (carriedPolicy p) (policyID p) (dids p) (status_ p) (log p) s
    (sink p) (inFlight p) (unattrInFlight p) (wal_ p).
Definition set_wal (p : Proxy) (w : option wal.WAL) : Proxy :=
  mkProxy (enforcementPoint p) (evaluator p) (carriedPolicy p) (policyID p) (dids p) (status_ p) (log p) (set p)
    (sink p) (inFlight p) (unattrInFlight p) w.
Definition set_flight (p : Proxy) (l u : list auditsink.AuditRecord) : Proxy :=
  mkProxy (enforcementPoint p) (evaluator p) (carriedPolicy p) (policyID p) (dids p) (status_ p) (log p) (set p)
    (sink p) l u (wal_ p).

Section Enforce.
Context {CR : Crypto} {UT : UnicodeTables}.

(** ** Construction *)

Fixpoint check_policy_ids (policyID : string) (i : Z) (es : list audit.Entry) : result unit :=
  match es with
  | [] => Ok tt
  | e :: es =>
      check! reject_if (negb (audit.PolicyID e =?s "") && negb (audit.PolicyID e =?s policyID))
        (Errorf "proxy: WAL entry %d was written under policy %s but this proxy loaded %s; refusing to resume (would produce an inconsistent export)"
           [AInt i; AStr (audit.PolicyID e); AStr policyID]);
      check_policy_ids policyID (i + 1) es
  end.

Fixpoint add_all (msg : string) (s : export.CredentialSet) (l : list export.CredentialRecord)
  : result export.CredentialSet :=
  match l with
  | [] => Ok s
  | cr :: l =>
      let! r := wrap (fun e => Errorf msg [AErr e]) (export.Add s (export.Credential_ cr) (export.IssuerProof cr)) in
      add_all msg r.1 l
  end.

Fixpoint recover_evidence (s : export.CredentialSet) (recs : list wal.walRecord) : result export.CredentialSet :=
  match recs with
  | [] => Ok s
  | r :: recs =>
      let! s' := add_all "proxy: recover evidence: %w" s (wal.Credentials r) in
      recover_evidence s' recs
  end.

Definition recoverFrom (p : Proxy) (w : wal.WAL) : result Proxy :=
  let recs := wal.Recovered w in
  if len recs =? 0 then Ok p
  else
    let entries := map wal.Entry recs in
    let! l := wrap (fun e => Errorf "proxy: recover audit log: %w" [AErr e]) (audit.LoadLog (enforcementPoint p) entries) in
    check! check_policy_ids (policyID p) 0 entries;
    let! s := recover_evidence (set (set_log p l)) recs in
    Ok (set_set (set_log p l) s).

Definition NewProxy (c : Config) : result Proxy :=
  match EnforcementPoint c, Policy c, DIDs c with
  | None, _, _ => Err (New "proxy: enforcement point signer is required")
  | _, None, _ => Err (New "proxy: policy evaluator is required")
  | _, _, None => Err (New "proxy: DID resolver is required")
  | Some ep, Some ev, Some r =>
      let! carried :=
        match ev with
        | PolicyEvaluator pol =>
            let! id := wrap (fun e => Errorf "proxy: content-address policy: %w" [AErr e]) (export.PolicyID pol) in
            Ok (Some pol, id)
        | OtherEvaluator _ => Ok (None, ""%string)
        end in
      let p := mkProxy ep ev carried.1 carried.2 r (Status c) (audit.NewLog ep) export.NewCredentialSet
                 (Sink c) [] [] (WAL c) in
      match WAL c with
      | Some w => recoverFrom p w
      | None => Ok p
      end
  end.

(** ** Deciding *)

Definition maxPoPNonceBytes : Z := 128.
Definition maxSignatureBytes : Z := 512.

Definition checkEvidenceSize (req : Request) : result unit :=
  let n := len (elems (credential.Nonce (PoP req))) in
  check! reject_if (maxPoPNonceBytes <? n)
    (Errorf "proxy: proof-of-possession nonce is %d bytes, limit %d (a challenge nonce is 32; see maxPoPNonceBytes)"
       [AInt n; AInt maxPoPNonceBytes]);
  let n := len (elems (credential.Pop_Signature (PoP req))) in
  check! reject_if (maxSignatureBytes <? n)
    (Errorf "proxy: proof-of-possession signature is %d bytes, limit %d (Ed25519 is 64, P-256 at most 72; raise maxSignatureBytes when adding a larger-signature algorithm)"
       [AInt n; AInt maxSignatureBytes]);
  let n := len (Approval req) in
  reject_if (maxSignatureBytes <? n)
    (Errorf "proxy: approval signature is %d bytes, limit %d (Ed25519 is 64, P-256 at most 72; raise maxSignatureBytes when adding a larger-signature algorithm)"
       [AInt n; AInt maxSignatureBytes]).

Definition zero_decision : types.Decision := types.zero_decision.

Definition evaluate (p : Proxy) (a : types.Action) : types.Decision * option error :=
  match evaluator p with
  | PolicyEvaluator pol =>
      match policy.Evaluate pol a with Ok d => (d, None) | Err e => (zero_decision, Some e) end
  | OtherEvaluator f =>
      match f a with
      | Returned d err => (d, err)
      | Panicked => (zero_decision, Some (New "the policy evaluator panicked"))
      end
  end.

Definition deny (dec : types.Decision) (reason : string) : types.Decision :=
  types.mkDecision false (types.Consequential dec) (types.RuleFired dec) (types.PolicyVersion dec)
    (types.StatusCheckedHops dec) reason.

(** One hop of the live status check: whether the credential is revoked. *)
Definition hop_revoked (p : Proxy) (st : verifier.StatusResolver) (c : credential.Credential) : result bool :=
  let! l := st (status.ListURL (credential.StatusRef c)) in
  let authority := credential.StatusAuthority c in
  let! key := wrap (fun e => Errorf "resolve status authority %q: %w" [AStr authority; AErr e])
                (did.ResolveKey (dids p) authority) in
  check! status.Verify l authority key;
  status.Lookup l (status.Index (credential.StatusRef c)).

(** The loop of [anyHopRevoked]: where a revoked hop is, if there is one, and
    how many hops were checked. *)
Fixpoint hops_revoked (p : Proxy) (st : verifier.StatusResolver) (i checked : Z) (links : list chain.Link)
  : result (option error * Z) :=
  match links with
  | [] => Ok (None, checked)
  | l :: links =>
      let c := chain.Credential_ l in
      if status.ListURL (credential.StatusRef c) =?s "" then hops_revoked p st (i + 1) checked links
      else
        let! revoked := hop_revoked p st c in
        if revoked then
          Ok (Some (Errorf "hop %d (%s -> %s) at index %d"
                      [AInt i; AStr (credential.Issuer c); AStr (credential.Subject c);
                       AInt (status.Index (credential.StatusRef c))]), checked + 1)
        else hops_revoked p st (i + 1) (checked + 1) links
  end.
Definition anyHopRevoked (p : Proxy) (st : verifier.StatusResolver) (ch : chain.Chain) : result (option error * Z) :=
  hops_revoked p st 0 0 (elems (chain.Links ch)).

Definition verifyApproval (p : Proxy) (req : Request) (actor : types.DID) (seq : Z) (prevHash : bytes) : result unit :=
  check! reject_if ((Approver req =?s "") || (len (Approval req) =? 0))
    (New "consequential action requires human approval, none presented");
  let! key := wrap (fun e => Errorf "resolve approver %q: %w" [AStr (Approver req); AErr e])
                (did.ResolveKey (dids p) (Approver req)) in
  audit.VerifyApproval key actor (Action req) seq prevHash (Approval req).

Definition allow (dec : types.Decision) : types.Decision :=
  types.mkDecision true (types.Consequential dec) (types.RuleFired dec) (types.PolicyVersion dec)
    (types.StatusCheckedHops dec)
    (if types.Reason dec =?s "" then "within delegated authority" else types.Reason dec).
Definition set_checked (dec : types.Decision) (n : Z) : types.Decision :=
  types.mkDecision (types.Allowed dec) (types.Consequential dec) (types.RuleFired dec) (types.PolicyVersion dec)
    n (types.Reason dec).

Definition decide (p : Proxy) (req : Request) (ch : chain.Chain) (terminal : credential.Credential) (seq : Z)
  (prevHash : bytes) : types.Decision :=
  let '(dec, err) := evaluate p (Action req) in
  match err with
  | Some e => deny dec ("policy evaluation failed: " +:+ Error e)
  | None =>
  if negb (types.Allowed dec) then dec
  else
  match macaroon.Satisfies (credential.Macaroon_ terminal) (verifier.action_context terminal (Action req)) with
  | Err e => deny dec ("action exceeds delegated authority: " +:+ Error e)
  | Ok _ =>
  if negb (types.Consequential dec) then allow dec
  else
  match status_ p with
  | None => deny dec "consequential action requires a status check, but no status source is configured"
  | Some st =>
  match anyHopRevoked p st ch with
  | Err e => deny dec ("status check failed: " +:+ Error e)
  | Ok (revoked, checked) =>
      let dec := set_checked dec checked in
      match revoked with
      | Some where_ => deny dec ("credential revoked: " +:+ Error where_)
      | None =>
          match verifyApproval p req (credential.Subject terminal) seq prevHash with
          | Err e => deny dec (Error e)
          | Ok _ => allow dec
          end
      end
  end end end end.

(** ** Evidence and telemetry *)

(** The loop of [evidenceFor]: the ids in order, and the records that are
    neither in the set nor seen earlier in the chain. *)
Fixpoint evidence_from (s : export.CredentialSet) (i : Z) (seen : gset string) (links : list chain.Link)
  : result (list export.CredentialRecord * list string) :=
  match links with
  | [] => Ok ([], [])
  | l :: links =>
      let c := chain.Credential_ l in
      let! id := wrap (fun e => Errorf "proxy: record hop %d evidence: %w" [AInt i; AErr e]) (export.CredentialID c) in
      if negb (export.Has s id) && negb (bool_decide (id ∈ seen)) then
        let! r := evidence_from s (i + 1) ({[id]} ∪ seen) links in
        Ok (export.mkRecord id c (chain.IssuerProof l) :: r.1, id :: r.2)
      else
        let! r := evidence_from s (i + 1) seen links in
        Ok (r.1, id :: r.2)
  end.
Definition evidenceFor (p : Proxy) (ch : chain.Chain) : result (list export.CredentialRecord * list string) :=
  evidence_from (set p) 0 ∅ (elems (chain.Links ch)).

Definition UnattributableError_Error (e : UnattributableError) : error :=
  if Stage e =?s "possession" then
    Errorf "proxy: unattributable request: proof of possession did not verify at seq %d (if it was bound to an earlier tip, re-read the tip and retry): %v"
      [AInt (USeq e); AErr (UErr e)]
  else Errorf "proxy: unattributable request (%s): %v" [AStr (Stage e); AErr (UErr e)].

Definition sinkMaxInFlight : Z := 64.

(** A send on the slots channel: refused when the channel is full. *)
Definition dispatch (slots : list auditsink.AuditRecord) (rec : auditsink.AuditRecord) : list auditsink.AuditRecord :=
  if len slots <? sinkMaxInFlight then slots ++ [rec] else slots.

Definition auditRecord (e : audit.Entry) : auditsink.AuditRecord :=
  auditsink.mkAuditRecord (audit.Seq e) (audit.Timestamp e)
    (match last (elems (audit.ResolvedChain e)) with Some d => d | None => "" end)
    (types.Type_ (audit.Action e)) (types.Target (audit.Action e)) (types.Allowed (audit.Decision e))
    (types.Consequential (audit.Decision e)) (types.Reason (audit.Decision e)) (Some (audit.EntryHash e)) "".

Definition forward (p : Proxy) (e : audit.Entry) : Proxy :=
  if sink p then set_flight p (dispatch (inFlight p) (auditRecord e)) (unattrInFlight p) else p.

Definition forwardUnattributable (p : Proxy) (now : time) (e : UnattributableError) : Proxy :=
  if sink p then
    set_flight p (inFlight p)
      (dispatch (unattrInFlight p)
         (auditsink.mkAuditRecord 0 (UTC now) (Claim e) (types.Type_ (UAction e)) (types.Target (UAction e)) false false
            (Error (UnattributableError_Error e)) None auditsink.OutcomeUnattributable))
  else p.

(** ** Handling a request *)

(** The draft of the entry for a decided request. *)
Definition draft (p : Proxy) (req : Request) (ch : chain.Chain) (ids : list string) (dec : types.Decision) (now : time)
  : audit.EntryDraft :=
  audit.mkDraft (Action req) (chain.Principals ch) ids dec (policyID p)
    (elems (credential.Nonce (PoP req))) (elems (credential.Pop_Signature (PoP req)))
    (if 0 <? len (Approval req) then Approver req else "")
    (if 0 <? len (Approval req) then Approval req else []) (UTC now).

(** The write to the durable log, where there is one. *)
Definition durable (p : Proxy) (e : audit.Entry) (creds : list export.CredentialRecord) (d : wal.disk)
  : Proxy * result unit :=
  match wal_ p with
  | None => (p, Ok tt)
  | Some w =>
      let '(w', r) := wal.Append w e creds d in
      (set_wal p (Some w'),
       wrap (fun err => Errorf "proxy: durable audit write failed, refusing action (fail-closed): %w" [AErr err]) r)
  end.

(** [decideAndAppend]: one critical section; [now] is the clock's reading and
    [d] the disk's answer, should they be asked. *)
Definition decideAndAppend (p : Proxy) (req : Request) (ch : chain.Chain) (now : time) (d : wal.disk)
  : Proxy * (audit.Entry * types.Decision + failure) :=
  let principals := chain.Principals ch in
  match evidenceFor p ch, last (elems (chain.Links ch)) with
  | Err e, _ => (p, inr (Failure e))
  | _, None => (p, inr (Failure (New "panic")))
  | Ok (newCreds, credIDs), Some l =>
      let terminal := chain.Credential_ l in
      let '(seq, prevHash) := audit.Tip (log p) in
      match credential.VerifyPossession terminal (PoP req) (Action req) seq prevHash with
      | Err e =>
          (p, inr (Unattributable (mkUnattributable "possession" (credential.Subject terminal) (Action req) seq e)))
      | Ok _ =>
          let dec := decide p req ch terminal seq prevHash in
          match wrap (fun e => Errorf "proxy: seal audit entry: %w" [AErr e])
                  (audit.Seal (log p) (draft p req ch credIDs dec now)) with
          | Err e => (p, inr (Failure e))
          | Ok entry =>
              let '(p, written) := durable p entry newCreds d in
              match written with
              | Err e => (p, inr (Failure e))
              | Ok _ =>
                  match wrap (fun e => Errorf "proxy: commit audit entry: %w" [AErr e]) (audit.Commit (log p) entry) with
                  | Err e => (p, inr (Failure e))
                  | Ok l' =>
                      let p := set_log p l' in
                      match add_all "proxy: record evidence: %w" (set p) newCreds with
                      | Err e => (p, inr (Failure e))
                      | Ok s => (set_set p s, inl (entry, dec))
                      end
                  end
              end
          end
      end
  end.

Definition Handle (p : Proxy) (req : Request) (now : time) (d : wal.disk) : Proxy * (Result + failure) :=
  match Chain req with
  | None => (p, inr (Failure (New "proxy: request has no delegation chain")))
  | Some ch =>
      if len (elems (chain.Links ch)) =? 0 then (p, inr (Failure (New "proxy: request has no delegation chain")))
      else
        match checkEvidenceSize req with
        | Err e => (p, inr (Failure e))
        | Ok _ =>
            match chain.Verify (dids p) ch with
            | Err e =>
                let ue := mkUnattributable "chain" (chain.Actor ch) (Action req) 0 e in
                (forwardUnattributable p now ue, inr (Unattributable ue))
            | Ok _ =>
                match decideAndAppend p req ch now d with
                | (p, inr (Unattributable ue)) => (forwardUnattributable p now ue, inr (Unattributable ue))
                | (p, inr e) => (p, inr e)
                | (p, inl (entry, dec)) => (forward p entry, inl (mkResult dec entry))
                end
            end
        end
  end.

(** ** Reading *)

Definition Export (p : Proxy) : result export.Export :=
  export.Build (enforcementPoint p) (audit.Entries (log p)) (set p) (carriedPolicy p).
(** [FlushSink], when [finished] of the outstanding writes end before its
    deadline: whether the sink drained. *)
Definition FlushSink (p : Proxy) (finished : nat) : Proxy * bool :=
  if sink p then
    let p' := set_flight p (drop finished (inFlight p)) (unattrInFlight p) in (p', len (inFlight p') =? 0)
  else (p, true).

Definition Entries (p : Proxy) : list audit.Entry := audit.Entries (log p).
Definition Tip (p : Proxy) : Z * bytes := audit.Tip (log p).
End Enforce.

(** ** What an allowed decision required *)

Section Decisions.
Context {CR : Crypto} {UT : UnicodeTables}.

(** The inputs of a verifier that reads what this proxy reads. *)
Definition inputs (p : Proxy) : verifier.Inputs := verifier.mkInputs (dids p) (status_ p).

Lemma hop_revoked_agrees p st c b :
  status_ p = Some st -> hop_revoked p st c = Ok b <-> verifier.hopRevoked c (inputs p) = Ok b.
Proof.
  intros Hs. unfold hop_revoked, verifier.hopRevoked, verifier.verifyList, inputs. cbn [verifier.Status verifier.DIDs].
  rewrite Hs. destruct (st _) as [l|e]; cbn [rbind]; [|done].
  destruct (did.ResolveKey _ _) as [k|e]; cbn [wrap rbind]; [|done].
  by destruct (status.Verify l _ k) as [[]|e].
Qed.

Definition hops_clear (p : Proxy) (st : verifier.StatusResolver) (links : list chain.Link) : Prop :=
  Forall (fun l => verifier.publishes l = true -> hop_revoked p st (chain.Credential_ l) = Ok false) links.

Lemma hops_revoked_None p st i checked links n :
  hops_revoked p st i checked links = Ok (None, n) <->
  hops_clear p st links /\ n = checked + len (List.filter verifier.publishes links).
Proof.
  revert i checked. induction links as [|l links IH]; intros i checked; cbn [hops_revoked List.filter].
  - split; [intros [= <-]; split; [constructor|unfold len; simpl; lia]|].
    intros [_ ->]. do 2 f_equal. unfold len. simpl. lia.
  - unfold hops_clear in *. rewrite Forall_cons. unfold verifier.publishes at 1 3.
    destruct (status.ListURL (credential.StatusRef (chain.Credential_ l)) =?s "") eqn:E; cbn [negb].
    + rewrite IH. naive_solver.
    + destruct (hop_revoked p st (chain.Credential_ l)) as [[]|e] eqn:Eh; cbn [rbind].
      * split; [done|]. intros [[Hc _] _]. by specialize (Hc eq_refl).
      * rewrite IH, len_cons. split; [intros [? ->]|intros [[_ ?] ->]]; split_and!; (done || lia).
      * split; [done|]. intros [[Hc _] _]. by specialize (Hc eq_refl).
Qed.

(** The conditions of an allow, in the order they are checked. *)
Definition permitted (p : Proxy) (req : Request) (links : list chain.Link) (terminal : credential.Credential)
  (seq : Z) (prevHash : bytes) (d : types.Decision) : Prop :=
  evaluate p (Action req) = (d, None) /\ types.Allowed d = true
  /\ macaroon.Satisfies (credential.Macaroon_ terminal) (verifier.action_context terminal (Action req)) = Ok tt
  /\ (types.Consequential d = true ->
      exists st, status_ p = Some st /\ hops_clear p st links
        /\ verifyApproval p req (credential.Subject terminal) seq prevHash = Ok tt).

Definition checked_decision (links : list chain.Link) (d : types.Decision) : types.Decision :=
  allow (if types.Consequential d then set_checked d (len (List.filter verifier.publishes links)) else d).

Lemma decide_allowed p req ch terminal seq prevHash :
  types.Allowed (decide p req ch terminal seq prevHash) = true ->
  exists d, permitted p req (elems (chain.Links ch)) terminal seq prevHash d
    /\ decide p req ch terminal seq prevHash = checked_decision (elems (chain.Links ch)) d.
Proof.
  unfold decide, permitted, checked_decision, anyHopRevoked. destruct (evaluate p (Action req)) as [d [e|]] eqn:Ee; [done|].
  destruct (types.Allowed d) eqn:Ea; simpl; [|congruence].
  destruct (macaroon.Satisfies _ _) as [[]|e] eqn:Es; [|done].
  destruct (types.Consequential d) eqn:Ec; simpl; [|intros _; exists d; rewrite Ec; by split_and!].
  destruct (status_ p) as [st|] eqn:Est; [|done].
  destruct (hops_revoked p st 0 0 _) as [[[w|] n]|e] eqn:Eh; [done| |done].
  apply hops_revoked_None in Eh as [Hc ->]. destruct (verifyApproval _ _ _ _ _) as [[]|e] eqn:Ev; [|done].
  intros _. exists d. rewrite Ec. split; [|done]. split_and!; [done..|]. intros _. by exists st.
Qed.

Lemma permitted_allows p req ch terminal seq prevHash d :
  permitted p req (elems (chain.Links ch)) terminal seq prevHash d ->
  decide p req ch terminal seq prevHash = checked_decision (elems (chain.Links ch)) d.
Proof.
  intros (He & Ha & Hs & Hc). unfold decide, checked_decision, anyHopRevoked. rewrite He, Ha. simpl. rewrite Hs.
  destruct (types.Consequential d); simpl; [|done]. destruct (Hc eq_refl) as (st & -> & Hh & Hv).
  rewrite (proj2 (hops_revoked_None p st 0 0 _ _) (conj Hh eq_refl)), Hv. done.
Qed.

(** C7: the composition of the gates: a decision allows exactly when the
    policy classifies the action without error and does not forbid it, the
    action is within the terminal credential's caveats, and, for a consequential
    action, a status source is configured, every hop that publishes a list is
    clear on a list signed by its own authority, and a human's approval of this
    action at this position verifies.  The allowed decision then carries the
    policy's classification and the number of lists checked. *)
Theorem decide_iff p req ch terminal seq prevHash :
  (types.Allowed (decide p req ch terminal seq prevHash) = true <->
   exists d, permitted p req (elems (chain.Links ch)) terminal seq prevHash d)
  /\ forall d, permitted p req (elems (chain.Links ch)) terminal seq prevHash d ->
     let dec := decide p req ch terminal seq prevHash in
     types.Consequential dec = types.Consequential d /\ types.RuleFired dec = types.RuleFired d
     /\ types.PolicyVersion dec = types.PolicyVersion d
     /\ (types.Consequential d = true ->
         types.StatusCheckedHops dec = len (List.filter verifier.publishes (elems (chain.Links ch)))).
Proof.
  split; [split|].
  - intros H. destruct (decide_allowed _ _ _ _ _ _ H) as (d & Hd & _). by exists d.
  - intros [d Hd]. by rewrite (permitted_allows _ _ _ _ _ _ _ Hd).
  - intros d Hd dec. unfold dec. rewrite (permitted_allows _ _ _ _ _ _ _ Hd). unfold checked_decision.
    destruct (types.Consequential d) eqn:E; simpl; split_and!; congruence.
Qed.
End Decisions.

(** ** One request, one entry *)

Section Requests.
Context {CR : Crypto} {UT : UnicodeTables}.

Definition addressed (r : export.CredentialRecord) : Prop :=
  export.CredentialID (export.Credential_ r) = Ok (export.CredentialID_ r).

Definition record_of (l : chain.Link) (id : string) : export.CredentialRecord :=
  export.mkRecord id (chain.Credential_ l) (chain.IssuerProof l).

Lemma evidence_from_Ok s i seen links creds ids :
  evidence_from s i seen links = Ok (creds, ids) ->
  Forall2 (fun l id => export.CredentialID (chain.Credential_ l) = Ok id) links ids
  /\ Forall (fun r => addressed r /\ exists l id, l ∈ links /\ r = record_of l id) creds
  /\ forall id, id ∈ ids -> export.Has s id = true \/ id ∈ seen \/ exists r, r ∈ creds /\ export.CredentialID_ r = id.
Proof.
  revert i seen creds ids. induction links as [|l links IH]; intros i seen creds ids H; cbn [evidence_from] in H.
  - apply Ok_inj in H. injection H as <- <-. split_and!; [constructor..|]. intros id Hid. by apply not_elem_of_nil in Hid.
  - gosimp H. destruct (negb (export.Has s a) && negb (bool_decide (a ∈ seen))) eqn:E; gosimp H; destruct a0 as [cs xs];
      apply Ok_inj in H; injection H as <- <-; apply IH in Ha0 as (Hf & Hc & Hin); simpl.
    + split_and!; [by constructor| |].
      * constructor; [split; [done|exists l, a; split; [apply list_elem_of_here|done]]|].
        eapply Forall_impl; [exact Hc|]. intros r (? & l' & id & ? & ?). split; [done|]. exists l', id.
        split; [by apply list_elem_of_further|done].
      * intros id [->|Hid]%elem_of_cons.
        -- right; right. exists (record_of l a). split; [apply list_elem_of_here|done].
        -- destruct (Hin id Hid) as [?|[Hs|(r & ? & ?)]]; [by left| |].
           ++ apply elem_of_union in Hs as [->%elem_of_singleton|?]; [|by right; left].
              right; right. exists (record_of l a). split; [apply list_elem_of_here|done].
           ++ right; right. exists r. split; [by apply list_elem_of_further|done].
    + split_and!; [by constructor| |].
      * eapply Forall_impl; [exact Hc|]. intros r (? & l' & id & ? & ?). split; [done|]. exists l', id.
        split; [by apply list_elem_of_further|done].
      * intros id [->|Hid]%elem_of_cons; [|by apply Hin].
        apply andb_false_iff in E as [E|E]; apply negb_false_iff in E; [by left|].
        right; left. by apply bool_decide_eq_true in E.
Qed.

(** Adding addressed records succeeds, keeps what was there, and stores each id. *)
Lemma add_all_Ok msg s l :
  Forall addressed l ->
  exists s', add_all msg s l = Ok s' /\ s ⊆ s'
    /\ (forall r, r ∈ l -> export.Has s' (export.CredentialID_ r) = true)
    /\ forall id r, s' !! id = Some r ->
         s !! id = Some r \/ exists r', r' ∈ l /\ id = export.CredentialID_ r'
           /\ r = export.mkRecord id (export.Credential_ r') (export.IssuerProof r').
Proof.
  revert s. induction l as [|cr l IH]; intros s H; cbn [add_all].
  - exists s. split_and!; [done..| |by left]. intros r Hr. by apply not_elem_of_nil in Hr.
  - apply Forall_cons in H as [Ha Hl]. unfold addressed in Ha. unfold export.Add. rewrite Ha. cbn [wrap rbind fst].
    set (s1 := if export.Has s (export.CredentialID_ cr) then s else _).
    destruct (IH s1 Hl) as (s' & E & Hsub & Hhas & Hin).
    assert (Hs1 : s ⊆ s1 /\ export.Has s1 (export.CredentialID_ cr) = true).
    { unfold s1. destruct (export.Has s (export.CredentialID_ cr)) eqn:Eh; [done|]. split.
      - apply insert_subseteq. apply bool_decide_eq_false in Eh. by apply eq_None_not_Some.
      - apply bool_decide_eq_true. eexists. apply lookup_insert_eq. }
    destruct Hs1 as [Hs1 Hh1]. exists s'. split_and!; [done|by transitivity s1| |].
    + intros r [->|Hr]%elem_of_cons; [|by apply Hhas].
      apply bool_decide_eq_true in Hh1 as [x Hx]. apply bool_decide_eq_true. exists x. by eapply lookup_weaken.
    + intros id r Hr. destruct (Hin id r Hr) as [Hr1|(r' & ? & ?)].
      * unfold s1 in Hr1. destruct (export.Has s (export.CredentialID_ cr)); [by left|].
        apply (lookup_insert_Some (M := gmap string)) in Hr1 as [[<- <-]|[_ Hr1]]; [|by left].
        right. exists cr. split; [apply list_elem_of_here|done].
      * right. exists r'. split; [by apply list_elem_of_further|done].
Qed.

Lemma durable_shape p e creds d : exists w, (durable p e creds d).1 = set_wal p w.
Proof.
  unfold durable. destruct p as [ep ev cp pid r st l s sk fl ufl [w|]]; simpl.
  - destruct (wal.Append w e creds d) as [w' res]. simpl. by eexists.
  - by exists None.
Qed.

(** The durable log after a request that is refused: as it was, or with what
    a failing write left of a sealed entry. *)
Definition wal_after (p : Proxy) (d : wal.disk) (w : option wal.WAL) : Prop :=
  w = wal_ p
  \/ exists w0 r e creds w' err, wal_ p = Some w0 /\ audit.Seal (log p) r = Ok e
     /\ wal.Append w0 e creds d = (w', Err err) /\ w = Some w'.

Lemma wal_after_OK p w : wal_after p wal.DiskOK w -> w = wal_ p.
Proof.
  intros [?|(w0 & r & e & creds & w' & err & Hw & _ & Ha & ->)]; [done|].
  rewrite Hw. by apply wal.Append_fails in Ha as ->.
Qed.

Lemma durable_fails p r e creds d p1 err :
  audit.Seal (log p) r = Ok e -> durable p e creds d = (p1, Err err) -> exists w, p1 = set_wal p w /\ wal_after p d w.
Proof.
  intros Hs. unfold durable. destruct (wal_ p) as [w|] eqn:Ew; [|done].
  destruct (wal.Append w e creds d) as [w' res] eqn:Ea. intros [= <- Hr]. exists (Some w'). split; [done|].
  right. destruct res as [|err']; [done|]. by exists w, r, e, creds, w', err'.
Qed.

(** The position the next entry takes. *)
Definition next_seq (p : Proxy) : Z := len (audit.entries (log p)).
Definition next_prev (p : Proxy) : bytes := audit.last_hash audit.GenesisHash (audit.entries (log p)).

(** The facts behind a request that was decided. *)
Definition decided (p : Proxy) (req : Request) (ch : chain.Chain) (now : time) (d : wal.disk)
  (p' : Proxy) (e : audit.Entry) (dec : types.Decision) : Prop :=
  exists creds ids l s,
    evidenceFor p ch = Ok (creds, ids) /\ last (elems (chain.Links ch)) = Some l
    /\ credential.VerifyPossession (chain.Credential_ l) (PoP req) (Action req) (next_seq p) (next_prev p) = Ok tt
    /\ dec = decide p req ch (chain.Credential_ l) (next_seq p) (next_prev p)
    /\ audit.Seal (log p) (draft p req ch ids dec now) = Ok e
    /\ (durable p e creds d).2 = Ok tt /\ add_all "proxy: record evidence: %w" (set p) creds = Ok s
    /\ p' = set_set (set_log (durable p e creds d).1
                       (audit.mkLog (audit.log_signer (log p)) (audit.entries (log p) ++ [e]))) s.

Lemma commit_sealed p r e w :
  audit.Seal (log p) r = Ok e ->
  audit.Commit (log (set_wal p w)) e = Ok (audit.mkLog (audit.log_signer (log p)) (audit.entries (log p) ++ [e])).
Proof. intros (_ & Hs & Hp & _)%audit.Seal_Ok. by apply audit.Commit_Ok. Qed.

Lemma decideAndAppend_cases p req ch now d :
  let '(p', r) := decideAndAppend p req ch now d in
  match r with
  | inl (e, dec) => decided p req ch now d p' e dec
  | inr _ => exists w, p' = set_wal p w /\ wal_after p d w
  end.
Proof.
  assert (Hid : exists w, p = set_wal p w /\ wal_after p d w) by (exists (wal_ p); split; [by destruct p|by left]).
  unfold decideAndAppend. rewrite audit.Tip_last_hash. fold (next_seq p) (next_prev p).
  destruct (evidenceFor p ch) as [[creds ids]|err] eqn:Ee; [|done].
  destruct (last (elems (chain.Links ch))) as [l|] eqn:El; [|done].
  destruct (credential.VerifyPossession _ _ _ _ _) as [[]|err] eqn:Ep; [|done].
  set (dec := decide p req ch (chain.Credential_ l) (next_seq p) (next_prev p)).
  destruct (audit.Seal (log p) (draft p req ch ids dec now)) as [e|err] eqn:Es; cbn [wrap]; [|done].
  destruct (durable_shape p e creds d) as [w Hw]. destruct (durable p e creds d) as [pw res] eqn:Ed.
  simpl in Hw. destruct res as [[]|err]; [subst pw|by eapply durable_fails].
  rewrite (commit_sealed _ _ _ w Es). cbn [wrap].
  pose proof (evidence_from_Ok _ _ _ _ _ _ Ee) as (_ & Hadd & _).
  assert (Hadd' : Forall addressed creds) by (eapply Forall_impl; [exact Hadd|]; by intros r [? _]).
  destruct (add_all_Ok "proxy: record evidence: %w" (set p) creds Hadd') as (s & Hs & _).
  cbn [set set_log set_wal]. rewrite Hs. exists creds, ids, l, s. rewrite Ed. by split_and!.
Qed.

(** [Handle], as its two outcomes. *)
Lemma Handle_cases p req now d :
  let '(p', r) := Handle p req now d in
  match r with
  | inl r =>
      exists ch p1, Chain req = Some ch /\ checkEvidenceSize req = Ok tt /\ chain.Verify (dids p) ch = Ok tt
        /\ decided p req ch now d p1 (Entry r) (Decision r) /\ p' = forward p1 (Entry r)
  | inr f =>
      exists w, wal_after p d w
        /\ (p' = set_wal p w \/ exists u, f = Unattributable u /\ p' = forwardUnattributable (set_wal p w) now u)
  end.
Proof.
  assert (Hid : p = set_wal p (wal_ p)) by by destruct p.
  assert (Hw : wal_after p d (wal_ p)) by by left.
  unfold Handle. destruct (Chain req) as [ch|]; [|exists (wal_ p); split; [done|by left]].
  destruct (len (elems (chain.Links ch)) =? 0); [exists (wal_ p); split; [done|by left]|].
  destruct (checkEvidenceSize req) as [[]|err]; [|exists (wal_ p); split; [done|by left]].
  destruct (chain.Verify (dids p) ch) as [[]|err] eqn:Ev;
    [|exists (wal_ p); split; [done|]; right; eexists; by rewrite <- Hid].
  pose proof (decideAndAppend_cases p req ch now d) as H.
  destruct (decideAndAppend p req ch now d) as [p1 [[e dec]|[u|err]]].
  - exists ch, p1. by split_and!.
  - destruct H as (w & -> & Hwa). exists w. split; [done|]. right. by exists u.
  - destruct H as (w & -> & Hwa). exists w. split; [done|by left].
Qed.

Lemma forward_log p e : log (forward p e) = log p /\ set (forward p e) = set p /\ wal_ (forward p e) = wal_ p.
Proof. unfold forward. by destruct (sink p). Qed.
Lemma forwardUnattributable_log p now u :
  log (forwardUnattributable p now u) = log p /\ set (forwardUnattributable p now u) = set p
  /\ wal_ (forwardUnattributable p now u) = wal_ p.
Proof. unfold forwardUnattributable. by destruct (sink p). Qed.

(** The entry of a decided request, field by field. *)
Lemma decided_entry p req ch now d p1 e dec :
  decided p req ch now d p1 e dec ->
  audit.Seq e = next_seq p /\ elems (audit.PrevHash e) = next_prev p /\ audit.Action e = Action req
  /\ audit.ResolvedChain e = chain.Principals ch /\ audit.Decision e = dec /\ audit.PolicyID e = policyID p
  /\ audit.PoPNonce e = elems (credential.Nonce (PoP req))
  /\ audit.PoPSignature e = elems (credential.Pop_Signature (PoP req))
  /\ audit.ApprovedBy e = (if 0 <? len (Approval req) then Approver req else ""%string)
  /\ audit.Approval e = Approval req
  /\ audit.entries (log p1) = audit.entries (log p) ++ [e].
Proof.
  intros (creds & ids & l & s & _ & _ & _ & -> & Hs & _ & _ & ->).
  apply audit.Seal_Ok in Hs as (Hu & Hseq & Hp & _). unfold audit.unsealed, audit.of_draft, draft in Hu.
  injection Hu. intros. split_and!; try done.
  destruct (Z.ltb_spec 0 (len (Approval req))) as [|Hle]; [done|].
  assert (E : Approval req = []) by (apply len_zero; pose proof (len_nonneg (Approval req)); lia).
  match goal with HA : audit.Approval e = _ |- _ => by rewrite HA, E end.
Qed.

(** C8: every request either is decided, and then exactly one entry is added, at
    the position the caller's proof was checked against, for a chain that
    verified and a holder who proved possession, recording the action, the
    principals and the very decision that is returned; or it is refused, and
    then neither the log nor the evidence changes. *)
Theorem handle_one_entry p req now d :
  let '(p', r) := Handle p req now d in
  match r with
  | inl r =>
      Entries p' = Entries p ++ [Entry r] /\ audit.Decision (Entry r) = Decision r
      /\ (audit.Seq (Entry r), elems (audit.PrevHash (Entry r))) = Tip p /\ audit.Action (Entry r) = Action req
      /\ exists ch l, Chain req = Some ch /\ chain.Verify (dids p) ch = Ok tt /\ last (elems (chain.Links ch)) = Some l
         /\ audit.ResolvedChain (Entry r) = chain.Principals ch
         /\ credential.VerifyPossession (chain.Credential_ l) (PoP req) (Action req) (Tip p).1 (Tip p).2 = Ok tt
         /\ Decision r = decide p req ch (chain.Credential_ l) (Tip p).1 (Tip p).2
  | inr _ => Entries p' = Entries p /\ set p' = set p
  end.
Proof.
  pose proof (Handle_cases p req now d) as H. destruct (Handle p req now d) as [p' [r|f]].
  - destruct H as (ch & p1 & Hc & _ & Hv & Hd & ->). destruct (decided_entry _ _ _ _ _ _ _ _ Hd) as
      (Es & Ep & Ea & Er & Edec & _ & _ & _ & _ & _ & Hl). destruct Hd as (creds & ids & l & s & _ & Hl' & Hp & Hdec & _).
    unfold Entries, audit.Entries, Tip. rewrite audit.Tip_last_hash. destruct (forward_log p1 (Entry r)) as (-> & _).
    split_and!; try done; [by rewrite Es, Ep|]. exists ch, l. by split_and!.
  - destruct H as (w & _ & [->|(u & _ & ->)]); [done|]. unfold Entries.
    destruct (forwardUnattributable_log (set_wal p w) now u) as (-> & -> & _). done.
Qed.

(** C9: log before act: when a durable log is configured, a decision is
    returned only if the log was open and the disk accepted and synced the
    write, and the file then ends in the whole record of that entry together
    with every piece of evidence the proxy did not have before. *)
Theorem log_before_act p req now d p' r w :
  Handle p req now d = (p', inl r) -> wal_ p = Some w ->
  wal.open w = true /\ d = wal.DiskOK
  /\ exists creds line, wal.line (wal.mkWalRecord (Entry r) creds) = Ok line
     /\ wal_ p' = Some (wal.written w line)
     /\ forall id c, set p' !! id = Some c -> set p !! id = Some c \/ c ∈ creds.
Proof.
  intros H Hw. pose proof (Handle_cases p req now d) as Hc. rewrite H in Hc.
  destruct Hc as (ch & p1 & _ & _ & _ & (creds & ids & l & s & He & _ & _ & _ & _ & Hd & Hs & ->) & ->).
  unfold durable in *. rewrite Hw in Hd |- *. destruct (wal.Append w (Entry r) creds d) as [w' res] eqn:Ea.
  cbn [snd] in Hd. apply wrap_Ok in Hd. subst res. apply wal.Append_Ok in Ea as (Ho & -> & line & Hl & ->).
  split_and!; [done..|]. exists creds, line. split; [done|].
  match goal with |- context [forward ?q ?e] => destruct (forward_log q e) as (_ & -> & ->) end.
  split; [done|]. intros id c Hid. cbn [set set_set] in Hid.
  pose proof (evidence_from_Ok _ _ _ _ _ _ He) as (_ & Hadd & _).
  destruct (add_all_Ok "proxy: record evidence: %w" (set p) creds) as (s' & Hs' & _ & _ & Hin).
  { eapply Forall_impl; [exact Hadd|]. by intros x [? _]. }
  rewrite Hs in Hs'. apply Ok_inj in Hs'. subst s'. apply Hin in Hid as [?|(r' & Hr' & -> & ->)]; [by left|].
  right. by destruct r'.
Qed.
(** A request over a verified chain, with a proof of possession for the
    proxy's tip, is never unattributable. *)
Lemma attributable p req now d p' u ch l :
  Chain req = Some ch -> chain.Verify (dids p) ch = Ok tt -> last (elems (chain.Links ch)) = Some l ->
  credential.VerifyPossession (chain.Credential_ l) (PoP req) (Action req) (Tip p).1 (Tip p).2 = Ok tt ->
  Handle p req now d <> (p', inr (Unattributable u)).
Proof.
  intros Hc Hv Hl Hp H. unfold Handle in H. rewrite Hc, Hv in H. destruct (_ =? 0); [done|].
  destruct (checkEvidenceSize req) as [[]|e]; [|done].
  unfold decideAndAppend in H. unfold Tip in Hp. destruct (audit.Tip (log p)) as [seq prev]. cbn [fst snd] in Hp.
  rewrite Hl, Hp in H. destruct (evidenceFor p ch) as [[creds ids]|e]; [|done].
  destruct (wrap _ (audit.Seal _ _)) as [e|e]; [|done]. destruct (durable p e creds d) as [q [[]|e']]; [|done].
  destruct (wrap _ (audit.Commit _ _)) as [l'|e']; [|done]. destruct (add_all _ _ _) as [s|e']; [|done]. done.
Qed.

(** What a handled request says of the entry it left. *)
Lemma handled_entry p req now d :
  let '(p', r) := Handle p req now d in
  match r with
  | inl res =>
      Entries p' = Entries p ++ [Entry res] /\ audit.Action (Entry res) = Action req
      /\ audit.entryHash (Entry res) = Ok (audit.EntryHash (Entry res))
      /\ exists ch l, Chain req = Some ch /\ last (elems (chain.Links ch)) = Some l
           /\ audit.ResolvedChain (Entry res) = chain.Principals ch
           /\ credential.VerifyPossession (chain.Credential_ l) (PoP req) (Action req) (Tip p).1 (Tip p).2 = Ok tt
  | inr _ => Entries p' = Entries p
  end.
Proof.
  pose proof (Handle_cases p req now d) as H. destruct (Handle p req now d) as [p' [r|fl]].
  - destruct H as (ch & p1 & Hc & _ & _ & Hd & ->).
    destruct (decided_entry _ _ _ _ _ _ _ _ Hd) as (_ & _ & Ha & Hr & _ & _ & _ & _ & _ & _ & Hl).
    destruct Hd as (creds & ids & l & s & _ & Hlast & Hp & _ & (_ & _ & _ & Hh & _)%audit.Seal_Ok & _).
    unfold Entries, audit.Entries, Tip. rewrite audit.Tip_last_hash. destruct (forward_log p1 (Entry r)) as (-> & _).
    split_and!; [done..|]. by exists ch, l.
  - destruct H as (w & _ & [->|(u & _ & ->)]); [done|]. unfold Entries.
    by destruct (forwardUnattributable_log (set_wal p w) now u) as (-> & _).
Qed.
End Requests.

(** ** The sink is off the path *)

Section Sink.
Context {CR : Crypto} {UT : UnicodeTables}.

Definition sink_bounded (p : Proxy) : Prop :=
  len (inFlight p) <= sinkMaxInFlight /\ len (unattrInFlight p) <= sinkMaxInFlight.

(** Everything but the sink's own state. *)
Definition same_core (p q : Proxy) : Prop := exists b l u,
  q = mkProxy (enforcementPoint p) (evaluator p) (carriedPolicy p) (policyID p) (dids p) (status_ p) (log p) (set p)
        b l u (wal_ p).

Lemma same_core_eq p q :
  same_core p q ->
  enforcementPoint q = enforcementPoint p /\ evaluator q = evaluator p /\ carriedPolicy q = carriedPolicy p
  /\ policyID q = policyID p /\ dids q = dids p /\ status_ q = status_ p /\ log q = log p /\ set q = set p
  /\ wal_ q = wal_ p.
Proof. by intros (b & l & u & ->). Qed.

Lemma same_core_flight p q l u : same_core p q -> same_core p (set_flight q l u).
Proof. intros (b & l' & u' & ->). by exists b, l, u. Qed.
Lemma same_core_forward p q e : same_core p q -> same_core p (forward q e).
Proof. unfold forward. intros H. destruct (sink q); [by apply same_core_flight|done]. Qed.
Lemma same_core_unattr p q now u : same_core p q -> same_core p (forwardUnattributable q now u).
Proof. unfold forwardUnattributable. intros H. destruct (sink q); [by apply same_core_flight|done]. Qed.
Lemma same_core_sym p q : same_core p q -> same_core q p.
Proof. intros (b & l & u & ->). destruct p. by eexists _, _, _. Qed.
Lemma same_core_trans p q r : same_core p q -> same_core q r -> same_core p r.
Proof. intros (b & l & u & ->) (b' & l' & u' & ->). by exists b', l', u'. Qed.
Lemma same_core_refl p : same_core p p.
Proof. exists (sink p), (inFlight p), (unattrInFlight p). by destruct p. Qed.

Lemma hops_revoked_core p q st i n links : same_core p q -> hops_revoked q st i n links = hops_revoked p st i n links.
Proof.
  intros H. destruct (same_core_eq _ _ H) as (_ & _ & _ & _ & Hd & _).
  assert (Hh : forall c, hop_revoked q st c = hop_revoked p st c) by (intros c; unfold hop_revoked; by rewrite Hd).
  revert i n. induction links as [|x links IH]; intros i n; simpl; [done|].
  destruct (_ =?s _); [by rewrite IH|]. rewrite Hh. destruct (hop_revoked _ _ _) as [[]|]; simpl; [done|by rewrite IH|done].
Qed.

Lemma decide_core p q req ch l seq prev : same_core p q -> decide q req ch l seq prev = decide p req ch l seq prev.
Proof.
  intros H. assert (Hh : forall st, hops_revoked q st 0 0 (elems (chain.Links ch)) = hops_revoked p st 0 0 (elems (chain.Links ch)))
    by (intros; by apply hops_revoked_core).
  destruct (same_core_eq _ _ H) as (_ & He & _ & _ & Hd & Hst & _).
  unfold decide, evaluate, anyHopRevoked, verifyApproval. rewrite He, Hst, Hd.
  destruct (status_ p) as [st|]; [by rewrite Hh|done].
Qed.

Lemma decideAndAppend_core p q req ch now d :
  same_core p q ->
  (decideAndAppend q req ch now d).2 = (decideAndAppend p req ch now d).2
  /\ same_core (decideAndAppend p req ch now d).1 (decideAndAppend q req ch now d).1.
Proof.
  intros H. assert (Hdec : forall l seq prev, decide q req ch l seq prev = decide p req ch l seq prev)
    by (intros; by apply decide_core).
  destruct H as (b & l & u & Hq). unfold decideAndAppend, evidenceFor, durable, draft.
  assert (Hp : log q = log p /\ set q = set p /\ wal_ q = wal_ p /\ policyID q = policyID p) by by subst q.
  destruct Hp as (-> & -> & -> & ->).
  destruct (evidence_from _ _ _ _) as [[creds ids]|err]; [|split; [done|by exists b, l, u]].
  destruct (last _) as [lk|]; [|split; [done|by exists b, l, u]].
  destruct (audit.Tip (log p)) as [seq prev].
  destruct (credential.VerifyPossession _ _ _ _ _) as [[]|err]; [|split; [done|by exists b, l, u]].
  rewrite Hdec. subst q.
  destruct (audit.Seal _ _) as [e|err]; cbn [wrap]; [|split; [done|by exists b, l, u]].
  destruct (wal_ p) as [w|] eqn:Ew.
  - destruct (wal.Append w e creds d) as [w' [[]|err]]; cbn [wrap]; [|split; [done|by exists b, l, u]].
    cbn [log set_wal]. destruct (audit.Commit _ _) as [lg|err]; cbn [wrap]; [|split; [done|by exists b, l, u]].
    cbn [set set_log set_wal]. destruct (add_all _ _ _) as [s|err]; split; try done; by exists b, l, u.
  - destruct (audit.Commit _ _) as [lg|err]; cbn [wrap]; [|split; [done|exists b, l, u; simpl; by rewrite Ew]].
    cbn [set set_log]. destruct (add_all _ _ _) as [s|err]; split; try done; exists b, l, u; unfold set_set, set_log; simpl; by rewrite Ew.
Qed.

Lemma Handle_core p q req now d :
  same_core p q -> (Handle q req now d).2 = (Handle p req now d).2 /\ same_core (Handle p req now d).1 (Handle q req now d).1.
Proof.
  intros H. destruct (same_core_eq _ _ H) as (_ & _ & _ & _ & Hd & _). unfold Handle. rewrite Hd.
  destruct (Chain req) as [ch|]; [|done]. destruct (_ =? 0); [done|].
  destruct (checkEvidenceSize req) as [[]|err]; [|done].
  destruct (chain.Verify _ _) as [[]|err].
  - destruct (decideAndAppend_core p q req ch now d H) as [Hr Hs].
    destruct (decideAndAppend p req ch now d) as [p1 r], (decideAndAppend q req ch now d) as [q1 r1]. simpl in Hr, Hs. subst r1.
    destruct r as [[e dec]|[u|err]]; simpl; split; try done;
      (apply same_core_sym; first [apply same_core_forward|apply same_core_unattr];
       apply same_core_sym; first [apply same_core_forward|apply same_core_unattr]; done).
  - simpl. split; [done|]. apply same_core_sym, same_core_unattr, same_core_sym, same_core_unattr, H.
Qed.

Lemma dispatch_bound slots rec : len slots <= sinkMaxInFlight -> len (dispatch slots rec) <= sinkMaxInFlight.
Proof.
  unfold dispatch. destruct (Z.ltb_spec (len slots) sinkMaxInFlight); [|done]. rewrite len_app.
  change (len [rec]) with 1. lia.
Qed.

(** a sink cannot affect enforcement: whatever sink is configured and
    however many of its writes are outstanding, a request gets the same answer
    and leaves the same log, evidence and durable file; and no more than 64
    writes of either kind are ever outstanding. *)
Theorem sink_isolated p q req now d :
  same_core p q ->
  let hp := Handle p req now d in
  let hq := Handle q req now d in
  hq.2 = hp.2 /\ log hq.1 = log hp.1 /\ set hq.1 = set hp.1 /\ wal_ hq.1 = wal_ hp.1
  /\ (sink_bounded p -> sink_bounded hp.1).
Proof.
  intros H hp hq. destruct (Handle_core p q req now d H) as [Hr Hs]. apply same_core_eq in Hs.
  split_and!; try (done || apply Hs). intros [B1 B2]. subst hp. pose proof (Handle_cases p req now d) as Hc.
  assert (F : forall p1 e, sink_bounded p1 -> sink_bounded (forward p1 e)).
  { intros p1 e [? ?]. unfold forward. destruct (sink p1); [|done]. split; [by apply dispatch_bound|done]. }
  assert (G : forall p1 u, sink_bounded p1 -> sink_bounded (forwardUnattributable p1 now u)).
  { intros p1 u [? ?]. unfold forwardUnattributable. destruct (sink p1); [|done]. split; [done|by apply dispatch_bound]. }
  destruct (Handle p req now d) as [p' [r|f]]; simpl.
  - destruct Hc as (ch & p1 & _ & _ & _ & (creds & ids & l & s & _ & _ & _ & _ & _ & _ & _ & ->) & ->). apply F.
    destruct (durable_shape p (Entry r) creds d) as [w ->]. by split.
  - destruct Hc as (w & _ & [->|(u & _ & ->)]); [|apply G]; by split.
Qed.

(** what a sink receives mirrors the entry: position, time, actor, action,
    verdict and hash are those of the sealed entry; the outcome is left empty,
    and only refused attempts name one. *)
Theorem forwarded_record p req now d p' r :
  Handle p req now d = (p', inl r) -> sink p = true -> len (inFlight p) < sinkMaxInFlight ->
  exists rec, inFlight p' = inFlight p ++ [rec] /\ unattrInFlight p' = unattrInFlight p
    /\ auditsink.Seq rec = audit.Seq (Entry r) /\ auditsink.EntryHash rec = Some (audit.EntryHash (Entry r))
    /\ auditsink.Timestamp rec = UTC now /\ auditsink.Allowed rec = types.Allowed (Decision r)
    /\ auditsink.Reason rec = types.Reason (Decision r)
    /\ (exists ch, Chain req = Some ch /\ auditsink.Actor rec = chain.Actor ch)
    /\ auditsink.Outcome rec = ""%string /\ auditsink.Outcome rec <> auditsink.OutcomeRecorded.
Proof.
  intros H Hs Hb. pose proof (Handle_cases p req now d) as Hc. rewrite H in Hc.
  destruct Hc as (ch & p1 & Hch & _ & Hv & Hd & ->). pose proof (decided_entry _ _ _ _ _ _ _ _ Hd) as
    (_ & _ & _ & Er & Edec & _). destruct Hd as (creds & ids & l & s & _ & _ & _ & _ & Hseal & _ & _ & ->).
  destruct (durable_shape p (Entry r) creds d) as [w ->]. unfold forward. cbn [sink set_set set_log set_wal]. rewrite Hs.
  cbn [inFlight unattrInFlight set_flight set_set set_log set_wal]. unfold dispatch.
  apply Z.ltb_lt in Hb. rewrite Hb. exists (auditRecord (Entry r)).
  apply audit.Seal_Ok in Hseal as (Hu & _). unfold audit.unsealed, audit.of_draft, draft in Hu.
  apply (f_equal audit.Timestamp) in Hu. simpl in Hu.
  unfold auditRecord. simpl. split_and!; try done; [by rewrite Edec|by rewrite Edec|].
  exists ch. split; [done|]. rewrite Er.
  assert (exists ps, chain.Principals ch = Some ps) as [ps Hps].
  { unfold chain.Principals. apply chain.chain_Ok in Hv as (Hne & _). destruct (elems (chain.Links ch)); [done|by eexists]. }
  rewrite Hps. destruct (chain.Principals_ends _ _ _ Hv Hps) as [_ Hl].
  exact (f_equal (fun o : option string => match o with Some d => d | None => EmptyString end) Hl).
Qed.
End Sink.

(** ** A concrete proxy *)

#[local] Existing Instance verifier.accepting.
#[local] Existing Instance verifier.ascii_tables.

Definition test_config (w : option wal.WAL) : Config :=
  mkConfig (Some verifier.test_proxy) (Some (PolicyEvaluator export.test_policy)) (Some chain.test_resolver)
    (verifier.Status verifier.test_inputs) true w.
Definition test_state (w : option wal.WAL) : Proxy :=
  mkProxy verifier.test_proxy (PolicyEvaluator export.test_policy) (Some export.test_policy) export.test_pid
    chain.test_resolver (verifier.Status verifier.test_inputs) (audit.NewLog verifier.test_proxy) ∅ true [] [] w.
Lemma test_state_new w : wal.recovered w = [] -> NewProxy (test_config (Some w)) = Ok (test_state (Some w)).
Proof. intros H. unfold NewProxy. cbn [EnforcementPoint Policy DIDs test_config]. rewrite export.test_pid_Ok.
  cbn [wrap rbind fst snd WAL Status Sink]. unfold recoverFrom, wal.Recovered. simpl. by rewrite H. Qed.

Definition test_pop : credential.PoP := credential.mkPoP (Some [Byte.x2a]) (Some [Byte.x02]).
Definition test_request : Request :=
  mkRequest (Some chain.test_chain1) verifier.test_action test_pop chain.org [Byte.x01].
Definition test_now : time := mkTime 1700000000 0 0.
Definition test_wal : wal.WAL := wal.mkWAL [] true [].

Definition test_answer : Result := mkResult (audit.Decision verifier.test_entry) verifier.test_entry.
Definition test_after : Proxy := (Handle (test_state (Some test_wal)) test_request test_now wal.DiskOK).1.
Lemma test_handled : (Handle (test_state (Some test_wal)) test_request test_now wal.DiskOK).2 = inl test_answer.
Proof. vm_compute. reflexivity. Qed.
Lemma test_handled_pair :
  Handle (test_state (Some test_wal)) test_request test_now wal.DiskOK = (test_after, inl test_answer).
Proof. rewrite <- test_handled. unfold test_after. by destruct (Handle _ _ _ _). Qed.

Lemma decide_iff_witness :
  types.Consequential (decide (test_state None) test_request chain.test_chain1 (chain.Credential_ chain.link1) 0 audit.GenesisHash)
  = true.
Proof.
  apply (decide_iff (test_state None) test_request chain.test_chain1 (chain.Credential_ chain.link1) 0 audit.GenesisHash)
    with (d := types.mkDecision true true "default" "v1" 0 "gated").
  split_and!; [vm_compute; reflexivity|reflexivity|vm_compute; reflexivity|].
  intros _. eexists. split_and!; [reflexivity| |vm_compute; reflexivity].
  constructor; [|constructor]. intros _. vm_compute. reflexivity.
Defined.

Lemma log_before_act_witness :
  exists creds line, wal.line (wal.mkWalRecord verifier.test_entry creds) = Ok line
    /\ wal_ test_after = Some (wal.written test_wal line).
Proof.
  destruct (log_before_act (test_state (Some test_wal)) test_request test_now wal.DiskOK test_after test_answer test_wal)
    as (_ & _ & creds & line & Hl & Hw & _); [exact test_handled_pair|reflexivity|].
  exists creds, line. exact (conj Hl Hw).
Defined.

Lemma sink_isolated_witness :
  let q := set_flight (test_state (Some test_wal)) (repeat (auditRecord verifier.test_entry) 64) [] in
  (Handle q test_request test_now wal.DiskOK).2 = (Handle (test_state (Some test_wal)) test_request test_now wal.DiskOK).2
  /\ sink_bounded test_after.
Proof.
  intros q. destruct (sink_isolated (test_state (Some test_wal)) q test_request test_now wal.DiskOK)
    as (Hr & _ & _ & _ & Hb); [by eexists _, _, _|].
  split; [exact Hr|]. apply Hb. by split.
Defined.

Lemma forwarded_record_witness : exists rec, inFlight test_after = [rec] /\ auditsink.Seq rec = 0.
Proof.
  destruct (forwarded_record (test_state (Some test_wal)) test_request test_now wal.DiskOK test_after test_answer)
    as (rec & Hf & _ & Hs & _); [exact test_handled_pair|reflexivity|reflexivity|].
  exists rec. exact (conj Hf Hs).
Defined.

End enforce.
