(* ===== verification/Opaeval.v ===== *)
(** experimental/policy-opa: a policy compiled to a Rego module, and the
    evaluator that asks an Open Policy Agent engine about it.

    Module [opaeval] has the translation (compile.go), whose result is the text
    of the module, and the evaluator around it (opaeval.go).  The engine itself is
    a third-party library: preparing a module and evaluating it are parameters,
    and no theorem assumes what Rego means.  The theorems are about what Kessa
    owns: which policies compile, that a module has lost nothing of its policy,
    and that whatever the engine answers the enforcement point fails closed. *)
From S2P Require Import Prelude GoFmt GoTime GoCrypto GoJson GoJsonInj Types Policy Chain AuditLog Verifier Wal Texts Enforce.

Module opaeval.

(** ** strings.Fields *)

Fixpoint fields_scan (fuel : nat) (word b : bytes) : list bytes :=
  match fuel with
  | O => []
  | S fuel =>
      match first_strip space_encodings b with
      | Some r => (if bool_decide (word = []) then [] else [word]) ++ fields_scan fuel [] r
      | None =>
          match b with
          | [] => if bool_decide (word = []) then [] else [word]
          | c :: b => fields_scan fuel (word ++ [c]) b
          end
      end
  end.
Definition Fields (s : string) : list string := map b2s (fields_scan (S (length (s2b s))) [] (s2b s)).

(** ** The texts of a module *)

Definition nl : bytes := [Byte.x0a].
Definition tab : bytes := [Byte.x09].
(** A line under [n] tabs. *)
Definition ln (n : nat) (s : string) : bytes := repeat Byte.x09 n ++ s2b s ++ nl.

(** [strings.Join] *)
Fixpoint joined (sep : bytes) (l : list bytes) : bytes :=
  match l with
  | [] => []
  | [x] => x
  | x :: l => x ++ sep ++ joined sep l
  end.

(** A loop over indexed elements that collects texts and stops at the first error. *)
Fixpoint each {A} (f : Z -> A -> result bytes) (i : Z) (l : list A) : result (list bytes) :=
  match l with
  | [] => Ok []
  | x :: l => let! t := f i x in let! ts := each f (i + 1) l in Ok (t :: ts)
  end.

Definition regoPackage : string := "kessa.policy".
Definition decisionQuery : string := "data." +:+ regoPackage +:+ ".decision".

Definition regoString (s : string) : result bytes :=
  wrap (fun e => Errorf "cannot render %q as a Rego string: %w" [AStr s; AErr e]) (Marshal (Ok (JStr s))).
Definition regoComment (s : string) : string := Join (Fields s) " ".

Definition condition (idx : Z) (c : policy.Condition) : result bytes :=
  let! field := regoString (policy.Field c) in
  let! value := regoString (policy.CValue c) in
  let got := s2b "input.ctx[" ++ field ++ s2b "]" in
  let m := s2b "m" ++ s2b (Itoa idx) in
  if policy.COp c =?s policy.OpEq then Ok (got ++ s2b " == " ++ value)
  else if policy.COp c =?s policy.OpNe then Ok (got ++ s2b " != " ++ value)
  else if policy.is_ordering_op (policy.COp c) then
    Ok (s2b "scalar(" ++ got ++ s2b ") " ++ s2b (policy.COp c) ++ s2b " scalar(" ++ value ++ s2b ")")
  else if policy.COp c =?s policy.OpIn then
    Ok (s2b "some " ++ m ++ s2b " in split(" ++ value ++ s2b (", " +:+ dq "," +:+ "); trim_space(") ++ m
        ++ s2b (") != " +:+ dq "" +:+ "; trim_space(") ++ m ++ s2b ") == " ++ got)
  else Err (Errorf "unsupported operator %q on field %q" [AStr (policy.COp c); AStr (policy.Field c)]).

Definition conditions (cs : list policy.Condition) : result bytes :=
  let! lines := each (fun i c => let! line := condition i c in Ok (tab ++ line)) 0 cs in
  Ok (joined nl lines).

Definition bool_text (b : bool) : bytes := s2b (if b then "true" else "false").
Definition decisionLiteral (allowed consequential : bool) (ruleFired version reason : string) : result bytes :=
  let! rf := regoString ruleFired in
  let! pv := regoString version in
  let! rs := regoString reason in
  Ok (s2b ("{" +:+ dq "allowed" +:+ ": ") ++ bool_text allowed ++ s2b (", " +:+ dq "consequential" +:+ ": ")
      ++ bool_text consequential ++ s2b (", " +:+ dq "ruleFired" +:+ ": ") ++ rf
      ++ s2b (", " +:+ dq "policyVersion" +:+ ": ") ++ pv ++ s2b (", " +:+ dq "reason" +:+ ": ") ++ rs ++ s2b "}").

(** The quoted fields a rule compares with an ordering operator. *)
Definition ordered_fields (r : policy.Rule) : list bytes :=
  omap (fun c => if policy.is_ordering_op (policy.COp c)
                 then match regoString (policy.Field c) with Ok q => Some q | Err _ => None end else None)
    (elems (policy.When r)).
Fixpoint ordering_rows (i : Z) (rules : list policy.Rule) : bytes :=
  match rules with
  | [] => []
  | r :: rules =>
      let fields := ordered_fields r in
      (if bool_decide (fields = []) then []
       else tab ++ s2b (Itoa i) ++ s2b ": [" ++ joined (s2b ", ") fields ++ s2b "]," ++ nl)
      ++ ordering_rows (i + 1) rules
  end.
Definition orderingFields (rules : list policy.Rule) : bytes :=
  ln 0 "ordering_fields := {" ++ ordering_rows 0 rules ++ ln 0 "}" ++ nl.

(** What does not depend on the policy. *)
Definition preamble : bytes :=
  ln 0 ("package " +:+ regoPackage) ++ nl
  ++ ln 0 "scalar(s) := v if {" ++ ln 1 "v := time.parse_rfc3339_ns(s)" ++ ln 0 "} else := v if {"
  ++ ln 1 "v := to_number(s)" ++ ln 0 "}" ++ nl.
Definition comparables : bytes :=
  ln 0 "comparable(s) if {" ++ ln 1 "is_number(time.parse_rfc3339_ns(s))" ++ ln 0 "}" ++ nl
  ++ ln 0 "comparable(s) if {" ++ ln 1 "is_number(to_number(s))" ++ ln 0 "}" ++ nl.
Definition machinery : bytes :=
  ln 0 "uncomparable[i] := fs if {" ++ ln 1 "some i, flds in ordering_fields"
  ++ ln 1 "fs := [f | some f in flds; input.ctx[f]; not comparable(input.ctx[f])]" ++ ln 1 "count(fs) > 0" ++ ln 0 "}" ++ nl
  ++ ln 0 "considered := matches | {i | some i, _ in uncomparable}" ++ nl
  ++ ln 0 "decision := d if {" ++ ln 1 "i := min(considered)" ++ ln 1 "not uncomparable[i]" ++ ln 1 "d := decisions[i]" ++ ln 0 "}" ++ nl
  ++ ln 0 "decision := d if {" ++ ln 1 "i := min(considered)" ++ ln 1 "fs := uncomparable[i]"
  ++ ln 1 "d := object.union(decisions[i], {" ++ ln 2 (dq "allowed" +:+ ": false,") ++ ln 2 (dq "consequential" +:+ ": true,")
  ++ ln 2 (dq "reason" +:+ ": sprintf(" +:+ dq "rule %q could not be evaluated: %s is not comparable"
           +:+ ", [decisions[i].ruleFired, concat(" +:+ dq ", " +:+ ", fs)]),")
  ++ ln 1 "})" ++ ln 0 "}" ++ nl.

Definition match_block (i : Z) (r : policy.Rule) : result bytes :=
  let! conds := wrap (fun e => Errorf "rule %q: %w" [AStr (policy.Name r); AErr e]) (conditions (elems (policy.When r))) in
  Ok (s2b "# " ++ s2b (regoComment (policy.Name r)) ++ nl ++ s2b "matches contains " ++ s2b (Itoa i) ++ s2b " if {" ++ nl
      ++ conds ++ nl ++ s2b "}" ++ nl ++ nl).
Definition decision_row (ver : string) (i : Z) (r : policy.Rule) : result bytes :=
  let! lit := decisionLiteral (negb (policy.Deny r)) (policy.RConsequential r) (policy.Name r) ver (policy.RReason r) in
  Ok (tab ++ s2b (Itoa i) ++ s2b ": " ++ lit ++ s2b "," ++ nl).

Definition compileModule (p : policy.Policy) : result bytes :=
  let rules := elems (policy.Rules p) in
  let! def := decisionLiteral (policy.DAllowed (policy.Dflt p)) (policy.DConsequential (policy.Dflt p)) policy.DefaultRule
                (policy.Ver p) (policy.DReason (policy.Dflt p)) in
  let b := preamble ++ s2b "default decision := " ++ def ++ nl ++ nl in
  if bool_decide (rules = []) then Ok b
  else
    let b := b ++ comparables ++ orderingFields rules ++ machinery in
    let! blocks := each match_block 0 rules in
    let b := b ++ joined [] blocks ++ ln 0 "decisions := {" in
    let! rows := each (decision_row (policy.Ver p)) 0 rules in
    Ok (b ++ joined [] rows ++ ln 0 "}").

(** ** The evaluator *)

Section Evaluator.
Context {UT : UnicodeTables}.
(** package rego: preparing a query over a named module, and evaluating a
    prepared query within a number of nanoseconds; an answer is a list of
    results, each the list of its expressions' values. *)
Context {Query Value : Type} (PrepareForEval : string -> string -> bytes -> result Query)
  (Eval : Z -> Query -> gmap string string -> result (list (list Value))).
(** encoding/json on the engine's values, and into a Decision. *)
Context (MarshalValue : Value -> result bytes) (UnmarshalDecision : bytes -> result types.Decision)
  (UnmarshalPolicy : bytes -> result texts.policy_fields).

Definition evalTimeout : Z := 5 * 1000000000.
Record Evaluator := mkEvaluator { version : string; source : bytes; query : Query }.

Definition NewFromPolicy (p : policy.Policy) : result Evaluator :=
  let! src := wrap (fun e => Errorf "opaeval: compile policy %s: %w" [AStr (policy.Ver p); AErr e]) (compileModule p) in
  let! q := wrap (fun e => Errorf "opaeval: prepare policy %s: %w
%s" [AStr (policy.Ver p); AErr e; AStr (b2s src)])
              (PrepareForEval decisionQuery "kessa_policy.rego" src) in
  Ok (mkEvaluator (policy.Ver p) src q).
Definition New_ (policyJSON : bytes) : result Evaluator :=
  let! p := texts.policy_Parse UnmarshalPolicy policyJSON in NewFromPolicy p.

Definition Evaluate (e : Evaluator) (a : types.Action) : result types.Decision :=
  let! rs := wrap (fun e => Errorf "opaeval: evaluate: %w" [AErr e]) (Eval evalTimeout (query e) (types.Context a)) in
  match rs with
  | [[v]] =>
      let! raw := wrap (fun e => Errorf "opaeval: encode decision: %w" [AErr e]) (MarshalValue v) in
      let! d := wrap (fun e => Errorf "opaeval: decode decision: %w" [AErr e]) (UnmarshalDecision raw) in
      check! reject_if ((types.Reason d =?s "") || (types.RuleFired d =?s ""))
        (Errorf "opaeval: policy %s produced a decision with no stated rule or reason" [AStr (version e)]);
      Ok d
  | _ => Err (Errorf "opaeval: policy %s produced %d results, want exactly 1" [AStr (version e); AInt (len rs)])
  end.

(** The evaluator as the enforcement point calls it. *)
Definition as_evaluator (e : Evaluator) : enforce.Evaluator :=
  enforce.OtherEvaluator (fun a =>
    match Evaluate e a with
    | Ok d => enforce.Returned d None
    | Err err => enforce.Returned types.zero_decision (Some err)
    end).
End Evaluator.

(** ** Separating texts *)

Lemma regoString_eq s : regoString s = Ok (json_string s).
Proof. done. Qed.

(** Two texts that differ within their common length start no common text. *)
Fixpoint clash (a b : bytes) : bool :=
  match a, b with
  | x :: a, y :: b => negb (bool_decide (x = y)) || clash a b
  | _, _ => false
  end.
Lemma clash_apart a b r1 r2 : clash a b = true -> a ++ r1 <> b ++ r2.
Proof.
  revert b. induction a as [|x a IH]; intros [|y b] Hc H; try discriminate. cbn in Hc, H. injection H as -> H.
  rewrite bool_decide_eq_true_2 in Hc by done. by apply (IH b).
Qed.
Ltac apart H := exfalso; revert H; apply clash_apart; vm_compute; reflexivity.

(** A text that determines a view of what it was made of, whatever follows. *)
Definition separable {A B} (view : A -> B) (ok : A -> Prop) (f : A -> result bytes) : Prop :=
  forall x y t u r1 r2, ok x -> ok y -> f x = Ok t -> f y = Ok u -> t ++ r1 = u ++ r2 -> view x = view y /\ r1 = r2.

Lemma each_cons {A} (f : Z -> A -> result bytes) i x l ts :
  each f i (x :: l) = Ok ts <-> exists t ts', f i x = Ok t /\ each f (i + 1) l = Ok ts' /\ ts = t :: ts'.
Proof.
  cbn [each]. rewrite rbind_Ok. split.
  - intros (t & Ht & H). apply rbind_Ok in H as (ts' & Hts & [= <-]). eauto.
  - intros (t & ts' & Ht & Hts & ->). exists t. split; [done|]. apply rbind_Ok. eauto.
Qed.
Lemma joined_cons sep t ts : joined sep (t :: ts) = t ++ concat (map (fun u => sep ++ u) ts).
Proof.
  revert t. induction ts as [|u ts IH]; intros t; [by rewrite app_nil_r|].
  change (joined sep (t :: u :: ts)) with (t ++ sep ++ joined sep (u :: ts)). rewrite IH. cbn [map concat]. by rewrite <- app_assoc.
Qed.

Section Lists.
Context {A B : Type} (view : A -> B) (ok : A -> Prop) (f : Z -> A -> result bytes) (sep close : bytes).
Context (Hsep : forall i, separable view ok (f i)).
Context (Hfirst : forall i x t r r', ok x -> f i x = Ok t -> t ++ r <> close ++ r').
Context (Hnext : forall i x t r r', ok x -> f i x = Ok t -> sep ++ t ++ r <> close ++ r').

Lemma rest_inj l1 l2 i ts1 ts2 r1 r2 :
  Forall ok l1 -> Forall ok l2 -> each f i l1 = Ok ts1 -> each f i l2 = Ok ts2 ->
  concat (map (fun u => sep ++ u) ts1) ++ close ++ r1 = concat (map (fun u => sep ++ u) ts2) ++ close ++ r2 ->
  map view l1 = map view l2 /\ r1 = r2.
Proof using Hsep Hnext.
  intros H1. revert l2 i ts1 ts2. induction H1 as [|x l1 Hx H1 IH]; intros l2 i ts1 ts2 H2 E1 E2 H; destruct H2 as [|y l2 Hy H2].
  - injection E1 as <-. injection E2 as <-. cbn [map concat joined app] in H. split; [done|]. by apply app_inv_head in H.
  - injection E1 as <-. apply each_cons in E2 as (u & us & Eu & _ & ->). cbn [map concat app] in H.
    rewrite <- !app_assoc in H. symmetry in H. by apply (Hnext i y u) in H.
  - injection E2 as <-. apply each_cons in E1 as (u & us & Eu & _ & ->). cbn [map concat app] in H.
    rewrite <- !app_assoc in H. by apply (Hnext i x u) in H.
  - apply each_cons in E1 as (t & ts & Et & Ets & ->). apply each_cons in E2 as (u & us & Eu & Eus & ->).
    cbn [map concat] in H. rewrite <- !app_assoc in H. apply app_inv_head in H.
    apply (Hsep i x y t u _ _ Hx Hy Et Eu) in H as [Hv H].
    apply (IH l2 (i + 1) ts us) in H as [H ->]; [|done..]. cbn [map]. by rewrite Hv, H.
Qed.

(** A joined list determines its elements. *)
Lemma joined_inj l1 l2 i ts1 ts2 r1 r2 :
  Forall ok l1 -> Forall ok l2 -> each f i l1 = Ok ts1 -> each f i l2 = Ok ts2 ->
  joined sep ts1 ++ close ++ r1 = joined sep ts2 ++ close ++ r2 -> map view l1 = map view l2 /\ r1 = r2.
Proof using Hsep Hfirst Hnext.
  intros [|x l Hx H1] [|y l' Hy H2] E1 E2 H.
  - injection E1 as <-. injection E2 as <-. cbn [joined app] in H. split; [done|]. by apply app_inv_head in H.
  - injection E1 as <-. apply each_cons in E2 as (u & us & Eu & _ & ->). rewrite joined_cons, <- app_assoc in H. cbn [joined app] in H.
    symmetry in H. by apply (Hfirst i y u) in H.
  - injection E2 as <-. apply each_cons in E1 as (u & us & Eu & _ & ->). rewrite joined_cons, <- app_assoc in H. cbn [joined app] in H.
    by apply (Hfirst i x u) in H.
  - apply each_cons in E1 as (t & ts & Et & Ets & ->). apply each_cons in E2 as (u & us & Eu & Eus & ->).
    rewrite !joined_cons, <- !app_assoc in H. apply (Hsep i x y t u _ _ Hx Hy Et Eu) in H as [Hv H].
    apply (rest_inj l l' (i + 1) ts us) in H as [H ->]; [|done..]. cbn [map]. by rewrite Hv, H.
Qed.
End Lists.

(** Blocks that follow one another. *)
Lemma blocks_inj {A B} (view : A -> B) ok f close l1 l2 ts1 ts2 r1 r2 :
  (forall i, separable view ok (f i)) -> (forall i x t r r', ok x -> f i x = Ok t -> t ++ r <> close ++ r') ->
  Forall ok l1 -> Forall ok l2 -> each f 0 l1 = Ok ts1 -> each f 0 l2 = Ok ts2 ->
  joined [] ts1 ++ close ++ r1 = joined [] ts2 ++ close ++ r2 -> map view l1 = map view l2 /\ r1 = r2.
Proof. intros Hs Hf. exact (joined_inj view ok f [] close Hs Hf Hf l1 l2 0 ts1 ts2 r1 r2). Qed.

(** ** The parts of a module determine what they were written from *)

Definition plain_condition (c : policy.Condition) : Prop :=
  valid_utf8 (policy.Field c) = true /\ valid_utf8 (policy.CValue c) = true.
Definition plain_rule (r : policy.Rule) : Prop :=
  valid_utf8 (policy.Name r) = true /\ valid_utf8 (policy.RReason r) = true /\ Forall plain_condition (elems (policy.When r)).
(** What encoding/json decodes is valid UTF-8. *)
Definition plain_policy (p : policy.Policy) : Prop :=
  valid_utf8 (policy.Ver p) = true /\ valid_utf8 (policy.DReason (policy.Dflt p)) = true /\ Forall plain_rule (elems (policy.Rules p)).

Lemma ordering_cases op :
  policy.is_ordering_op op = true -> op = policy.OpLe \/ op = policy.OpLt \/ op = policy.OpGe \/ op = policy.OpGt.
Proof. unfold policy.is_ordering_op. intros H. rewrite !orb_true_iff, !str_eqb_true in H. tauto. Qed.
Lemma ordering_inj op1 op2 r1 r2 :
  policy.is_ordering_op op1 = true -> policy.is_ordering_op op2 = true ->
  s2b op1 ++ s2b " scalar(" ++ r1 = s2b op2 ++ s2b " scalar(" ++ r2 -> op1 = op2 /\ r1 = r2.
Proof.
  intros H1%ordering_cases H2%ordering_cases H. rewrite !app_assoc, <- !s2b_append in H.
  destruct H1 as [->|[->|[->| ->]]], H2 as [->|[->|[->| ->]]]; try (apart H); by apply app_inv_head in H.
Qed.

(** The four forms a condition takes. *)
Inductive written (idx : Z) (c : policy.Condition) : bytes -> Prop :=
  | written_eq : policy.COp c = policy.OpEq ->
      written idx c (s2b "input.ctx[" ++ json_string (policy.Field c) ++ s2b "] == " ++ json_string (policy.CValue c))
  | written_ne : policy.COp c = policy.OpNe ->
      written idx c (s2b "input.ctx[" ++ json_string (policy.Field c) ++ s2b "] != " ++ json_string (policy.CValue c))
  | written_ordering : policy.is_ordering_op (policy.COp c) = true ->
      written idx c (s2b "scalar(input.ctx[" ++ json_string (policy.Field c) ++ s2b "]) " ++ s2b (policy.COp c) ++ s2b " scalar("
                     ++ json_string (policy.CValue c) ++ s2b ")")
  | written_in m : policy.COp c = policy.OpIn ->
      m = s2b "m" ++ s2b (Itoa idx) ->
      written idx c ((s2b "some " ++ m ++ s2b " in split(") ++ json_string (policy.CValue c)
                     ++ (s2b (", " +:+ dq "," +:+ "); trim_space(") ++ m ++ s2b (") != " +:+ dq "" +:+ "; trim_space(") ++ m
                         ++ s2b ") == input.ctx[") ++ json_string (policy.Field c) ++ s2b "]").

#[local] Opaque s2b json_string.
Lemma pieces a b (x : bytes) : s2b a ++ s2b b ++ x = s2b (a +:+ b) ++ x.
Proof. by rewrite s2b_append, app_assoc. Qed.
Lemma condition_written idx c t : condition idx c = Ok t -> written idx c t.
Proof.
  unfold condition. rewrite !regoString_eq. cbn [rbind].
  destruct (_ =?s policy.OpEq) eqn:E1; [|destruct (_ =?s policy.OpNe) eqn:E2; [|destruct (policy.is_ordering_op _) eqn:E3;
    [|destruct (_ =?s policy.OpIn) eqn:E4; [|done]]]]; intros [= <-].
  - apply str_eqb_true in E1. rewrite <- !app_assoc, (pieces "]" " == "). by apply written_eq.
  - apply str_eqb_true in E2. rewrite <- !app_assoc, (pieces "]" " != "). by apply written_ne.
  - rewrite <- !app_assoc, (pieces "scalar(" "input.ctx["), (pieces "]" ") "). by apply written_ordering.
  - apply str_eqb_true in E4. pose proof (written_in idx c _ E4 eq_refl) as W. rewrite <- !app_assoc, (pieces ") == " "input.ctx[").
    repeat rewrite <- app_assoc in W. exact W.
Qed.
Lemma string_inj s1 s2 r1 r2 : valid_utf8 s1 = true -> json_string s1 ++ r1 = json_string s2 ++ r2 -> s1 = s2 /\ r1 = r2.
Proof. apply json_string_inj. Qed.

Lemma condition_separable idx : separable (fun c => c) plain_condition (condition idx).
Proof.
  intros [f1 o1 v1] [f2 o2 v2] t u r1 r2 [F1 V1] _ W1%condition_written W2%condition_written H. cbn in F1, V1.
  destruct W1 as [E1|E1|E1|m1 E1 M1], W2 as [E2|E2|E2|m2 E2 M2]; cbn [policy.Field policy.CValue policy.COp] in *; subst;
    rewrite <- ?app_assoc in H; try (apart H).
  - apply app_inv_head in H. apply string_inj in H as [-> H]; [|done]. apply app_inv_head in H.
    by apply string_inj in H as [-> ->].
  - apply app_inv_head in H. apply string_inj in H as [_ H]; [apart H|done].
  - apply app_inv_head in H. apply string_inj in H as [_ H]; [apart H|done].
  - apply app_inv_head in H. apply string_inj in H as [-> H]; [|done]. apply app_inv_head in H.
    by apply string_inj in H as [-> ->].
  - apply app_inv_head in H. apply string_inj in H as [-> H]; [|done]. apply app_inv_head in H.
    apply ordering_inj in H as [-> H]; [|done..]. apply string_inj in H as [-> H]; [|done]. by apply app_inv_head in H as ->.
  - do 4 apply app_inv_head in H. apply string_inj in H as [-> H]; [|done]. do 7 apply app_inv_head in H.
    apply string_inj in H as [-> H]; [|done]. by apply app_inv_head in H as ->.
Qed.

Lemma conditions_separable l1 l2 t u r1 r2 :
  Forall plain_condition l1 -> Forall plain_condition l2 -> conditions l1 = Ok t -> conditions l2 = Ok u ->
  t ++ (nl ++ s2b "}") ++ r1 = u ++ (nl ++ s2b "}") ++ r2 -> l1 = l2 /\ r1 = r2.
Proof.
  intros H1 H2 E1 E2 H. unfold conditions in E1, E2. gosimp E1. gosimp E2. apply Ok_inj in E1 as <-. apply Ok_inj in E2 as <-.
  rewrite <- (map_id l1), <- (map_id l2). revert H. eapply joined_inj; [..|exact H1|exact H2|exact Ha|exact Ha0].
  - intros i x y t u q1 q2 Hx Hy Et Eu H. gosimp Et. gosimp Eu. apply Ok_inj in Et as <-. apply Ok_inj in Eu as <-.
    rewrite <- !app_assoc in H. apply app_inv_head in H. by apply (condition_separable i x y _ _ _ _ Hx Hy Ha1 Ha2).
  - intros i x t0 r r' _ Et H. cbn beta in Et. gosimp Et. apply Ok_inj in Et as <-. rewrite <- !app_assoc in H. apart H.
  - intros i x t0 r r' _ Et H. cbn beta in Et. gosimp Et. apply Ok_inj in Et as <-. rewrite <- !app_assoc in H. apply app_inv_head in H. apart H.
Qed.

(** *** The comment above a block stays on its line *)

Lemma newline_space b : first_strip space_encodings (Byte.x0a :: b) = Some b.
Proof. done. Qed.
Lemma fields_scan_line fuel word b w : Byte.x0a ∉ word -> w ∈ fields_scan fuel word b -> Byte.x0a ∉ w.
Proof.
  assert (F : forall u, Byte.x0a ∉ u -> w ∈ (if bool_decide (u = []) then [] else [u]) -> Byte.x0a ∉ w).
  { intros u Hu. case_bool_decide; [by intros []%not_elem_of_nil|]. by intros ->%list_elem_of_singleton. }
  revert word b. induction fuel as [|fuel IH]; intros word b Hw; cbn [fields_scan]; [by intros []%not_elem_of_nil|].
  destruct (first_strip space_encodings b) as [r|] eqn:E.
  - rewrite elem_of_app. intros [H|H]; [by apply (F word)|]. apply IH in H; [done|apply not_elem_of_nil].
  - destruct b as [|c b]; [by apply F|]. apply IH. rewrite elem_of_app, list_elem_of_singleton.
    intros [?| <-]; [done|]. by rewrite newline_space in E.
Qed.
Lemma first_strip_shorter ps b r : Forall (fun p => p <> []) ps -> first_strip ps b = Some r -> (length r < length b)%nat.
Proof.
  induction 1 as [|p ps Hp _ IH]; cbn [first_strip]; [done|]. destruct (strip_prefix p b) as [q|] eqn:E; [|done].
  intros [= <-]. apply length_strip_prefix in E. destruct p; [done|]. cbn [length] in E. lia.
Qed.
(** One more than the length is fuel enough. *)
Lemma fields_fuel n word b : (length b < n)%nat -> fields_scan (S n) word b = fields_scan n word b.
Proof.
  revert word b. induction n as [|n IH]; intros word b Hn; [lia|].
  change (fields_scan (S (S n)) word b) with
    (match first_strip space_encodings b with
     | Some r => (if bool_decide (word = []) then [] else [word]) ++ fields_scan (S n) [] r
     | None => match b with [] => if bool_decide (word = []) then [] else [word] | c :: b => fields_scan (S n) (word ++ [c]) b end end).
  cbn [fields_scan]. destruct (first_strip space_encodings b) as [r|] eqn:E.
  - f_equal. apply IH. apply first_strip_shorter in E; [lia|]. by repeat constructor.
  - destruct b as [|c b]; [done|]. apply IH. cbn [length] in Hn. lia.
Qed.
Lemma join_line l : Forall (fun w => Byte.x0a ∉ s2b w) l -> Byte.x0a ∉ s2b (Join l " ").
Proof.
  induction 1 as [|w l Hw Hl IH]; cbn [Join]; [change (s2b EmptyString) with (@nil Byte.byte); by apply not_elem_of_nil|]. destruct l as [|w' l]; [done|].
  rewrite !s2b_append, !elem_of_app. intros [?|[H|?]]; [done| |done]. change (s2b " ") with [Byte.x20] in H. by apply list_elem_of_singleton in H.
Qed.
Lemma comment_line s : Byte.x0a ∉ s2b (regoComment s).
Proof.
  apply join_line. apply Forall_forall. intros w Hw. unfold Fields in Hw. apply list_elem_of_In in Hw. apply in_map_iff in Hw as (b & <- & Hb).
  rewrite s2b_b2s. apply list_elem_of_In in Hb. by apply fields_scan_line in Hb; [|apply not_elem_of_nil].
Qed.
Lemma line_inj a b r1 r2 : Byte.x0a ∉ a -> Byte.x0a ∉ b -> a ++ nl ++ r1 = b ++ nl ++ r2 -> r1 = r2.
Proof.
  revert b. induction a as [|x a IH]; intros [|y b] Ha Hb H; cbn [app nl] in H.
  - by injection H.
  - injection H as <- _. destruct Hb. by left.
  - injection H as -> _. destruct Ha. by left.
  - injection H as <- H. apply (IH b); [by intros ?; apply Ha; right|by intros ?; apply Hb; right|exact H].
Qed.

(** *** Whole modules *)

Lemma bool_text_inj b1 b2 r1 r2 :
  bool_text b1 ++ s2b ", " ++ r1 = bool_text b2 ++ s2b ", " ++ r2 -> b1 = b2 /\ r1 = r2.
Proof.
  unfold bool_text. intros H. destruct b1, b2; rewrite ?app_assoc in H; rewrite <- ?app_assoc in H;
    [by do 2 apply app_inv_head in H|apart H|apart H|by do 2 apply app_inv_head in H].
Qed.

Lemma literal_inj a1 c1 n1 v1 s1 a2 c2 n2 v2 s2 t u r1 r2 :
  valid_utf8 n1 = true -> valid_utf8 v1 = true -> valid_utf8 s1 = true ->
  decisionLiteral a1 c1 n1 v1 s1 = Ok t -> decisionLiteral a2 c2 n2 v2 s2 = Ok u -> t ++ r1 = u ++ r2 ->
  (a1, c1, n1, v1, s1) = (a2, c2, n2, v2, s2) /\ r1 = r2.
Proof.
  intros N V S. unfold decisionLiteral. rewrite !regoString_eq. cbn [rbind]. intros E1 E2 H. apply Ok_inj in E1 as <-. apply Ok_inj in E2 as <-.
  repeat rewrite <- app_assoc in H. rewrite (s2b_append ", " (dq "consequential" +:+ ": ")), (s2b_append ", " (dq "ruleFired" +:+ ": ")) in H.
  repeat rewrite <- app_assoc in H. apply app_inv_head in H. apply bool_text_inj in H as [-> H]. apply app_inv_head in H.
  apply bool_text_inj in H as [-> H]. apply app_inv_head in H. apply string_inj in H as [-> H]; [|done]. apply app_inv_head in H.
  apply string_inj in H as [-> H]; [|done]. apply app_inv_head in H. apply string_inj in H as [-> H]; [|done]. by apply app_inv_head in H as ->.
Qed.

Lemma match_block_separable i : separable (fun r => elems (policy.When r)) plain_rule (match_block i).
Proof.
  intros x y t u r1 r2 (_ & _ & Hx) (_ & _ & Hy) Et Eu H. unfold match_block in Et, Eu. gosimp Et. gosimp Eu.
  apply Ok_inj in Et as <-. apply Ok_inj in Eu as <-. repeat rewrite <- app_assoc in H. apply app_inv_head in H.
  apply line_inj in H; [|apply comment_line..]. do 4 apply app_inv_head in H.
  destruct (conditions_separable _ _ _ _ (nl ++ nl ++ r1) (nl ++ nl ++ r2) Hx Hy Ha Ha0) as [-> Hr].
  { repeat rewrite <- app_assoc. exact H. }
  split; [done|]. by do 2 apply app_inv_head in Hr.
Qed.
Lemma match_block_apart i r t q q' : plain_rule r -> match_block i r = Ok t -> t ++ q <> ln 0 "decisions := {" ++ q'.
Proof. intros _ Et H. unfold match_block in Et. gosimp Et. apply Ok_inj in Et as <-. repeat rewrite <- app_assoc in H. apart H. Qed.
Definition decided (r : policy.Rule) := (negb (policy.Deny r), policy.RConsequential r, policy.Name r, policy.RReason r).
Lemma decision_row_separable ver i : valid_utf8 ver = true -> separable decided plain_rule (decision_row ver i).
Proof.
  intros V x y t u r1 r2 (Nx & Sx & _) _ Et Eu H. unfold decision_row in Et, Eu. gosimp Et. gosimp Eu.
  apply Ok_inj in Et as <-. apply Ok_inj in Eu as <-. repeat rewrite <- app_assoc in H. do 3 apply app_inv_head in H.
  eapply literal_inj in H as [H Hr]; [|exact Nx|exact V|exact Sx|exact Ha|exact Ha0]. do 2 apply app_inv_head in Hr.
  split; [|done]. unfold decided. by injection H as -> -> -> ->.
Qed.

Lemma decision_row_apart ver i r t q q' : plain_rule r -> decision_row ver i r = Ok t -> t ++ q <> ln 0 "}" ++ q'.
Proof. intros _ Et H. unfold decision_row in Et. gosimp Et. apply Ok_inj in Et as <-. repeat rewrite <- app_assoc in H. apart H. Qed.

(** The rows of the ordering table, as a list. *)
Definition row_text (row : Z * list bytes) : bytes :=
  tab ++ s2b (Itoa row.1) ++ s2b ": [" ++ joined (s2b ", ") row.2 ++ s2b "]," ++ nl.
Fixpoint table (i : Z) (rules : list policy.Rule) : list (Z * list string) :=
  match rules with
  | [] => []
  | r :: rules =>
      let fields := map policy.Field (List.filter (fun c => policy.is_ordering_op (policy.COp c)) (elems (policy.When r))) in
      (if bool_decide (fields = []) then [] else [(i, fields)]) ++ table (i + 1) rules
  end.
Definition write_row (_ : Z) (row : Z * list string) : result bytes := Ok (row_text (row.1, map json_string row.2)).

Lemma ordered_fields_map r :
  ordered_fields r = map json_string (map policy.Field (List.filter (fun c => policy.is_ordering_op (policy.COp c)) (elems (policy.When r)))).
Proof.
  unfold ordered_fields. induction (elems (policy.When r)) as [|c l IH]; [done|]. cbn [omap list_omap List.filter].
  destruct (policy.is_ordering_op _); rewrite ?regoString_eq; cbn [map]; by rewrite IH.
Qed.
Lemma each_Ok {A} (f : A -> bytes) i l : each (fun _ x => Ok (f x)) i l = Ok (map f l).
Proof. revert i. induction l as [|x l IH]; intros i; cbn [each]; [done|]. by rewrite IH. Qed.
Lemma joined_nil l : joined [] l = concat l.
Proof. destruct l as [|x l]; [done|]. rewrite joined_cons. cbn [concat]. f_equal. clear x. induction l as [|y l IH]; [done|]. cbn [map concat]. by f_equal. Qed.
Lemma ordering_rows_table i rules :
  exists ts, each write_row 0 (table i rules) = Ok ts /\ ordering_rows i rules = joined [] ts.
Proof.
  eexists. split; [exact (each_Ok (fun row => row_text (row.1, map json_string row.2)) 0 (table i rules))|]. rewrite joined_nil.
  revert i. induction rules as [|r rules IH]; intros i; [done|]. cbn [ordering_rows table]. rewrite ordered_fields_map, IH.
  set (fs := map policy.Field _). rewrite map_app, concat_app. f_equal.
  destruct fs as [|f fs]; [done|]. rewrite !bool_decide_eq_false_2 by done. cbn [map concat]. by rewrite app_nil_r.
Qed.
Definition plain_row (row : Z * list string) : Prop := Forall (fun f => valid_utf8 f = true) row.2.
Lemma table_plain i rules : Forall plain_rule rules -> Forall plain_row (table i rules).
Proof.
  intros H. revert i. induction H as [|r rules (_ & _ & Hr) _ IH]; intros i; cbn [table]; [constructor|].
  apply Forall_app. split; [|apply IH]. case_bool_decide; [constructor|]. constructor; [|constructor].
  apply Forall_forall. intros f (c & -> & Hc)%list_elem_of_fmap. apply list_elem_of_In, filter_In in Hc as [Hc _].
  rewrite Forall_forall in Hr. apply list_elem_of_In in Hc. by destruct (Hr c Hc).
Qed.
Lemma string_head s : exists q, json_string s = s2b (String dquote EmptyString) ++ q.
Proof. eexists. apply json_string_text. Qed.
Lemma row_separable i : separable (fun row => row) plain_row (write_row i).
Proof.
  intros [n l] [m l'] t u r1 r2 H1 H2 Et Eu H. apply Ok_inj in Et as <-. apply Ok_inj in Eu as <-. unfold row_text in H. cbn [fst snd] in *.
  repeat rewrite <- app_assoc in H. apply app_inv_head in H. apply Itoa_span in H as [-> H]; [|vm_compute; reflexivity..].
  apply app_inv_head in H. pose proof (each_Ok json_string 0 l) as E1. pose proof (each_Ok json_string 0 l') as E2.
  assert (Hl : map (fun f : string => f) l = map (fun f : string => f) l' /\ nl ++ r1 = nl ++ r2).
  { revert H. refine (joined_inj (fun f => f) (fun f => valid_utf8 f = true) _ _ _ _ _ _ _ _ _ _ _ _ _ H1 H2 E1 E2).
    - intros _ x y t u q1 q2 Hx _ Et Eu H. apply Ok_inj in Et as <-. apply Ok_inj in Eu as <-. by apply string_inj.
    - intros _ x t r r' _ Et H. apply Ok_inj in Et as <-. destruct (string_head x) as [q E]. rewrite E, <- app_assoc in H. apart H.
    - intros _ x t r r' _ _ H. apart H. }
  destruct Hl as [Hl Hr]. rewrite !map_id in Hl. rewrite Hl. split; [done|]. by apply app_inv_head in Hr.
Qed.
Lemma orderingFields_frame rules1 rules2 r1 r2 :
  Forall plain_rule rules1 -> Forall plain_rule rules2 -> orderingFields rules1 ++ r1 = orderingFields rules2 ++ r2 -> r1 = r2.
Proof.
  intros H1%(table_plain 0) H2%(table_plain 0). unfold orderingFields.
  destruct (ordering_rows_table 0 rules1) as (t1 & E1 & ->). destruct (ordering_rows_table 0 rules2) as (t2 & E2 & ->).
  intros H. repeat rewrite <- app_assoc in H. apply app_inv_head in H.
  assert (Hr : nl ++ r1 = nl ++ r2); [|by apply app_inv_head in Hr].
  assert (Hj : map (fun row : Z * list string => row) (table 0 rules1) = map (fun row => row) (table 0 rules2) /\ nl ++ r1 = nl ++ r2); [|apply Hj].
  revert H. refine (blocks_inj _ plain_row write_row (ln 0 "}") _ _ _ _ _ _ row_separable _ H1 H2 E1 E2).
  intros i x t r r' _ Et H. apply Ok_inj in Et as <-. unfold row_text in H. repeat rewrite <- app_assoc in H. apart H.
Qed.

(** What follows the default decision. *)
Inductive written_rules (ver : string) (rules : list policy.Rule) : bytes -> Prop :=
  | no_rules : rules = [] -> written_rules ver rules []
  | some_rules blocks rows : rules <> [] ->
      each match_block 0 rules = Ok blocks -> each (decision_row ver) 0 rules = Ok rows ->
      written_rules ver rules (comparables ++ orderingFields rules ++ machinery ++ joined [] blocks ++ ln 0 "decisions := {"
                               ++ joined [] rows ++ ln 0 "}" ++ []).
Lemma compiled p s :
  compileModule p = Ok s ->
  exists def tail,
    decisionLiteral (policy.DAllowed (policy.Dflt p)) (policy.DConsequential (policy.Dflt p)) policy.DefaultRule
      (policy.Ver p) (policy.DReason (policy.Dflt p)) = Ok def
    /\ written_rules (policy.Ver p) (elems (policy.Rules p)) tail
    /\ s = preamble ++ s2b "default decision := " ++ def ++ nl ++ nl ++ tail.
Proof.
  unfold compileModule. intros H. apply rbind_Ok in H as (def & Hd & H). exists def. case_bool_decide as Hr.
  - apply Ok_inj in H as <-. exists []. split_and!; [done|by constructor|by rewrite app_nil_r].
  - gosimp H. apply Ok_inj in H as <-. eexists. split_and!; [done|by apply some_rules|]. rewrite app_nil_r. by repeat rewrite <- app_assoc.
Qed.

Lemma rules_inj ver rules1 rules2 t1 t2 :
  valid_utf8 ver = true -> Forall plain_rule rules1 -> Forall plain_rule rules2 ->
  written_rules ver rules1 t1 -> written_rules ver rules2 t2 -> t1 = t2 ->
  map (fun r => elems (policy.When r)) rules1 = map (fun r => elems (policy.When r)) rules2 /\ map decided rules1 = map decided rules2.
Proof.
  intros V P1 P2 [->|b1 d1 _ B1 D1] [->|b2 d2 _ B2 D2] H; [done|by symmetry in H; apply app_nil in H as [H _]|by apply app_nil in H as [H _]|].
  apply app_inv_head in H. apply orderingFields_frame in H; [|done..]. apply app_inv_head in H.
  destruct (blocks_inj _ _ _ _ _ _ _ _ _ _ match_block_separable match_block_apart P1 P2 B1 B2 H) as [HW HR].
  by destruct (blocks_inj _ _ _ _ _ _ _ _ _ _ (fun i => decision_row_separable ver i V) (decision_row_apart ver) P1 P2 D1 D2 HR) as [HD _].
Qed.

Lemma view_rule r1 r2 :
  elems (policy.When r1) = elems (policy.When r2) -> elems (policy.When r1) <> [] -> elems (policy.When r2) <> [] ->
  decided r1 = decided r2 -> r1 = r2.
Proof.
  destruct r1 as [n1 [w1|] d1 c1 s1], r2 as [n2 [w2|] d2 c2 s2]; cbn; try done. unfold decided. cbn. intros -> _ _ [= Hd -> -> ->].
  f_equal. by destruct d1, d2.
Qed.
Lemma view_rules l1 l2 :
  map (fun r => elems (policy.When r)) l1 = map (fun r => elems (policy.When r)) l2 -> map decided l1 = map decided l2 ->
  Forall (fun r => elems (policy.When r) <> []) l1 -> Forall (fun r => elems (policy.When r) <> []) l2 -> l1 = l2.
Proof.
  intros HW HD H1. revert l2 HW HD. induction H1 as [|x l1 Hx H1 IH]; intros [|y l2] HW HD H2; try done.
  inversion H2. cbn [map] in HW, HD. injection HW as Hw HW. apply (f_equal (fun l => (head l, tail l))) in HD. cbn [head tail] in HD.
  assert (Hd : decided x = decided y) by congruence. assert (HD' : map decided l1 = map decided l2) by congruence.
  rewrite (view_rule x y) by done. f_equal. by apply IH.
Qed.
Lemma validated_rules p : policy.Validate p = Ok tt -> Forall (fun r => elems (policy.When r) <> []) (elems (policy.Rules p)).
Proof.
  intros (_ & _ & _ & H)%policy.Validate_Ok. eapply Forall_impl; [exact H|]. by intros r (_ & ? & _).
Qed.
Lemma validated_default p : policy.Validate p = Ok tt -> policy.defaultPresent p = true.
Proof. by intros (_ & ? & _)%policy.Validate_Ok. Qed.

(** C21: a module has lost nothing of its policy.  When two validated policies
    compile to the same text they have the same version, the same default, and
    the same rules in the same order, condition by condition; so the classifier
    decides every action alike under them.  In particular no name, reason, field
    or value written into a policy can pass for another part of the module. *)
Theorem module_determines_policy {UT : UnicodeTables} p q s :
  plain_policy p -> plain_policy q -> policy.Validate p = Ok tt -> policy.Validate q = Ok tt ->
  compileModule p = Ok s -> compileModule q = Ok s ->
  policy.Ver p = policy.Ver q /\ policy.Dflt p = policy.Dflt q /\ elems (policy.Rules p) = elems (policy.Rules q)
  /\ forall a, policy.Evaluate p a = policy.Evaluate q a.
Proof.
  intros (Vp & Dp & Rp) (_ & _ & Rq) Hp Hq Cp Cq.
  apply compiled in Cp as (d1 & t1 & L1 & W1 & ->). apply compiled in Cq as (d2 & t2 & L2 & W2 & H).
  do 2 apply app_inv_head in H. assert (N : valid_utf8 policy.DefaultRule = true) by (vm_compute; reflexivity).
  destruct (literal_inj _ _ _ _ _ _ _ _ _ _ _ _ _ _ N Vp Dp L1 L2 H) as [HL HR].
  do 2 apply app_inv_head in HR. injection HL as Ha Hc Hv Hs. rewrite <- Hv in W2.
  destruct (rules_inj _ _ _ _ _ Vp Rp Rq W1 W2 HR) as [HW HD].
  assert (Hrules : elems (policy.Rules p) = elems (policy.Rules q)) by (apply view_rules; by first [done|apply validated_rules]).
  assert (Hdef : policy.Dflt p = policy.Dflt q) by (destruct (policy.Dflt p), (policy.Dflt q); cbn in *; congruence).
  split_and!; [done|done|done|]. intros a. unfold policy.Evaluate. rewrite Hrules, Hdef, Hv.
  assert (He : forall rules, policy.eval_rules p rules (types.Context a) = policy.eval_rules q rules (types.Context a)); [|by rewrite He].
  intros rules. induction rules as [|r rules IH]; cbn [policy.eval_rules]; [done|]. by rewrite Hv, IH.
Qed.

(** ** What loads *)

Definition known_op (c : policy.Condition) : bool := policy.is_equality_op (policy.COp c) || policy.is_ordering_op (policy.COp c).
Definition known_ops (p : policy.Policy) : bool :=
  forallb (fun r => forallb known_op (elems (policy.When r))) (elems (policy.Rules p)).

Lemma each_total {A} (f : Z -> A -> result bytes) (good : A -> bool) i l :
  (forall j x, is_ok (f j x) = good x) -> is_ok (each f i l) = forallb good l.
Proof.
  intros Hf. revert i. induction l as [|x l IH]; intros i; cbn [each forallb]; [done|].
  rewrite <- (Hf i x). destruct (f i x) as [t|]; [|done]. cbn [rbind is_ok andb]. rewrite <- (IH (i + 1)). by destruct (each f (i + 1) l).
Qed.
Lemma condition_known i c : is_ok (condition i c) = known_op c.
Proof.
  unfold condition, known_op, policy.is_equality_op. rewrite !regoString_eq. cbn [rbind].
  by destruct (_ =?s policy.OpEq), (_ =?s policy.OpNe), (policy.is_ordering_op _), (_ =?s policy.OpIn).
Qed.
Lemma block_known i r : is_ok (match_block i r) = forallb known_op (elems (policy.When r)).
Proof.
  rewrite <- (each_total (fun i c => let! line := condition i c in Ok (tab ++ line)) known_op 0).
  - unfold match_block, conditions. by destruct (each _ 0 _).
  - intros j x. rewrite <- (condition_known j x). by destruct (condition j x).
Qed.
Lemma compile_known p : is_ok (compileModule p) = known_ops p.
Proof.
  unfold known_ops. rewrite <- (each_total match_block _ 0 _ block_known). unfold compileModule. cbn [rbind].
  case_bool_decide as E; [by rewrite E|]. destruct (each match_block 0 _) as [blocks|]; [|done]. cbn [rbind is_ok].
  assert (T : is_ok (each (decision_row (policy.Ver p)) 0 (elems (policy.Rules p))) = true).
  { rewrite (each_total _ (fun _ => true)); [|done]. apply forallb_forall. done. }
  by destruct (each (decision_row _) 0 _).
Qed.
Lemma validated_known p : policy.Validate p = Ok tt -> known_ops p = true.
Proof.
  intros (_ & _ & _ & H)%policy.Validate_Ok. apply forallb_Forall_true. eapply Forall_impl; [exact H|]. intros r (_ & _ & Hc & _).
  apply forallb_Forall_true. eapply Forall_impl; [exact Hc|]. intros c E. unfold policy.Condition_validate in E. unfold known_op.
  destruct (policy.blank _); [done|]. destruct (policy.is_equality_op _); [done|]. by destruct (policy.is_ordering_op _).
Qed.

Section EvaluatorLaws.
Context {CR : Crypto} {UT : UnicodeTables} {Query Value : Type}.
Context (PrepareForEval : string -> string -> bytes -> result Query)
  (Eval : Z -> Query -> gmap string string -> result (list (list Value)))
  (MarshalValue : Value -> result bytes) (UnmarshalDecision : bytes -> result types.Decision)
  (UnmarshalPolicy : bytes -> result texts.policy_fields).

(** loading.  What policy.Parse accepts compiles, so New succeeds exactly when
    the engine prepares the module, and the evaluator then carries that module and
    the policy's version; what policy.Parse rejects is rejected; and a policy with
    an operator the translation does not know, which can only be built in memory,
    is rejected whole rather than loaded without the condition. *)
Theorem loads_what_parses data :
  (forall p, texts.policy_Parse UnmarshalPolicy data = Ok p ->
     exists src, compileModule p = Ok src
       /\ (forall q, PrepareForEval decisionQuery "kessa_policy.rego" src = Ok q ->
             New_ PrepareForEval UnmarshalPolicy data = Ok (mkEvaluator (policy.Ver p) src q))
       /\ (forall err, PrepareForEval decisionQuery "kessa_policy.rego" src = Err err ->
             is_ok (New_ PrepareForEval UnmarshalPolicy data) = false))
  /\ (forall err, texts.policy_Parse UnmarshalPolicy data = Err err -> New_ PrepareForEval UnmarshalPolicy data = Err err)
  /\ (forall p, known_ops p = false -> is_ok (NewFromPolicy PrepareForEval p) = false).
Proof.
  split_and!.
  - intros p Hp. assert (Hv : policy.Validate p = Ok tt).
    { unfold texts.policy_Parse in Hp. gosimp Hp. by apply Ok_inj in Hp as <-. }
    apply validated_known in Hv. rewrite <- compile_known in Hv. apply is_ok_true in Hv as [src Hs]. exists src. split; [done|].
    split; intros x Hx; unfold New_, NewFromPolicy; rewrite Hp; cbn [rbind]; rewrite Hs; cbn [rbind wrap]; by rewrite Hx.
  - intros err He. unfold New_. by rewrite He.
  - intros p Hk. rewrite <- compile_known in Hk. unfold NewFromPolicy. by destruct (compileModule p).
Qed.

Lemma Evaluate_Ok e a d :
  Evaluate Eval MarshalValue UnmarshalDecision e a = Ok d ->
  exists v raw, Eval evalTimeout (query e) (types.Context a) = Ok [[v]] /\ MarshalValue v = Ok raw /\ UnmarshalDecision raw = Ok d
    /\ types.Reason d <> ""%string /\ types.RuleFired d <> ""%string.
Proof.
  unfold Evaluate. intros H. apply rbind_Ok in H as (rs & Hr & H). rewrite wrap_Ok in Hr.
  destruct rs as [|[|v [|]] [|]]; try discriminate. gosimp H. apply Ok_inj in H as <-. exists v, a0. destruct Ha1. by split_and!.
Qed.

(** failing closed.  An enforcement point whose policy is asked of the engine
    records one entry for a decided request.  It allows only when the engine
    answered in time with exactly one value, that value decodes to an allow that
    states its rule and reason, and that rule is the one recorded; whatever else
    the engine does, the decision is a denial that says so. *)
Theorem engine_fails_closed p e req now d p' r :
  enforce.evaluator p = as_evaluator Eval MarshalValue UnmarshalDecision e ->
  enforce.Handle p req now d = (p', inl r) ->
  audit.entries (enforce.log p') = audit.entries (enforce.log p) ++ [enforce.Entry r]
  /\ audit.Decision (enforce.Entry r) = enforce.Decision r
  /\ (types.Allowed (enforce.Decision r) = true ->
      exists v raw dec, Eval evalTimeout (query e) (types.Context (enforce.Action req)) = Ok [[v]]
        /\ MarshalValue v = Ok raw /\ UnmarshalDecision raw = Ok dec
        /\ types.Allowed dec = true /\ types.Reason dec <> ""%string /\ types.RuleFired dec <> ""%string
        /\ types.RuleFired (enforce.Decision r) = types.RuleFired dec
        /\ types.Consequential (enforce.Decision r) = types.Consequential dec)
  /\ (forall err, Evaluate Eval MarshalValue UnmarshalDecision e (enforce.Action req) = Err err ->
      enforce.Decision r = enforce.deny types.zero_decision ("policy evaluation failed: " +:+ Error err)).
Proof.
  intros He Hh. pose proof (enforce.Handle_cases p req now d) as H. rewrite Hh in H.
  destruct H as (ch & p1 & _ & _ & _ & Hd & ->). destruct (enforce.forward_log p1 (enforce.Entry r)) as (-> & _ & _).
  pose proof (enforce.decided_entry _ _ _ _ _ _ _ _ Hd) as (_ & _ & _ & _ & HD & _ & _ & _ & _ & _ & HE).
  split; [exact HE|]. split; [exact HD|].
  assert (Hdec : exists t seq prev, enforce.Decision r = enforce.decide p req ch t seq prev)
    by (destruct Hd as (? & ? & l & ? & ? & ? & ? & HH & ?); eauto).
  destruct Hdec as (t & seq & prev & ->). split.
  - intros (d0 & (Hev & Ha & _ & _) & Hc)%enforce.decide_allowed. rewrite Hc.
    unfold enforce.evaluate in Hev. rewrite He in Hev. cbn [as_evaluator] in Hev.
    destruct (Evaluate _ _ _ e _) as [d1|] eqn:E; [|done]. injection Hev as ->.
    destruct (Evaluate_Ok _ _ _ E) as (v & raw & Hv & Hm & Hu & Hr & Hf). exists v, raw, d0.
    unfold enforce.checked_decision. split_and!; try done; destruct (types.Consequential d0) eqn:Ec; done.
  - intros err E. unfold enforce.decide, enforce.evaluate. rewrite He. cbn [as_evaluator]. by rewrite E.
Qed.
End EvaluatorLaws.

(** ** A concrete policy, and an engine that allows *)

#[local] Existing Instance verifier.accepting.
#[local] Existing Instance verifier.ascii_tables.

Definition readable : policy.Policy :=
  policy.mkPolicy "readable-v1"
    (Some [policy.mkRule "high-value" (Some [policy.mkCondition "amount" policy.OpGe "100"]) false true "large transfer"])
    (policy.mkDefault true false "routine by default") true.

(** TestGeneratedSourceIsReadable *)
Fixpoint contains (w b : bytes) : bool :=
  has_prefix w b || match b with [] => false | _ :: b => contains w b end.
Example source_is_readable :
  match compileModule readable with
  | Ok src => forallb (fun w => contains (s2b w) src)
      ["package kessa.policy"; "default decision :="; "matches contains 0 if";
       "considered := matches | {i | some i, _ in uncomparable}"; "i := min(considered)"; "ordering_fields := {";
       "0: [" +:+ dq "amount" +:+ "],"; "# high-value"]%string
  | Err _ => false
  end = true.
Proof. vm_compute. reflexivity. Qed.
(** TestUnsupportedOperatorIsRejectedAtLoad *)
Example unsupported_rejected :
  is_ok (compileModule (policy.mkPolicy "unsupported-v1"
    (Some [policy.mkRule "r" (Some [policy.mkCondition "amount" "~=" "1"]) false false "should not compile"])
    (policy.mkDefault true false "routine") true)) = false.
Proof. vm_compute. reflexivity. Qed.
Example fields_split : Fields "  a b	c  " = ["a"; "b"; "c"]%string.
Proof. vm_compute. reflexivity. Qed.

Definition test_prepare (_ _ : string) (src : bytes) : result bytes := Ok src.
Definition test_eval (timeout : Z) (q : bytes) (_ : gmap string string) : result (list (list bool)) :=
  if (0 <? timeout) && contains (s2b "large transfer") q then Ok [[true]] else Err (New "deadline exceeded").
Definition test_marshal (b : bool) : result bytes := Ok (bool_text b).
Definition test_decision (raw : bytes) : result types.Decision :=
  if raw =?b s2b "true" then Ok (types.mkDecision true false "default" "readable-v1" 0 "routine by default") else Err (New "shape").
Definition test_evaluator : Evaluator (Query := bytes) :=
  match NewFromPolicy test_prepare readable with Ok e => e | Err _ => mkEvaluator "" [] [] end.
Definition test_point : enforce.Proxy :=
  enforce.mkProxy verifier.test_proxy (as_evaluator test_eval test_marshal test_decision test_evaluator) None "" chain.test_resolver
    (verifier.Status verifier.test_inputs) (audit.NewLog verifier.test_proxy) ∅ false [] [] None.
Definition allowed_of (x : enforce.Proxy * (enforce.Result + enforce.failure)) : bool :=
  match x with (_, inl r) => types.Allowed (enforce.Decision r) | _ => false end.
Lemma test_allowed : allowed_of (enforce.Handle test_point enforce.test_request enforce.test_now wal.DiskOK) = true.
Proof. vm_compute. reflexivity. Qed.

Lemma engine_fails_closed_witness :
  exists p' r v raw, enforce.Handle test_point enforce.test_request enforce.test_now wal.DiskOK = (p', inl r)
    /\ test_eval evalTimeout (query test_evaluator) (types.Context (enforce.Action enforce.test_request)) = Ok [[v]]
    /\ test_marshal v = Ok raw.
Proof.
  pose proof test_allowed as A. destruct (enforce.Handle _ _ _ _) as [p' [r|f]] eqn:E; [|discriminate A].
  destruct (engine_fails_closed test_eval test_marshal test_decision test_point test_evaluator enforce.test_request enforce.test_now
    wal.DiskOK p' r eq_refl E) as (_ & _ & H & _).
  destruct (H A) as (v & raw & _ & Hv & Hm & _). exists p', r, v, raw. exact (conj eq_refl (conj Hv Hm)).
Defined.
(** A nil slice of rules and an empty one are written alike. *)
Definition bare (rules : slice policy.Rule) : policy.Policy := policy.mkPolicy "v1" rules (policy.mkDefault false true "gated") true.
Lemma readable_plain : plain_policy readable.
Proof.
  split; [vm_compute; reflexivity|]. split; [vm_compute; reflexivity|]. constructor; [|constructor].
  split; [vm_compute; reflexivity|]. split; [vm_compute; reflexivity|]. constructor; [|constructor]. split; vm_compute; reflexivity.
Qed.
Lemma bare_plain rules : elems rules = [] -> plain_policy (bare rules).
Proof. intros E. split; [vm_compute; reflexivity|]. split; [vm_compute; reflexivity|]. cbn [bare policy.Rules]. by rewrite E. Qed.

Lemma module_determines_policy_witness :
  (exists s, compileModule readable = Ok s /\ forall a, policy.Evaluate readable a = policy.Evaluate readable a)
  /\ forall a, policy.Evaluate (bare None) a = policy.Evaluate (bare (Some [])) a.
Proof.
  split.
  - destruct (compileModule readable) as [s|] eqn:E; [|exfalso; revert E; vm_compute; discriminate]. exists s. split; [reflexivity|].
    assert (V : policy.Validate readable = Ok tt) by (vm_compute; reflexivity).
    apply (module_determines_policy readable readable s readable_plain readable_plain V V E E).
  - destruct (compileModule (bare None)) as [s|] eqn:E; [|exfalso; revert E; vm_compute; discriminate].
    apply (module_determines_policy (bare None) (bare (Some [])) s); [by apply bare_plain..|vm_compute; reflexivity|vm_compute; reflexivity|exact E|].
    rewrite <- E. reflexivity.
Defined.
End opaeval.
