(* ===== verification/Ingress.v ===== *)
(** internal/enforce (ingress.go): the two guards both listeners apply before a
    request can reach the chokepoint. *)
From S2P Require Import Prelude GoFmt GoPath Webhost GoNet.

Module ingress.

(** A plain-text answer: [http.Error]. *)
Record refusal := mkRefusal { status : Z; message : string }.

Definition StatusBadRequest : Z := 400.
Definition StatusForbidden : Z := 403.
Definition StatusRequestEntityTooLarge : Z := 413.
Definition StatusUnsupportedMediaType : Z := 415.

Definition isLoopbackHost (host : bytes) : bool :=
  if bool_decide (host = s2b "localhost") then true
  else match ParseIP host with Some ip => IsLoopback ip | None => false end.

Definition originAllowed (r : http_request) : bool :=
  match Values r "Origin" with
  | [] => true
  | [origin] =>
      match URL_Parse (s2b origin) with
      | Ok u => if bool_decide (Host u = []) then false else isLoopbackHost (Hostname u)
      | Err _ => false
      end
  | _ => false
  end.

Definition hasJSONContentType {CT : CaseTables} (r : http_request) : bool :=
  let ct := Get r "Content-Type" in
  if ct =?s "" then false
  else match ParseMediaType ct with Ok mt => mt =?s "application/json" | Err _ => false end.

Definition forbidden : refusal :=
  mkRefusal StatusForbidden "forbidden: cross-origin request to a local enforcement endpoint".
Definition unsupported : refusal :=
  mkRefusal StatusUnsupportedMediaType "unsupported media type: this endpoint accepts application/json".

(** [None] when the request may proceed. *)
Definition checkIngress {CT : CaseTables} (r : http_request) (bodyExpected : bool) : option refusal :=
  if negb (originAllowed r) then Some forbidden
  else if bodyExpected && negb (hasJSONContentType r) then Some unsupported
  else None.

(** The value, whether it was present, and whether it was repeated. *)
Definition singleHeader (r : http_request) (name : string) : string * bool * bool :=
  match Values r name with
  | [] => (""%string, false, false)
  | [v] => (v, true, false)
  | _ => (""%string, true, true)
  end.

(** ** Which origins pass *)

Lemma last_index_notin x i b : x ∉ b -> last_index x i b = None.
Proof.
  revert i. induction b as [|y b IH]; intros i; [done|]. rewrite not_elem_of_cons. intros [Hy Hb]. cbn [last_index].
  rewrite IH by done. by rewrite bool_decide_false by congruence.
Qed.
Lemma cut_at_notin x b : x ∉ b -> cut_at x b = (b, None).
Proof.
  induction b as [|y b IH]; [done|]. rewrite not_elem_of_cons. intros [Hy Hb]. cbn [cut_at].
  rewrite bool_decide_false by congruence. by rewrite IH.
Qed.
Lemma cut_at_app x a b : x ∉ a -> cut_at x (a ++ x :: b) = (a, Some b).
Proof.
  induction a as [|y a IH]; [cbn; by rewrite bool_decide_true|]. rewrite not_elem_of_cons. intros [Hy Ha].
  cbn [cut_at app]. rewrite bool_decide_false by congruence. by rewrite IH.
Qed.
Lemma last_index_app x i a b : x ∉ b -> last_index x i (a ++ x :: b) = Some (i + length a)%nat.
Proof.
  intros Hb. revert i. induction a as [|y a IH]; intros i; cbn [last_index app].
  - rewrite last_index_notin by done. rewrite bool_decide_true by done. simpl. by rewrite Nat.add_0_r.
  - rewrite IH. f_equal. simpl. lia.
Qed.

Lemma scheme_found all seen sch r :
  forallb is_alpha sch = true -> seen ++ sch <> [] -> scheme_from all seen (sch ++ Byte.x3a :: r) = Ok (seen ++ sch, r).
Proof.
  revert seen. induction sch as [|c sch IH]; intros seen; cbn [forallb app scheme_from].
  - rewrite app_nil_r. intros _ Hn. change (is_alpha Byte.x3a) with false.
    change (is_digit Byte.x3a || bool_decide (Byte.x3a ∈ s2b "+-.")) with false. change (byte_is Byte.x3a 58) with true.
    cbn [negb]. by rewrite bool_decide_false.
  - intros [Hc Hs]%andb_true_iff _. rewrite Hc. rewrite IH; [by rewrite <- app_assoc|done|]. by destruct seen.
Qed.

(** The bytes of a DNS name or of a dotted address, and of the port after it. *)
Definition name_byte (c : Byte.byte) : bool := webhost.isHostByte c || byte_is c 46.
Definition plain_name (b : bytes) : Prop := b <> [] /\ forallb name_byte b = true.
Definition port_text (p : option bytes) : bytes := match p with Some p => Byte.x3a :: p | None => [] end.
Definition plain_port (p : option bytes) : Prop := forall d, p = Some d -> forallb is_digit d = true.

Definition auth_byte (c : Byte.byte) : bool := name_byte c || byte_is c 58.
Lemma auth_byte_ok c :
  auth_byte c = true ->
  (is_ctl c || byte_is c 37 || shouldEscape encodeHost c
   || bool_decide (c ∈ [Byte.x23; Byte.x3f; Byte.x2f; Byte.x40; Byte.x5b; Byte.x5d])) = false.
Proof. by destruct c. Qed.
Lemma auth_notin b x :
  forallb auth_byte b = true -> x ∈ [Byte.x23; Byte.x3f; Byte.x2f; Byte.x40; Byte.x5b; Byte.x5d] -> x ∉ b.
Proof.
  rewrite forallb_forall. intros Hb Hx Hin. apply list_elem_of_In in Hin. apply Hb, auth_byte_ok in Hin.
  rewrite !orb_false_iff in Hin. destruct Hin as [_ Hin]. by apply bool_decide_eq_false in Hin.
Qed.
Lemma unescape_auth z b : forallb auth_byte b = true -> unescape_host z b = Ok b.
Proof.
  induction b as [|c b IH]; [done|]. cbn [forallb unescape_host]. intros [Hc Hb]%andb_true_iff.
  apply auth_byte_ok in Hc. rewrite !orb_false_iff in Hc. destruct Hc as [[[_ Hp] He] _].
  rewrite Hp, He, andb_false_r, IH by done. done.
Qed.
Lemma name_no_colon name : forallb name_byte name = true -> Byte.x3a ∉ name.
Proof. rewrite forallb_forall. intros Hb Hin%list_elem_of_In. by apply Hb in Hin. Qed.
Lemma digit_no_colon p : forallb is_digit p = true -> Byte.x3a ∉ p.
Proof. rewrite forallb_forall. intros Hb Hin%list_elem_of_In. by apply Hb in Hin. Qed.
Lemma auth_of name port : plain_name name -> plain_port port -> forallb auth_byte (name ++ port_text port) = true.
Proof.
  intros [_ Hn] Hp. rewrite forallb_app, andb_true_iff. split.
  - rewrite forallb_forall in *. intros c Hc. unfold auth_byte. by rewrite Hn.
  - destruct port as [p|]; [|done]. specialize (Hp p eq_refl). cbn [port_text forallb]. rewrite andb_true_iff. split; [done|].
    rewrite forallb_forall in *. intros c Hc. specialize (Hp c Hc). revert Hp. clear. by destruct c.
Qed.

Lemma parseHost_plain name port :
  plain_name name -> plain_port port -> parseHost (name ++ port_text port) = Ok (name ++ port_text port).
Proof.
  intros Hn Hp. pose proof (auth_of _ _ Hn Hp) as Ha. destruct Hn as [_ Hn]. unfold parseHost.
  rewrite last_index_notin by (apply (auth_notin _ _ Ha); set_solver).
  destruct port as [p|]; cbn [port_text] in *.
  - rewrite cut_at_app by by apply name_no_colon. unfold check_port, validOptionalPort. rewrite (Hp p eq_refl). cbn.
    by apply unescape_auth.
  - rewrite app_nil_r in *. rewrite cut_at_notin by by apply name_no_colon. cbn. by apply unescape_auth.
Qed.

Lemma Hostname_plain sch name port path :
  plain_name name -> plain_port port -> Hostname (mkURL sch (name ++ port_text port) path) = name.
Proof.
  intros Hn Hp. unfold Hostname, splitHostPort. cbn [Host].
  assert (Hb : has_prefix (s2b "[") name = false).
  { destruct Hn as [Hne Hn]. destruct name as [|c name]; [done|]. cbn [forallb] in Hn. apply andb_true_iff in Hn as [Hc _].
    revert Hc. clear. by destruct c. }
  destruct port as [p|]; cbn [port_text].
  - specialize (Hp p eq_refl). rewrite last_index_app by by apply digit_no_colon. cbn [Nat.add].
    rewrite drop_app_length, take_app_length. unfold validOptionalPort. rewrite Hp. cbn [byte_is andb].
    change (byte_is Byte.x3a 58) with true. cbn [andb]. by rewrite Hb.
  - rewrite app_nil_r. destruct Hn as [_ Hn]. rewrite last_index_notin by by apply name_no_colon. by rewrite Hb.
Qed.

Lemma URL_Parse_origin sch name port :
  sch <> [] -> forallb is_alpha sch = true -> plain_name name -> plain_port port ->
  URL_Parse (sch ++ s2b "://" ++ name ++ port_text port)
  = Ok (mkURL (b2s (map lower_byte sch)) (name ++ port_text port) []).
Proof.
  intros Hne Hs Hn Hp. pose proof (auth_of _ _ Hn Hp) as Ha. set (auth := name ++ port_text port) in *.
  assert (Hall : forall x, x ∈ [Byte.x23; Byte.x3f] -> x ∉ sch ++ s2b "://" ++ auth).
  { intros x Hx. rewrite !not_elem_of_app. split_and!.
    - rewrite forallb_forall in Hs. intros Hin%list_elem_of_In. apply Hs in Hin. revert Hin Hx. clear. set_unfold.
      intros H [->|[->|[]]]; done.
    - revert Hx. clear. set_unfold. intros [->|[->|[]]] H; set_solver.
    - apply (auth_notin _ _ Ha). set_solver. }
  unfold URL_Parse. rewrite cut_at_notin by (apply Hall; set_solver).
  assert (Hctl : existsb is_ctl (sch ++ s2b "://" ++ auth) = false).
  { rewrite <- not_true_iff_false, existsb_exists. intros (c & Hc & Hctl). rewrite !in_app_iff in Hc.
    destruct Hc as [Hc|[Hc|Hc]].
    - rewrite forallb_forall in Hs. apply Hs in Hc. revert Hc Hctl. clear. by destruct c.
    - simpl in Hc. destruct Hc as [<-|[<-|[<-|[]]]]; done.
    - rewrite forallb_forall in Ha. apply Ha, auth_byte_ok in Hc. rewrite Hctl in Hc. done. }
  rewrite Hctl. cbn [reject_if rbind]. rewrite bool_decide_false.
  2: { destruct sch as [|c sch]; [done|]. cbn [forallb] in Hs. apply andb_true_iff in Hs as [Hs _]. intros [= -> _]. done. }
  unfold getScheme. change (s2b "://" ++ auth) with (Byte.x3a :: (s2b "//" ++ auth)).
  rewrite scheme_found by done. cbn [rbind fst snd app]. unfold parse_rest.
  rewrite (cut_at_notin Byte.x3f). 2: { pose proof (Hall Byte.x3f) as H. rewrite !not_elem_of_app in *. set_solver. }
  cbn [fst]. change (has_prefix [slash] (s2b "//" ++ auth)) with true. cbn [negb andb].
  rewrite bool_decide_true by done. change (has_prefix [slash; slash] (s2b "//" ++ auth)) with true. cbn [orb andb].
  change (drop 2 (s2b "//" ++ auth)) with auth. rewrite (cut_at_notin slash) by (apply (auth_notin _ _ Ha); set_solver).
  unfold parseAuthority. rewrite last_index_notin by (apply (auth_notin _ _ Ha); set_solver).
  unfold auth. rewrite parseHost_plain by done. done.
Qed.

(** A dotted IPv4 address in 127.0.0.0/8. *)
Definition dotted_loopback (name : bytes) : bool :=
  ipv4_ok name && bool_decide (octet_value (cut_at Byte.x2e name).1 = 127).

Lemma split_head x b : head (split_bytes x b) = Some (cut_at x b).1.
Proof.
  induction b as [|y b IH]; [done|]. cbn [split_bytes cut_at]. case_bool_decide; [done|].
  destruct (cut_at x b) as [p q]. destruct (split_bytes x b); [done|]. simpl in *. by injection IH as ->.
Qed.

Lemma plain_address name :
  plain_name name -> ParseAddr name = if ipv4_ok name then Some Addr4 else None.
Proof.
  intros [_ Hn]. unfold ParseAddr.
  assert (H : forall b, forallb name_byte b = true ->
    parse_addr_from name b = if bool_decide (Byte.x2e ∈ b) then (if ipv4_ok name then Some Addr4 else None) else None).
  { induction b as [|c b IH]; [done|]. cbn [forallb parse_addr_from]. intros [Hc Hb]%andb_true_iff. rewrite IH by done.
    destruct (decide (c = Byte.x2e)) as [->|Hne].
    { rewrite !bool_decide_true by (done || apply list_elem_of_here). done. }
    rewrite (bool_decide_false (c = Byte.x2e)) by done. rewrite (bool_decide_false (c = Byte.x3a)) by (intros ->; done). rewrite (bool_decide_false (c = Byte.x25)) by (intros ->; done).
    rewrite (bool_decide_ext (Byte.x2e ∈ c :: b) (Byte.x2e ∈ b)); [done|]. rewrite elem_of_cons. naive_solver. }
  rewrite H by done. case_bool_decide as Hd; [done|]. destruct (ipv4_ok name) eqn:E; [|done]. exfalso.
  unfold ipv4_ok in E. apply andb_true_iff in E as [E _].
  assert (Hs : split_bytes Byte.x2e name = [name]).
  { clear -Hd. induction name as [|c b IH]; [done|]. apply not_elem_of_cons in Hd as [Hc Hb]. cbn [split_bytes].
    rewrite bool_decide_false by congruence. by rewrite IH. }
  by rewrite Hs in E.
Qed.

Lemma plain_loopback name :
  plain_name name -> isLoopbackHost name = bool_decide (name = s2b "localhost") || dotted_loopback name.
Proof.
  intros Hn. unfold isLoopbackHost, dotted_loopback, ParseIP. case_bool_decide; [done|]. rewrite plain_address by done.
  destruct (ipv4_ok name); [|done]. cbn [andb orb]. unfold IsLoopback. rewrite bool_decide_true by done.
  apply bool_decide_ext. unfold v4_bytes. pose proof (split_head Byte.x2e name) as Hh.
  destruct (split_bytes Byte.x2e name) as [|f fs]; [done|]. injection Hh as Hf. rewrite <- Hf.
  change ((v4_prefix ++ map octet_value (f :: fs)) !! 12%nat) with (Some (octet_value f)). split; congruence.
Qed.

(** which origins pass the guard: a request without the header does, one that
    repeats it does not, and of the origins a browser serializes for a DNS name
    or a dotted address (any scheme, with or without a port) exactly those on
    the name localhost or in 127.0.0.0/8 do: no name that merely contains such
    text, and no site behind a rebound name, passes. *)
Theorem browser_origins r sch name port :
  sch <> [] -> forallb is_alpha sch = true -> plain_name name -> plain_port port ->
  (Values r "Origin" = [] -> originAllowed r = true)
  /\ (1 < len (Values r "Origin") -> originAllowed r = false)
  /\ (Values r "Origin" = [b2s (sch ++ s2b "://" ++ name ++ port_text port)] ->
      originAllowed r = bool_decide (name = s2b "localhost") || dotted_loopback name).
Proof.
  intros Hne Hs Hn Hp. unfold originAllowed. split_and!.
  - by intros ->.
  - destruct (Values r "Origin") as [|a [|b l]]; [done|done|done].
  - intros ->. rewrite s2b_b2s, URL_Parse_origin by done. cbn [Host].
    rewrite bool_decide_false by (destruct Hn as [Hn _]; by destruct name).
    by rewrite Hostname_plain, plain_loopback.
Qed.

(** The guard refuses what is not a JSON body with an allowed origin. *)
Lemma checkIngress_None {CT : CaseTables} r body :
  checkIngress r body = None <-> originAllowed r = true /\ (body = true -> hasJSONContentType r = true).
Proof.
  unfold checkIngress. destruct (originAllowed r); simpl; [|naive_solver].
  destruct body, (hasJSONContentType r); simpl; naive_solver.
Qed.

(** ** Concrete requests *)

Definition with_origin (o : string) : http_request :=
  mkHttp "POST" "/enforce" {[ "Origin"%string := [o] ]} [] None.
Lemma browser_origins_witness :
  originAllowed (with_origin "https://localhost.evil.example:8443") = false.
Proof.
  refine (eq_trans (proj2 (proj2 (browser_origins _ (s2b "https") (s2b "localhost.evil.example") (Some (s2b "8443")) _ _ _ _)) _) _).
  - done.
  - reflexivity.
  - split; [done|reflexivity].
  - intros d [= <-]. reflexivity.
  - reflexivity.
  - vm_compute. reflexivity.
Defined.
Example other_origins :
  originAllowed (with_origin "http://127.0.0.1:9000") = true /\ originAllowed (with_origin "http://[::1]:9000") = true
  /\ originAllowed (with_origin "null") = false /\ originAllowed (with_origin "http://127.0.0.1.evil.example") = false
  /\ originAllowed (with_origin "http://localhost@evil.example") = false /\ originAllowed (with_origin "") = false.
Proof. by vm_compute. Qed.

End ingress.
