(* ===== verification/Listeners.v ===== *)
(** cmd/proxy (main.go): the addresses the proxy listens on, the refusal to
    bind a reachable one, and the choice of the listeners that are started. *)
From S2P Require Import Prelude GoFmt GoPath Webhost GoNet Ingress.

(** ** net.SplitHostPort and strings.Trim *)

Definition SplitHostPort (hostport : bytes) : result (bytes * bytes) :=
  let fail why := Err (Errorf "address %s: %s" [AStr (b2s hostport); AStr why]) in
  let unexpected j k host i :=
    if bool_decide (Byte.x5b ∈ drop j hostport) then fail "unexpected '[' in address"
    else if bool_decide (Byte.x5d ∈ drop k hostport) then fail "unexpected ']' in address"
    else Ok (host, drop (S i) hostport) in
  match last_index Byte.x3a 0 hostport with
  | None => fail "missing port in address"
  | Some i =>
      if has_prefix [Byte.x5b] hostport then
        match cut_at Byte.x5d hostport with
        | (_, None) => fail "missing ']' in address"
        | (upto, Some []) => fail "missing port in address"
        | (upto, Some (c :: _)) =>
            let e := length upto in
            if bool_decide (S e = i) then unexpected 1%nat (S e) (drop 1 upto) i
            else if bool_decide (c = Byte.x3a) then fail "too many colons in address"
            else fail "missing port in address"
        end
      else if bool_decide (Byte.x3a ∈ take i hostport) then fail "too many colons in address"
      else unexpected 0%nat 0%nat (take i hostport) i
  end.

(** [strings.Trim(b, "[]")] *)
Definition bracket (c : Byte.byte) : bool := bool_decide (c = Byte.x5b) || bool_decide (c = Byte.x5d).
Fixpoint drop_brackets (b : bytes) : bytes :=
  match b with c :: r => if bracket c then drop_brackets r else b | [] => [] end.
Definition trim_brackets (b : bytes) : bytes := rev (drop_brackets (rev (drop_brackets b))).

Module listeners.

(** ** The addresses (main.go) *)

Definition isLoopbackAddr (addr : string) : bool :=
  let addr := TrimSpace addr in
  if addr =?s "" then true
  else
    match SplitHostPort (s2b addr) with
    | Err _ => false
    | Ok (host, _) =>
        let host := trim_brackets host in
        if bool_decide (host = []) then false
        else if bool_decide (host = s2b "localhost") then true
        else match ParseIP host with Some ip => IsLoopback ip | None => false end
    end.

Definition enabled (addr : string) : bool := negb (TrimSpace addr =?s "").
Fixpoint anyListenerEnabled (addrs : list string) : bool :=
  match addrs with
  | [] => false
  | a :: addrs => if enabled a then true else anyListenerEnabled addrs
  end.

(** The message to print, and whether to proceed. *)
Definition newline : string := b2s [Byte.x0a].
Definition warning (remote : list string) : string :=
  "kessa-proxy: WARNING: serving " +:+ Join remote ", " +:+ " without caller authentication. "
  +:+ "Anyone who can reach this address may submit requests; an export from this "
  +:+ "deployment is enough to have entries refused-and-recorded against it. "
  +:+ "See the README's Known limits." +:+ newline.
Definition refusal (remote : list string) : string :=
  "kessa-proxy: refusing to bind non-loopback address " +:+ Join remote ", " +:+ ": the listeners have no caller authentication."
  +:+ newline +:+ "  Bind 127.0.0.1 instead, or pass --allow-unauthenticated-remote if you accept that"
  +:+ newline +:+ "  anyone who can reach this address may submit requests (containerized serving needs"
  +:+ newline +:+ "  this, because a container's loopback is unreachable through -p)." +:+ newline.
Definition refuseRemoteBind (addrs : list string) (allow : bool) : string * bool :=
  let remote := List.filter (fun a => negb (isLoopbackAddr a)) addrs in
  if bool_decide (remote = []) then (""%string, true)
  else if allow then (warning remote, true) else (refusal remote, false).

(** A configured front end; both handlers serve the one proxy. *)
Inductive front := HTTP | MCP.
Record listener := mkListener { name : string; addr : string; handler : front }.
Definition enabledListeners (ls : list listener) : list listener := List.filter (fun l => enabled (addr l)) ls.

(** The server of a listener: its address and the limits it sets, in seconds
    and bytes, none of them the zero that means no limit. *)
Record server := mkServer
  { Addr : string; Handler : front; ReadHeaderTimeout : Z; ReadTimeout : Z; WriteTimeout : Z; IdleTimeout : Z;
    MaxHeaderBytes : Z }.
Definition readHeaderTimeout : Z := 10.
Definition readTimeout : Z := 30.
Definition writeTimeout : Z := 120.
Definition idleTimeout : Z := 60.
Definition maxHeaderBytes : Z := Z.shiftl 64 10.
Definition newServer (addr : string) (h : front) : server :=
  mkServer addr h readHeaderTimeout readTimeout writeTimeout idleTimeout maxHeaderBytes.

(** ** What the gate lets through *)

Lemma drop_brackets_id b : forallb (fun c => negb (bracket c)) b = true -> drop_brackets b = b.
Proof. destruct b as [|c b]; [done|]. cbn [forallb drop_brackets]. intros [Hc _]%andb_true_iff. by destruct (bracket c). Qed.
Lemma trim_brackets_id b : Byte.x5b ∉ b -> Byte.x5d ∉ b -> trim_brackets b = b.
Proof.
  intros Ha Hb. assert (H : forall l, Byte.x5b ∉ l -> Byte.x5d ∉ l -> forallb (fun c => negb (bracket c)) l = true).
  { intros l H1 H2. apply forallb_forall. intros c Hc%list_elem_of_In. unfold bracket.
    rewrite !bool_decide_false; [done| |]; intros ->; done. }
  unfold trim_brackets. rewrite (drop_brackets_id b) by auto.
  rewrite drop_brackets_id; [apply rev_involutive|]. apply H; by rewrite list_elem_of_In, <- in_rev, <- list_elem_of_In.
Qed.

(** A host and a port without brackets or further colons are split there. *)
Lemma SplitHostPort_plain h p :
  Byte.x3a ∉ h -> Byte.x5b ∉ h -> Byte.x5d ∉ h -> Byte.x3a ∉ p -> Byte.x5b ∉ p -> Byte.x5d ∉ p ->
  SplitHostPort (h ++ Byte.x3a :: p) = Ok (h, p).
Proof.
  intros H1 H2 H3 P1 P2 P3. unfold SplitHostPort. rewrite ingress.last_index_app by done. cbn [Nat.add].
  assert (Hp : has_prefix [Byte.x5b] (h ++ Byte.x3a :: p) = false).
  { destruct h as [|c h]; [done|]. apply not_elem_of_cons in H2 as [Hc _]. cbn [app has_prefix]. by rewrite bool_decide_false. }
  rewrite Hp, take_app_length. rewrite (bool_decide_false (Byte.x3a ∈ h)) by done.
  assert (Hn : forall c, c ∉ h -> c <> Byte.x3a -> c ∉ p -> c ∉ h ++ Byte.x3a :: p) by (intros c ? ? ?; set_solver).
  rewrite !drop_0, (bool_decide_false (Byte.x5b ∈ _)), (bool_decide_false (Byte.x5d ∈ _)) by by apply Hn.
  f_equal. f_equal. change (S (length h)) with (1 + length h)%nat. rewrite Nat.add_comm, <- drop_drop, drop_app_length. done.
Qed.
Lemma SplitHostPort_bracketed h p :
  Byte.x5b ∉ h -> Byte.x5d ∉ h -> Byte.x3a ∉ p -> Byte.x5b ∉ p -> Byte.x5d ∉ p ->
  SplitHostPort (Byte.x5b :: h ++ Byte.x5d :: Byte.x3a :: p) = Ok (h, p).
Proof.
  intros H2 H3 P1 P2 P3. unfold SplitHostPort.
  change (Byte.x5b :: h ++ Byte.x5d :: Byte.x3a :: p) with ((Byte.x5b :: h) ++ Byte.x5d :: Byte.x3a :: p).
  assert (E : (Byte.x5b :: h) ++ Byte.x5d :: Byte.x3a :: p = ((Byte.x5b :: h) ++ [Byte.x5d]) ++ Byte.x3a :: p) by by rewrite <- app_assoc.
  rewrite E at 1. rewrite ingress.last_index_app by done. cbn [Nat.add].
  change (has_prefix [Byte.x5b] ((Byte.x5b :: h) ++ Byte.x5d :: Byte.x3a :: p)) with true. cbv iota.
  rewrite ingress.cut_at_app by (rewrite not_elem_of_cons; done).
  assert (El : S (length (Byte.x5b :: h)) = length ((Byte.x5b :: h) ++ [Byte.x5d])) by (rewrite length_app; simpl; lia).
  rewrite bool_decide_true by exact El. change (drop 1 (Byte.x5b :: h)) with h.
  rewrite (bool_decide_false (Byte.x5b ∈ _)).
  2: { change (drop 1 ((Byte.x5b :: h) ++ ?x)) with (h ++ x). rewrite elem_of_app, !elem_of_cons. intros [?|[?|[?|?]]]; done. }
  rewrite El, E, drop_app_length. rewrite bool_decide_false by (rewrite elem_of_cons; intros [?|?]; done).
  f_equal. f_equal. change (S (length ((Byte.x5b :: h) ++ [Byte.x5d]))) with (1 + length ((Byte.x5b :: h) ++ [Byte.x5d]))%nat.
  by rewrite Nat.add_comm, <- drop_drop, drop_app_length.
Qed.

Lemma cut_at_Some x b u r : cut_at x b = (u, Some r) -> b = u ++ x :: r /\ x ∉ u.
Proof.
  revert u. induction b as [|y b IH]; intros u; cbn [cut_at]; [done|]. case_bool_decide as Hy.
  - intros [= <- <-]. subst y. split; [done|apply not_elem_of_nil].
  - destruct (cut_at x b) as [u' q]. intros [= <- ->]. destruct (IH u' eq_refl) as [-> Hu]. split; [done|].
    by apply not_elem_of_cons.
Qed.

(** A host that was split off has no bracket left. *)
Lemma SplitHostPort_host b h p : SplitHostPort b = Ok (h, p) -> Byte.x5b ∉ h /\ Byte.x5d ∉ h.
Proof.
  unfold SplitHostPort. destruct (last_index Byte.x3a 0 b) as [i|]; [|done]. destruct (has_prefix [Byte.x5b] b).
  - destruct (cut_at Byte.x5d b) as [u [[|c r]|]] eqn:E; [done| |done]. apply cut_at_Some in E as [-> Hu].
    case_bool_decide as Hi; [|by case_bool_decide]. case_bool_decide as H1; [done|]. case_bool_decide as H2; [done|].
    intros [= <- _]. split; [|intros Hin; apply Hu; rewrite <- (take_drop 1 u), elem_of_app; by right].
    intros Hin. apply H1. destruct u as [|x u]; [by apply not_elem_of_nil in Hin|]. cbn [drop app] in *. rewrite drop_0 in *. set_solver.
  - case_bool_decide; [done|]. case_bool_decide as H1; [done|]. case_bool_decide as H2; [done|]. rewrite drop_0 in H1, H2.
    intros [= <- _]. rewrite <- (take_drop i b) in H1, H2. set_solver.
Qed.

(** An address that reaches this machine only: none, or one whose host the
    origin guard of the listeners would accept. *)
Definition local (a : string) : Prop :=
  TrimSpace a = ""%string
  \/ exists host port, SplitHostPort (s2b (TrimSpace a)) = Ok (host, port) /\ ingress.isLoopbackHost host = true.

Lemma isLoopbackAddr_local a : isLoopbackAddr a = true <-> local a.
Proof.
  unfold isLoopbackAddr, local. destruct (TrimSpace a =?s "") eqn:E; [apply str_eqb_true in E; naive_solver|].
  apply str_eqb_false in E. destruct (SplitHostPort (s2b (TrimSpace a))) as [[h p]|e] eqn:Es; [|naive_solver].
  destruct (SplitHostPort_host _ _ _ Es) as [H1 H2]. rewrite trim_brackets_id by done. unfold ingress.isLoopbackHost.
  case_bool_decide as Hh; [subst h; split; [done|]; intros [?|(? & ? & [= <- <-] & H)]; [done|by vm_compute in H]|].
  naive_solver.
Qed.

Lemma anyListenerEnabled_iff ls :
  anyListenerEnabled (map addr ls) = true <-> enabledListeners ls <> [].
Proof.
  induction ls as [|l ls IH]; [done|]. cbn [map anyListenerEnabled enabledListeners List.filter].
  destruct (enabled (addr l)); [done|exact IH].
Qed.

(** C28: the bind gate.  Without the opt-in the proxy proceeds exactly when every
    address is cleared or names this machine, by the same rule that decides which
    origins its listeners accept; it is silent exactly then, opt-in or not.  For
    the addresses an operator writes this means localhost or 127.0.0.0/8 for a
    name or dotted address with a port, and the loopback address for a bracketed
    one; a bare port is refused.  The check that some listener is enabled agrees
    with the listeners that are then started. *)
Theorem bind_gate addrs allow :
  ((refuseRemoteBind addrs allow).2 = true <-> allow = true \/ Forall local addrs)
  /\ ((refuseRemoteBind addrs allow).1 = ""%string <-> Forall local addrs)
  /\ (forall a h p, ingress.plain_name h -> forallb is_digit p = true -> TrimSpace a = b2s (h ++ Byte.x3a :: p) ->
        local a <-> h = s2b "localhost" \/ ingress.dotted_loopback h = true)
  /\ (forall a h p, Byte.x5b ∉ h -> Byte.x5d ∉ h -> forallb is_digit p = true ->
        TrimSpace a = b2s (Byte.x5b :: h ++ Byte.x5d :: Byte.x3a :: p) -> local a <-> ingress.isLoopbackHost h = true)
  /\ (forall a p, forallb is_digit p = true -> TrimSpace a = b2s (Byte.x3a :: p) -> ~ local a)
  /\ forall ls, map addr ls = addrs -> anyListenerEnabled addrs = true <-> enabledListeners ls <> [].
Proof.
  assert (Hall : List.filter (fun a => negb (isLoopbackAddr a)) addrs = [] <-> Forall local addrs).
  { induction addrs as [|a addrs IH]; [done|]. cbn [List.filter]. rewrite Forall_cons, <- isLoopbackAddr_local.
    destruct (isLoopbackAddr a); cbn [negb]; [rewrite IH; naive_solver|naive_solver]. }
  assert (Hd : forall p x, forallb is_digit p = true -> is_digit x = false -> x ∉ p).
  { intros p x Hp Hx Hin%list_elem_of_In. rewrite forallb_forall in Hp. by rewrite Hp in Hx. }
  assert (Hloc : forall a h p, SplitHostPort (s2b (TrimSpace a)) = Ok (h, p) -> TrimSpace a <> ""%string ->
                   local a <-> ingress.isLoopbackHost h = true).
  { intros a h p Hs Hn. unfold local. rewrite Hs. naive_solver. }
  split_and!.
  - unfold refuseRemoteBind. rewrite <- Hall. case_bool_decide; destruct allow; simpl; naive_solver.
  - unfold refuseRemoteBind. rewrite <- Hall. case_bool_decide; destruct allow; simpl; naive_solver.
  - intros a h p Hn Hp Ha. assert (Hx : forall x, ingress.name_byte x = false -> x ∉ h).
    { intros x Hx Hin%list_elem_of_In. destruct Hn as [_ Hn]. rewrite forallb_forall in Hn. by rewrite Hn in Hx. }
    rewrite (Hloc a h p); [|rewrite Ha, s2b_b2s; apply SplitHostPort_plain; auto|by rewrite Ha; destruct h].
    rewrite ingress.plain_loopback, orb_true_iff, bool_decide_eq_true by done. done.
  - intros a h p H1 H2 Hp Ha.
    apply (Hloc a h p); [rewrite Ha, s2b_b2s; apply SplitHostPort_bracketed; auto|by rewrite Ha].
  - intros a p Hp Ha. rewrite (Hloc a [] p); [by vm_compute|rewrite Ha, s2b_b2s|by rewrite Ha].
    apply (SplitHostPort_plain [] p); auto; apply not_elem_of_nil.
  - intros ls <-. apply anyListenerEnabled_iff.
Qed.

Example addresses :
  map isLoopbackAddr ["127.0.0.1:8181"; " localhost:1 "; "[::1]:80"; ""; ":8181"; "0.0.0.0:80"; "[::]:80"; "127.0.0.1"; "::1"; "localhost.evil:80"]%string
  = [true; true; true; true; false; false; false; false; false; false].
Proof. by vm_compute. Qed.
End listeners.
