(* ===== verification/Issuercmd.v ===== *)
(** cmd/issuer (main.go, enroll.go): the publish, revoke and enroll commands
    around the operations of [Issuer] and [Enroll]: their flags, what they read,
    and what their exit code says; and which directory a static host serves. *)
From S2P Require Import Prelude GoFmt GoTime GoCrypto GoPath GoJson GoJsonText GoIndent Webhost Types Signer Keystore Did Status Macaroon.
From S2P Require Import Credential Chain AuditLog Export Texts Enroll Issuer Ingress Listeners.

Module issuercmd.

Definition exitOK : Z := 0.
Definition exitUsage : Z := 2.
Definition exit_code {A} (r : result A) : Z := if is_ok r then exitOK else exitUsage.

(** ** The repeatable --caveat (enroll.go): field:op:value, cut at the first two
    colons *)
Definition caveatList_Set (c : list macaroon.Caveat) (s : string) : result (list macaroon.Caveat) :=
  let bad := Err (Errorf "caveat %q must be field:op:value" [AStr s]) in
  match cut_at colon (s2b s) with
  | (field, Some rest) =>
      match cut_at colon rest with
      | (op, Some value) => Ok (c ++ [macaroon.mkCaveat (b2s field) (b2s op) (b2s value)])
      | (_, None) => bad
      end
  | (_, None) => bad
  end.
Fixpoint caveats_Set (c : list macaroon.Caveat) (l : list string) : result (list macaroon.Caveat) :=
  match l with [] => Ok c | s :: l => let! c := caveatList_Set c s in caveats_Set c l end.

Section Commands.
Context {CR : Crypto} {CT : CaseTables} {SK : signer.SeedKeys}.
(** encoding/json's strict reading of a specification and of a keystore, which
    [Config] models; and its other decoders. *)
Context (loadSpec : string -> result issuer.Spec) (loadKeystore : string -> result keystore.Keystore).
Context (url_Parse : string -> result status.ParsedURL) (Unmarshal_list : bytes -> result status.published).

(** ** Publishing and revoking (main.go) *)

Definition loadInputs (specPath ksPath : string) : result (issuer.Spec * keystore.Keystore) :=
  check! reject_if ((specPath =?s "") || (ksPath =?s "")) (New "--spec and --keystore are required");
  let! spec := loadSpec specPath in
  let! ks := loadKeystore ksPath in
  Ok (spec, ks).

Definition cmdPublish (specPath ksPath root chainOut : string) (a : issuer.answers) (fs : files.files)
  : files.files * result issuer.Result :=
  match loadInputs specPath ksPath with
  | Err e => (fs, Err e)
  | Ok (spec, ks) => issuer.publish url_Parse spec ks root chainOut a fs
  end.
Definition cmdRevoke (specPath ksPath root : string) (index : Z) (clear : bool) (mkdir : option error) (a : files.answer)
  (fs : files.files) : files.files * result bytes :=
  if index <? 0 then (fs, Err (New "--index is required and must be >= 0"))
  else
    match loadInputs specPath ksPath with
    | Err e => (fs, Err e)
    | Ok (spec, ks) => issuer.revoke url_Parse Unmarshal_list spec ks root index clear mkdir a fs
    end.

(** ** The document root of a host (main.go): [entries] are the publication
    root's, with whether each is a directory *)
Definition SiteRoot (root host : string) (entries : result (list (string * bool))) : result bytes :=
  if negb (host =?s "") then Ok (filepath_Join [s2b root; s2b host])
  else
    let! entries := wrap (fun e => Errorf "read publication root %q: %w" [AStr root; AErr e]) entries in
    match map fst (List.filter (fun e : string * bool => e.2) entries) with
    | [h] => Ok (filepath_Join [s2b root; s2b h])
    | hosts => Err (Errorf "publication root %q holds %d hosts %v; pass --host to choose one"
                      [AStr root; AInt (len hosts); AStr ("[" +:+ Join hosts " " +:+ "]")])
    end.

(** ** Enrolling (enroll.go) *)

Record flags := mkFlags
  { identity : string; deviceDID : types.DID; orgDID : types.DID; ksPath : string; rootKeyHex : string; rootKeyFile : string;
    fetchOrgDID : bool; identifier : string; location : string; statusURL : string; statusIndex : Z; root : string;
    mappingPath : string; out : string; softwareKey : bool; seedHex : string; tag : string; yes : bool; caveats : list string }.

(** What the command reads: files, and the standard input. *)
Context (ReadFile : string -> result bytes) (stdin : bytes) (Unmarshal_document : bytes -> result did.Document)
  (serve : URL -> did.response).

Definition http_resolver (host : bytes) : did.Resolver :=
  fun d => (did.HTTP_Resolve Unmarshal_document (did.mkHTTPResolver "" [b2s host]) serve d).1.

(** The inline key, or the file's, which prevails. *)
Definition root_hex (fl : flags) : result string :=
  if negb (rootKeyFile fl =?s "") then
    let! b := wrap (fun e => Errorf "read --root-key-file: %v" [AErr e]) (ReadFile (rootKeyFile fl)) in Ok (TrimSpace (b2s b))
  else Ok (rootKeyHex fl).

(** [cmdEnroll] up to the ceremony. *)
Definition config_of (fl : flags) : result enroll.Config :=
  let! cavs := caveats_Set [] (caveats fl) in
  let! rootHex := root_hex fl in
  check! reject_if
    ((identity fl =?s "") || (deviceDID fl =?s "") || (orgDID fl =?s "") || (ksPath fl =?s "") || (rootHex =?s "")
     || (identifier fl =?s "") || (statusURL fl =?s "") || (statusIndex fl <? 0))
    (New "--identity, --did, --org-did, --keystore, one of --root-key-file/--root-key-hex, --identifier, --status-url, and --status-index are required");
  let! ks := loadKeystore (ksPath fl) in
  let! orgSigner := keystore.Signer ks (orgDID fl) in
  let! rootKey := wrap (fun e => Errorf "org macaroon root key is not hex: %v" [AErr e]) (DecodeString rootHex) in
  let! seed := if negb (seedHex fl =?s "") then
                 wrap (fun e => Errorf "--seed-hex is not hex: %v" [AErr e]) (DecodeString (seedHex fl))
               else Ok [] in
  let device := enroll.mkDevice (softwareKey fl) seed
                  (s2b (if negb (tag fl =?s "") then tag fl else "kessa-issuer:" +:+ deviceDID fl)) in
  let! resolver := if fetchOrgDID fl then
                     let! hp := wrap (fun e => Errorf "--fetch-org-did: %v" [AErr e]) (did.ParseWebHost (orgDID fl)) in
                     Ok (Some (http_resolver hp.1))
                   else Ok None in
  Ok (enroll.mkConfig (identity fl) (deviceDID fl) (orgDID fl) (Some orgSigner) rootKey (identifier fl) (location fl) cavs
        (statusURL fl) (statusIndex fl) (root fl) resolver (mappingPath fl) (out fl) device
        (Some (enroll.TOFU (enroll.mkTOFU (Some stdin) (yes fl))))).

Context (pl : enroll.Platform) (Unmarshal : bytes -> result did.Document) (decode : bytes -> result enroll.Mapping).
Definition cmdEnroll (fl : flags) (now : time) (a : enroll.answers) (w : enroll.world) : enroll.world * result enroll.Result :=
  match config_of fl with
  | Err e => (w, Err e)
  | Ok c => enroll.Enroll pl Unmarshal decode c now a w
  end.
End Commands.

(** ** What the flags say *)

(** The flag that a caveat is written as. *)
Definition spelled (s : string) (v : macaroon.Caveat) : Prop :=
  s = (macaroon.Field v +:+ ":" +:+ macaroon.COp v +:+ ":" +:+ macaroon.Value v)%string
  /\ colon ∉ s2b (macaroon.Field v) /\ colon ∉ s2b (macaroon.COp v).

Lemma caveatList_Set_Ok c s c' : caveatList_Set c s = Ok c' <-> exists v, c' = c ++ [v] /\ spelled s v.
Proof.
  unfold caveatList_Set, spelled. split.
  - destruct (cut_at colon (s2b s)) as [f [rest|]] eqn:E1; [|done]. destruct (cut_at colon rest) as [o [v|]] eqn:E2; [|done].
    apply listeners.cut_at_Some in E1 as [E1 Hf], E2 as [-> Ho]. intros [= <-]. eexists. split; [done|].
    cbn [macaroon.Field macaroon.COp macaroon.Value]. rewrite !s2b_b2s. split_and!; [|done..].
    apply (inj s2b). by rewrite E1, !s2b_append, !s2b_b2s.
  - intros ([f o v] & -> & -> & Hf & Ho). cbn [macaroon.Field macaroon.COp macaroon.Value] in *. rewrite !s2b_append.
    change (s2b ":") with [colon]. cbn [app]. rewrite ingress.cut_at_app by done. rewrite ingress.cut_at_app by done. by rewrite !b2s_s2b.
Qed.
Lemma caveats_Set_Ok l c c' : caveats_Set c l = Ok c' <-> exists vs, c' = c ++ vs /\ Forall2 spelled l vs.
Proof.
  revert c. induction l as [|s l IH]; intros c; cbn [caveats_Set].
  - split; [intros [= <-]; exists []; by rewrite app_nil_r|]. intros (vs & -> & ->%Forall2_nil_inv_l). by rewrite app_nil_r.
  - split.
    + intros H. gosimp H. apply caveatList_Set_Ok in Ha as (v & -> & Hv). apply IH in H as (vs & -> & Hvs).
      exists (v :: vs). rewrite <- app_assoc. by split; [|constructor].
    + intros (vs & -> & (v & vs' & Hv & Hvs & ->)%Forall2_cons_inv_l).
      rewrite (proj2 (caveatList_Set_Ok c s (c ++ [v]))) by eauto. cbn [rbind]. apply IH. exists vs'. by rewrite <- app_assoc.
Qed.

Section Enrolling.
Context {CR : Crypto} {CT : CaseTables} {SK : signer.SeedKeys} {SL : signer.SeedLaws}.
Context (loadKeystore : string -> result keystore.Keystore) (ReadFile : string -> result bytes) (stdin : bytes)
  (Unmarshal_document : bytes -> result did.Document) (serve : URL -> did.response).

Lemma validate_rest c s :
  enroll.Identity c <> ""%string -> enroll.DeviceDID c <> ""%string -> enroll.OrgDID c <> ""%string -> enroll.OrgSigner c = Some s ->
  signer.DID s = enroll.OrgDID c -> enroll.Identifier c <> ""%string -> enroll.StatusURL c <> ""%string -> (enroll.StatusIndex c <? 0) = false ->
  is_ok (enroll.validate c) = true <->
    enroll.DeviceDID c <> enroll.OrgDID c /\ enroll.MacaroonRootKey c <> [] /\ enroll.Root c <> ""%string
    /\ enroll.MappingPath c <> ""%string /\ enroll.CredentialOut c <> ""%string.
Proof.
  intros Hi Hd Ho Hs Hsd Hid Hu Hx. unfold enroll.validate. apply str_eqb_false in Hi, Hd, Ho, Hid, Hu.
  rewrite Hi, Hd, Ho, Hs, Hsd, str_eqb_refl, Hid, Hu, Hx. cbn [reject_if rbind negb].
  assert (Hk : (len (enroll.MacaroonRootKey c) =? 0) = false <-> enroll.MacaroonRootKey c <> []).
  { destruct (enroll.MacaroonRootKey c); by split. }
  rewrite <- Hk, <- !str_eqb_false. destruct (enroll.DeviceDID c =?s enroll.OrgDID c), (len _ =? 0), (enroll.Root c =?s _), (enroll.MappingPath c =?s _), (enroll.CredentialOut c =?s _);
    cbn; intuition congruence.
Qed.

(** Every request of the organization's resolution is on its own host. *)
Lemma own_host d host segs :
  did.ParseWebHost d = Ok (host, segs) ->
  match (did.HTTP_Resolve Unmarshal_document (did.mkHTTPResolver "" [b2s host]) serve d).2 with
  | [] => True
  | origin :: made => did.chain_ok origin (origin :: made) /\ Host origin = host
  end.
Proof.
  intros Hp. pose proof (did.http_resolution_confined Unmarshal_document (did.mkHTTPResolver "" [b2s host]) serve d) as X.
  destruct (did.HTTP_Resolve _ _ _ _) as [r [|origin made]]; cbn [snd]; [done|]. destruct X as ((Hc & _ & segs' & Hp' & _) & _).
  split; [done|]. unfold did.ParseWebHost in Hp. rewrite Hp in Hp'. by injection Hp' as -> _.
Qed.

(** the ceremony that kessa-issuer enroll runs is the one its flags spell.
    The grant carries the caveats in the order they were given, each cut at its
    first two colons, so an instant keeps its own; the root key is the file's when
    one is named; the credential is signed with the keystore's key of the
    organization, whose identifier it carries; nothing but the remaining paths, an
    empty root key or a device named as its own organization is left for the
    ceremony's validation to refuse; and with --fetch-org-did every request of the
    organization's resolution goes to the host its identifier names. *)
Theorem enroll_flags fl c :
  config_of loadKeystore ReadFile stdin Unmarshal_document serve fl = Ok c ->
  Forall2 spelled (caveats fl) (enroll.Caveats c)
  /\ (exists hex, root_hex ReadFile fl = Ok hex /\ hex <> ""%string /\ DecodeString hex = Ok (enroll.MacaroonRootKey c)
       /\ (rootKeyFile fl <> ""%string -> exists b, ReadFile (rootKeyFile fl) = Ok b /\ hex = TrimSpace (b2s b)))
  /\ (exists ks s, loadKeystore (ksPath fl) = Ok ks /\ keystore.Signer ks (orgDID fl) = Ok s
       /\ enroll.OrgSigner c = Some s /\ signer.DID s = enroll.OrgDID c /\ signer.Sound s)
  /\ (is_ok (enroll.validate c) = true <->
         deviceDID fl <> orgDID fl /\ enroll.MacaroonRootKey c <> [] /\ root fl <> ""%string /\ mappingPath fl <> ""%string /\ out fl <> ""%string)
  /\ (if fetchOrgDID fl then
        exists host segs, did.ParseWebHost (orgDID fl) = Ok (host, segs)
        /\ enroll.Resolver c = Some (http_resolver Unmarshal_document serve host)
        /\ match (did.HTTP_Resolve Unmarshal_document (did.mkHTTPResolver "" [b2s host]) serve (orgDID fl)).2 with
           | [] => True
           | origin :: made => did.chain_ok origin (origin :: made) /\ Host origin = host
           end
      else enroll.Resolver c = None).
Proof.
  unfold config_of. intros H. gosimp H. apply Ok_inj in H as <-. destruct Ha1 as (((((((Hi & Hd) & Ho) & _) & Hx) & Hid) & Hu) & Hn).
  destruct (keystore.Signer_Ok _ _ _ Ha3) as (Hs & Hsound & _). cbn [enroll.Caveats enroll.MacaroonRootKey enroll.OrgSigner enroll.OrgDID enroll.Resolver].
  split_and!.
  - apply caveats_Set_Ok in Ha as (vs & -> & Hv). exact Hv.
  - exists a0. split_and!; [done..|]. intros Hf%str_eqb_false. revert Ha0. unfold root_hex. rewrite Hf. cbn [negb]. intros H0. gosimp H0. apply Ok_inj in H0 as <-. by eexists.
  - exists a1, a2. by split_and!.
  - exact (validate_rest (enroll.mkConfig _ _ _ _ _ _ _ _ _ _ _ _ _ _ _ _) a2 Hi Hd Ho eq_refl Hs Hid Hu Hn).
  - destruct (fetchOrgDID fl); [|by apply Ok_inj in Ha6 as <-]. gosimp Ha6. apply Ok_inj in Ha6 as <-. destruct a6 as [host segs].
    exists host, segs. split_and!; [done..|]. by apply (own_host _ _ segs).
Qed.
End Enrolling.

(** ** A concrete command line *)

#[local] Instance no_signatures : Crypto :=
  {| ed25519_Verify := fun _ _ _ => true; ecdsa_VerifyASN1 := fun _ _ _ _ => true; p256_NewPublicKey_ok := fun _ => false |}.
#[local] Instance ascii_case : CaseTables := {| UnicodeLower := fun r => r |}.
#[local] Instance padded_keys : signer.SeedKeys :=
  {| signer.ed25519_NewKeyFromSeed := fun seed => take 32 (seed ++ repeat Byte.x00 32);
     signer.ed25519_Sign := fun _ _ => [Byte.x01]; signer.p256_NewPrivateKey := fun _ => None;
     signer.ecdsa_SignASN1 := fun _ _ => Err (New "no key") |}.
#[local] Instance padded_laws : signer.SeedLaws.
Proof.
  split; [|done..]. intros s. unfold len. cbn [signer.ed25519_NewKeyFromSeed padded_keys].
  rewrite length_take, length_app, repeat_length. unfold signer.ed25519_PublicKeySize. lia.
Qed.
Fixpoint hex_seed (n : nat) (b : string) : string := match n with O => "" | S n => b +:+ hex_seed n b end.
Definition test_flags : flags :=
  mkFlags "ana@org.example" "did:web:ana.example" "did:web:org.example" "keys.json" "ff" "root.hex" true "grant-1" "" "https://org.example/status.json" 3
    "public" "map.json" "cred.json" true "" "" true ["expiry:<:2027-01-01T00:00:00Z"; "amount:<=:100"].
Definition test_keys (_ : string) : result keystore.Keystore := Ok {[ "did:web:org.example"%string := hex_seed 32 "01" ]}.
Definition test_read (p : string) : result bytes := if p =?s "root.hex" then Ok (s2b "00aa " ++ [Byte.x0a]) else Err (New "no such file").
Definition unreadable (_ : bytes) : result did.Document := Err (New "?").
Definition refused (_ : URL) : did.response := did.TransportError (New "refused").
Definition test_config : result enroll.Config := config_of test_keys test_read [] unreadable refused test_flags.
Definition root_key_read : bool :=
  match test_config with Ok c => enroll.MacaroonRootKey c =?b [Byte.x00; Byte.xaa] | Err _ => false end.

Lemma enroll_flags_witness :
  exists c, test_config = Ok c /\ enroll.MacaroonRootKey c = [Byte.x00; Byte.xaa]
    /\ Forall2 spelled (caveats test_flags) (enroll.Caveats c).
Proof.
  assert (H : root_key_read = true) by (vm_compute; reflexivity). unfold root_key_read in H.
  destruct test_config as [c|e] eqn:E; [|discriminate H]. exists c. split; [reflexivity|].
  split; [apply bytes_eqb_true, H|].
  exact (proj1 (enroll_flags test_keys test_read [] unreadable refused test_flags c E)).
Defined.

Example site_roots :
  SiteRoot "public" "" (Ok [("org.example"%string, true); ("README"%string, false)]) = Ok (s2b "public/org.example")
  /\ is_ok (SiteRoot "public" "" (Ok [("a.example"%string, true); ("b.example"%string, true)])) = false.
Proof. split; vm_compute; reflexivity. Qed.
End issuercmd.
