(* ===== verification/Flags.v ===== *)
(** The repeatable key=value flags of the commands: [strings.Cut] at the first
    equals sign, and what such a pair can say. *)
From S2P Require Import Prelude Webhost Ingress Listeners.

(** [strings.Cut(spec, "=")] *)
Definition equals : Byte.byte := Byte.x3d.
Definition cut_pair (spec : string) : option (string * string) :=
  match cut_at equals (s2b spec) with
  | (url, Some path) => Some (b2s url, b2s path)
  | (_, None) => None
  end.

Definition plain_url (url : string) : Prop := equals ∉ s2b url.
Lemma cut_pair_Some spec url path :
  cut_pair spec = Some (url, path) <-> spec = url +:+ "=" +:+ path /\ plain_url url.
Proof.
  unfold cut_pair, plain_url. split.
  - destruct (cut_at equals (s2b spec)) as [u [r|]] eqn:E; [|done]. intros [= <- <-].
    apply listeners.cut_at_Some in E as [E Hu]. rewrite s2b_b2s. split; [|done].
    apply (inj s2b). by rewrite !s2b_append, !s2b_b2s, E.
  - intros [-> Hu]. rewrite !s2b_append. change (s2b "=") with [equals]. cbn [app]. rewrite ingress.cut_at_app by done.
    by rewrite !b2s_s2b.
Qed.

Lemma cut_at_None_notin x b u : cut_at x b = (u, None) -> x ∉ b.
Proof.
  revert u. induction b as [|y b IH]; intros u; cbn [cut_at]; [intros _; apply not_elem_of_nil|].
  case_bool_decide; [done|]. destruct (cut_at x b) as [p [q|]]; [done|]. intros _. apply not_elem_of_cons. split; [done|by eapply IH].
Qed.
Lemma plain_or_split url : plain_url url \/ exists u r, url = u +:+ "=" +:+ r /\ plain_url u.
Proof.
  unfold plain_url. destruct (cut_at equals (s2b url)) as [u [r|]] eqn:E; [right|left; by eapply cut_at_None_notin].
  apply listeners.cut_at_Some in E as [E Hu]. exists (b2s u), (b2s r). rewrite s2b_b2s. split; [|done].
  apply (inj s2b). by rewrite !s2b_append, !s2b_b2s.
Qed.

