(* ===== verification/Http.v ===== *)
(** internal/enforce (http.go): the localhost HTTP transport over the
    chokepoint, and the client of the same wire protocol. *)
From S2P Require Import Prelude GoFmt GoTime GoCrypto GoPath GoJson GoJsonText Webhost GoNet Types Signer Did Status Policy Macaroon.
From S2P Require Import Credential Chain AuditLog Export Texts Verifier Auditsink Wal Enforce Ingress.

Module http.

Definition maxRequestBody : Z := 1048576.

Definition StatusOK : Z := 200.
Definition StatusUnprocessableEntity : Z := 422.
Definition StatusInternalServerError : Z := 500.

(** A plain-text answer, a JSON body with status 200, or an answer of the
    request multiplexer (not found, method not allowed, redirect). *)
Inductive reply := Text (status : Z) (message : string) | Json (body : bytes) | Mux.

Definition status_of (r : reply) : option Z :=
  match r with Text s _ => Some s | Json _ => Some StatusOK | Mux => None end.

(** ** The wire forms *)

Definition PoP_json (p : credential.PoP) : json :=
  JObj (field "nonce" (j_slice j_bytes (credential.Nonce p)) ++ field "signature" (j_slice j_bytes (credential.Pop_Signature p))).
Definition Request_json (r : enforce.Request) : result json :=
  let! ch := match enforce.Chain r with Some c => texts.Chain_json c | None => Ok JNull end in
  let! a := types.Action_json (enforce.Action r) in
  Ok (JObj (field "chain" ch ++ field "action" a ++ field "pop" (PoP_json (enforce.PoP r))
            ++ str_field_omit "approver" (enforce.Approver r) ++ bytes_field_omit "approval" (enforce.Approval r))).
Definition Result_json (r : enforce.Result) : result json :=
  let! e := audit.Entry_json (enforce.Entry r) in
  Ok (JObj (field "decision" (types.Decision_json (enforce.Decision r)) ++ field "entry" e)).
Definition Tip_json (t : Z * bytes) : json := JObj (field "seq" (JInt t.1) ++ field "prevHash" (j_bytes t.2)).

(** [json.NewEncoder(w).Encode(v)] with its error ignored: nothing is written
    when the value cannot be encoded. *)
Definition Encode (j : result json) : reply :=
  Json (match Marshal j with Ok b => b ++ [Byte.x0a] | Err _ => [] end).

Section Handler.
Context {CR : Crypto} {UT : UnicodeTables} {CT : CaseTables}.

(** [Decode] of encoding/json on the bytes that can be read: a complete first
    value or a syntax error, or [None] when the value is still incomplete; the
    flag tells whether these bytes are the whole input. *)
Context (first_value : bytes -> bool -> option (result enforce.Request)).

Definition failure_error (f : enforce.failure) : error :=
  match f with enforce.Unattributable u => enforce.UnattributableError_Error u | enforce.Failure e => e end.

Definition refused (f : ingress.refusal) : reply := Text (ingress.status f) (ingress.message f).
Definition bad_request (e : error) : reply := Text ingress.StatusBadRequest ("bad request: " +:+ Error e).

Definition decode_body (r : http_request) : enforce.Request + reply :=
  let '(b, fin) := max_body maxRequestBody r in
  match first_value b (match fin with BodyEOF => true | _ => false end) with
  | Some (Ok req) => inl req
  | Some (Err e) => inr (bad_request e)
  | None =>
      inr match fin with
          | BodyTooLarge => Text ingress.StatusRequestEntityTooLarge "request body too large"
          | BodyBroken e => bad_request e
          | BodyEOF => bad_request (New (if forallb is_ws b then "EOF" else "unexpected EOF"))
          end
  end.

Definition serve_enforce (px : enforce.Proxy) (r : http_request) (now : time) (d : wal.disk) : enforce.Proxy * reply :=
  match ingress.checkIngress r true with
  | Some f => (px, refused f)
  | None =>
      match decode_body r with
      | inr rep => (px, rep)
      | inl req =>
          match enforce.Handle px req now d with
          | (px, inr f) => (px, Text StatusUnprocessableEntity (Error (failure_error f)))
          | (px, inl res) => (px, Encode (Result_json res))
          end
      end
  end.
Definition serve_tip (px : enforce.Proxy) (r : http_request) : reply :=
  match ingress.checkIngress r false with
  | Some f => refused f
  | None => Encode (Ok (Tip_json (enforce.Tip px)))
  end.
Definition serve_export (px : enforce.Proxy) (r : http_request) : reply :=
  match ingress.checkIngress r false with
  | Some f => refused f
  | None =>
      match (let! exp := enforce.Export px in texts.Export_Marshal exp) with
      | Err e => Text StatusInternalServerError (Error e)
      | Ok data => Json data
      end
  end.

(** The three patterns; GET also matches HEAD. *)
Definition is_get (m : string) : bool := (m =?s "GET") || (m =?s "HEAD").
Definition Handler (px : enforce.Proxy) (r : http_request) (now : time) (d : wal.disk) : enforce.Proxy * reply :=
  if (Method r =?s "POST") && (UPath r =?s "/enforce") then serve_enforce px r now d
  else if is_get (Method r) && (UPath r =?s "/tip") then (px, serve_tip px r)
  else if is_get (Method r) && (UPath r =?s "/export") then (px, serve_export px r)
  else (px, Mux).

(** ** The client *)

Definition trimmed (b : bytes) : string :=
  b2s (rev ((fix go (l : bytes) : bytes :=
               match l with c :: r => if byte_is c 10 || byte_is c 32 then go r else l | [] => [] end) (rev b))).

(** What [Submit] returns: a result, an [ErrRejected], or another error. *)
Inductive submission := Decided (r : enforce.Result) | ErrRejected (reason : string) | SubmitFailed (e : error).
Definition ErrRejected_Error (reason : string) : string := "proxy rejected request: " +:+ reason.

(** [Post] sends a JSON body to a URL and reads the response; the decoder of a
    result is encoding/json's. *)
Definition Submit (Post : string -> bytes -> result (Z * bytes)) (decode : bytes -> result enforce.Result)
  (baseURL : string) (req : enforce.Request) : submission :=
  match wrap (fun e => Errorf "enforce: marshal request: %w" [AErr e]) (Marshal (Request_json req)) with
  | Err e => SubmitFailed e
  | Ok body =>
      match wrap (fun e => Errorf "enforce: POST %s/enforce: %w" [AStr baseURL; AErr e]) (Post (baseURL +:+ "/enforce") body) with
      | Err e => SubmitFailed e
      | Ok (status, respBody) =>
          if status =? StatusOK then
            match wrap (fun e => Errorf "enforce: decode result: %w" [AErr e]) (decode respBody) with
            | Ok res => Decided res
            | Err e => SubmitFailed e
            end
          else if status =? StatusUnprocessableEntity then ErrRejected (trimmed respBody)
          else SubmitFailed (Errorf "enforce: proxy returned %d: %s" [AInt status; AStr (trimmed respBody)])
      end
  end.
Definition FetchTip (Get : string -> result (Z * bytes)) (decode : bytes -> result (Z * bytes)) (baseURL : string)
  : result (Z * bytes) :=
  let! resp := wrap (fun e => Errorf "enforce: GET %s/tip: %w" [AStr baseURL; AErr e]) (Get (baseURL +:+ "/tip")) in
  check! reject_if (negb (resp.1 =? StatusOK))
    (Errorf "enforce: /tip returned %d: %s" [AInt resp.1; AStr (trimmed resp.2)]);
  wrap (fun e => Errorf "enforce: decode tip: %w" [AErr e]) (decode resp.2).

(** ** What reaches the chokepoint *)

(** The requests that do. *)
Definition admitted (r : http_request) (req : enforce.Request) : Prop :=
  Method r = "POST"%string /\ UPath r = "/enforce"%string /\ ingress.originAllowed r = true
  /\ ingress.hasJSONContentType r = true /\ decode_body r = inl req.

(** C15: an HTTP request changes the proxy only through [Handle], and only when
    it is a POST to /enforce with an acceptable origin, a JSON body, and a
    first value within the first mebibyte that decodes to a request; the
    answer is then 200 with exactly the decision taken, or 422 for every
    refusal, a durable log that cannot be written included.  Nothing else has
    an effect, whatever it is answered. *)
Theorem only_handle_changes px r now d :
  (exists req, admitted r req
     /\ (Handler px r now d).1 = (enforce.Handle px req now d).1
     /\ match (enforce.Handle px req now d).2 with
        | inl res => (Handler px r now d).2 = Encode (Result_json res)
        | inr f => (Handler px r now d).2 = Text 422 (Error (failure_error f))
        end)
  \/ (~ (exists req, admitted r req)) /\ (Handler px r now d).1 = px.
Proof.
  unfold Handler, admitted.
  destruct ((Method r =?s "POST") && (UPath r =?s "/enforce")) eqn:E.
  - apply andb_true_iff in E as [Em%str_eqb_true Ep%str_eqb_true]. unfold serve_enforce.
    destruct (ingress.checkIngress r true) as [f|] eqn:Ec.
    { right. split; [|done]. intros (req & _ & _ & Ho & Hj & _).
      assert (Hn : ingress.checkIngress r true = None) by (by apply ingress.checkIngress_None). congruence. }
    apply ingress.checkIngress_None in Ec as [Ho Hj]. destruct (decode_body r) as [req|rep] eqn:Ed.
    + left. exists req. split; [split_and!; [done..|by apply Hj|done]|].
      by destruct (enforce.Handle px req now d) as [px' [res|f]].
    + right. split; [|done]. by intros (req & _ & _ & _ & _ & ?).
  - right. assert (Hn : ~ (Method r = "POST"%string /\ UPath r = "/enforce"%string)).
    { intros [Hm Hp]. by rewrite Hm, Hp in E. }
    split; [intros (req & ? & ? & _); tauto|]. by repeat case_match.
Qed.

(** The bytes beyond the cap are never seen by the decoder. *)
Lemma decode_body_capped r r' :
  maxRequestBody < len (Body r) -> maxRequestBody < len (Body r') ->
  take (Z.to_nat maxRequestBody) (Body r) = take (Z.to_nat maxRequestBody) (Body r') -> decode_body r = decode_body r'.
Proof.
  intros H1 H2 Ht. unfold decode_body, max_body. apply Z.ltb_lt in H1, H2. by rewrite H1, H2, Ht.
Qed.

(** ** The client and the handler speak one protocol *)

Definition json_post (body : bytes) : http_request :=
  mkHttp "POST" "/enforce" {[ "Content-Type"%string := ["application/json"%string] ]} body None.
(** The transport between them; [http.Error] ends its text with a newline. *)
Definition transport (px : enforce.Proxy) (now : time) (d : wal.disk) (url : string) (body : bytes) : result (Z * bytes) :=
  Ok match (Handler px (json_post body) now d).2 with
     | Text s m => (s, s2b m ++ [Byte.x0a])
     | Json b => (StatusOK, b)
     | Mux => (404, [])
     end.

Lemma json_post_passes body : ingress.checkIngress (json_post body) true = None.
Proof.
  apply ingress.checkIngress_None. split; [done|]. intros _. unfold ingress.hasJSONContentType.
  change (Get (json_post body) "Content-Type") with "application/json"%string. unfold ParseMediaType.
  rewrite ToLower_ascii by (change (cut_at Byte.x3b (s2b "application/json")).1 with (s2b "application/json"); repeat constructor).
  vm_compute. reflexivity.
Qed.

Lemma trimmed_newline b : trimmed (b ++ [Byte.x0a]) = trimmed b.
Proof. unfold trimmed. by rewrite rev_app_distr. Qed.

(** Every result that is returned can be encoded: sealing encoded its entry. *)
Lemma result_encodes px req now d res :
  (enforce.Handle px req now d).2 = inl res -> exists b, Marshal (Result_json res) = Ok b.
Proof.
  intros H. pose proof (enforce.Handle_cases px req now d) as Hc. destruct (enforce.Handle px req now d) as [px' r]. simpl in H. subst r.
  destruct Hc as (ch & p1 & _ & _ & _ & (creds & ids & l & s & _ & _ & _ & _ & Hs & _) & _).
  apply audit.Seal_Ok in Hs as (Hu & _ & _ & Hh & _). unfold audit.entryHash, audit.hashInput in Hh. gosimp Hh.
  match goal with Hm : Marshal _ = Ok _ |- _ => unfold Marshal, audit.Entry_json in Hm; gosimp Hm end.
  unfold Result_json, audit.Entry_json, Marshal. unfold audit.unsealed in *.
  cbn [audit.Action audit.Timestamp] in *.
  repeat match goal with Hx : _ = Ok _ |- _ => rewrite Hx; clear Hx end. cbn [rbind]. by eexists.
Qed.

(** the agent's side of the protocol is the proxy's own: submitting a
    request over the transport returns exactly what [Handle] decided, or a
    rejection with its reason, provided the request fits the cap and encoding/json
    reads back what it wrote. *)
Theorem submit_is_handle px now d base req decode body :
  Marshal (Request_json req) = Ok body -> len body <= maxRequestBody -> first_value body true = Some (Ok req) ->
  (forall res b, (enforce.Handle px req now d).2 = inl res -> Marshal (Result_json res) = Ok b ->
     decode (b ++ [Byte.x0a]) = Ok res) ->
  Submit (transport px now d) decode base req
  = match (enforce.Handle px req now d).2 with
    | inl res => Decided res
    | inr f => ErrRejected (trimmed (s2b (Error (failure_error f))))
    end.
Proof.
  intros Hb Hlen Hread Hdec. unfold Submit. rewrite Hb. cbn [wrap]. unfold transport.
  assert (Hh : (Handler px (json_post body) now d).2
               = match (enforce.Handle px req now d).2 with
                 | inl res => Encode (Result_json res)
                 | inr f => Text StatusUnprocessableEntity (Error (failure_error f))
                 end).
  { change (Handler px (json_post body) now d) with (serve_enforce px (json_post body) now d).
    unfold serve_enforce. rewrite json_post_passes. unfold decode_body, max_body. cbn [Body BodyErr json_post].
    apply Z.ltb_ge in Hlen. rewrite Hlen, Hread. by destruct (enforce.Handle px req now d) as [px' [res|f]]. }
  rewrite Hh. pose proof (result_encodes px req now d) as Henc.
  destruct (enforce.Handle px req now d).2 as [res|f].
  - destruct (Henc res eq_refl) as [b Hr]. unfold Encode. rewrite Hr. cbn [wrap]. change (StatusOK =? StatusOK) with true.
    cbn [wrap]. by rewrite (Hdec res b eq_refl Hr).
  - cbn [wrap]. change (StatusUnprocessableEntity =? StatusOK) with false.
    change (StatusUnprocessableEntity =? StatusUnprocessableEntity) with true. cbv iota. by rewrite trimmed_newline.
Qed.
End Handler.

(** ** Concrete requests *)

#[local] Existing Instance verifier.accepting.
#[local] Existing Instance verifier.ascii_tables.
#[local] Instance same_case : CaseTables := Build_CaseTables (fun r => r).

Definition test_px : enforce.Proxy := enforce.test_state None.
Definition test_body : bytes :=
  Eval vm_compute in match Marshal (Request_json enforce.test_request) with Ok b => b | Err _ => [] end.
Definition test_first_value (b : bytes) (ended : bool) : option (result enforce.Request) :=
  if bool_decide (b = test_body) then Some (Ok enforce.test_request) else None.
Definition test_reply : bytes :=
  Eval vm_compute in match Marshal (Result_json enforce.test_answer) with Ok b => b ++ [Byte.x0a] | Err _ => [] end.
Definition test_decode (b : bytes) : result enforce.Result :=
  if bool_decide (b = test_reply) then Ok enforce.test_answer else Err (New "invalid character").

Lemma test_outcome : (enforce.Handle test_px enforce.test_request enforce.test_now wal.DiskOK).2 = inl enforce.test_answer.
Proof. vm_compute. reflexivity. Qed.

Lemma submit_is_handle_witness :
  Submit (transport test_first_value test_px enforce.test_now wal.DiskOK) test_decode "http://127.0.0.1:8443" enforce.test_request
  = Decided enforce.test_answer.
Proof.
  refine (eq_trans (submit_is_handle test_first_value test_px enforce.test_now wal.DiskOK "http://127.0.0.1:8443"
                      enforce.test_request test_decode test_body _ _ _ _) _).
  - vm_compute. reflexivity.
  - vm_compute. discriminate.
  - vm_compute. reflexivity.
  - intros res b Hr Hm. rewrite test_outcome in Hr. injection Hr as <-.
    assert (E : test_reply = b ++ [Byte.x0a]).
    { assert (Hm' : Marshal (Result_json enforce.test_answer) = Ok (removelast test_reply)) by (vm_compute; reflexivity).
      rewrite Hm' in Hm. apply Ok_inj in Hm. subst b. vm_compute. reflexivity. }
    unfold test_decode. rewrite <- E. by rewrite bool_decide_true.
  - by rewrite test_outcome.
Defined.

(** A foreign page's simple request is refused before its body is looked at. *)
Example forged_request :
  Handler test_first_value test_px
    (mkHttp "POST" "/enforce" {[ "Origin"%string := ["https://evil.example"%string]; "Content-Type"%string := ["text/plain"%string] ]}
       test_body None) enforce.test_now wal.DiskOK
  = (test_px, refused ingress.forbidden).
Proof. reflexivity. Qed.

End http.
