(* ===== verification/Proxycmd.v ===== *)
(** cmd/proxy (main.go, config.go): how the enforcement chokepoint is put
    together from files, a key source and two listeners, the configuration file,
    and batch enforcement. *)
From S2P Require Import Prelude GoFmt GoTime GoCrypto GoPath GoJson Webhost Config Types Signer Keystore Did Status Policy.
From S2P Require Import Credential Chain AuditLog Signerd Export Texts Issuer Verifier Auditsink Wal Enforce Ingress Listeners Flags.

Module proxycmd.

(** The order a range over a map takes is any. *)
Class MapOrder := { ranging : forall {A}, list A -> list A; ranging_perm : forall A (l : list A), ranging l ≡ₚ l }.

(** ** The configuration file (config.go) *)

Record keySourceConfig := mkKeySource { BrokerSocket : string; MockKeystore : string }.
Record enforcementPointConfig := mkEnforcementPoint { e_DID : string; Key : keySourceConfig }.
(** [AuditWAL] is the raw text of the field, empty when it is absent. *)
Record Config := mkConfig
  { c_Policy : string; c_DIDs : string; EnforcementPoint : enforcementPointConfig; HTTPAddr : string; MCPAddr : string;
    AllowUnauthenticatedRemote : bool; c_Export : string; c_AuditLog : string; AuditWAL : bytes; c_Status : gmap string string }.

(** The struct, as reflect shows it. *)
Definition fld (name json flag : string) (t : config.ty) (fs : config.fields) : config.fields :=
  config.FCons name json flag true false t fs.
Definition keySource_type : config.ty :=
  config.TStruct (fld "BrokerSocket" "broker_socket,omitempty" "signer-sock" config.TScalar
    (fld "MockKeystore" "mock_keystore,omitempty" "keystore" config.TScalar config.FNil)).
Definition enforcementPoint_type : config.ty :=
  config.TStruct (fld "DID" "did" "enforcement-point" config.TScalar (fld "Key" "key" "" keySource_type config.FNil)).
Definition Config_type : config.ty :=
  config.TStruct
    (fld "Comment" "comment,omitempty" "" config.TScalar
    (fld "Policy" "policy" "policy" config.TScalar
    (fld "DIDs" "dids" "dids" config.TScalar
    (fld "EnforcementPoint" "enforcement_point" "" enforcementPoint_type
    (fld "HTTPAddr" "http_addr,omitempty" "http-addr" config.TScalar
    (fld "MCPAddr" "mcp_addr,omitempty" "mcp-addr" config.TScalar
    (fld "AllowUnauthenticatedRemote" "allow_unauthenticated_remote,omitempty" "allow-unauthenticated-remote" config.TScalar
    (fld "Export" "export,omitempty" "export" config.TScalar
    (fld "AuditLog" "audit_log,omitempty" "audit-log" config.TScalar
    (fld "AuditWAL" "audit_wal" "audit-wal" (config.TCustom (config.TSlice config.TScalar))
    (fld "Status" "status,omitempty" "status" (config.TMap config.TScalar) config.FNil))))))))))).

Definition schemaFlags : gset string := config.FlagNames Config_type.
Definition conflictingFlags (set_ : list string) : list string := config.Conflicting set_ schemaFlags.

Definition blank (s : string) : bool := TrimSpace s =?s "".

Section Validate.
Context {MO : MapOrder} (Unmarshal_string : bytes -> result string).

(** The path that enables durability, or none. *)
Definition auditWAL (c : Config) : result (string * bool) :=
  let raw := trim_right (trim_left (AuditWAL c)) in
  if bool_decide (raw = []) then
    Err (New "audit_wal is required: give a path to enable the durable write-ahead log, or null to run without durability. It has no default because turning it off means an allowed action can be returned and then lost in a crash, which is a decision to take rather than inherit")
  else if raw =?b s2b "null" then Ok (""%string, false)
  else
    let! p := wrap (fun e => Errorf "audit_wal must be a path string or null: %w" [AErr e]) (Unmarshal_string raw) in
    if blank p then
      Err (New ("audit_wal is an empty string; use null to disable durability, so that " +:+ dq "off" +:+ " is stated rather than implied"))
    else Ok (p, true).

Definition required (fields : list (string * string)) : result unit :=
  check_all (fun f : string * string => reject_if (blank f.2) (Errorf "%s is required" [AStr f.1])) fields.
Definition status_entry (e : string * string) : result unit :=
  check! reject_if (blank e.1) (New "status has an empty URL key");
  reject_if (blank e.2) (Errorf "status %q names an empty file" [AStr e.1]).

Definition validate (c : Config) : result unit :=
  check! required (ranging [("policy", c_Policy c); ("dids", c_DIDs c); ("enforcement_point.did", e_DID (EnforcementPoint c))]%string);
  let broker := negb (blank (BrokerSocket (Key (EnforcementPoint c)))) in
  let mock := negb (blank (MockKeystore (Key (EnforcementPoint c)))) in
  check! reject_if (broker && mock)
    (New "enforcement_point.key sets both broker_socket and mock_keystore; name exactly one");
  check! reject_if (negb broker && negb mock)
    (New "enforcement_point.key must set exactly one of broker_socket or mock_keystore");
  let! _ := auditWAL c in
  check_all status_entry (ranging (map_to_list (c_Status c))).

(** [loadConfig]; [None] when the strict reading does not return. *)
Definition loadConfig {FT : config.Folding} (tokens : bytes -> config.stream * error) (decode : bytes -> result (Config * bool))
  (fuel : nat) (path : string) (data : result bytes) : option (result Config) :=
  match config.Load (config.TPointer Config_type) tokens decode fuel path data with
  | None => None
  | Some r =>
      Some (let! cfg := r in
            check! wrap (fun e => Errorf "config %q: %w" [AStr path; AErr e]) (validate cfg);
            Ok cfg)
  end.
End Validate.

(** The status map as the repeatable flag's url=file pairs. *)
Definition statusPairs (c : Config) : list string :=
  merge_sort String.le (map (fun e => e.1 +:+ "=" +:+ e.2) (map_to_list (c_Status c))).

(** ** The world of the process

    The files, what [Stat] says of a path (whether it is a directory), whether
    a file may be opened for appending, and what a socket answers. *)
Record world := mkWorld
  { fs : files.files; stat : string -> result bool; open_refused : string -> option error; dial : string -> signerd.wire }.
Definition with_fs (w : world) (f : files.files) : world := mkWorld f (stat w) (open_refused w) (dial w).

(** A request of the batch file. *)
Record reqSpec := mkReqSpec { ChainFile : string; r_Action : types.Action; r_Nonce : string; r_Approver : types.DID }.

(** The decoders of encoding/json. *)
Class Decoders :=
  { d_keystore : bytes -> result keystore.Keystore; d_policy : bytes -> result texts.policy_fields;
    d_document : bytes -> result did.Document; d_list : bytes -> result status.published;
    d_chain : bytes -> result chain.Chain; d_requests : bytes -> result (list reqSpec);
    d_response : bytes -> result signerd.Response; d_records : wal.decoder }.

Section Proxy.
Context {CR : Crypto} {UT : UnicodeTables} {SK : signer.SeedKeys} {MO : MapOrder} {DE : Decoders}.

(** ** The enforcement point's key (main.go) *)

Definition keystoreSigner (w : world) (ksPath epDID : string) : result (signer.Signer * keystore.Keystore) :=
  let! ks := keystore.Load d_keystore ksPath (files.ReadFile (fs w) (s2b ksPath)) in
  let! ep := wrap (fun e => Errorf "enforcement point: %v" [AErr e]) (keystore.Signer ks epDID) in
  Ok (ep, ks).
Definition brokeredSigner (w : world) (sockPath epDID : string) : result signer.Signer :=
  let! ep := wrap (fun e => Errorf "enforcement point: %v" [AErr e]) (signerd.Dial d_response (dial w sockPath) sockPath epDID) in
  Ok (signerd.client d_response (dial w sockPath) ep).
Definition enforcementPointSigner (w : world) (ksPath sockPath epDID : string) : result signer.Signer :=
  if epDID =?s "" then Err (New "--enforcement-point is required")
  else if (ksPath =?s "") && (sockPath =?s "") then
    Err (New "one of --keystore or --signer-sock is required: the enforcement point needs a signing key")
  else if negb (ksPath =?s "") && negb (sockPath =?s "") then
    Err (New "--keystore and --signer-sock are mutually exclusive; name the one key source to use")
  else if negb (sockPath =?s "") then brokeredSigner w sockPath epDID
  else let! r := keystoreSigner w ksPath epDID in Ok r.1.

(** ** Status lists (main.go)

    The published URL of each list with its local file. *)
Definition fileStatus : Type := gmap string string.

(** [ResolveStatus], over the files as they are when it is called. *)
Definition ResolveStatus (f : fileStatus) (fs : files.files) : verifier.StatusResolver := fun listURL =>
  match f !! listURL with
  | None => Err (Errorf "no status list configured for %q" [AStr listURL])
  | Some path => texts.Load d_list fs (s2b path)
  end.

Fixpoint add_statuses (dids : did.Resolver) (files : files.files) (f : fileStatus) (specs : list string) : result fileStatus :=
  match specs with
  | [] => Ok f
  | spec :: specs =>
      match cut_pair spec with
      | None => Err (Errorf "--status %q must be url=file" [AStr spec])
      | Some (url, path) =>
          let! l := wrap (fun e => Errorf "load status %q: %w" [AStr path; AErr e]) (texts.Load d_list files (s2b path)) in
          let! key := wrap (fun e => Errorf "status %q names issuer %q, whose key does not resolve: %w"
                                       [AStr path; AStr (status.Issuer l); AErr e])
                        (did.ResolveKey dids (status.Issuer l)) in
          check! wrap (fun e => Errorf "status %q: %w" [AStr path; AErr e]) (status.Verify l (status.Issuer l) key);
          add_statuses dids files (<[url := path]> f) specs
      end
  end.
(** [None] is the nil resolver. *)
Definition resolver (statuses : list string) (dids : did.Resolver) (files : files.files) : result (option fileStatus) :=
  if bool_decide (statuses = []) then Ok None
  else let! f := add_statuses dids files ∅ statuses in Ok (Some f).

(** ** The engine (main.go) *)

(** [FileResolver{Root: didsDir}], over the files as they are when it is called. *)
Definition dids_of (didsDir : string) (f : files.files) : did.Resolver :=
  did.FileResolver_Resolve d_document (files.ReadFile f) (s2b didsDir).

Definition missing_flags (fields : list (string * string)) : result unit :=
  check_all (fun f : string * string => reject_if (f.2 =?s "") (Errorf "--%s is required" [AStr f.1])) fields.

Definition buildProxy (w : world) (policyPath didsDir : string) (ep : signer.Signer) (statuses : list string) (sink : bool)
  (log : option wal.WAL) : result (option fileStatus * enforce.Proxy) :=
  check! missing_flags (ranging [("policy", policyPath); ("dids", didsDir)]%string);
  let! pol := texts.policy_Load d_policy (fs w) policyPath in
  let! isdir := wrap (fun e => Errorf "--dids %q, the trust root every signature is checked against: %v" [AStr didsDir; AErr e])
                  (stat w didsDir) in
  check! reject_if (negb isdir) (Errorf "--dids %q is not a directory" [AStr didsDir]);
  let dids := dids_of didsDir (fs w) in
  let! f := resolver statuses dids (fs w) in
  let! px := enforce.NewProxy (enforce.mkConfig (Some ep) (Some (enforce.PolicyEvaluator pol)) (Some dids)
                                 ((fun f => ResolveStatus f (fs w)) <$> f) sink log) in
  Ok (f, px).

(** The proxy keeps no copy of a document or a list: this is the proxy as it
    stands when the files are [files]. *)
Definition on_files (didsDir : string) (f : option fileStatus) (files : files.files) (p : enforce.Proxy) : enforce.Proxy :=
  enforce.mkProxy (enforce.enforcementPoint p) (enforce.evaluator p) (enforce.carriedPolicy p) (enforce.policyID p)
    (dids_of didsDir files) ((fun f => ResolveStatus f files) <$> f) (enforce.log p) (enforce.set p)
    (enforce.sink p) (enforce.inFlight p) (enforce.unattrInFlight p) (enforce.wal_ p).

(** ** What a start creates (main.go) *)

(** Opening for appending: the file is there afterwards. *)
Definition create (f : files.files) (path : string) : files.files :=
  match f !! path with Some _ => f | None => <[path := []]> f end.

(** Whether a sink is configured; the default "-" is the standard output. *)
Definition buildSink (w : world) (auditLog : string) : world * result bool :=
  if auditLog =?s "" then (w, Ok false)
  else if auditLog =?s "-" then (w, Ok true)
  else
    match open_refused w auditLog with
    | Some e => (w, Err (Errorf "auditsink: open %q: %w" [AStr auditLog; AErr e]))
    | None => (with_fs w (create (fs w) auditLog), Ok true)
    end.
Definition buildWAL (w : world) (path : string) : world * result (option wal.WAL) :=
  if path =?s "" then (w, Ok None)
  else
    match wal.OpenWAL d_records path (fs w !! path) with
    | Err e => (w, Err e)
    | Ok log =>
        match open_refused w path with
        | Some e => (w, Err (Errorf "wal: open %q: %w" [AStr path; AErr e]))
        | None => (with_fs w (create (fs w) path), Ok (Some log))
        end
    end.

(** The clock of a run: fixed, or none for the wall clock. *)
Definition parseNow (s : string) : result (option time) :=
  if s =?s "" then Ok None
  else match parse_RFC3339 s with
       | Some t => Ok (Some (UTC t))
       | None => Err (Errorf "bad --now: %w" [AErr (New "parsing time")])
       end.

(** ** serve (main.go)

    The parsed flags: their values, which of them were given, the configuration
    file and whether this is only a check. *)
Record flags := mkFlags
  { policyPath : string; didsDir : string; epDID : string; ksPath : string; sockPath : string; httpAddr : string;
    mcpAddr : string; nowStr : string; auditLog : string; walPath : string; allowRemote : bool;
    statuses : list string }.

(** What a start comes to.  [Started] is the proxy that serves, the lists it
    reads and the listeners. *)
Inductive outcome :=
| Refused (e : error)
| Checked
| Started (f : option fileStatus) (p : enforce.Proxy) (ls : list listeners.listener).

(** Every field of the file overwrites its flag. *)
Definition configured {A} (Unmarshal_string : bytes -> result string) (fl : flags) (c : Config) (k : flags -> A) (unreachable : A) : A :=
  match auditWAL Unmarshal_string c with
  | Err _ => unreachable
  | Ok (wal, _) =>
      k (mkFlags (c_Policy c) (c_DIDs c) (e_DID (EnforcementPoint c)) (MockKeystore (Key (EnforcementPoint c)))
           (BrokerSocket (Key (EnforcementPoint c))) (HTTPAddr c) (MCPAddr c) (nowStr fl) (c_AuditLog c) wal
           (AllowUnauthenticatedRemote c) (statusPairs c))
  end.

Definition no_listeners : error :=
  New "refusing to start with no listeners enabled: --http-addr and --mcp-addr are both empty, so nothing would reach the enforcement engine.".
Definition listeners_of (fl : flags) : list listeners.listener :=
  listeners.enabledListeners
    [listeners.mkListener "HTTP" (httpAddr fl) listeners.HTTP;
     listeners.mkListener "MCP-native (Streamable HTTP)" (mcpAddr fl) listeners.MCP].

(** The gates before anything is created, up to the key. *)
Definition gates (w : world) (fl : flags) : result signer.Signer :=
  let! _ := parseNow (nowStr fl) in
  let addrs := [httpAddr fl; mcpAddr fl] in
  let '(msg, ok) := listeners.refuseRemoteBind addrs (allowRemote fl) in
  check! reject_if (negb ok) (New msg);
  check! reject_if (negb (listeners.anyListenerEnabled addrs)) no_listeners;
  enforcementPointSigner w (ksPath fl) (sockPath fl) (epDID fl).

Definition serve (w : world) (checkOnly : bool) (fl : flags) : world * outcome :=
  match gates w fl with
  | Err e => (w, Refused e)
  | Ok ep =>
      if checkOnly then
        match buildProxy w (policyPath fl) (didsDir fl) ep (statuses fl) false None with
        | Err e => (w, Refused e)
        | Ok _ => (w, Checked)
        end
      else
        let '(w, sink) := buildSink w (auditLog fl) in
        match sink with
        | Err e => (w, Refused e)
        | Ok sink =>
            let '(w, log) := buildWAL w (walPath fl) in
            match log with
            | Err e => (w, Refused e)
            | Ok log =>
                match buildProxy w (policyPath fl) (didsDir fl) ep (statuses fl) sink log with
                | Err e => (w, Refused e)
                | Ok (f, p) =>
                    let ls := listeners_of fl in
                    if bool_decide (ls = []) then
                      (w, Refused (New "internal error: the address check passed but no listener survived filtering"))
                    else (w, Started f p ls)
                end
            end
        end
  end.

(** [cmdServe] from the command line: [set_] are the flags that were given, and
    the file is the path of [--config] with what loading it answers. *)
Definition cmdServe (Unmarshal_string : bytes -> result string) (w : world) (set_ : list string)
  (file : option (result Config)) (checkOnly : bool) (fl : flags) : world * outcome :=
  match file with
  | None =>
      if checkOnly then (w, Refused (New "--check-config needs a --config file to check")) else serve w checkOnly fl
  | Some loaded =>
      let bad := conflictingFlags set_ in
      if 0 <? len bad then
        (w, Refused (New ("--config supplies the whole configuration, so these flags cannot also be given: --" +:+ Join bad ", --")))
      else
        match loaded with
        | Err e => (w, Refused e)
        | Ok cfg => configured Unmarshal_string fl cfg (serve w checkOnly) (w, Refused (New "unreachable"))
        end
  end.

(** ** run: batch enforcement (main.go) *)

Record pending := mkPending
  { p_chain : chain.Chain; p_action : types.Action; p_nonce : string; p_holder : signer.Signer; p_approver : option signer.Signer }.

(** A chain without links makes both functions index before the first link. *)
Definition terminal_of (ch : chain.Chain) : result credential.Credential :=
  match last (elems (chain.Links ch)) with
  | Some l => Ok (chain.Credential_ l)
  | None => Err (New "panic")
  end.

Definition build (p : pending) (tip : Z * bytes) : result enforce.Request :=
  let! terminal := terminal_of (p_chain p) in
  let! pop := credential.ProvePossession terminal (p_holder p) (s2b (p_nonce p)) (p_action p) tip.1 tip.2 in
  match p_approver p with
  | None => Ok (enforce.mkRequest (Some (p_chain p)) (p_action p) pop "" [])
  | Some human =>
      let! sig := audit.SignApproval human (credential.Subject terminal) (p_action p) tip.1 tip.2 in
      Ok (enforce.mkRequest (Some (p_chain p)) (p_action p) pop (signer.DID human) sig)
  end.

Fixpoint load_specs (w : world) (ks : keystore.Keystore) (i : Z) (specs : list reqSpec) : result (list pending) :=
  match specs with
  | [] => Ok []
  | s :: specs =>
      let! data := wrap (fun e => Errorf "request %d: read chain %q: %w" [AInt i; AStr (ChainFile s); AErr e])
                     (files.ReadFile (fs w) (s2b (ChainFile s))) in
      let! ch := wrap (fun e => Errorf "request %d: %w" [AInt i; AErr e]) (texts.Chain_Parse d_chain data) in
      let! terminal := terminal_of ch in
      let! holder := wrap (fun e => Errorf "request %d: actor key: %w" [AInt i; AErr e])
                       (keystore.Signer ks (credential.Subject terminal)) in
      let! approver :=
        if negb (r_Approver s =?s "") then
          let! human := wrap (fun e => Errorf "request %d: approver key: %w" [AInt i; AErr e]) (keystore.Signer ks (r_Approver s)) in
          Ok (Some human)
        else Ok None in
      let! rest := load_specs w ks (i + 1) specs in
      Ok (mkPending ch (r_Action s) (r_Nonce s) holder approver :: rest)
  end.
Definition loadRequests (w : world) (path : string) (ks : keystore.Keystore) : result (list pending) :=
  let! data := wrap (fun e => Errorf "read requests %q: %w" [AStr path; AErr e]) (files.ReadFile (fs w) (s2b path)) in
  let! specs := wrap (fun e => Errorf "parse requests %q: %w" [AStr path; AErr e]) (d_requests data) in
  load_specs w ks 0 specs.

(** What a request of the batch meets: the files, the clock and the disk. *)
Record moment := mkMoment { m_files : files.files; m_now : time; m_disk : wal.disk }.
Definition verb (allowed : bool) : string := if allowed then "ALLOW" else "DENY ".

(** The loop over the batch: the proxy afterwards, and what became of each
    request: refused while it was built, or what [Handle] answered. *)
Fixpoint run_batch (dir : string) (f : option fileStatus) (p : enforce.Proxy) (pend : list (pending * moment))
  : enforce.Proxy * list (result (enforce.Result + enforce.failure)) :=
  match pend with
  | [] => (p, [])
  | (pd, m) :: pend =>
      let p := on_files dir f (m_files m) p in
      match build pd (enforce.Tip p) with
      | Err e =>
          let '(p, out) := run_batch dir f p pend in (p, Err e :: out)
      | Ok req =>
          let '(p, r) := enforce.Handle p req (m_now m) (m_disk m) in
          let '(p, out) := run_batch dir f p pend in (p, Ok r :: out)
      end
  end.

Definition writeExport (f : files.files) (p : enforce.Proxy) (path : string) (a : files.answer) : files.files * result unit :=
  match (let! exp := wrap (fun e => Errorf "build export: %w" [AErr e]) (enforce.Export p) in
         wrap (fun e => Errorf "marshal export: %w" [AErr e]) (texts.Export_Marshal exp)) with
  | Err e => (f, Err e)
  | Ok data =>
      let '(f, r) := files.WriteFile f path (data ++ [Byte.x0a]) a in
      (f, wrap (fun e => Errorf "write export: %w" [AErr e]) r)
  end.
End Proxy.

(** ** Revocation is live *)

Section Live.
Context {CR : Crypto} {UT : UnicodeTables} {SK : signer.SeedKeys} {SL : signer.SeedLaws} {MO : MapOrder} {DE : Decoders}.
Context (url_Parse : string -> result status.ParsedURL).

(** A document that is not the rewritten file resolves as before. *)
Lemma dids_frame dir (fs1 fs2 : files.files) path d :
  (forall x, x <> b2s path -> fs2 !! x = fs1 !! x) -> did.DocumentPath (s2b dir) d <> Ok path ->
  did.ResolveKey (dids_of dir fs2) d = did.ResolveKey (dids_of dir fs1) d.
Proof.
  intros Hx Hd. unfold did.ResolveKey, dids_of, did.FileResolver_Resolve.
  destruct (did.DocumentPath (s2b dir) d) as [q|e]; cbn [rbind]; [|done]. unfold files.ReadFile. rewrite Hx; [done|].
  intros Hq. apply Hd. f_equal. by apply (inj b2s).
Qed.

Lemma Load_frame (fs1 fs2 : files.files) path q :
  (forall x, x <> b2s path -> fs2 !! x = fs1 !! x) -> q <> b2s path -> texts.Load d_list fs2 (s2b q) = texts.Load d_list fs1 (s2b q).
Proof. intros Hx Hq. unfold texts.Load, files.ReadFile. rewrite b2s_s2b. by rewrite Hx. Qed.

(** An allowed consequential decision found every published hop clear. *)
Lemma allowed_hop_clear p req now d p' r ch l :
  enforce.Handle p req now d = (p', inl r) -> types.Allowed (enforce.Decision r) = true ->
  types.Consequential (enforce.Decision r) = true -> enforce.Chain req = Some ch -> l ∈ elems (chain.Links ch) ->
  status.ListURL (credential.StatusRef (chain.Credential_ l)) <> ""%string ->
  exists st, enforce.status_ p = Some st /\ enforce.hop_revoked p st (chain.Credential_ l) = Ok false.
Proof.
  intros H Ha Hc Hch Hl Hu. pose proof (enforce.Handle_cases p req now d) as Hh. rewrite H in Hh.
  destruct Hh as (ch' & p1 & Hch' & _ & _ & (creds & ids & l' & s & _ & _ & _ & Hdec & _) & _).
  assert (ch' = ch) as -> by congruence. rewrite Hdec in Ha. apply enforce.decide_allowed in Ha as (dd & (_ & _ & _ & Hcons) & Heq).
  rewrite Hdec, Heq in Hc. unfold enforce.checked_decision in Hc.
  assert (Hcd : types.Consequential dd = true) by (by destruct (types.Consequential dd) eqn:E; [|simpl in Hc; congruence]).
  destruct (Hcons Hcd) as (st & Hst & Hclear & _). exists st. split; [done|].
  unfold enforce.hops_clear in Hclear. rewrite Forall_forall in Hclear. apply Hclear; [done|].
  unfold verifier.publishes. apply negb_true_iff. by apply str_eqb_false.
Qed.

(** C3: revocation is live.  Once [revoke] has rewritten the list that a running
    proxy serves for the specification's URL, no consequential action is allowed
    for a chain with a hop at the revoked index, whoever asks, and no restart or
    notification is involved.  Nothing else changes: a hop that refers to another
    list, or to another index of this one, is judged exactly as before, and one
    whose bit was cleared is clear again. *)
Theorem revocation_is_live spec ks root index clear mkdir a fs0 fs1 path f dir p :
  issuer.revoke url_Parse d_list spec ks root index clear mkdir a fs0 = (fs1, Ok path) ->
  (forall pub, issuer.resigned url_Parse d_list spec ks root index clear fs0 pub -> texts.ReadsList d_list pub) ->
  f !! issuer.URL (issuer.Status spec) = Some (b2s path) ->
  let proxy := fun fs => on_files dir (Some f) fs p in
  let revoked := fun fs c => enforce.hop_revoked (proxy fs) (ResolveStatus f fs) c in
  let at_list := fun c => status.ListURL (credential.StatusRef c) in
  let at_index := fun c => status.Index (credential.StatusRef c) in
  (clear = false -> forall req ch l now d p' r,
     enforce.Chain req = Some ch -> l ∈ elems (chain.Links ch) ->
     at_list (chain.Credential_ l) = issuer.URL (issuer.Status spec) -> at_index (chain.Credential_ l) = index ->
     enforce.Handle (proxy fs1) req now d = (p', inl r) -> types.Consequential (enforce.Decision r) = true ->
     types.Allowed (enforce.Decision r) = false)
  /\ (forall c, did.DocumentPath (s2b dir) (credential.StatusAuthority c) <> Ok path ->
       (f !! at_list c <> Some (b2s path) -> revoked fs1 c = revoked fs0 c)
       /\ (at_list c = issuer.URL (issuer.Status spec) -> credential.StatusAuthority c = issuer.s_Issuer (issuer.Status spec) ->
           (forall s, keystore.Signer ks (issuer.s_Issuer (issuer.Status spec)) = Ok s ->
              did.ResolveKey (dids_of dir fs0) (issuer.s_Issuer (issuer.Status spec)) = Ok (signer.Public s)) ->
           forall b, revoked fs0 c = Ok b -> revoked fs1 c = Ok (if at_index c =? index then negb clear else b))).
Proof.
  intros H Hread Hf. cbv zeta. destruct (issuer.revoke_Ok _ _ _ _ _ _ _ _ _ _ _ _ Hread H) as
    (Hv & _ & Hx & l0 & l1 & s & Hl0 & Hl1 & Hlk & Hs & Hok). split.
  - intros -> req ch l now d p' r Hch Hl Hu Hi Hh Hc. apply not_true_iff_false. intros Ha.
    destruct (allowed_hop_clear _ _ _ _ _ _ _ _ Hh Ha Hc Hch Hl) as (st & [= <-] & Hr).
    { rewrite Hu. unfold issuer.validate in Hv. gosimp Hv. naive_solver. }
    unfold enforce.hop_revoked, ResolveStatus in Hr. rewrite Hu, Hf, s2b_b2s in Hr. rewrite Hl1 in Hr. cbn [rbind] in Hr.
    gosimp Hr. rewrite Hi, Hlk, Z.eqb_refl in Hr. discriminate Hr.
  - intros c Hd. unfold enforce.hop_revoked, ResolveStatus. cbn [enforce.dids on_files].
    rewrite (dids_frame dir fs0 fs1 path _ Hx Hd). split.
    + intros Hne. destruct (f !! status.ListURL (credential.StatusRef c)) as [q|]; [|done].
      rewrite (Load_frame fs0 fs1 path) by (done || congruence). done.
    + intros Hu Hau Hkey b Hb. rewrite Hu, Hf, s2b_b2s in *. rewrite Hl0 in Hb. rewrite Hl1. cbn [rbind] in *.
      rewrite Hau in *. rewrite (Hkey s Hs) in *. cbn [wrap rbind] in *. gosimp Hb.
      rewrite Hok by (by apply status.Verify_Ok in Ha as (_ & _ & ? & _)). cbn [rbind]. rewrite Hlk.
      by destruct (_ =? index).
Qed.
End Live.

(** ** The configuration that is accepted *)

Section Accepted.
Context {MO : MapOrder} (Unmarshal_string : bytes -> result string).

Lemma ranged {A} (P : A -> result unit) l : check_all P (ranging l) = Ok tt <-> Forall (fun x => P x = Ok tt) l.
Proof. rewrite check_all_Ok. by rewrite (ranging_perm A l). Qed.

(** What durability a file states: a path, or explicitly none. *)
Inductive durability (raw : bytes) : string -> Prop :=
| durable_off : trim_right (trim_left raw) = s2b "null" -> durability raw ""
| durable_at p : trim_right (trim_left raw) <> [] -> trim_right (trim_left raw) <> s2b "null" ->
    Unmarshal_string (trim_right (trim_left raw)) = Ok p -> TrimSpace p <> ""%string -> durability raw p.

Lemma auditWAL_Ok c p b : auditWAL Unmarshal_string c = Ok (p, b) <-> durability (AuditWAL c) p /\ b = negb (p =?s "").
Proof.
  unfold auditWAL. set (raw := trim_right (trim_left (AuditWAL c))). split.
  - case_bool_decide as He; [done|]. destruct (raw =?b s2b "null") eqn:En.
    + apply bytes_eqb_true in En. intros [= <- <-]. split; [by constructor|done].
    + apply bytes_eqb_false in En. intros H. gosimp H. destruct (blank a) eqn:Eb; [done|]. apply Ok_inj in H as [= -> <-].
      apply str_eqb_false in Eb. split; [by constructor|]. symmetry. apply negb_true_iff. apply str_eqb_false. intros ->. by vm_compute in Eb.
  - intros [[Hn|p' He Hn Hu Hb] ->].
    + fold raw in Hn. rewrite Hn. by vm_compute.
    + fold raw in He, Hn, Hu. rewrite bool_decide_false by done. rewrite (proj2 (bytes_eqb_false _ _) Hn), Hu. cbn [wrap rbind].
      unfold blank. rewrite (proj2 (str_eqb_false _ _) Hb). do 2 f_equal. symmetry. apply negb_true_iff, str_eqb_false.
      intros ->. by vm_compute in Hb.
Qed.

(** C29: what a configuration file must say.  It is accepted exactly when the
    policy, the trust root and the enforcement point are named, exactly one key
    source is, durability is stated (a path, or null; an absent field is neither),
    and no status entry has a blank half; the order in which the maps are walked
    does not matter. *)
Theorem config_accepted c :
  validate Unmarshal_string c = Ok tt <->
  Forall (fun v => TrimSpace v <> ""%string) [c_Policy c; c_DIDs c; e_DID (EnforcementPoint c)]
  /\ (let k := Key (EnforcementPoint c) in
      TrimSpace (BrokerSocket k) <> ""%string /\ TrimSpace (MockKeystore k) = ""%string
      \/ TrimSpace (BrokerSocket k) = ""%string /\ TrimSpace (MockKeystore k) <> ""%string)
  /\ (exists p, durability (AuditWAL c) p)
  /\ map_Forall (fun url file => TrimSpace url <> ""%string /\ TrimSpace file <> ""%string) (c_Status c).
Proof.
  unfold validate.
  assert (Hreq : forall l, required (ranging l) = Ok tt <-> Forall (fun f => TrimSpace f.2 <> ""%string) l).
  { intros l. unfold required. rewrite (ranged (fun f : string * string => _)). apply Forall_proper; [|done]. intros f.
    rewrite reject_if_Ok. apply str_eqb_false. }
  assert (Hst : check_all status_entry (ranging (map_to_list (c_Status c))) = Ok tt
                <-> map_Forall (fun url file => TrimSpace url <> ""%string /\ TrimSpace file <> ""%string) (c_Status c)).
  { rewrite ranged, map_Forall_to_list. apply Forall_proper; [|done]. intros [url file]. unfold status_entry, blank, uncurry. cbn [fst snd].
    split; [intros H; gosimp H|intros [H1%str_eqb_false H2%str_eqb_false]; by rewrite H1, H2]. done. }
  rewrite <- Hst. pose proof (Hreq [("policy", c_Policy c); ("dids", c_DIDs c); ("enforcement_point.did", e_DID (EnforcementPoint c))]%string) as Hr.
  rewrite !Forall_cons, Forall_nil in Hr. cbn [snd] in Hr. rewrite !Forall_cons, Forall_nil. rewrite <- Hr.
  set (b := blank (BrokerSocket (Key (EnforcementPoint c)))). set (m := blank (MockKeystore (Key (EnforcementPoint c)))).
  assert (Hb : TrimSpace (BrokerSocket (Key (EnforcementPoint c))) = ""%string <-> b = true) by (symmetry; apply str_eqb_true).
  assert (Hm : TrimSpace (MockKeystore (Key (EnforcementPoint c))) = ""%string <-> m = true) by (symmetry; apply str_eqb_true).
  cbv zeta. rewrite Hb, Hm. split.
  - intros H. gosimp H. destruct a as [wal en]. apply auditWAL_Ok in Ha2 as [Hd _]. split_and!; [done| |by exists wal|done].
    destruct b, m; naive_solver.
  - intros (-> & Hk & [p Hp] & ->). cbn [rbind].
    assert (Hw : auditWAL Unmarshal_string c = Ok (p, negb (p =?s ""))) by by apply auditWAL_Ok. rewrite Hw.
    destruct b, m; simpl; naive_solver.
Qed.
End Accepted.

(** ** The status lists of a configuration *)

Section Statuses.
Context {CR : Crypto} {UT : UnicodeTables} {SK : signer.SeedKeys} {MO : MapOrder} {DE : Decoders}.

(** A list accepted at startup: it loads and is signed by its own issuer. *)
Definition self_signed (dids : did.Resolver) (fs : files.files) (path : string) : Prop :=
  exists l key, texts.Load d_list fs (s2b path) = Ok l /\ did.ResolveKey dids (status.Issuer l) = Ok key
    /\ status.Verify l (status.Issuer l) key = Ok tt.

Lemma add_statuses_Ok dids fs f specs f' :
  add_statuses dids fs f specs = Ok f' <->
  exists es, Forall2 (fun spec e => cut_pair spec = Some e) specs es /\ Forall (fun e => self_signed dids fs e.2) es
    /\ f' = foldl (fun m e => <[e.1 := e.2]> m) f es.
Proof.
  revert f. induction specs as [|spec specs IH]; intros f; cbn [add_statuses].
  - split; [intros [= <-]; by exists []|]. intros (es & H & _ & ->). by inversion H.
  - destruct (cut_pair spec) as [[url path]|] eqn:Ec.
    2: { split; [done|]. intros (es & H & _). inversion H; congruence. }
    split.
    + intros H. gosimp H. apply IH in H as (es & H1 & H2 & ->). exists ((url, path) :: es). split_and!; [by constructor| |done].
      constructor; [by exists a, a0|done].
    + intros (es & H1 & H2 & ->). inversion H1 as [|? [u q] ? es' Hc H1']; subst. assert (Some (u, q) = Some (url, path)) as [= -> ->] by congruence.
      apply Forall_cons in H2 as [(l & key & Hl & Hk & Hv) H2]. cbn [snd] in Hl. rewrite Hl. cbn [wrap rbind]. rewrite Hk. cbn [wrap rbind].
      rewrite Hv. cbn [wrap rbind]. apply IH. by exists es'.
Qed.

(** Inserting in order: each key holds the last value given for it. *)
Lemma foldl_insert_in (es : list (string * string)) (m : fileStatus) k :
  foldl (fun m e => <[e.1 := e.2]> m) m es !! k = match last (List.filter (fun e => bool_decide (e.1 = k)) es) with
                                                  | Some e => Some e.2 | None => m !! k end.
Proof.
  revert m. induction es as [|[k' v] es IH]; intros m; [done|]. simpl. rewrite IH. case_bool_decide as Hk; cbn [fst snd] in *.
  - subst k'. destruct (List.filter _ es) as [|e l]; [simpl; apply lookup_insert_eq|].
    rewrite last_cons_cons. destruct (last (e :: l)) eqn:El; [done|by apply last_None in El].
  - destruct (last _); [done|]. by apply lookup_insert_ne.
Qed.

Lemma pairs_of c : Permutation (statusPairs c) (map (fun e => e.1 +:+ "=" +:+ e.2) (map_to_list (c_Status c))).
Proof. apply merge_sort_Permutation. Qed.

Lemma foldl_insert_perm (es : list (string * string)) (m : gmap string string) :
  es ≡ₚ map_to_list m -> foldl (fun m e => <[e.1 := e.2]> m) ∅ es = m.
Proof.
  intros Hp. apply map_eq. intros k. rewrite foldl_insert_in.
  assert (Hin : forall e, e ∈ List.filter (fun e => bool_decide (e.1 = k)) es <-> e.1 = k /\ m !! k = Some e.2).
  { intros [k' v]. rewrite list_elem_of_In, filter_In, <- list_elem_of_In, bool_decide_eq_true, Hp, elem_of_map_to_list. naive_solver. }
  destruct (List.filter _ es) as [|e l] eqn:E.
  - simpl. destruct (m !! k) as [v|] eqn:Em; [|apply lookup_empty].
    assert (H : (k, v) ∈ []) by by apply Hin. by apply not_elem_of_nil in H.
  - destruct (last (e :: l)) as [e'|] eqn:El; [|by apply last_None in El].
    apply last_Some_elem_of in El. by apply Hin in El as [_ ->].
Qed.

Lemma resolver_Some specs dids fs f :
  resolver specs dids fs = Ok (Some f) <->
  specs <> [] /\ exists es, Forall2 (fun spec e => cut_pair spec = Some e) specs es
    /\ Forall (fun e => self_signed dids fs e.2) es /\ f = foldl (fun m e => <[e.1 := e.2]> m) ∅ es.
Proof.
  unfold resolver. case_bool_decide as Hs; [naive_solver|]. rewrite <- add_statuses_Ok. split.
  - intros H. gosimp H. by injection H as ->.
  - intros [_ ->]. done.
Qed.

(** the status map of a configuration file and the pairs of the command
    line.  Whatever the proxy ends up serving, each list loads and is signed by
    the issuer it names, and no URL it is served under contains an equals sign.
    The map is served as it stands when none of its URLs does; but the pairs are
    cut at their first equals sign, so an entry whose URL has one is never
    served: its front part is, from a file named by the rest. *)
Theorem status_map_served c dids fs f :
  resolver (statusPairs c) dids fs = Ok (Some f) ->
  (forall url path, f !! url = Some path -> plain_url url /\ self_signed dids fs path)
  /\ (map_Forall (fun url _ => plain_url url) (c_Status c) -> f = c_Status c)
  /\ (forall url path, c_Status c !! url = Some path -> ~ plain_url url ->
        f !! url = None /\ exists u r, url = u +:+ "=" +:+ r /\ is_Some (f !! u)).
Proof.
  intros (_ & es & H2 & Hs & ->)%resolver_Some.
  assert (Hf : forall url path, (foldl (fun m e => <[e.1 := e.2]> m) ∅ es : fileStatus) !! url = Some path -> (url, path) ∈ es).
  { intros url path. rewrite foldl_insert_in. destruct (last _) as [e|] eqn:El; [|intros H; discriminate H].
    apply last_Some_elem_of, list_elem_of_In, filter_In in El as [Hin Hk]. apply bool_decide_eq_true in Hk. intros [= <-].
    destruct e as [k v]. cbn [fst snd] in *. subst k. by apply list_elem_of_In. }
  assert (Hplain : forall url path, (url, path) ∈ es -> plain_url url /\ self_signed dids fs path).
  { intros url path Hin. split; [|by apply (proj1 (Forall_forall _ _) Hs (url, path))].
    apply list_elem_of_lookup in Hin as [i Hi]. destruct (Forall2_lookup_r _ _ _ _ _ H2 Hi) as (spec & _ & Hc).
    by apply cut_pair_Some in Hc as [_ ?]. }
  split_and!; [intros url path H; by apply Hplain, Hf| |].
  - intros Hall. apply foldl_insert_perm.
    assert (Hcut : Forall (fun e => cut_pair (e.1 +:+ "=" +:+ e.2) = Some e) (map_to_list (c_Status c))).
    { apply Forall_forall. intros [url path] Hin. apply elem_of_map_to_list in Hin. apply cut_pair_Some. split; [done|by eapply Hall]. }
    pose proof (pairs_of c) as Hp. symmetry in Hp.
    assert (H2' : Forall2 (fun spec e => cut_pair spec = Some e) (map (fun e => e.1 +:+ "=" +:+ e.2) (map_to_list (c_Status c))) (map_to_list (c_Status c))).
    { revert Hcut. generalize (map_to_list (c_Status c)). intros l Hl. clear -Hl. induction Hl; by constructor. }
    destruct (Permutation_Forall2 Hp H2') as (es' & Hpe & Hes).
    assert (es' = es) as ->.
    { clear -Hes H2. revert es' Hes. induction H2 as [|spec e specs es Hc H2 IH]; intros es' Hes; inversion Hes; subst; [done|].
      f_equal; [congruence|by apply IH]. }
    by symmetry.
  - intros url path Hc Hn. split.
    + destruct ((foldl (fun m e => <[e.1 := e.2]> m) ∅ es : fileStatus) !! url) as [q|] eqn:E; [|done].
      apply Hf, Hplain in E as [E _]. done.
    + assert (Hin : url +:+ "=" +:+ path ∈ statusPairs c).
      { rewrite (pairs_of c). apply (list_elem_of_fmap_2' _ _ (url, path)); [by apply elem_of_map_to_list|done]. }
      apply list_elem_of_lookup in Hin as [i Hi]. destruct (Forall2_lookup_l _ _ _ _ _ H2 Hi) as ([u q] & Hu & Hcut).
      destruct (plain_or_split url) as [?|(u' & r & -> & Hu')]; [done|].
      assert (E : cut_pair ((u' +:+ "=" +:+ r) +:+ "=" +:+ path) = Some (u', r +:+ "=" +:+ path)).
      { apply cut_pair_Some. split; [|done]. apply (inj s2b). rewrite !s2b_append. by rewrite <- !app_assoc. }
      cbn [fst snd] in Hcut. assert (Some (u, q) = Some (u', r +:+ "=" +:+ path)) as [= -> _] by congruence.
      exists u', r. split; [done|]. rewrite foldl_insert_in.
      destruct (last _) as [e|] eqn:El; [by eexists|]. apply last_None in El.
      assert (H : (u', q) ∈ List.filter (fun e : string * string => bool_decide (e.1 = u')) es).
      { apply list_elem_of_In, filter_In. split; [by eapply list_elem_of_In, list_elem_of_lookup_2|by apply bool_decide_eq_true]. }
      rewrite El in H. by apply not_elem_of_nil in H.
Qed.
End Statuses.

(** ** The check predicts the start *)

Section Start.
Context {CR : Crypto} {UT : UnicodeTables} {SK : signer.SeedKeys} {MO : MapOrder} {DE : Decoders}.

(** encoding/json refuses the empty text: it is no JSON value. *)
Record rejects_empty : Prop := mkRejects
  { rejects_policy : is_ok (d_policy []) = false; rejects_list : is_ok (d_list []) = false;
    rejects_document : is_ok (d_document []) = false }.

(** The files with some, that were not there, created empty. *)
Definition grown (f1 f2 : files.files) : Prop := forall x, f2 !! x = f1 !! x \/ f1 !! x = None /\ f2 !! x = Some [].
Lemma grown_refl f : grown f f.
Proof. by left. Qed.
Lemma create_grown f path : grown f (create f path).
Proof.
  intros x. unfold create. destruct (f !! path) as [b|] eqn:E; [by left|]. destruct (decide (x = path)) as [->|Hx].
  - right. split; [done|]. apply lookup_insert_eq.
  - left. by apply lookup_insert_ne.
Qed.
Lemma grown_trans f1 f2 f3 : grown f1 f2 -> grown f2 f3 -> grown f1 f3.
Proof. intros H1 H2 x. destruct (H1 x) as [E1|[E1 E1']], (H2 x) as [E2|[E2 E2']]; rewrite ?E2, ?E1 in *; naive_solver. Qed.

(** A reader that rejects the empty text reads the same from both. *)
Lemma read_grown {A} f1 f2 q (k : bytes -> result A) (a : A) e1 :
  grown f1 f2 -> is_ok (k []) = false ->
  rbind (wrap e1 (files.ReadFile f1 q)) k = Ok a <-> rbind (wrap e1 (files.ReadFile f2 q)) k = Ok a.
Proof.
  intros Hg Hk. unfold files.ReadFile. destruct (Hg (b2s q)) as [->|[-> ->]]; [done|]. cbn [wrap rbind].
  by destruct (k []).
Qed.

Section Grown.
Context (HE : rejects_empty) (f1 f2 : files.files) (HG : grown f1 f2).

Lemma policy_grown path pol : texts.policy_Load d_policy f1 path = Ok pol <-> texts.policy_Load d_policy f2 path = Ok pol.
Proof. apply read_grown; [done|]. unfold texts.policy_Parse. pose proof (rejects_policy HE). by destruct (d_policy []). Qed.
Lemma list_grown path l : texts.Load d_list f1 path = Ok l <-> texts.Load d_list f2 path = Ok l.
Proof. apply read_grown; [done|]. unfold texts.status_Parse. pose proof (rejects_list HE). by destruct (d_list []). Qed.
Lemma key_grown dir d k : did.ResolveKey (dids_of dir f1) d = Ok k <-> did.ResolveKey (dids_of dir f2) d = Ok k.
Proof.
  unfold did.ResolveKey, dids_of. assert (H : forall doc, did.FileResolver_Resolve d_document (files.ReadFile f1) (s2b dir) d = Ok doc <->
    did.FileResolver_Resolve d_document (files.ReadFile f2) (s2b dir) d = Ok doc).
  { intros doc. unfold did.FileResolver_Resolve. destruct (did.DocumentPath _ _) as [q|e]; cbn [rbind]; [|done].
    apply read_grown; [done|]. unfold did.parseDocument. pose proof (rejects_document HE). by destruct (d_document []). }
  rewrite !rbind_Ok. split; intros (doc & Hd & Hk); exists doc; (split; [by apply H|done]).
Qed.
Lemma self_signed_grown dir path : self_signed (dids_of dir f1) f1 path <-> self_signed (dids_of dir f2) f2 path.
Proof.
  unfold self_signed. split; intros (l & key & Hl & Hk & Hv); exists l, key;
    (split_and!; [by apply list_grown|by apply key_grown|done]).
Qed.
Lemma resolver_grown specs dir f : resolver specs (dids_of dir f1) f1 = Ok f <-> resolver specs (dids_of dir f2) f2 = Ok f.
Proof.
  destruct f as [f|].
  - rewrite !resolver_Some. split; intros (Hn & es & H1 & H2 & Hf); (split; [done|]); exists es; (split_and!; [done| |done]);
      (eapply Forall_impl; [exact H2|]); intros e; apply self_signed_grown.
  - unfold resolver. case_bool_decide; [done|]. by destruct (add_statuses _ f1 _ _), (add_statuses _ f2 _ _).
Qed.
End Grown.

(** What building takes: everything it reads, and a proxy over it. *)
Lemma buildProxy_Ok w pp dir ep sts sink log f p :
  buildProxy w pp dir ep sts sink log = Ok (f, p) <->
  pp <> ""%string /\ dir <> ""%string /\ exists pol, texts.policy_Load d_policy (fs w) pp = Ok pol /\ stat w dir = Ok true
    /\ resolver sts (dids_of dir (fs w)) (fs w) = Ok f
    /\ enforce.NewProxy (enforce.mkConfig (Some ep) (Some (enforce.PolicyEvaluator pol)) (Some (dids_of dir (fs w)))
                           ((fun f => ResolveStatus f (fs w)) <$> f) sink log) = Ok p.
Proof.
  unfold buildProxy.
  assert (Hm : missing_flags (ranging [("policy", pp); ("dids", dir)]%string) = Ok tt <-> pp <> ""%string /\ dir <> ""%string).
  { unfold missing_flags. rewrite (ranged (fun f : string * string => _)), !Forall_cons, Forall_nil. cbn [snd].
    rewrite !reject_if_Ok, !str_eqb_false. naive_solver. }
  split.
  - intros H. gosimp H. apply Hm in Ha as [? ?]. destruct a0; [|done]. apply Ok_inj in H as [= <- <-]. split_and!; [done..|].
    by exists a.
  - intros (H1 & H2 & pol & Hpol & Hs & Hr & Hn). rewrite (proj2 Hm) by done. cbn [rbind]. rewrite Hpol. cbn [rbind].
    rewrite Hs. cbn [wrap rbind negb reject_if]. rewrite Hr. cbn [rbind]. by rewrite Hn.
Qed.

Lemma NewProxy_fresh_ok ep pol r1 r2 st1 st2 sk w p :
  enforce.NewProxy (enforce.mkConfig (Some ep) (Some (enforce.PolicyEvaluator pol)) (Some r1) st1 false None) = Ok p ->
  match w with Some w => wal.Recovered w = [] | None => True end ->
  exists q, enforce.NewProxy (enforce.mkConfig (Some ep) (Some (enforce.PolicyEvaluator pol)) (Some r2) st2 sk w) = Ok q.
Proof.
  unfold enforce.NewProxy. cbn [enforce.EnforcementPoint enforce.Policy enforce.DIDs enforce.Status enforce.Sink enforce.WAL].
  destruct (export.PolicyID pol) as [id|err]; cbn [wrap rbind fst snd]; [|done]. intros _ Hw.
  destruct w as [w|]; [|by eexists]. unfold enforce.recoverFrom. rewrite Hw. by eexists.
Qed.
Lemma NewProxy_check_ok ep pol r1 r2 st1 st2 sk w q :
  enforce.NewProxy (enforce.mkConfig (Some ep) (Some (enforce.PolicyEvaluator pol)) (Some r2) st2 sk w) = Ok q ->
  exists p, enforce.NewProxy (enforce.mkConfig (Some ep) (Some (enforce.PolicyEvaluator pol)) (Some r1) st1 false None) = Ok p.
Proof.
  unfold enforce.NewProxy. cbn [enforce.EnforcementPoint enforce.Policy enforce.DIDs enforce.Status enforce.Sink enforce.WAL].
  destruct (export.PolicyID pol) as [id|err]; cbn [wrap rbind fst snd]; [by eexists|done].
Qed.

Lemma buildSink_grown w path : grown (fs w) (fs (buildSink w path).1) /\ stat (buildSink w path).1 = stat w
  /\ dial (buildSink w path).1 = dial w /\ open_refused (buildSink w path).1 = open_refused w.
Proof.
  unfold buildSink. repeat case_match; cbn [fst]; split_and!; try done; try apply grown_refl. apply create_grown.
Qed.
Lemma buildWAL_grown w path : grown (fs w) (fs (buildWAL w path).1) /\ stat (buildWAL w path).1 = stat w
  /\ dial (buildWAL w path).1 = dial w /\ open_refused (buildWAL w path).1 = open_refused w.
Proof.
  unfold buildWAL. repeat case_match; cbn [fst]; split_and!; try done; try apply grown_refl. apply create_grown.
Qed.

Lemma gates_listen w fl ep : gates w fl = Ok ep -> listeners_of fl <> [].
Proof.
  unfold gates. intros H. gosimp H. destruct (listeners.refuseRemoteBind _ _) as [msg ok]. gosimp H.
  unfold listeners_of. by apply listeners.anyListenerEnabled_iff.
Qed.

(** A built proxy over files that a start has grown, and over those it found. *)
Lemma built_before w w' pp dir ep sts sink log r :
  rejects_empty -> grown (fs w) (fs w') -> stat w' = stat w -> buildProxy w' pp dir ep sts sink log = Ok r ->
  exists r', buildProxy w pp dir ep sts false None = Ok r'.
Proof.
  intros HE HG Hs. destruct r as [f p]. rewrite buildProxy_Ok, Hs. intros (H1 & H2 & pol & Hpol & Hst & Hr & Hn).
  destruct (NewProxy_check_ok _ _ (dids_of dir (fs w)) _ ((fun f => ResolveStatus f (fs w)) <$> f) _ _ _ _ Hn) as [q Hq].
  exists (f, q). apply buildProxy_Ok. split_and!; [done..|]. exists pol. split_and!; [by apply (policy_grown HE _ _ HG)|done|by apply (resolver_grown HE _ _ HG)|done].
Qed.
Lemma built_after w w' pp dir ep sts sink log r :
  rejects_empty -> grown (fs w) (fs w') -> stat w' = stat w -> match log with Some w => wal.Recovered w = [] | None => True end ->
  buildProxy w pp dir ep sts false None = Ok r -> exists r', buildProxy w' pp dir ep sts sink log = Ok r'.
Proof.
  intros HE HG Hs Hw. destruct r as [f p]. rewrite buildProxy_Ok. intros (H1 & H2 & pol & Hpol & Hst & Hr & Hn).
  destruct (NewProxy_fresh_ok _ _ _ (dids_of dir (fs w')) _ ((fun f => ResolveStatus f (fs w')) <$> f) sink log _ Hn Hw) as [q Hq].
  exists (f, q). apply buildProxy_Ok. rewrite Hs. split_and!; [done..|]. exists pol.
  split_and!; [by apply (policy_grown HE _ _ HG)|done|by apply (resolver_grown HE _ _ HG)|done].
Qed.

(** C25: --check-config against the start it predicts.  The check leaves every
    file as it was.  Whatever starts passes the check, and has a listener; what
    passes the check starts, once the two logs can be opened and the durable one
    holds no earlier record, and then only files that were missing are there,
    empty.  But the real start opens the logs before it reads the policy: one
    that is then refused has already left an audit log behind. *)
Theorem check_predicts_start w fl :
  rejects_empty ->
  (serve w true fl).1 = w
  /\ (forall f p ls, (serve w false fl).2 = Started f p ls -> (serve w true fl).2 = Checked /\ ls <> [])
  /\ ((serve w true fl).2 = Checked -> forall sink log, (buildSink w (auditLog fl)).2 = Ok sink ->
        (buildWAL (buildSink w (auditLog fl)).1 (walPath fl)).2 = Ok log ->
        match log with Some l => wal.Recovered l = [] | None => True end ->
        exists f p ls, (serve w false fl).2 = Started f p ls /\ ls <> [] /\ grown (fs w) (fs (serve w false fl).1))
  /\ forall ep, gates w fl = Ok ep -> (forall pol, texts.policy_Load d_policy (fs w) (policyPath fl) <> Ok pol) ->
       auditLog fl <> ""%string -> auditLog fl <> "-"%string -> open_refused w (auditLog fl) = None -> fs w !! auditLog fl = None ->
       exists w' e, serve w false fl = (w', Refused e) /\ fs w' !! auditLog fl = Some [].
Proof.
  intros HE. unfold serve. destruct (gates w fl) as [ep|e] eqn:Eg; [|by split_and!].
  pose proof (gates_listen _ _ _ Eg) as Hls.
  destruct (buildSink_grown w (auditLog fl)) as (G1 & S1 & _). destruct (buildSink w (auditLog fl)) as [w1 sink] eqn:Es. cbn [fst snd] in *.
  destruct (buildWAL_grown w1 (walPath fl)) as (G2 & S2 & _). destruct (buildWAL w1 (walPath fl)) as [w2 log] eqn:Ew. cbn [fst snd] in *.
  assert (G : grown (fs w) (fs w2)) by by eapply grown_trans. assert (S : stat w2 = stat w) by congruence.
  split_and!.
  - by destruct (buildProxy w _ _ _ _ _ _).
  - intros f p ls. destruct sink as [sk|]; [|done]. destruct log as [lg|]; [|done].
    destruct (buildProxy w2 _ _ _ _ _ _) as [[f' p']|] eqn:Eb; [|done]. rewrite bool_decide_false by done.
    destruct (built_before _ _ _ _ _ _ _ _ _ HE G S Eb) as [r' ->]. by intros [= <- <- <-].
  - destruct (buildProxy w _ _ _ _ _ _) as [r|] eqn:Eb; [|done]. intros _ sk lg -> -> Hl.
    destruct (built_after w w2 (policyPath fl) (didsDir fl) ep (statuses fl) sk lg r) as [[f p] ->]; try done.
    rewrite bool_decide_false by done. exists f, p, (listeners_of fl). by split_and!.
  - intros ep' _ Hpol Ha Hb Ho Hn.
    assert (Hsink : sink = Ok true /\ fs w1 !! auditLog fl = Some []).
    { unfold buildSink in Es. rewrite (proj2 (str_eqb_false _ _) Ha), (proj2 (str_eqb_false _ _) Hb), Ho in Es.
      injection Es as <- <-. split; [done|]. cbn [fs with_fs]. unfold create. rewrite Hn. apply lookup_insert_eq. }
    destruct Hsink as [-> H1]. assert (H2 : fs w2 !! auditLog fl = Some []) by (destruct (G2 (auditLog fl)) as [->|[? _]]; [done|congruence]).
    destruct log as [lg|e]; [|by exists w2, e]. destruct (buildProxy w2 _ _ _ _ _ _) as [[f p]|e] eqn:Eb; [|by exists w2, e].
    apply buildProxy_Ok in Eb as (_ & _ & pol & Hp & _). exfalso. apply (Hpol pol). by apply (policy_grown HE _ _ G).
Qed.
End Start.

(** ** The batch *)

Section Batch.
Context {CR : Crypto} {UT : UnicodeTables} {SK : signer.SeedKeys} {MO : MapOrder} {DE : Decoders}.

Definition entry_of (r : result (enforce.Result + enforce.failure)) : option audit.Entry :=
  match r with Ok (inl res) => Some (enforce.Entry res) | _ => None end.

(** A request whose chain verifies when it is made, and whose key is the one
    the terminal credential binds. *)
Definition genuine (dir : string) (pd : pending) (m : moment) : Prop :=
  chain.Verify (dids_of dir (m_files m)) (p_chain pd) = Ok tt /\ signer.Sound (p_holder pd) /\ p_nonce pd <> ""%string
  /\ exists l, last (elems (chain.Links (p_chain pd))) = Some l
       /\ did.JWK_PublicKey (credential.HolderKey (chain.Credential_ l)) = Ok (signer.Public (p_holder pd)).

Lemma build_Ok pd tip req :
  build pd tip = Ok req ->
  enforce.Chain req = Some (p_chain pd) /\ enforce.Action req = p_action pd
  /\ exists l pop, last (elems (chain.Links (p_chain pd))) = Some l /\ enforce.PoP req = pop
       /\ credential.ProvePossession (chain.Credential_ l) (p_holder pd) (s2b (p_nonce pd)) (p_action pd) tip.1 tip.2 = Ok pop.
Proof.
  unfold build, terminal_of. destruct (last _) as [l|]; [|done]. cbn [rbind]. intros H. gosimp H.
  destruct (p_approver pd) as [human|]; gosimp H; apply Ok_inj in H as <-; (split_and!; [done..|]); by exists l, a.
Qed.

Lemma genuine_attributable dir f p pd m req p' u :
  genuine dir pd m -> build pd (enforce.Tip (on_files dir f (m_files m) p)) = Ok req ->
  enforce.Handle (on_files dir f (m_files m) p) req (m_now m) (m_disk m) <> (p', inr (enforce.Unattributable u)).
Proof.
  intros (Hv & HS & Hn & l & Hl & Hk) (Hc & Ha & l' & pop & Hl' & Hp & Hpop)%build_Ok.
  assert (l' = l) as -> by congruence. eapply enforce.attributable; [done|exact Hv|done|].
  rewrite Hp, Ha. refine (proj2 (credential.prove_verify _ (p_holder pd) _ _ _ _ _ Hk _ Hpop)).
  intros E. apply Hn. by apply (inj s2b).
Qed.

(** a batch run.  Whatever happens to the files between two requests, every
    request of the batch gets an answer, and the log grows by exactly the entries
    of the decided ones, in the order of the batch, each recording the action and
    the principals of its own request.  A request with a verifying chain and the
    key its credential binds is never turned away as unattributable: it is bound
    to the slot the proxy then gives it. *)
Theorem batch_faithful dir f p pend :
  let '(p', out) := run_batch dir f p pend in
  enforce.Entries p' = enforce.Entries p ++ omap entry_of out
  /\ Forall2 (fun pm r =>
       match r with
       | Ok (inl res) => audit.Action (enforce.Entry res) = p_action pm.1
           /\ audit.ResolvedChain (enforce.Entry res) = chain.Principals (p_chain pm.1)
       | Ok (inr (enforce.Unattributable _)) => ~ genuine dir pm.1 pm.2
       | _ => True
       end) pend out.
Proof.
  revert p. induction pend as [|[pd m] pend IH]; intros p; cbn [run_batch]; [split; [by rewrite app_nil_r|constructor]|].
  set (q := on_files dir f (m_files m) p). change (enforce.Entries p) with (enforce.Entries q).
  destruct (build pd (enforce.Tip q)) as [req|e] eqn:Eb.
  - pose proof (enforce.handled_entry q req (m_now m) (m_disk m)) as Hh. pose proof (build_Ok _ _ _ Eb) as (Hc & Ha & _).
    destruct (enforce.Handle q req (m_now m) (m_disk m)) as [q' r] eqn:Eh.
    specialize (IH q'). destruct (run_batch dir f q' pend) as [p' out]. destruct IH as [He Hf].
    destruct r as [res|fl].
    + destruct Hh as (Hl & Hact & _ & ch & l & Hch & _ & Hr & _). split; [by rewrite He, Hl, <- app_assoc|].
      constructor; [|done]. cbn [fst]. rewrite Hact, Hr. split; [done|congruence].
    + split; [by rewrite He, Hh|]. constructor; [|done]. destruct fl as [u|e]; [|done]. cbn [fst snd]. intros Hg.
      by eapply genuine_attributable.
  - specialize (IH q). destruct (run_batch dir f q pend) as [p' out]. destruct IH as [He Hf]. split; [exact He|]. by constructor.
Qed.
End Batch.

(** ** A concrete deployment

    What the issuer's example publishes, with a policy and a batch of one
    consequential request of the last holder, approved by the agent. *)
#[local] Existing Instance issuer.accepting.
#[local] Existing Instance issuer.padded_keys.
#[local] Existing Instance issuer.padded_laws.
#[local] Instance printable : UnicodeTables := Build_UnicodeTables (fun _ => true).
#[local] Instance in_order : MapOrder := {| ranging := fun _ l => l; ranging_perm := fun _ _ => reflexivity _ |}.

Definition test_now : time := mkTime 1700000000 0 0.
Definition test_action : types.Action :=
  types.mkAction "transfer" "acct" {[ "amount"%string := "40"%string ]} test_now.
Definition test_spec : reqSpec := mkReqSpec "/etc/chain.json" test_action "nonce" chain.agent.
#[local] Instance test_decoders : Decoders :=
  {| d_keystore := fun _ => Ok issuer.test_keys;
     d_policy := fun b => if b =?b s2b "policy" then Ok ("v1"%string, None, Some (policy.mkDefault true true "gated")) else Err (New "EOF");
     d_document := issuer.test_unmarshal; d_list := issuer.test_unmarshal_lists;
     d_chain := fun _ => Ok (issuer.Chain issuer.test_result);
     d_requests := fun b => if b =?b s2b "requests" then Ok [test_spec] else Err (New "EOF");
     d_response := fun _ => Err (New "EOF"); d_records := fun _ => ([], None) |}.

Definition test_files : files.files :=
  <["/policy.json"%string := s2b "policy"]> (<["/requests.json"%string := s2b "requests"]> (<["/keys.json"%string := []]> issuer.test_run.1)).
Definition test_world : world :=
  mkWorld test_files (fun p => Ok (p =?s "/srv")) (fun _ => None) (fun _ => signerd.mkWire None None (fun _ => []) (New "EOF")).
Definition test_pair : string := issuer.test_url +:+ "=" +:+ b2s issuer.test_path.
Definition test_flags : flags :=
  mkFlags "/policy.json" "/srv" chain.org "/keys.json" "" "127.0.0.1:8181" "" "" "/log.jsonl" "" false [test_pair].
Definition test_f : fileStatus := {[ issuer.test_url := b2s issuer.test_path ]}.
Definition test_proxy : option enforce.Proxy :=
  match (serve test_world false test_flags).2 with Started _ p _ => Some p | _ => None end.
Definition test_pending : option pending :=
  match loadRequests test_world "/requests.json" issuer.test_keys with Ok [pd] => Some pd | _ => None end.

(** What the proxy does with the batch request when the files are [fs], and
    whether it is over the published chain. *)
Definition handled (fs : files.files) (p : option enforce.Proxy) (pd : option pending)
  : option (bool * enforce.Request * (enforce.Proxy * (enforce.Result + enforce.failure))) :=
  p ← p; pd ← pd;
  let q := on_files "/srv" (Some test_f) fs p in
  match build pd (enforce.Tip q) with
  | Ok req => Some (bool_decide (p_chain pd = issuer.Chain issuer.test_result), req, enforce.Handle q req test_now wal.DiskOK)
  | Err _ => None
  end.
Definition decided_as (h : option (bool * enforce.Request * (enforce.Proxy * (enforce.Result + enforce.failure)))) : option types.Decision :=
  match h with Some (_, _, (_, inl r)) => Some (enforce.Decision r) | _ => None end.
Definition test_before := handled issuer.test_run.1 test_proxy test_pending.
Definition test_handled := handled issuer.test_revoked.1 test_proxy test_pending.
Example allowed_before : types.Allowed <$> decided_as test_before = Some true.
Proof. vm_compute. reflexivity. Qed.

Definition second_hop : option chain.Link := elems (chain.Links (issuer.Chain issuer.test_result)) !! 1%nat.
Lemma second_hop_refers :
  match second_hop with
  | Some l => bool_decide (status.ListURL (credential.StatusRef (chain.Credential_ l)) = issuer.test_url)
              && (status.Index (credential.StatusRef (chain.Credential_ l)) =? 8)
  | None => false
  end = true.
Proof. vm_compute. reflexivity. Qed.

Lemma live_revokes :
  issuer.revoke issuer.test_parse d_list issuer.test_spec issuer.test_keys "/srv" 8 false None files.Done issuer.test_run.1
  = (issuer.test_revoked.1, Ok issuer.test_path).
Proof. cbn [d_list test_decoders]. exact issuer.test_revokes. Qed.
Lemma live_reads pub :
  issuer.resigned issuer.test_parse d_list issuer.test_spec issuer.test_keys "/srv" 8 false issuer.test_run.1 pub -> texts.ReadsList d_list pub.
Proof. cbn [d_list test_decoders]. exact (issuer.test_resigned_reads pub). Qed.

Lemma revocation_is_live_witness :
  match test_handled with
  | Some (_, _, (_, inl r)) => types.Consequential (enforce.Decision r) = true /\ types.Allowed (enforce.Decision r) = false
  | _ => False
  end.
Proof.
  assert (E : match test_handled with Some (b, _, (_, inl r)) => b && types.Consequential (enforce.Decision r) | _ => false end = true)
    by (vm_compute; reflexivity).
  assert (Hf : test_f !! issuer.URL (issuer.Status issuer.test_spec) = Some (b2s issuer.test_path)) by (vm_compute; reflexivity).
  pose proof second_hop_refers as Hl. unfold test_handled, handled in *.
  destruct test_proxy as [p|]; [|discriminate E]. destruct test_pending as [pd|]; [|discriminate E]. cbn [mbind option_bind] in *.
  destruct (build pd _) as [req|e] eqn:Eb; [|discriminate E].
  destruct (enforce.Handle _ req test_now wal.DiskOK) as [p' [r|]] eqn:Eh; [|discriminate E].
  apply andb_true_iff in E as [Hc Hcons]. apply bool_decide_eq_true in Hc. split; [exact Hcons|].
  unfold second_hop in Hl. destruct (elems (chain.Links (issuer.Chain issuer.test_result)) !! 1%nat) as [l|] eqn:El; [|discriminate Hl].
  apply andb_true_iff in Hl as [Hu Hi]. apply bool_decide_eq_true in Hu. apply Z.eqb_eq in Hi.
  apply (proj1 (revocation_is_live issuer.test_parse issuer.test_spec issuer.test_keys "/srv" 8 false None files.Done
                  issuer.test_run.1 issuer.test_revoked.1 issuer.test_path test_f "/srv" p live_revokes
                  live_reads Hf) eq_refl req (issuer.Chain issuer.test_result) l test_now wal.DiskOK p' r).
  - rewrite <- Hc. apply (build_Ok _ _ _ Eb).
  - by eapply list_elem_of_lookup_2.
  - exact Hu.
  - exact Hi.
  - exact Eh.
  - exact Hcons.
Defined.

Lemma test_rejects : rejects_empty.
Proof. split; vm_compute; reflexivity. Qed.
Lemma check_predicts_start_witness : (serve test_world true test_flags).1 = test_world.
Proof. exact (proj1 (check_predicts_start test_world test_flags test_rejects)). Defined.

Definition test_config : Config :=
  mkConfig "/policy.json" "/srv" (mkEnforcementPoint chain.org (mkKeySource "" "/keys.json")) "127.0.0.1:8181" "" false "" "/log.jsonl"
    (s2b "null") {[ issuer.test_url := b2s issuer.test_path ]}.
Definition test_served : result (option fileStatus) := resolver (statusPairs test_config) (dids_of "/srv" test_files) test_files.
Lemma status_map_served_witness : test_served = Ok (Some (c_Status test_config)).
Proof.
  assert (E : match test_served with Ok (Some _) => true | _ => false end = true) by (vm_compute; reflexivity).
  destruct test_served as [[f|]|e] eqn:Es; [|discriminate E..]. do 2 f_equal.
  apply (proj1 (proj2 (status_map_served test_config (dids_of "/srv" test_files) test_files f Es))).
  change (map_Forall (fun url _ => plain_url url) ({[ issuer.test_url := b2s issuer.test_path ]} : gmap string string)).
  intros url path [<- _]%lookup_singleton_Some.
  assert (E' : bool_decide (equals ∈ s2b issuer.test_url) = false) by (vm_compute; reflexivity). exact (proj1 (bool_decide_eq_false _) E').
Defined.
Example config_schema :
  schemaFlags = {["policy"; "dids"; "enforcement-point"; "signer-sock"; "keystore"; "http-addr"; "mcp-addr";
                  "allow-unauthenticated-remote"; "export"; "audit-log"; "audit-wal"; "status"]}
  /\ conflictingFlags ["http-addr"; "now"] = ["http-addr"%string].
Proof. split; vm_compute; reflexivity. Qed.
End proxycmd.
