(* ===== verification/Mcp.v ===== *)
(** internal/enforce (mcp.go): the MCP listener, a thin adapter from JSON-RPC
    2.0 over HTTP to the same chokepoint. *)
From S2P Require Import Prelude GoFmt GoTime GoCrypto GoPath GoJson GoJsonText GoJsonAny Webhost GoNet Types Signer Did Status Policy.
From S2P Require Import Macaroon Credential Chain AuditLog Export Texts Verifier Auditsink Wal Enforce Ingress Http.

Module mcp.

Definition mcpProtocolVersion : string := "2026-07-28".
Definition toolTip : string := "kessa/tip".
Definition toolEnforce : string := "kessa/enforce".
Definition hdrMCPProtocolVersion : string := "MCP-Protocol-Version".
Definition hdrMCPMethod : string := "Mcp-Method".
Definition hdrMCPName : string := "Mcp-Name".
Definition metaProtocolVersion : string := "io.modelcontextprotocol/protocolVersion".
Definition metaClientCapabilities : string := "io.modelcontextprotocol/clientCapabilities".
Definition metaServerInfo : string := "io.modelcontextprotocol/serverInfo".
Definition b64Prefix : string := "=?base64?".
Definition b64Suffix : string := "?=".

Definition rpcParseError : Z := -32700.
Definition rpcInvalidRequest : Z := -32600.
Definition rpcMethodNotFound : Z := -32601.
Definition rpcInvalidParams : Z := -32602.
Definition rpcInternalError : Z := -32603.
Definition rpcHeaderMismatch : Z := -32020.
Definition rpcUnsupportedProtocolVersion : Z := -32022.

Definition StatusAccepted : Z := 202.
Definition StatusNotFound : Z := 404.
Definition StatusMethodNotAllowed : Z := 405.

(** The raw messages are their bytes; an absent one is empty. *)
Record rpcRequest := mkRpc { JSONRPC : string; ID : bytes; RMethod : string; Params : bytes }.
Definition isNotification (r : rpcRequest) : bool := bool_decide (ID r = []).
Record toolCallParams := mkCall { Name : string; Arguments : bytes }.
Record toolSpec := mkSpec { SName : string; Description : string; InputSchema : string }.

(** Decoding by encoding/json: the message, the [_meta] object of the params
    (empty when absent), a member as a string, a member as an object, the params
    of a tool call, and an enforcement request. *)
Class Decoders :=
  { decode_rpc : bytes -> result rpcRequest; decode_meta : bytes -> result (gmap string bytes);
    decode_string : bytes -> option string; decode_object : bytes -> bool;
    decode_call : bytes -> result toolCallParams; decode_request : bytes -> result enforce.Request }.

(** The result of a successful reply; the protocol fields every result carries
    (its type and the server's identity) are not part of it.  A tool's schema is
    the text it is given as. *)
Inductive rpcResult :=
| PingResult
| ToolsListResult (tools : list toolSpec)
| ToolResult (text : bytes) (structured : option json) (isError : bool).

(** An answer: plain text, an accepted notification, a JSON-RPC error with its
    HTTP status and, for one error, the supported versions, a JSON-RPC result;
    or the panic that net/http recovers by dropping the connection. *)
Inductive reply :=
| Text (status : Z) (message : string)
| Accepted
| RPCError (status : Z) (id : bytes) (code : Z) (message : string) (supported : option (list string))
| RPCResult (id : bytes) (r : rpcResult)
| Panicked.

Definition idOrNull (id : bytes) : bytes := if bool_decide (id = []) then s2b "null" else id.
Definition writeRPCErrorData (id : bytes) (status code : Z) (msg : string) (data : option (list string)) : reply :=
  RPCError status (idOrNull id) code msg data.
Definition writeRPCErrorStatus (id : bytes) (status code : Z) (msg : string) : reply :=
  writeRPCErrorData id status code msg None.
Definition writeRPCError (id : bytes) (code : Z) (msg : string) : reply :=
  writeRPCErrorStatus id http.StatusOK code msg.
Definition writeHeaderMismatch (id : bytes) (msg : string) : reply :=
  writeRPCErrorStatus id ingress.StatusBadRequest rpcHeaderMismatch ("header mismatch: " +:+ msg).
(** A result is marshalled, decoded as an object and written with the protocol's
    fields.  Of a tool's result that rewrites the structured value, and not the
    text, which is one string; marshalling cannot fail here, since the value has
    just been marshalled. *)
Definition resultObject (r : rpcResult) : rpcResult :=
  match r with
  | ToolResult text structured isError => ToolResult text (through_any <$> structured) isError
  | _ => r
  end.
Definition writeRPCResult (id : bytes) (r : rpcResult) : reply := RPCResult (idOrNull id) (resultObject r).

Section Mcp.
Context {CR : Crypto} {UT : UnicodeTables} {CT : CaseTables} {DC : Decoders}.

Definition writeToolResult (id : bytes) (payload : result json) (isError : bool) : reply :=
  match Marshal payload, payload with
  | Ok text, Ok j => writeRPCResult id (ToolResult text (Some j) isError)
  | Err e, _ | _, Err e => writeRPCError id rpcInternalError ("marshal tool result: " +:+ Error e)
  end.
Definition writeToolError (id : bytes) (msg : string) : reply := writeRPCResult id (ToolResult (s2b msg) None true).

Definition toolsList : list toolSpec :=
  [ mkSpec toolTip
      "Return the next audit-log slot {seq, prevHash} to bind proof-of-possession and approval to before calling kessa/enforce."
      ("{" +:+ dq "type" +:+ ":" +:+ dq "object" +:+ "," +:+ dq "properties" +:+ ":{}," +:+ dq "additionalProperties" +:+ ":false}");
    mkSpec toolEnforce
      "Adjudicate one action attempt. Arguments are a complete enforce.Request (delegation chain, action, proof-of-possession, and human approval for consequential actions). Returns the enforce.Result: the allow/deny decision and the signed audit entry."
      ("{" +:+ dq "type" +:+ ":" +:+ dq "object" +:+ "," +:+ dq "required" +:+ ":[" +:+ dq "chain" +:+ "," +:+ dq "action"
       +:+ "," +:+ dq "pop" +:+ "]," +:+ dq "properties" +:+ ":{" +:+ dq "chain" +:+ ":{" +:+ dq "type" +:+ ":" +:+ dq "object"
       +:+ "}," +:+ dq "action" +:+ ":{" +:+ dq "type" +:+ ":" +:+ dq "object" +:+ "}," +:+ dq "pop" +:+ ":{" +:+ dq "type"
       +:+ ":" +:+ dq "object" +:+ "}," +:+ dq "approver" +:+ ":{" +:+ dq "type" +:+ ":" +:+ dq "string" +:+ "},"
       +:+ dq "approval" +:+ ":{" +:+ dq "type" +:+ ":" +:+ dq "string" +:+ "}}}") ].

(** ** Headers *)

(** [requireSingleHeader]: the value, or the refusal it wrote. *)
Definition requireSingleHeader (r : http_request) (id : bytes) (name : string) : string + reply :=
  match ingress.singleHeader r name with
  | (_, _, true) => inr (writeHeaderMismatch id ("header " +:+ name +:+ " appears more than once"))
  | (_, false, _) => inr (writeHeaderMismatch id ("missing required " +:+ name +:+ " header"))
  | (v, true, false) => inl v
  end.

(** [decodeHeaderValue]; the slice expression panics when prefix and suffix
    overlap. *)
Inductive header_value := Plain (v : string) | BadBase64 (e : error) | SlicePanic.
Definition decodeHeaderValue (v : string) : header_value :=
  if negb (HasPrefix v b64Prefix) || negb (HasSuffix v b64Suffix) then Plain v
  else
    let lo := len (s2b b64Prefix) in
    let hi := len (s2b v) - len (s2b b64Suffix) in
    if hi <? lo then SlicePanic
    else match StdDecode (b2s (drop (Z.to_nat lo) (take (Z.to_nat hi) (s2b v)))) with
         | Some raw => Plain (b2s raw)
         | None => BadBase64 (New "illegal base64 data")
         end.

Definition metaIsObject (meta : gmap string bytes) (key : string) : bool :=
  match meta !! key with Some raw => decode_object raw | None => false end.
Definition metaString (meta : gmap string bytes) (key : string) : option string :=
  match meta !! key with
  | Some raw => match decode_string raw with Some s => if s =?s "" then None else Some s | None => None end
  | None => None
  end.

(** [None] when dispatch may proceed. *)
Definition validateRequestMetadata (r : http_request) (req : rpcRequest) : option reply :=
  match requireSingleHeader r (ID req) hdrMCPProtocolVersion with
  | inr rep => Some rep
  | inl hdrVersion =>
  match requireSingleHeader r (ID req) hdrMCPMethod with
  | inr rep => Some rep
  | inl hdrMethod =>
  if negb (hdrMethod =?s RMethod req) then
    Some (writeHeaderMismatch (ID req) (Sprintf "%s %q does not match body method %q"
            [AStr hdrMCPMethod; AStr hdrMethod; AStr (RMethod req)]))
  else
  match (if bool_decide (Params req = []) then Ok ∅ else decode_meta (Params req)) with
  | Err e => Some (writeRPCErrorStatus (ID req) ingress.StatusBadRequest rpcInvalidParams ("invalid params: " +:+ Error e))
  | Ok meta =>
  match metaString meta metaProtocolVersion with
  | None => Some (writeRPCErrorStatus (ID req) ingress.StatusBadRequest rpcInvalidParams
                    ("params._meta must carry " +:+ metaProtocolVersion))
  | Some bodyVersion =>
  if negb (metaIsObject meta metaClientCapabilities) then
    Some (writeRPCErrorStatus (ID req) ingress.StatusBadRequest rpcInvalidParams
            ("params._meta must carry " +:+ metaClientCapabilities +:+ " as an object"))
  else if negb (hdrVersion =?s bodyVersion) then
    Some (writeHeaderMismatch (ID req) (Sprintf "%s %q does not match body %s %q"
            [AStr hdrMCPProtocolVersion; AStr hdrVersion; AStr metaProtocolVersion; AStr bodyVersion]))
  else if negb (bodyVersion =?s mcpProtocolVersion) then
    Some (writeRPCErrorData (ID req) ingress.StatusBadRequest rpcUnsupportedProtocolVersion
            ("unsupported protocol version " +:+ bodyVersion) (Some [mcpProtocolVersion]))
  else None
  end end end end.

(** ** Dispatch *)

Definition handleToolsCall (px : enforce.Proxy) (r : http_request) (req : rpcRequest) (now : time) (d : wal.disk)
  : enforce.Proxy * reply :=
  match decode_call (Params req) with
  | Err e => (px, writeRPCError (ID req) rpcInvalidParams ("invalid tools/call params: " +:+ Error e))
  | Ok p =>
      match requireSingleHeader r (ID req) hdrMCPName with
      | inr rep => (px, rep)
      | inl h =>
          match decodeHeaderValue h with
          | SlicePanic => (px, Panicked)
          | BadBase64 e => (px, writeHeaderMismatch (ID req) (hdrMCPName +:+ " is not valid base64: " +:+ Error e))
          | Plain name =>
              if negb (name =?s Name p) then
                (px, writeHeaderMismatch (ID req) (Sprintf "%s %q does not match tool %q" [AStr hdrMCPName; AStr name; AStr (Name p)]))
              else if Name p =?s toolTip then
                (px, writeToolResult (ID req) (Ok (http.Tip_json (enforce.Tip px))) false)
              else if Name p =?s toolEnforce then
                match decode_request (Arguments p) with
                | Err e => (px, writeRPCError (ID req) rpcInvalidParams ("invalid enforce.Request arguments: " +:+ Error e))
                | Ok er =>
                    match enforce.Handle px er now d with
                    | (px, inr f) => (px, writeToolError (ID req) ("proxy rejected request: " +:+ Error (http.failure_error f)))
                    | (px, inl res) => (px, writeToolResult (ID req) (http.Result_json res) false)
                    end
                end
              else (px, writeRPCError (ID req) rpcInvalidParams ("unknown tool: " +:+ Name p))
          end
      end
  end.

Definition dispatch (px : enforce.Proxy) (r : http_request) (req : rpcRequest) (now : time) (d : wal.disk)
  : enforce.Proxy * reply :=
  if RMethod req =?s "ping" then (px, writeRPCResult (ID req) PingResult)
  else if RMethod req =?s "tools/list" then (px, writeRPCResult (ID req) (ToolsListResult toolsList))
  else if RMethod req =?s "tools/call" then handleToolsCall px r req now d
  else (px, writeRPCErrorStatus (ID req) StatusNotFound rpcMethodNotFound ("unknown method: " +:+ RMethod req)).

(** [bytes.TrimSpace]; and the body as [io.ReadAll] gives it, trimmed. *)
Definition trim_bytes (b : bytes) : bytes := trim_right (trim_left b).
Definition read_body (r : http_request) : bytes + reply :=
  match max_body http.maxRequestBody r with
  | (_, BodyTooLarge) => inr (Text ingress.StatusRequestEntityTooLarge "request body too large")
  | (_, BodyBroken e) => inr (Text ingress.StatusBadRequest ("bad request: " +:+ Error e))
  | (raw, BodyEOF) => inl (trim_bytes raw)
  end.

Definition handlePost (px : enforce.Proxy) (r : http_request) (now : time) (d : wal.disk) : enforce.Proxy * reply :=
  if negb (ingress.hasJSONContentType r) then
    (px, Text ingress.StatusUnsupportedMediaType "unsupported media type: this endpoint accepts application/json")
  else match read_body r with
  | inr rep => (px, rep)
  | inl body =>
      if bool_decide (head body = Some Byte.x5b) then
        (px, writeRPCError [] rpcInvalidRequest "JSON-RPC batches are not supported")
      else match decode_rpc body with
      | Err e => (px, writeRPCError [] rpcParseError ("parse error: " +:+ Error e))
      | Ok req =>
          if negb (JSONRPC req =?s "2.0") then
            (px, writeRPCError (ID req) rpcInvalidRequest (dq "jsonrpc" +:+ " must be " +:+ dq "2.0"))
          else if bool_decide (trim_bytes (ID req) = s2b "null") then
            (px, writeRPCErrorStatus [] ingress.StatusBadRequest rpcInvalidRequest (dq "id" +:+ " must not be null"))
          else if isNotification req then (px, Accepted)
          else match validateRequestMetadata r req with
               | Some rep => (px, rep)
               | None => dispatch px r req now d
               end
      end
  end.

Definition ServeHTTP (px : enforce.Proxy) (r : http_request) (now : time) (d : wal.disk) : enforce.Proxy * reply :=
  if negb (ingress.originAllowed r) then
    (px, Text ingress.StatusForbidden "forbidden: cross-origin request to a local enforcement endpoint")
  else if Method r =?s "POST" then handlePost px r now d
  else if (Method r =?s "GET") || (Method r =?s "DELETE") then
    (px, Text StatusMethodNotAllowed "MCP 2026-07-28: the endpoint accepts POST only (no GET stream, no sessions)")
  else (px, Text StatusMethodNotAllowed "method not allowed").

(** ** The adapter is thin *)

(** A message that names the enforcement tool, and whose headers say what its
    body says. *)
Definition well_mirrored (r : http_request) (req : rpcRequest) (call : toolCallParams) : Prop :=
  RMethod req = "tools/call"%string /\ Name call = toolEnforce /\ decode_call (Params req) = Ok call
  /\ Values r hdrMCPMethod = ["tools/call"%string] /\ Values r hdrMCPProtocolVersion = [mcpProtocolVersion]
  /\ (exists h, Values r hdrMCPName = [h] /\ decodeHeaderValue h = Plain toolEnforce)
  /\ exists meta, (if bool_decide (Params req = []) then Ok ∅ else decode_meta (Params req)) = Ok meta
       /\ metaString meta metaProtocolVersion = Some mcpProtocolVersion /\ metaIsObject meta metaClientCapabilities = true.
Definition admitted (r : http_request) (er : enforce.Request) (req : rpcRequest) : Prop :=
  Method r = "POST"%string /\ ingress.originAllowed r = true /\ ingress.hasJSONContentType r = true
  /\ (exists body, read_body r = inl body /\ head body <> Some Byte.x5b /\ decode_rpc body = Ok req)
  /\ JSONRPC req = "2.0"%string /\ ID req <> [] /\ trim_bytes (ID req) <> s2b "null"
  /\ exists call, well_mirrored r req call /\ decode_request (Arguments call) = Ok er.

Lemma requireSingleHeader_Ok r id name v : requireSingleHeader r id name = inl v <-> Values r name = [v].
Proof.
  unfold requireSingleHeader, ingress.singleHeader. destruct (Values r name) as [|a [|b l]]; split; intros H; try done.
  - by injection H as ->.
  - by injection H as ->.
Qed.

Lemma validate_None r req :
  validateRequestMetadata r req = None <->
  Values r hdrMCPMethod = [RMethod req] /\ Values r hdrMCPProtocolVersion = [mcpProtocolVersion]
  /\ exists meta, (if bool_decide (Params req = []) then Ok ∅ else decode_meta (Params req)) = Ok meta
       /\ metaString meta metaProtocolVersion = Some mcpProtocolVersion /\ metaIsObject meta metaClientCapabilities = true.
Proof.
  unfold validateRequestMetadata. split.
  - destruct (requireSingleHeader r _ hdrMCPProtocolVersion) as [hv|] eqn:E1; [|done]. apply requireSingleHeader_Ok in E1.
    destruct (requireSingleHeader r _ hdrMCPMethod) as [hm|] eqn:E2; [|done]. apply requireSingleHeader_Ok in E2.
    destruct (hm =?s RMethod req) eqn:E3; cbn [negb]; [|done]. apply str_eqb_true in E3 as ->.
    destruct (if bool_decide (Params req = []) then Ok ∅ else decode_meta (Params req)) as [meta|] eqn:E4; [|done].
    destruct (metaString meta _) as [bv|] eqn:E5; [|done]. destruct (metaIsObject meta _) eqn:E6; cbn [negb]; [|done].
    destruct (hv =?s bv) eqn:E7; cbn [negb]; [|done]. apply str_eqb_true in E7 as ->.
    destruct (bv =?s mcpProtocolVersion) eqn:E8; cbn [negb]; [|done]. apply str_eqb_true in E8 as ->.
    intros _. split_and!; [done..|]. by exists meta.
  - intros (Hm & Hv & meta & E4 & E5 & E6).
    rewrite (proj2 (requireSingleHeader_Ok r (ID req) hdrMCPProtocolVersion mcpProtocolVersion) Hv).
    rewrite (proj2 (requireSingleHeader_Ok r (ID req) hdrMCPMethod (RMethod req)) Hm).
    rewrite str_eqb_refl. cbn [negb]. rewrite E4, E5, E6. cbn [negb]. by rewrite str_eqb_refl.
Qed.

Definition tool_reply (id : bytes) (r : enforce.Result + enforce.failure) : reply :=
  match r with
  | inl res => writeToolResult id (http.Result_json res) false
  | inr f => writeToolError id ("proxy rejected request: " +:+ Error (http.failure_error f))
  end.

Lemma call_admitted px r req call er now d :
  well_mirrored r req call -> decode_request (Arguments call) = Ok er ->
  dispatch px r req now d = ((enforce.Handle px er now d).1, tool_reply (ID req) (enforce.Handle px er now d).2).
Proof.
  intros (Hm & Hn & Hc & _ & _ & (h & Hh & Hd) & _) He. unfold dispatch. rewrite Hm.
  change ("tools/call" =?s "ping") with false. change ("tools/call" =?s "tools/list") with false.
  rewrite str_eqb_refl. cbv iota. unfold handleToolsCall. rewrite Hc.
  rewrite (proj2 (requireSingleHeader_Ok r (ID req) hdrMCPName h) Hh), Hd, Hn, str_eqb_refl. cbn [negb].
  change (toolEnforce =?s toolTip) with false. cbv iota. rewrite He.
  by destruct (enforce.Handle px er now d) as [px' [res|f]].
Qed.

Lemma call_cases px r req now d :
  validateRequestMetadata r req = None ->
  (dispatch px r req now d).1 = px \/ exists call er, well_mirrored r req call /\ decode_request (Arguments call) = Ok er.
Proof.
  intros (Hm & Hv & Hmeta)%validate_None. unfold dispatch. destruct (RMethod req =?s "ping"); [by left|].
  destruct (RMethod req =?s "tools/list"); [by left|]. destruct (RMethod req =?s "tools/call") eqn:E; [|by left].
  apply str_eqb_true in E. unfold handleToolsCall. destruct (decode_call (Params req)) as [p|e] eqn:Ec; [|by left].
  destruct (requireSingleHeader r _ hdrMCPName) as [h|] eqn:Eh; [|by left]. apply requireSingleHeader_Ok in Eh.
  destruct (decodeHeaderValue h) as [name|e|] eqn:Ed; [|by left..].
  destruct (name =?s Name p) eqn:En; cbn [negb]; [|by left]. apply str_eqb_true in En as ->.
  destruct (Name p =?s toolTip); [by left|]. destruct (Name p =?s toolEnforce) eqn:Et; [|by left].
  apply str_eqb_true in Et. destruct (decode_request (Arguments p)) as [er|e] eqn:Er; [|by left].
  right. exists p, er. split; [|done]. rewrite E in Hm. rewrite Et in Ed. unfold well_mirrored. split_and!; try done. by exists h.
Qed.

Lemma serve_admitted px r er req now d :
  admitted r er req ->
  ServeHTTP px r now d = ((enforce.Handle px er now d).1, tool_reply (ID req) (enforce.Handle px er now d).2).
Proof.
  intros (Hp & Ho & Hj & (body & Hb & Hnb & Hd) & Hv & Hid & Hnull & call & Hw & He).
  unfold ServeHTTP. rewrite Ho, Hp, str_eqb_refl. cbn [negb]. unfold handlePost. rewrite Hj, Hb. cbn [negb].
  rewrite bool_decide_false by done. rewrite Hd, Hv, str_eqb_refl. cbn [negb].
  rewrite bool_decide_false by done. unfold isNotification. rewrite bool_decide_false by done.
  rewrite (proj2 (validate_None r req)); [by apply (call_admitted px r req call)|].
  destruct Hw as (Hm & _ & _ & Hhm & Hhv & _ & Hmeta). by rewrite Hm.
Qed.

Lemma serve_cases px r now d : (ServeHTTP px r now d).1 = px \/ exists er req, admitted r er req.
Proof.
  unfold ServeHTTP. destruct (ingress.originAllowed r) eqn:Eo; cbn [negb]; [|by left].
  destruct (Method r =?s "POST") eqn:Ep; [|left; by destruct (_ || _)]. apply str_eqb_true in Ep. unfold handlePost.
  destruct (ingress.hasJSONContentType r) eqn:Ej; cbn [negb]; [|by left].
  destruct (read_body r) as [body|] eqn:Eb; [|by left]. case_bool_decide as Hh; [by left|].
  destruct (decode_rpc body) as [req|e] eqn:Er; [|by left].
  destruct (JSONRPC req =?s "2.0") eqn:Ev; cbn [negb]; [|by left]. apply str_eqb_true in Ev.
  case_bool_decide as Hn; [by left|]. unfold isNotification. case_bool_decide as Hi; [by left|].
  destruct (validateRequestMetadata r req) as [rep|] eqn:Em; [by left|].
  destruct (call_cases px r req now d Em) as [->|(call & er & Hw & He)]; [by left|right].
  exists er, req. unfold admitted. split_and!; try done; [by exists body|by exists call].
Qed.

(** C14: an MCP message reaches the chokepoint only as a call of kessa/enforce
    whose three routing headers each appear once and agree with the body and
    with the supported revision; the reply is then exactly what [Handle]
    returned.  A batch, a notification, a null identifier, a mismatch, any other
    method or tool, and the panic in the header decoder change nothing. *)
Theorem no_split_brain px r now d :
  (forall er req, admitted r er req ->
     ServeHTTP px r now d = ((enforce.Handle px er now d).1, tool_reply (ID req) (enforce.Handle px er now d).2))
  /\ ((~ exists er req, admitted r er req) -> (ServeHTTP px r now d).1 = px).
Proof.
  split; [intros er req; apply serve_admitted|]. intros Hn. by destruct (serve_cases px r now d).
Qed.

(** A decision's JSON has three integers. *)
Lemma result_ints (P : Z -> Prop) res j :
  http.Result_json res = Ok j ->
  P (audit.Seq (enforce.Entry res)) -> P (types.StatusCheckedHops (enforce.Decision res)) ->
  P (types.StatusCheckedHops (audit.Decision (enforce.Entry res))) -> Forall P (ints j).
Proof.
  unfold http.Result_json, audit.Entry_json, types.Action_json. intros H Hs Hd He. gosimp H. apply Ok_inj in H as <-.
  repeat match goal with Hq : Ok _ = Ok _ |- _ => apply Ok_inj in Hq; subst end.
  repeat match goal with Hq : j_time _ = Ok _ |- _ => apply j_time_str in Hq; subst end.
  assert (Hdec : forall dec, P (types.StatusCheckedHops dec) -> Forall P (ints (types.Decision_json dec))).
  { intros dec Hp. cbn. by repeat constructor. }
  rewrite !ints_members. unfold str_field_omit, bytes_field_omit, audit.strings_field_omit.
  repeat rewrite ?int_members_app, ?int_members_field, ?ints_members.
  split_and!; auto using int_members_omit, ints_strings, ints_string_map.
  - by repeat constructor.
  - by destruct (audit.PrevHash _); constructor.
  - destruct (audit.ResolvedChain _); [apply ints_strings|constructor].
Qed.

(** C16: the two listeners are one enforcement path: the same request through
    either changes the proxy in the same way, a decision is the same JSON value
    on both, and a refusal has the same reason.  The text of an MCP reply is the
    HTTP listener's; its structured value is that value decoded without a type and
    written again, which is the same but for the order of members as long as its
    integers - the position and the counted hops - are at most 2^53. *)
Theorem listeners_agree fv px rh rm er req now d :
  http.admitted fv rh er -> admitted rm er req ->
  (http.Handler fv px rh now d).1 = (ServeHTTP px rm now d).1
  /\ match (enforce.Handle px er now d).2 with
     | inl res => exists text j, Marshal (http.Result_json res) = Ok text /\ http.Result_json res = Ok j
         /\ (http.Handler fv px rh now d).2 = http.Json (text ++ [Byte.x0a])
         /\ (ServeHTTP px rm now d).2 = RPCResult (idOrNull (ID req)) (ToolResult text (Some (through_any j)) false)
         /\ (Z.abs (audit.Seq (enforce.Entry res)) <= 2 ^ 53 -> Z.abs (types.StatusCheckedHops (enforce.Decision res)) <= 2 ^ 53 ->
             Z.abs (types.StatusCheckedHops (audit.Decision (enforce.Entry res))) <= 2 ^ 53 -> through_any j = by_name j)
     | inr f => exists why, why = Error (http.failure_error f)
         /\ (http.Handler fv px rh now d).2 = http.Text 422 why
         /\ (ServeHTTP px rm now d).2 = RPCResult (idOrNull (ID req)) (ToolResult (s2b ("proxy rejected request: " +:+ why)) None true)
     end.
Proof.
  intros (Hp & Hu & Ho & Hj & Hd) Hm. rewrite (serve_admitted px rm er req now d Hm). cbn [fst snd].
  assert (Hs : http.Handler fv px rh now d = http.serve_enforce fv px rh now d).
  { unfold http.Handler. by rewrite Hp, Hu. }
  assert (Hc : ingress.checkIngress rh true = None) by (by apply ingress.checkIngress_None).
  rewrite Hs. unfold http.serve_enforce. rewrite Hc, Hd. pose proof (http.result_encodes px er now d) as Henc.
  destruct (enforce.Handle px er now d) as [px' [res|f]]; cbn [fst snd] in *; (split; [done|]).
  - destruct (Henc res eq_refl) as [text Ht]. pose proof Ht as Hr. unfold Marshal in Hr. gosimp Hr.
    exists text, a. unfold tool_reply, writeToolResult, http.Encode. rewrite Ht, Ha. split_and!; try done.
    intros Hq H1 H2. apply through_any_small. by apply (result_ints _ res).
  - by eexists.
Qed.

(** ** The header decoder *)

Lemma has_prefix_app p b : has_prefix p b = true <-> exists r, b = p ++ r.
Proof.
  revert b. induction p as [|x p IH]; intros b; [split; [by exists b|done]|]. destruct b as [|y b]; cbn [has_prefix].
  - split; [done|by intros []].
  - rewrite andb_true_iff, bool_decide_eq_true, IH. split.
    + intros [-> [r ->]]. by exists r.
    + intros [r [= -> ->]]. split; [done|by exists r].
Qed.
Lemma HasSuffix_app s p : HasSuffix s p = true <-> exists r, s2b s = r ++ s2b p.
Proof.
  unfold HasSuffix. rewrite has_prefix_app. split; intros [r Hr].
  - exists (rev r). apply (f_equal (@rev _)) in Hr. by rewrite rev_involutive, rev_app_distr, rev_involutive in Hr.
  - exists (rev r). by rewrite Hr, rev_app_distr.
Qed.

(** the value of a mirrored header is taken as it stands unless it is in
    the Base64 form, whose content is decoded; on exactly one value, the prefix
    whose last character also begins the suffix, the slice expression panics
    instead of refusing the header. *)
Theorem header_decoding v :
  (decodeHeaderValue v = SlicePanic <-> v = "=?base64?="%string)
  /\ (HasPrefix v b64Prefix = false \/ HasSuffix v b64Suffix = false -> decodeHeaderValue v = Plain v)
  /\ forall enc, v = b64Prefix +:+ enc +:+ b64Suffix ->
       decodeHeaderValue v = match StdDecode enc with Some raw => Plain (b2s raw) | None => BadBase64 (New "illegal base64 data") end.
Proof.
  split_and!.
  - split; [|intros ->; vm_compute; reflexivity]. unfold decodeHeaderValue.
    destruct (HasPrefix v b64Prefix) eqn:Ep; cbn [negb orb]; [|done].
    destruct (HasSuffix v b64Suffix) eqn:Es; cbn [negb]; [|done].
    destruct (_ <? _) eqn:El; [intros _|by destruct (StdDecode _)]. apply Z.ltb_lt in El.
    apply has_prefix_app in Ep as [r Hr]. apply HasSuffix_app in Es as [q Hq]. rewrite Hr, len_app in El.
    change (len (s2b b64Prefix)) with 9 in El. change (len (s2b b64Suffix)) with 2 in El.
    assert (Hl : (length r < 2)%nat) by (unfold len in El; lia).
    apply (inj s2b). rewrite Hr in Hq |- *. clear Hr El. destruct r as [|x [|y r]]; [| |simpl in Hl; lia].
    + rewrite app_nil_r in Hq. apply (f_equal (@rev _)) in Hq. rewrite rev_app_distr in Hq. vm_compute in Hq. discriminate.
    + apply (f_equal (@rev _)) in Hq. rewrite !rev_app_distr in Hq. cbn in Hq. by injection Hq as -> _.
  - unfold decodeHeaderValue. intros [->| ->]; [done|by rewrite orb_true_r].
  - intros enc ->. unfold decodeHeaderValue.
    assert (Hp : HasPrefix (b64Prefix +:+ enc +:+ b64Suffix) b64Prefix = true).
    { apply has_prefix_app. rewrite s2b_append. by eexists. }
    assert (Hs : HasSuffix (b64Prefix +:+ enc +:+ b64Suffix) b64Suffix = true).
    { apply HasSuffix_app. rewrite !s2b_append, app_assoc. by eexists. }
    rewrite Hp, Hs. cbn [negb orb]. rewrite !s2b_append, !len_app.
    change (len (s2b b64Prefix)) with 9. change (len (s2b b64Suffix)) with 2. pose proof (len_nonneg (s2b enc)).
    destruct (Z.ltb_spec (9 + (len (s2b enc) + 2) - 2) 9) as [|_]; [lia|].
    replace (Z.to_nat (9 + (len (s2b enc) + 2) - 2)) with (length (s2b b64Prefix ++ s2b enc))
      by (rewrite length_app; unfold len; change (length (s2b b64Prefix)) with 9%nat; lia).
    rewrite app_assoc, take_app_length. change (Z.to_nat 9) with (length (s2b b64Prefix)). by rewrite drop_app_length, b2s_s2b.
Qed.
End Mcp.

(** ** A concrete message *)

#[local] Existing Instance verifier.accepting.
#[local] Existing Instance verifier.ascii_tables.
#[local] Existing Instance http.same_case.

Definition test_rpc : rpcRequest := mkRpc "2.0" (s2b "1") "tools/call" (s2b "params").
Definition test_call : toolCallParams := mkCall toolEnforce (s2b "arguments").
(** Decoders that know one message and its parts. *)
#[local] Instance test_decoders : Decoders :=
  {| decode_rpc := fun b => if bool_decide (b = s2b "message") then Ok test_rpc else Err (New "invalid character");
     decode_meta := fun b => Ok {[ metaProtocolVersion := s2b "version"; metaClientCapabilities := s2b "{}" ]};
     decode_string := fun b => if bool_decide (b = s2b "version") then Some mcpProtocolVersion else None;
     decode_object := fun b => bool_decide (b = s2b "{}");
     decode_call := fun b => if bool_decide (b = s2b "params") then Ok test_call else Err (New "invalid character");
     decode_request := fun b => if bool_decide (b = s2b "arguments") then Ok enforce.test_request else Err (New "invalid character") |}.
Definition test_message (name : string) : http_request :=
  mkHttp "POST" "/" {[ "Content-Type"%string := ["application/json"%string]; "Mcp-Protocol-Version"%string := [mcpProtocolVersion];
                       "Mcp-Method"%string := ["tools/call"%string]; "Mcp-Name"%string := [name] ]} (s2b "message ") None.

Lemma test_admitted : admitted (test_message "=?base64?a2Vzc2EvZW5mb3JjZQ==?=") enforce.test_request test_rpc.
Proof.
  unfold admitted. split_and!; [reflexivity|reflexivity|vm_compute; reflexivity| |reflexivity|done|by vm_compute|].
  - exists (s2b "message"). split_and!; [vm_compute; reflexivity|by vm_compute|reflexivity].
  - exists test_call. split; [|reflexivity]. unfold well_mirrored. split_and!; [reflexivity..| |].
    + eexists. split; [reflexivity|vm_compute; reflexivity].
    + eexists. split_and!; [reflexivity|vm_compute; reflexivity|vm_compute; reflexivity].
Qed.

Lemma no_split_brain_witness :
  ServeHTTP http.test_px (test_message "=?base64?a2Vzc2EvZW5mb3JjZQ==?=") enforce.test_now wal.DiskOK
  = ((enforce.Handle http.test_px enforce.test_request enforce.test_now wal.DiskOK).1,
     tool_reply (s2b "1") (inl enforce.test_answer)).
Proof.
  refine (eq_trans (proj1 (no_split_brain http.test_px (test_message "=?base64?a2Vzc2EvZW5mb3JjZQ==?=") enforce.test_now wal.DiskOK)
                      enforce.test_request test_rpc _) _).
  - exact test_admitted.
  - by rewrite http.test_outcome.
Defined.

Lemma test_http_admitted : http.admitted http.test_first_value (http.json_post http.test_body) enforce.test_request.
Proof. unfold http.admitted. split_and!; vm_compute; reflexivity. Qed.

Lemma listeners_agree_witness :
  (http.Handler http.test_first_value http.test_px (http.json_post http.test_body) enforce.test_now wal.DiskOK).1
  = (ServeHTTP http.test_px (test_message "=?base64?a2Vzc2EvZW5mb3JjZQ==?=") enforce.test_now wal.DiskOK).1.
Proof.
  exact (proj1 (listeners_agree http.test_first_value http.test_px (http.json_post http.test_body)
                  (test_message "=?base64?a2Vzc2EvZW5mb3JjZQ==?=") enforce.test_request test_rpc enforce.test_now wal.DiskOK
                  test_http_admitted test_admitted)).
Defined.

Lemma header_decoding_witness :
  decodeHeaderValue "kessa/enforce" = Plain "kessa/enforce"
  /\ decodeHeaderValue "=?base64?a2Vzc2EvZW5mb3JjZQ==?=" = Plain "kessa/enforce".
Proof.
  split.
  - apply (proj1 (proj2 (header_decoding "kessa/enforce"))). left. reflexivity.
  - refine (eq_trans (proj2 (proj2 (header_decoding "=?base64?a2Vzc2EvZW5mb3JjZQ==?=")) "a2Vzc2EvZW5mb3JjZQ==" _) _);
      [reflexivity|vm_compute; reflexivity].
Defined.

(** One header value makes the listener panic before it answers. *)
Example panicking_header :
  ServeHTTP http.test_px (test_message "=?base64?=") enforce.test_now wal.DiskOK = (http.test_px, Panicked).
Proof. vm_compute. reflexivity. Qed.

End mcp.
