(* ===== verification/Honest.v ===== *)
(** The composition of the chokepoint (internal/enforce) and the independent
    verifier (internal/export, verify.go): what a proxy that runs the code
    exports is what the verifier accepts, and where it is not. *)
From S2P Require Import Prelude GoFmt GoTime GoCrypto GoJson GoJsonText Types Signer Did Status Policy Macaroon.
From S2P Require Import Credential Chain AuditLog Export Verifier Auditsink Wal Enforce.

Module honest.

(** ** Evidence stands in for what was presented

    The evidence set keeps one record per credential id, so the credential and
    the issuer proof a verifier reads may be those of an earlier request. *)

Section Evidence.
Context {CR : Crypto} {UT : UnicodeTables}.

Definition same_link (l l' : chain.Link) : Prop :=
  export.same_credential (chain.Credential_ l) (chain.Credential_ l').

Lemma subjects_same links links' :
  Forall2 same_link links links' -> map chain.subject links = map chain.subject links'.
Proof. induction 1 as [|l l' ls ls' (Hs & _) _ IH]; simpl; [done|]. f_equal; [exact Hs|exact IH]. Qed.

Lemma principals_same links links' :
  Forall2 same_link links links' ->
  chain.Principals (chain.mkChain (Some links)) = chain.Principals (chain.mkChain (Some links')).
Proof.
  intros H. pose proof (subjects_same _ _ H) as Hs. destruct H as [|l l' ls ls' (_ & Hi & _) _]; [done|].
  exact (f_equal2 (fun a b => Some (a :: b)) Hi Hs).
Qed.

Lemma step_same p p' l l' : same_link p p' -> same_link l l' -> chain.step_ok p l -> chain.step_ok p' l'.
Proof.
  intros (Ps & _ & Pm & _) (_ & Li & Lm & _). unfold chain.step_ok. by rewrite Ps, Pm, Li, Lm.
Qed.

Lemma linked_same links links' parent parent' :
  Forall2 same_link links links' -> option_Forall2 same_link parent parent' ->
  chain.linked parent links -> chain.linked parent' links'.
Proof.
  intros H. revert parent parent'. induction H as [|l l' ls ls' Hl _ IH]; intros parent parent' Hp; [done|].
  simpl. intros [H1 H2]. split.
  - destruct Hp as [p p' Hpp|]; [|done]. by eapply step_same.
  - eapply IH; [|exact H2]. by constructor.
Qed.

Lemma verify_same r links links' :
  Forall2 same_link links links' -> Forall (chain.hop_ok r) links' ->
  chain.Verify r (chain.mkChain (Some links)) = Ok tt -> chain.Verify r (chain.mkChain (Some links')) = Ok tt.
Proof.
  intros Hf Hh (Hne & Hd & _ & Hl)%chain.chain_Ok. apply chain.chain_Ok. simpl in *. split_and!; [| |done|].
  - intros ->. by apply Forall2_nil_inv_r in Hf.
  - apply Forall2_length in Hf. unfold len in *. by rewrite <- Hf.
  - eapply linked_same; [done|constructor|done].
Qed.

Lemma last_same links links' l :
  Forall2 same_link links links' -> last links = Some l -> exists l', last links' = Some l' /\ same_link l l'.
Proof.
  rewrite !last_lookup. intros Hf Hl. rewrite <- (Forall2_length _ _ _ Hf).
  destruct (Forall2_lookup_l _ _ _ _ _ Hf Hl) as (l' & ? & ?). by exists l'.
Qed.

Lemma publishes_same l l' : same_link l l' -> verifier.publishes l = verifier.publishes l'.
Proof. intros (_ & _ & _ & Hs & _). unfold verifier.publishes. by rewrite Hs. Qed.

Lemma published_count_same links links' :
  Forall2 same_link links links' ->
  len (List.filter verifier.publishes links) = len (List.filter verifier.publishes links').
Proof.
  induction 1 as [|l l' ls ls' Hl _ IH]; simpl; [done|]. rewrite (publishes_same _ _ Hl).
  destruct (verifier.publishes l'); [by rewrite !len_cons, IH|done].
Qed.

Lemma hopRevoked_same l l' inp :
  same_link l l' -> verifier.hopRevoked (chain.Credential_ l) inp = verifier.hopRevoked (chain.Credential_ l') inp.
Proof.
  intros (_ & Hi & _ & Hs & _). unfold verifier.hopRevoked, credential.StatusAuthority. by rewrite Hi, Hs.
Qed.

Lemma not_revoked_same inp links links' :
  Forall2 same_link links links' -> Forall (verifier.not_revoked inp) links -> Forall (verifier.not_revoked inp) links'.
Proof.
  induction 1 as [|l l' ls ls' Hl _ IH]; [done|]. rewrite !Forall_cons. intros [H1 H2]. split; [|by apply IH].
  unfold verifier.not_revoked in *. rewrite <- (publishes_same _ _ Hl), <- (hopRevoked_same _ _ _ Hl). done.
Qed.

Lemma possession_same l l' pop a seq prev :
  same_link l l' ->
  credential.VerifyPossession (chain.Credential_ l) pop a seq prev
  = credential.VerifyPossession (chain.Credential_ l') pop a seq prev.
Proof.
  intros (Hs & _ & Hm & _ & Hk). unfold credential.VerifyPossession, credential.popInput. by rewrite Hs, Hm, Hk.
Qed.

Lemma satisfies_same l l' a :
  same_link l l' ->
  macaroon.Satisfies (credential.Macaroon_ (chain.Credential_ l)) (verifier.action_context (chain.Credential_ l) a)
  = macaroon.Satisfies (credential.Macaroon_ (chain.Credential_ l')) (verifier.action_context (chain.Credential_ l') a).
Proof.
  intros (_ & _ & Hm & _ & Hk). unfold verifier.action_context, credential.HolderContext. by rewrite Hm, Hk.
Qed.

Lemma approved_same l l' inp e :
  same_link l l' -> verifier.approved inp (chain.Credential_ l) e -> verifier.approved inp (chain.Credential_ l') e.
Proof. intros (Hs & _). unfold verifier.approved. by rewrite Hs. Qed.
End Evidence.

(** ** Runs of a proxy *)

Section Runs.
Context {CR : Crypto} {UT : UnicodeTables}.

(** An arriving request, with the clock's reading and the disk's answer, or the
    end of an outstanding sink write. *)
Inductive event :=
| Attempt (req : enforce.Request) (now : time) (d : wal.disk)
| SinkDone (n : nat)
| UnattributableDone (n : nat).

Definition step (p : enforce.Proxy) (ev : event) : enforce.Proxy :=
  match ev with
  | Attempt req now d => (enforce.Handle p req now d).1
  | SinkDone n => enforce.set_flight p (delete n (enforce.inFlight p)) (enforce.unattrInFlight p)
  | UnattributableDone n => enforce.set_flight p (enforce.inFlight p) (delete n (enforce.unattrInFlight p))
  end.
Definition run (p : enforce.Proxy) (evs : list event) : enforce.Proxy := foldl step p evs.

(** The hops presented in a run. *)
Definition presented_by (ev : event) : list chain.Link :=
  match ev with
  | Attempt req _ _ => match enforce.Chain req with Some ch => elems (chain.Links ch) | None => [] end
  | _ => []
  end.
Definition presented (evs : list event) : list chain.Link := concat (map presented_by evs).

Lemma run_snoc p evs ev : run p (evs ++ [ev]) = step (run p evs) ev.
Proof. unfold run. by rewrite foldl_app. Qed.
Lemma presented_snoc evs ev : presented (evs ++ [ev]) = presented evs ++ presented_by ev.
Proof. unfold presented. rewrite map_app, concat_app. simpl. by rewrite app_nil_r. Qed.

(** Two hops of a run whose encodings differ and have the same address. *)
Definition collision_in (ls : list chain.Link) : Prop :=
  exists l1 l2 b1 b2, l1 ∈ ls /\ l2 ∈ ls
    /\ Marshal (credential.Credential_json (chain.Credential_ l1)) = Ok b1
    /\ Marshal (credential.Credential_json (chain.Credential_ l2)) = Ok b2
    /\ export.address_collision export.credIDDomain b1 b2.

(** What a decoder of requests yields: strings are valid UTF-8. *)
Definition valid_links (ls : list chain.Link) : Prop :=
  Forall (fun l => credential.valid_credential (chain.Credential_ l) = true) ls.

(** ** The invariant *)

Definition record_ok (p : enforce.Proxy) (ls : list chain.Link) (id : string) (r : export.CredentialRecord) : Prop :=
  let l := chain.mkLink (export.Credential_ r) (export.IssuerProof r) in
  export.CredentialID_ r = id /\ enforce.addressed r /\ chain.hop_ok (enforce.dids p) l /\ l ∈ ls.

(** The facts recorded with an allowed entry. *)
Definition allowed_ok (p : enforce.Proxy) (links : list chain.Link) (l : chain.Link) (e : audit.Entry) : Prop :=
  exists d, enforce.evaluate p (audit.Action e) = (d, None) /\ types.Allowed d = true
    /\ macaroon.Satisfies (credential.Macaroon_ (chain.Credential_ l))
         (verifier.action_context (chain.Credential_ l) (audit.Action e)) = Ok tt
    /\ (types.Consequential d = true ->
        Forall (verifier.not_revoked (enforce.inputs p)) links
        /\ verifier.approved (enforce.inputs p) (chain.Credential_ l) e)
    /\ audit.Decision e = enforce.checked_decision links d
    /\ (audit.ApprovedBy e = ""%string /\ audit.Approval e = [] \/ types.Consequential d = true).

Definition entry_ok (p : enforce.Proxy) (ls : list chain.Link) (e : audit.Entry) : Prop :=
  exists links l, Forall (fun x => x ∈ ls) links
    /\ chain.Verify (enforce.dids p) (chain.mkChain (Some links)) = Ok tt
    /\ chain.Principals (chain.mkChain (Some links)) = audit.ResolvedChain e
    /\ Forall2 (fun x id => export.CredentialID (chain.Credential_ x) = Ok id) links (audit.ChainCredentialIDs e)
    /\ Forall (fun id => export.Has (enforce.set p) id = true) (audit.ChainCredentialIDs e)
    /\ last links = Some l /\ audit.PolicyID e = enforce.policyID p
    /\ credential.VerifyPossession (chain.Credential_ l)
         (credential.mkPoP (Some (audit.PoPNonce e)) (Some (audit.PoPSignature e)))
         (audit.Action e) (audit.Seq e) (elems (audit.PrevHash e)) = Ok tt
    /\ (types.Allowed (audit.Decision e) = true -> allowed_ok p links l e).

(** What never changes. *)
Definition same_config (p q : enforce.Proxy) : Prop :=
  enforce.enforcementPoint q = enforce.enforcementPoint p /\ enforce.evaluator q = enforce.evaluator p
  /\ enforce.carriedPolicy q = enforce.carriedPolicy p /\ enforce.policyID q = enforce.policyID p
  /\ enforce.dids q = enforce.dids p /\ enforce.status_ q = enforce.status_ p.

Record inv (p : enforce.Proxy) (ls : list chain.Link) : Prop := mkInv
  { inv_log : audit.VerifyEntries (signer.Public (enforce.enforcementPoint p)) (audit.entries (enforce.log p)) = None;
    inv_signer : audit.log_signer (enforce.log p) = enforce.enforcementPoint p;
    inv_set : map_Forall (record_ok p ls) (enforce.set p);
    inv_entries : Forall (entry_ok p ls) (audit.entries (enforce.log p)) }.

Lemma same_config_refl p : same_config p p.
Proof. by split_and!. Qed.
Lemma same_config_trans p q r : same_config p q -> same_config q r -> same_config p r.
Proof. unfold same_config. intros (?&?&?&?&?&?) (?&?&?&?&?&?). split_and!; congruence. Qed.

Lemma inputs_config p q : same_config p q -> enforce.inputs q = enforce.inputs p.
Proof. intros (_ & _ & _ & _ & Hd & Hs). unfold enforce.inputs. by rewrite Hd, Hs. Qed.

Lemma entry_ok_mono p q ls ls' e :
  same_config p q -> enforce.set p ⊆ enforce.set q -> ls ⊆ ls' -> entry_ok p ls e -> entry_ok q ls' e.
Proof.
  intros Hc Hs Hl (links & l & Hin & Hv & Hp & Hids & Hhas & Hlast & Hpid & Hpos & Hal).
  pose proof (inputs_config _ _ Hc) as Hi. destruct Hc as (_ & He & _ & Hpi & Hd & _).
  exists links, l. rewrite Hd, Hpi. split_and!; try done.
  - eapply Forall_impl; [exact Hin|]. intros x. apply Hl.
  - eapply Forall_impl; [exact Hhas|]. intros id Hid%bool_decide_eq_true. apply bool_decide_eq_true.
    destruct Hid as [r Hr]. exists r. by eapply lookup_weaken.
  - intros Ha. destruct (Hal Ha) as (d & Hev & Hrest). exists d. rewrite Hi. split; [|exact Hrest].
    unfold enforce.evaluate in *. by rewrite He.
Qed.

(** A change that leaves log, evidence and configuration alone. *)
Lemma inv_mono p q ls ls' :
  inv p ls -> same_config p q -> enforce.log q = enforce.log p -> enforce.set q = enforce.set p -> ls ⊆ ls' -> inv q ls'.
Proof.
  intros [I1 I2 I3 I4] Hc Hl Hs Hsub. pose proof Hc as (Hep & _ & _ & _ & Hd & _). constructor.
  - by rewrite Hl, Hep.
  - by rewrite Hl, Hep.
  - rewrite Hs. eapply map_Forall_impl; [exact I3|]. intros id r (? & ? & ? & ?). unfold record_ok. rewrite Hd.
    split_and!; try done. by apply Hsub.
  - rewrite Hl. eapply Forall_impl; [exact I4|]. intros e. by apply entry_ok_mono; [|rewrite Hs|].
Qed.

(** The approval condition on a request: it carries one only when it is needed. *)
Definition careful (p : enforce.Proxy) (ev : event) : Prop :=
  match ev with
  | Attempt req _ _ =>
      enforce.Approval req = []
      \/ forall d, enforce.evaluate p (enforce.Action req) = (d, None) -> types.Consequential d = true
  | _ => True
  end.

(** The approval a proxy accepted is one the verifier accepts. *)
Lemma verifyApproval_approved p req l e :
  enforce.verifyApproval p req (credential.Subject (chain.Credential_ l)) (audit.Seq e) (elems (audit.PrevHash e)) = Ok tt ->
  audit.Action e = enforce.Action req ->
  audit.ApprovedBy e = (if 0 <? len (enforce.Approval req) then enforce.Approver req else ""%string) ->
  audit.Approval e = enforce.Approval req ->
  verifier.approved (enforce.inputs p) (chain.Credential_ l) e.
Proof.
  intros H Ha Hb Hc. unfold enforce.verifyApproval in H. gosimp H. destruct Ha0 as [Hne Hlen].
  apply Z.eqb_neq in Hlen. pose proof (len_nonneg (enforce.Approval req)).
  assert (E : 0 <? len (enforce.Approval req) = true) by (apply Z.ltb_lt; lia). rewrite E in Hb.
  unfold verifier.approved. rewrite Ha, Hb, Hc. split_and!; [done| |].
  - intros E'. rewrite E' in Hlen. done.
  - exists a. by split.
Qed.

Lemma decided_config p req ch now d p1 e dec :
  enforce.decided p req ch now d p1 e dec ->
  same_config p p1 /\ audit.log_signer (enforce.log p1) = audit.log_signer (enforce.log p)
  /\ enforce.set p ⊆ enforce.set p1.
Proof.
  intros (creds & ids & l & s & He & _ & _ & _ & _ & _ & Hs & ->).
  destruct (enforce.durable_shape p e creds d) as [w ->]. split_and!; try done.
  pose proof (enforce.evidence_from_Ok _ _ _ _ _ _ He) as (_ & Hadd & _).
  destruct (enforce.add_all_Ok "proxy: record evidence: %w" (enforce.set p) creds) as (s' & Hs' & Hsub & _).
  { eapply Forall_impl; [exact Hadd|]. by intros x [? _]. }
  rewrite Hs in Hs'. apply Ok_inj in Hs'. by subst s'.
Qed.

(** An allowed decision is one the verifier's checks re-derive. *)
Lemma decided_allowed p req ch now d p1 e dec l :
  enforce.decided p req ch now d p1 e dec -> last (elems (chain.Links ch)) = Some l ->
  careful p (Attempt req now d) -> types.Allowed (audit.Decision e) = true ->
  allowed_ok p (elems (chain.Links ch)) l e.
Proof.
  intros Hd Hl Hcare Ha.
  destruct (enforce.decided_entry _ _ _ _ _ _ _ _ Hd) as (Hseq & Hprev & Hact & _ & Hdec & _ & _ & _ & Hby & Hap & _).
  destruct Hd as (creds & ids & l' & s & _ & Hl' & _ & -> & _). rewrite Hl in Hl'. injection Hl' as <-.
  rewrite Hdec in Ha. destruct (enforce.decide_allowed _ _ _ _ _ _ Ha) as (dd & (Hev & Had & Hs & Hcons) & Hd').
  exists dd. rewrite Hact. split_and!; try done.
  - intros E. destruct (Hcons E) as (st & Hst & Hh & Hv). split.
    + eapply Forall_impl; [exact Hh|]. intros x Hx Hp. by eapply enforce.hop_revoked_agrees; [|apply Hx].
    + eapply verifyApproval_approved; [|done..]. by rewrite Hseq, Hprev.
  - congruence.
  - rewrite Hby, Hap. destruct Hcare as [Hno|Hc]; [left|right; by apply Hc]. rewrite Hno. done.
Qed.

Lemma decided_entry_ok p req ch now d p1 e dec ls :
  enforce.decided p req ch now d p1 e dec -> chain.Verify (enforce.dids p) ch = Ok tt ->
  careful p (Attempt req now d) -> elems (chain.Links ch) ⊆ ls -> entry_ok p1 ls e.
Proof.
  intros Hd Hv Hcare Hsub. pose proof (decided_config _ _ _ _ _ _ _ _ Hd) as (Hc & _ & _).
  assert (Hal : forall l, last (elems (chain.Links ch)) = Some l -> types.Allowed (audit.Decision e) = true ->
                 allowed_ok p1 (elems (chain.Links ch)) l e).
  { intros l Hl Ha. destruct (decided_allowed _ _ _ _ _ _ _ _ _ Hd Hl Hcare Ha) as (x & He & Hrest).
    exists x. rewrite (inputs_config _ _ Hc). split; [|exact Hrest].
    destruct Hc as (_ & Hev & _). unfold enforce.evaluate in *. by rewrite Hev. }
  destruct (enforce.decided_entry _ _ _ _ _ _ _ _ Hd) as
    (Hseq & Hprev & Hact & Hres & Hdec & Hpid & Hn & Hsg & _ & _ & _).
  pose proof Hd as (creds & ids & l & s & He & Hl & Hpos & _ & Hseal & _ & Hs & Hp1).
  destruct Hc as (_ & _ & _ & Hpi & Hdd & _).
  assert (Hids : audit.ChainCredentialIDs e = ids).
  { apply audit.Seal_Ok in Hseal as (Hu & _). by apply (f_equal audit.ChainCredentialIDs) in Hu. }
  pose proof (enforce.evidence_from_Ok _ _ _ _ _ _ He) as (Hf & Hadd & Hin).
  exists (elems (chain.Links ch)), l. rewrite Hdd, Hids, Hpi. split_and!; try done.
  - apply Forall_forall. intros x. apply Hsub.
  - apply Forall_forall. intros id Hid.
    destruct (enforce.add_all_Ok "proxy: record evidence: %w" (enforce.set p) creds) as (s' & Hs' & Hss & Hhas & _).
    { eapply Forall_impl; [exact Hadd|]. by intros x [? _]. }
    rewrite Hs in Hs'. apply Ok_inj in Hs'. subst s'. rewrite Hp1. cbn [enforce.set enforce.set_set].
    destruct (Hin id Hid) as [Hold|[Hno|(r & Hr & <-)]]; [|by apply not_elem_of_empty in Hno|by apply Hhas].
    apply bool_decide_eq_true in Hold as [r Hr]. apply bool_decide_eq_true. exists r. by eapply lookup_weaken.
  - rewrite Hact, Hseq, Hprev, Hn, Hsg. exact Hpos.
  - by apply Hal.
Qed.

Lemma decided_inv p req ch now d p1 e dec ls
  {HS : signer.Sound (enforce.enforcementPoint p)} :
  inv p ls -> enforce.decided p req ch now d p1 e dec -> chain.Verify (enforce.dids p) ch = Ok tt ->
  careful p (Attempt req now d) -> inv p1 (ls ++ elems (chain.Links ch)).
Proof.
  intros [I1 I2 I3 I4] Hd Hv Hcare. pose proof (decided_config _ _ _ _ _ _ _ _ Hd) as (Hc & Hls & Hsub).
  pose proof (enforce.decided_entry _ _ _ _ _ _ _ _ Hd) as (_ & _ & _ & _ & _ & _ & _ & _ & _ & _ & Hlog).
  pose proof Hc as (Hep & _ & _ & _ & Hdd & _). constructor.
  - rewrite Hlog, Hep. apply audit.verify_from_snoc. split; [exact I1|]. rewrite Z.add_0_l.
    destruct Hd as (creds & ids & l & s & _ & _ & _ & _ & Hseal & _).
    by eapply audit.sealed_verifies.
  - by rewrite Hls, Hep.
  - destruct Hd as (creds & ids & l & s & He & _ & _ & _ & _ & _ & Hs & ->).
    pose proof (enforce.evidence_from_Ok _ _ _ _ _ _ He) as (_ & Hadd & _).
    destruct (enforce.add_all_Ok "proxy: record evidence: %w" (enforce.set p) creds) as (s' & Hs' & _ & _ & Hin).
    { eapply Forall_impl; [exact Hadd|]. by intros x [? _]. }
    rewrite Hs in Hs'. apply Ok_inj in Hs'. subst s'. intros id r Hr. unfold record_ok. rewrite Hdd.
    destruct (Hin id r Hr) as [Hold|(r' & Hr' & -> & ->)].
    + destruct (I3 id r Hold) as (? & ? & ? & ?). split_and!; try done. apply elem_of_app. by left.
    + rewrite Forall_forall in Hadd. destruct (Hadd r' Hr') as (Haddr & l' & id' & Hl' & ->).
      apply chain.chain_Ok in Hv as (_ & _ & Hh & _). rewrite Forall_forall in Hh. split_and!; [done|done| |].
      * specialize (Hh l' Hl'). by destruct l'.
      * apply elem_of_app. right. by destruct l'.
  - rewrite Hlog. apply Forall_app. split; [|constructor; [|constructor]].
    + eapply Forall_impl; [exact I4|]. intros x. apply entry_ok_mono; [done|done|set_solver].
    + eapply decided_entry_ok; [done..|set_solver].
Qed.

Lemma step_inv p ev ls {HS : signer.Sound (enforce.enforcementPoint p)} :
  inv p ls -> careful p ev -> inv (step p ev) (ls ++ presented_by ev) /\ same_config p (step p ev).
Proof.
  intros Hi Hcare. destruct ev as [req now d|n|n]; simpl.
  2-3: (split; [by eapply inv_mono; [exact Hi|..|rewrite app_nil_r]|done]).
  pose proof (enforce.Handle_cases p req now d) as H. destruct (enforce.Handle p req now d) as [p' [r|f]]; simpl.
  - destruct H as (ch & p1 & Hch & _ & Hv & Hd & ->). rewrite Hch.
    pose proof (decided_config _ _ _ _ _ _ _ _ Hd) as (Hc & _). pose proof (enforce.forward_log p1 (enforce.Entry r)) as (Fl & Fs & _).
    assert (Hf : same_config p1 (enforce.forward p1 (enforce.Entry r))) by (unfold enforce.forward; by destruct (enforce.sink p1)).
    split; [|by eapply same_config_trans]. eapply inv_mono; [by eapply decided_inv|done..].
  - assert (Hp' : same_config p p' /\ enforce.log p' = enforce.log p /\ enforce.set p' = enforce.set p).
    { destruct H as (w & _ & [->|(u & _ & ->)]); [done|].
      destruct (enforce.forwardUnattributable_log (enforce.set_wal p w) now u) as (-> & -> & _).
      unfold enforce.forwardUnattributable. by destruct (enforce.sink _). }
    destruct Hp' as (Hc & Hl & Hs). split; [|done]. eapply inv_mono; [done..|set_solver].
Qed.

Lemma run_inv p evs {HS : signer.Sound (enforce.enforcementPoint p)} :
  inv p [] -> Forall (careful p) evs -> inv (run p evs) (presented evs) /\ same_config p (run p evs).
Proof.
  intros Hi. induction evs as [|ev evs IH] using rev_ind; [by intros _; split; [|apply same_config_refl]|].
  intros [Hcs [Hcare _]%Forall_cons]%Forall_app. destruct (IH Hcs) as [Hinv Hconf]. rewrite run_snoc, presented_snoc.
  pose proof Hconf as (Hep & He & _).
  assert (HS' : signer.Sound (enforce.enforcementPoint (run p evs))) by by rewrite Hep.
  destruct (step_inv (run p evs) ev (presented evs) Hinv) as [Hi' Hc'].
  - destruct ev; [|done..]. simpl in *. destruct Hcare as [|Hc]; [by left|right].
    intros x Hx. apply Hc. unfold enforce.evaluate in *. by rewrite <- He.
  - split; [done|]. by eapply same_config_trans.
Qed.

(** ** What a run exports *)

(** One entry: the verifier's evidence for it, out of the set, or two presented
    hops with colliding addresses. *)
Lemma evidence_links p ls links ids exp :
  map_Forall (record_ok p ls) (enforce.set p) -> Forall (fun x => x ∈ ls) links -> valid_links ls ->
  export.Credentials exp = enforce.set p ->
  Forall2 (fun x id => export.CredentialID (chain.Credential_ x) = Ok id) links ids ->
  Forall (fun id => export.Has (enforce.set p) id = true) ids ->
  (exists links', Forall2 (verifier.evidence_for exp) ids links' /\ Forall2 same_link links links'
     /\ Forall (chain.hop_ok (enforce.dids p)) links')
  \/ collision_in ls.
Proof.
  intros Hset Hin Hval Hexp Hids. induction Hids as [|l id links ids Hid _ IH]; intros Hhas.
  { left. exists []. by split_and!. }
  apply Forall_cons in Hhas as [[r Hr]%bool_decide_eq_true Hhas]. apply Forall_cons in Hin as [Hl Hin].
  destruct (IH Hin Hhas) as [(links' & Hev & Hsame & Hhop)|Hcol]; [|by right].
  destruct (Hset id r Hr) as (Hrid & Haddr & Hrh & Hrl). unfold enforce.addressed in Haddr. rewrite Hrid in Haddr.
  assert (Hvl : credential.valid_credential (chain.Credential_ l) = true)
    by (unfold valid_links in Hval; rewrite Forall_forall in Hval; by apply Hval).
  destruct (export.credential_id_inj _ _ _ Hvl Hid Haddr) as [Hs|(b1 & b2 & H1 & H2 & Hc)].
  - left. exists (chain.mkLink (export.Credential_ r) (export.IssuerProof r) :: links'). split_and!.
    + constructor; [|done]. exists r. by rewrite Hexp.
    + by constructor.
    + by constructor.
  - right. by exists l, (chain.mkLink (export.Credential_ r) (export.IssuerProof r)), b1, b2.
Qed.

(** The decision a verifier re-derives from the carried policy. *)
Lemma rederived_checked p pol exp e links d :
  enforce.evaluator p = enforce.PolicyEvaluator pol -> export.Policy exp = Some pol ->
  export.PolicyID pol = Ok (enforce.policyID p) -> audit.PolicyID e = enforce.policyID p ->
  enforce.evaluate p (audit.Action e) = (d, None) -> types.Allowed d = true ->
  audit.Decision e = enforce.checked_decision links d -> verifier.rederived exp e d.
Proof.
  intros Hev Hp Hid He Hd Ha Hdec. exists pol. rewrite He. unfold enforce.evaluate in Hd. rewrite Hev in Hd.
  assert (Hd' : policy.Evaluate pol (audit.Action e) = Ok d) by (destruct (policy.Evaluate pol _); simplify_eq; done).
  rewrite Hdec. unfold enforce.checked_decision. by destruct (types.Consequential d) eqn:E; split_and!.
Qed.

Lemma entry_backed_of p pol ls exp e :
  map_Forall (record_ok p ls) (enforce.set p) -> entry_ok p ls e -> valid_links ls ->
  enforce.evaluator p = enforce.PolicyEvaluator pol -> export.PolicyID pol = Ok (enforce.policyID p) ->
  export.Policy exp = Some pol -> export.Credentials exp = enforce.set p ->
  (forall key data, signer.Verify key data [] = false) ->
  verifier.entry_backed exp (enforce.inputs p) e \/ collision_in ls.
Proof.
  intros Hset (links & l & Hin & Hv & Hpr & Hids & Hhas & Hlast & Hpid & Hpos & Hal) Hval Hev Hpol Hp Hc Hsig.
  destruct (evidence_links p ls links _ exp Hset Hin Hval Hc Hids Hhas) as [(links' & He & Hs & Hh)|]; [left|by right].
  destruct (last_same _ _ _ Hs Hlast) as (l' & Hlast' & Hl).
  exists links'. split.
  { split_and!; [done|by eapply verify_same|]. rewrite <- (principals_same _ _ Hs), Hpr.
    apply chain.chain_Ok in Hv as (Hne & _). simpl in Hne.
    rewrite <- Hpr. unfold chain.Principals. simpl. by destruct links. }
  intros Ha. destruct (Hal Ha) as (d & Hd & Had & Hsat & Hcons & Hdec & Hap). exists l', d.
  assert (Happ : types.Consequential d = true -> verifier.approved (enforce.inputs p) (chain.Credential_ l') e)
    by (intros E; eapply approved_same; [done|]; by apply Hcons).
  split_and!; [done|by eapply rederived_checked|by rewrite <- (satisfies_same _ _ _ Hl)| | |].
  - intros E. split_and!; [|by eapply not_revoked_same; [|apply Hcons]|by apply Happ].
    rewrite Hdec, <- (published_count_same _ _ Hs). unfold enforce.checked_decision. by rewrite E.
  - unfold verifier.possession_proved. rewrite <- (possession_same _ _ _ _ _ _ Hl). split_and!; [| |done].
    + intros E. rewrite E in Hpos. unfold credential.VerifyPossession in Hpos.
      destruct (credential.HolderKey _); [|done]. by gosimp Hpos.
    + intros E. rewrite E in Hpos. unfold credential.VerifyPossession in Hpos.
      destruct (credential.HolderKey _); [|done]. gosimp Hpos. cbn [credential.Pop_Signature elems] in Hpos.
      by rewrite Hsig in Hpos.
  - destruct Hap as [?|E]; [by left|right; by apply Happ].
Qed.

(** A proxy as constructed over an empty durable log. *)
Definition fresh (w : option wal.WAL) : Prop := match w with Some w => wal.Recovered w = [] | None => True end.

Lemma NewProxy_fresh ep pol r st sk w p :
  enforce.NewProxy (enforce.mkConfig (Some ep) (Some (enforce.PolicyEvaluator pol)) (Some r) st sk w) = Ok p ->
  fresh w ->
  exists id, export.PolicyID pol = Ok id
    /\ p = enforce.mkProxy ep (enforce.PolicyEvaluator pol) (Some pol) id r st (audit.NewLog ep) ∅ sk [] [] w.
Proof.
  unfold enforce.NewProxy.
  cbn [enforce.EnforcementPoint enforce.Policy enforce.DIDs enforce.Status enforce.Sink enforce.WAL].
  destruct (export.PolicyID pol) as [id|err]; cbn [wrap rbind fst snd]; [|done]. intros H Hf. exists id. split; [done|].
  destruct w as [w|]; [|by apply Ok_inj in H]. simpl in Hf. unfold enforce.recoverFrom in H. rewrite Hf in H.
  change (len [] =? 0) with true in H. by apply Ok_inj in H.
Qed.

Lemma fresh_inv p : audit.entries (enforce.log p) = [] -> enforce.set p = ∅ ->
  audit.log_signer (enforce.log p) = enforce.enforcementPoint p -> inv p [].
Proof. intros Hl Hs Hg. constructor; rewrite ?Hl, ?Hs; done || apply map_Forall_empty || constructor. Qed.

Lemma built_envelope ep es s pol exp {HS : signer.Sound ep} :
  (forall key data, signer.Verify key data [] = false) -> export.Build ep es s pol = Ok exp ->
  export.Version_ exp = export.Version /\ export.Signer exp = signer.DID ep /\ export.Entries exp = es
  /\ export.Credentials exp = s /\ export.Policy exp = pol
  /\ verifier.verifyEnvelope exp (signer.Public ep) = Ok tt.
Proof.
  intros Hsig H. unfold export.Build in H. gosimp H. apply Ok_inj in H. subst exp. split_and!; try done.
  unfold verifier.verifyEnvelope. cbn [export.Policy export.Version_ export.Signer export.Entries export.EnvelopeSignature].
  rewrite Ha. cbn [wrap rbind]. apply (signer.sound (s := ep)) in Ha0. rewrite bool_decide_false; [|intros ->; by rewrite Hsig in Ha0].
  cbn [reject_if rbind]. by rewrite Ha0.
Qed.

(** end to end: every export of a proxy that runs this code passes the
    independent verifier.  Whatever requests arrive, in whatever order, with
    whatever failures of the disk, an export taken afterwards is judged a clean,
    evidence-backed pass by a verifier that resolves the same documents and
    lists, provided the enforcement point's published key is its signing key,
    presented strings are valid UTF-8, and a request carries an approval only
    when the policy calls its action consequential; or two presented
    credentials exhibit a SHA-256 collision. *)
Theorem honest_export_passes ep pol r st sk w p evs exp {HS : signer.Sound ep} :
  enforce.NewProxy (enforce.mkConfig (Some ep) (Some (enforce.PolicyEvaluator pol)) (Some r) st sk w) = Ok p ->
  fresh w -> did.ResolveKey r (signer.DID ep) = Ok (signer.Public ep) ->
  (forall key data, signer.Verify key data [] = false) ->
  Forall (careful p) evs -> valid_links (presented evs) ->
  enforce.Export (run p evs) = Ok exp ->
  (exists res, verifier.Verify exp (verifier.mkInputs r st) = Ok res /\ verifier.Pass res = true)
  \/ collision_in (presented evs).
Proof.
  intros Hnew Hfresh Hkey Hsig Hcare Hval Hexp. destruct (NewProxy_fresh _ _ _ _ _ _ _ Hnew Hfresh) as (id & Hid & ->).
  set (p := enforce.mkProxy _ _ _ _ _ _ _ _ _ _ _ _) in *.
  destruct (run_inv p evs (fresh_inv p eq_refl eq_refl eq_refl) Hcare) as [[I1 I2 I3 I4] Hc].
  pose proof (inputs_config _ _ Hc) as Hinp. destruct Hc as (Hep & Hev & Hcp & Hpi & Hdd & Hst).
  unfold enforce.Export, audit.Entries in Hexp. rewrite Hep in Hexp.
  apply built_envelope in Hexp as (Ev & Es & Ee & Ec & Ep & Henv); [|done|done].
  assert (Hall : Forall (verifier.entry_backed exp (enforce.inputs (run p evs))) (export.Entries exp)
                 \/ collision_in (presented evs)).
  { rewrite Ee. rewrite Hcp in Ep. clear Henv I1 Ee. induction I4 as [|e es He _ IH]; [left; constructor|].
    destruct IH as [IH|]; [|by right].
    destruct (entry_backed_of _ pol _ exp e I3 He Hval) as [Hb|]; try done; [by rewrite Hpi|left|by right]. by constructor. }
  destruct Hall as [Hall|]; [left|by right]. rewrite Hinp in Hall. apply verifier.Pass_backed.
  split; [unfold export.IsV1; by rewrite Ev|]. exists (signer.Public ep). rewrite Es. split_and!; [done..| |done].
  rewrite Ee. by rewrite Hep in I1.
Qed.

(** C24: the proviso on approvals is needed: a caller that attaches an approval
    that does not verify to a routine action is allowed, the approval is
    recorded unread, and no export that contains the entry passes. *)
Theorem unread_approval_fails p req now d p' r exp inp res :
  enforce.Handle p req now d = (p', inl r) -> types.Allowed (enforce.Decision r) = true ->
  enforce.Approval req <> [] ->
  (forall key actor, did.ResolveKey (verifier.DIDs inp) (enforce.Approver req) = Ok key ->
     is_ok (audit.VerifyApproval key actor (enforce.Action req) (enforce.Tip p).1 (enforce.Tip p).2 (enforce.Approval req)) = false) ->
  enforce.Entry r ∈ export.Entries exp -> verifier.Verify exp inp = Ok res -> verifier.Pass res = false.
Proof.
  intros H Ha Hne Hbad Hin Hv. apply not_true_iff_false. intros Hp.
  assert (Hb : verifier.evidence_backed exp inp) by (apply verifier.Pass_backed; by exists res).
  destruct Hb as (_ & _ & _ & _ & _ & Hall). rewrite Forall_forall in Hall. apply Hall in Hin as (links & _ & Hj).
  pose proof (enforce.Handle_cases p req now d) as Hc. rewrite H in Hc. destruct Hc as (ch & p1 & _ & _ & _ & Hd & _).
  destruct (enforce.decided_entry _ _ _ _ _ _ _ _ Hd) as (Hseq & Hprev & Hact & _ & Hdec & _ & _ & _ & Hby & Hap & _).
  rewrite Hdec in Hj. destruct (Hj Ha) as (l & dd & _ & _ & _ & _ & _ & [[_ Hno]|(_ & _ & key & Hk & Hok)]).
  - congruence.
  - assert (E : 0 <? len (enforce.Approval req) = true).
    { apply Z.ltb_lt. destruct (enforce.Approval req); [done|]. rewrite len_cons. pose proof (len_nonneg l0). lia. }
    rewrite E in Hby. rewrite Hby in Hk. specialize (Hbad key (credential.Subject (chain.Credential_ l)) Hk).
    unfold enforce.Tip in Hbad. rewrite audit.Tip_last_hash in Hbad. cbn [fst snd] in Hbad.
    fold (enforce.next_seq p) (enforce.next_prev p) in Hbad. rewrite <- Hseq, <- Hprev, <- Hact, <- Hap, Hok in Hbad. done.
Qed.
End Runs.

(** ** Restarting from the durable log *)

Section Recovery.
Context {CR : Crypto} {UT : UnicodeTables}.

Lemma add_all_msg m1 m2 s l s' : enforce.add_all m1 s l = Ok s' -> enforce.add_all m2 s l = Ok s'.
Proof.
  revert s. induction l as [|r l IH]; intros s; cbn [enforce.add_all]; [done|].
  intros (x & Hx & H)%rbind_Ok. apply wrap_Ok in Hx. rewrite Hx. cbn [wrap rbind]. by apply IH.
Qed.

Lemma recover_evidence_snoc s recs r s1 s2 :
  enforce.recover_evidence s recs = Ok s1 ->
  enforce.add_all "proxy: recover evidence: %w" s1 (wal.Credentials r) = Ok s2 ->
  enforce.recover_evidence s (recs ++ [r]) = Ok s2.
Proof.
  revert s. induction recs as [|x recs IH]; intros s; cbn [enforce.recover_evidence app].
  - intros Hs H. apply Ok_inj in Hs. subst s1. by rewrite H.
  - intros (y & Hy & H)%rbind_Ok H2. rewrite Hy. cbn [rbind]. by apply IH.
Qed.

Lemma check_policy_ids_Ok id i es :
  Forall (fun e => audit.PolicyID e = id) es -> enforce.check_policy_ids id i es = Ok tt.
Proof.
  intros H. revert i. induction H as [|e es He _ IH]; intros i; cbn [enforce.check_policy_ids]; [done|].
  rewrite He, str_eqb_refl, andb_false_r. cbn [reject_if rbind]. apply IH.
Qed.

(** The durable file of a proxy holds exactly its log and its evidence. *)
Record mirrors (ep : signer.Signer) (p : enforce.Proxy) (w : wal.WAL) (recs : list wal.walRecord) : Prop := mkMirrors
  { m_wal : enforce.wal_ p = Some w; m_open : wal.open w = true; m_file : wal.lines recs = Ok (wal.file w);
    m_entries : map wal.Entry recs = audit.entries (enforce.log p);
    m_set : enforce.recover_evidence ∅ recs = Ok (enforce.set p);
    m_log : audit.VerifyEntries (signer.Public ep) (audit.entries (enforce.log p)) = None;
    m_signer : audit.log_signer (enforce.log p) = ep;
    m_policy : Forall (fun e => audit.PolicyID e = enforce.policyID p) (audit.entries (enforce.log p)) }.

Definition disk_works (ev : event) : Prop := match ev with Attempt _ _ d => d = wal.DiskOK | _ => True end.

Lemma mirrors_frame ep p q w recs :
  mirrors ep p w recs -> enforce.wal_ q = enforce.wal_ p -> enforce.log q = enforce.log p ->
  enforce.set q = enforce.set p -> enforce.policyID q = enforce.policyID p -> mirrors ep q w recs.
Proof. intros [M1 M2 M3 M4 M5 M6 M7 M8] Hw Hl Hs Hp. constructor; rewrite ?Hw, ?Hl, ?Hs, ?Hp; done. Qed.

Lemma mirrors_decided ep p req ch now p1 e dec w recs {HS : signer.Sound ep} :
  mirrors ep p w recs -> enforce.decided p req ch now wal.DiskOK p1 e dec ->
  exists w' recs', mirrors ep p1 w' recs' /\ enforce.policyID p1 = enforce.policyID p
    /\ wal.recovered w' = wal.recovered w.
Proof.
  intros [M1 M2 M3 M4 M5 M6 M7 M8] Hd.
  destruct (enforce.decided_entry _ _ _ _ _ _ _ _ Hd) as (_ & _ & _ & _ & _ & Hpid & _ & _ & _ & _ & Hlog).
  destruct Hd as (creds & ids & l & s & _ & _ & _ & _ & Hseal & Hdur & Hs & ->).
  unfold enforce.durable in *. rewrite M1 in *. destruct (wal.Append w e creds wal.DiskOK) as [w' res] eqn:Ea.
  cbn [fst snd] in *. apply wrap_Ok in Hdur. subst res. apply wal.Append_Ok in Ea as (_ & _ & line & Hline & ->).
  exists (wal.written w line), (recs ++ [wal.mkWalRecord e creds]).
  split; [constructor; try done|done].
  - apply wal.lines_app; [done|]. cbn [wal.lines]. rewrite Hline. cbn [rbind]. by rewrite app_nil_r.
  - rewrite Hlog, map_app, M4. done.
  - eapply recover_evidence_snoc; [exact M5|]. by eapply add_all_msg.
  - rewrite Hlog. apply audit.verify_from_snoc. split; [exact M6|]. rewrite Z.add_0_l. by eapply audit.sealed_verifies.
  - rewrite Hlog. apply Forall_app. split; [exact M8|]. by constructor; [|constructor].
Qed.

Lemma mirrors_step ep p w recs ev {HS : signer.Sound ep} :
  mirrors ep p w recs -> disk_works ev ->
  exists w' recs', mirrors ep (step p ev) w' recs' /\ enforce.policyID (step p ev) = enforce.policyID p
    /\ wal.recovered w' = wal.recovered w.
Proof.
  intros HM Hd. destruct ev as [req now d|n|n]; simpl in *.
  2-3: (exists w, recs; split; [by eapply mirrors_frame|done]).
  subst d. pose proof (enforce.Handle_cases p req now wal.DiskOK) as H.
  destruct (enforce.Handle p req now wal.DiskOK) as [p' [r|f]]; simpl.
  - destruct H as (ch & p1 & _ & _ & _ & Hdec & ->).
    destruct (mirrors_decided _ _ _ _ _ _ _ _ _ _ HM Hdec) as (w' & recs' & HM' & Hp & Hr). exists w', recs'.
    destruct (enforce.forward_log p1 (enforce.Entry r)) as (Fl & Fs & Fw).
    assert (Hfp : enforce.policyID (enforce.forward p1 (enforce.Entry r)) = enforce.policyID p1)
      by (unfold enforce.forward; by destruct (enforce.sink p1)).
    split_and!; [by eapply mirrors_frame|by rewrite Hfp|done].
  - destruct H as (wo & Hwo & H). apply enforce.wal_after_OK in Hwo. subst wo. exists w, recs.
    destruct H as [->|(u & _ & ->)]; [split; [by eapply mirrors_frame|done]|].
    destruct (enforce.forwardUnattributable_log (enforce.set_wal p (enforce.wal_ p)) now u) as (Fl & Fs & Fw).
    assert (Hfp : enforce.policyID (enforce.forwardUnattributable (enforce.set_wal p (enforce.wal_ p)) now u) = enforce.policyID p)
      by (unfold enforce.forwardUnattributable; by destruct (enforce.sink _)).
    split_and!; [by eapply mirrors_frame|done|done].
Qed.

Lemma mirrors_run ep p w recs evs {HS : signer.Sound ep} :
  mirrors ep p w recs -> Forall disk_works evs ->
  exists w' recs', mirrors ep (run p evs) w' recs' /\ enforce.policyID (run p evs) = enforce.policyID p
    /\ wal.recovered w' = wal.recovered w.
Proof.
  revert p w recs. induction evs as [|ev evs IH]; intros p w recs HM; [intros _; by exists w, recs|].
  intros [Hd Hds]%Forall_cons. destruct (mirrors_step _ _ _ _ _ HM Hd) as (w1 & recs1 & HM1 & Hp1 & Hr1).
  destruct (IH _ _ _ HM1 Hds) as (w2 & recs2 & HM2 & Hp2 & Hr2). exists w2, recs2. split_and!; [done|by etransitivity; [exact Hp2|]|congruence].
Qed.

Lemma log_eta l s : audit.log_signer l = s -> l = audit.mkLog s (audit.entries l).
Proof. intros <-. by destruct l. Qed.

(** C17: restart: a proxy whose disk accepted every write can be stopped at any
    point; a proxy constructed with the same key and policy over the file it
    left, read back as the records that were written, has the same log, the
    same tip and the same evidence. *)
Theorem recovery_resumes ep pol r st sk p evs {HS : signer.Sound ep} :
  enforce.NewProxy (enforce.mkConfig (Some ep) (Some (enforce.PolicyEvaluator pol)) (Some r) st sk
                      (Some (wal.mkWAL [] true []))) = Ok p ->
  Forall disk_works evs ->
  exists w recs, enforce.wal_ (run p evs) = Some w /\ wal.lines recs = Ok (wal.file w)
    /\ forall (decode : wal.decoder) path w', decode (wal.file w) = (recs, None) ->
         wal.OpenWAL decode path (Some (wal.file w)) = Ok w' ->
         exists q, enforce.NewProxy (enforce.mkConfig (Some ep) (Some (enforce.PolicyEvaluator pol)) (Some r) st sk (Some w'))
                   = Ok q
           /\ enforce.log q = enforce.log (run p evs) /\ enforce.set q = enforce.set (run p evs)
           /\ enforce.Tip q = enforce.Tip (run p evs).
Proof.
  intros Hnew Hdisk. destruct (NewProxy_fresh _ _ _ _ _ _ _ Hnew eq_refl) as (id & Hid & ->).
  set (p := enforce.mkProxy _ _ _ _ _ _ _ _ _ _ _ _) in *.
  assert (HM : mirrors ep p (wal.mkWAL [] true []) []) by (by constructor).
  destruct (mirrors_run _ _ _ _ _ HM Hdisk) as (w & recs & [M1 M2 M3 M4 M5 M6 M7 M8] & Hpid & _).
  exists w, recs. split_and!; [done|done|]. intros decode path w' Hdec Hopen.
  unfold wal.OpenWAL, wal.readWAL in Hopen. rewrite Hdec in Hopen. apply Ok_inj in Hopen. subst w'.
  unfold enforce.NewProxy.
  cbn [enforce.EnforcementPoint enforce.Policy enforce.DIDs enforce.Status enforce.Sink enforce.WAL].
  rewrite Hid. cbn [wrap rbind fst snd]. unfold enforce.recoverFrom, wal.Recovered. cbn [wal.recovered].
  destruct (len recs =? 0) eqn:El.
  { apply Z.eqb_eq, len_zero in El. subst recs. apply Ok_inj in M5. simpl in M4.
    eexists. split; [done|]. pose proof (log_eta _ _ M7) as Hl. rewrite <- M4 in Hl. change (audit.mkLog ep []) with (audit.NewLog ep) in Hl.
    unfold enforce.Tip. by rewrite Hl. }
  cbn [enforce.enforcementPoint enforce.policyID]. rewrite M4. unfold audit.LoadLog. rewrite M6. cbn [wrap rbind].
  change (enforce.policyID p) with id in Hpid. rewrite Hpid in M8. rewrite (check_policy_ids_Ok _ _ _ M8). cbn [rbind enforce.set enforce.set_log].
  change export.NewCredentialSet with (∅ : export.CredentialSet). rewrite M5. cbn [rbind]. eexists. split; [done|].
  pose proof (log_eta _ _ M7) as Hl.
  unfold enforce.Tip. cbn [enforce.log enforce.set enforce.set_set enforce.set_log]. split_and!; [by rewrite <- Hl|done|by rewrite <- Hl].
Qed.

(** Records with two entries of the same position are not resumed. *)
Lemma doubled_refused q w es e1 e2 :
  map wal.Entry (wal.Recovered w) = es ++ [e1; e2] -> audit.Seq e1 = audit.Seq e2 ->
  is_ok (enforce.recoverFrom q w) = false.
Proof.
  intros Hm Hs. apply not_true_iff_false. intros (x & Hx)%is_ok_true. unfold enforce.recoverFrom in Hx.
  destruct (len (wal.Recovered w) =? 0) eqn:El.
  { apply Z.eqb_eq, len_zero in El. rewrite El in Hm. by destruct es. }
  gosimp Hx. unfold audit.LoadLog in Ha. destruct (audit.VerifyEntries _ _) as [[fi er']|] eqn:Ev in Ha; [done|].
  rewrite Hm in Ev. change [e1; e2] with ([e1] ++ [e2]) in Ev. rewrite app_assoc in Ev.
  apply audit.verify_from_snoc in Ev as [Ev (Hs2 & _)%audit.verify_entry_Ok].
  apply audit.verify_from_snoc in Ev as [_ (Hs1 & _)%audit.verify_entry_Ok].
  rewrite len_app in Hs2. change (len [e1]) with 1 in Hs2. lia.
Qed.

(** C23: fail-closed is not crash-proof: when the disk writes an entry but its
    sync fails, the action is refused and the entry is not admitted, yet its
    line stays in the file and the file stays open.  The next request that is
    decided is sealed at the same position and written after it, and the file
    then holds two entries for one position: no proxy can be constructed over
    it again, although every decision that was returned is recorded. *)
Theorem sync_failure_poisons ep p w recs req1 now1 err req2 now2 p1 f p2 a2 :
  mirrors ep p w recs -> enforce.Handle p req1 now1 (wal.SyncFails err) = (p1, inr f) ->
  enforce.wal_ p1 <> enforce.wal_ p -> enforce.Handle p1 req2 now2 wal.DiskOK = (p2, inl a2) ->
  exists w2 recs2, enforce.wal_ p2 = Some w2 /\ wal.lines recs2 = Ok (wal.file w2)
    /\ len recs2 = len (enforce.Entries p2) + 1
    /\ forall q (decode : wal.decoder) path w', decode (wal.file w2) = (recs2, None) ->
         wal.OpenWAL decode path (Some (wal.file w2)) = Ok w' -> is_ok (enforce.recoverFrom q w') = false.
Proof.
  intros [M1 M2 M3 M4 _ _ _ _] H1 Hne H2.
  pose proof (enforce.Handle_cases p req1 now1 (wal.SyncFails err)) as C1. rewrite H1 in C1.
  destruct C1 as (wo & Hwo & C1).
  assert (Hp1 : enforce.wal_ p1 = wo /\ enforce.log p1 = enforce.log p).
  { destruct C1 as [->|(u & _ & ->)]; [done|].
    destruct (enforce.forwardUnattributable_log (enforce.set_wal p wo) now1 u) as (-> & _ & ->). done. }
  destruct Hp1 as [Hw1 Hl1]. destruct Hwo as [Hwo|(w0 & r & e1 & cs1 & w1 & er & Hw0 & Hs1 & Ha1 & Hwo)]; [congruence|].
  rewrite M1 in Hw0. injection Hw0 as <-. unfold wal.Append in Ha1. rewrite M2 in Ha1. cbn [negb] in Ha1.
  destruct (wal.line (wal.mkWalRecord e1 cs1)) as [l1|el] eqn:El1; cbn [wrap] in Ha1; [|congruence].
  injection Ha1 as <- _. pose proof (enforce.Handle_cases p1 req2 now2 wal.DiskOK) as C2. rewrite H2 in C2.
  destruct C2 as (ch & pd & _ & _ & _ & Hd & ->). pose proof (enforce.decided_entry _ _ _ _ _ _ _ _ Hd) as
    (Hseq & _ & _ & _ & _ & _ & _ & _ & _ & _ & Hlog).
  destruct Hd as (cs2 & ids & l & s & _ & _ & _ & _ & _ & Hdur & _ & ->). unfold enforce.durable in *.
  rewrite Hw1, Hwo in *. destruct (wal.Append (wal.written w l1) (enforce.Entry a2) cs2 wal.DiskOK) as [w2 res] eqn:Ea2.
  cbn [fst snd] in *. apply wrap_Ok in Hdur. subst res. apply wal.Append_Ok in Ea2 as (_ & _ & l2 & El2 & ->).
  match goal with |- context [enforce.forward ?x ?y] => destruct (enforce.forward_log x y) as (Fl & _ & ->); unfold enforce.Entries; rewrite Fl end.
  exists (wal.written (wal.written w l1) l2), (recs ++ [wal.mkWalRecord e1 cs1; wal.mkWalRecord (enforce.Entry a2) cs2]).
  apply audit.Seal_Ok in Hs1 as (_ & Hseq1 & _). unfold enforce.next_seq in Hseq. rewrite Hl1 in *.
  assert (Hlen : len recs = len (audit.entries (enforce.log p))) by (unfold len; by rewrite <- M4, length_map).
  split_and!; [done| | |].
  - cbn [wal.file wal.written]. rewrite <- app_assoc. apply wal.lines_app; [done|]. cbn [wal.lines]. rewrite El1, El2. cbn [rbind].
    by rewrite app_nil_r.
  - unfold audit.Entries. rewrite Hlog, !len_app, Hlen. change (len [enforce.Entry a2]) with 1.
    change (len [wal.mkWalRecord e1 cs1; wal.mkWalRecord (enforce.Entry a2) cs2]) with 2. lia.
  - intros q decode path w' Hdec Hopen. unfold wal.OpenWAL, wal.readWAL in Hopen. rewrite Hdec in Hopen.
    apply Ok_inj in Hopen. subst w'. eapply (doubled_refused _ _ _ e1 (enforce.Entry a2)); [cbn [wal.Recovered wal.recovered]; by rewrite map_app|congruence].
Qed.
End Recovery.

(** ** Concrete runs *)

#[local] Existing Instance verifier.accepting.
#[local] Existing Instance verifier.ascii_tables.

#[local] Instance test_proxy_sound : signer.Sound verifier.test_proxy.
Proof. intros data sig [= <-]. reflexivity. Qed.
Lemma empty_never_verifies : forall key data, signer.Verify key data [] = false.
Proof.
  intros [k|c x y|] data; try done.
  - unfold signer.Verify. destruct (Z.eqb_spec (len k) signer.ed25519_PublicKeySize) as [E|]; [|done].
    destruct k; [discriminate|reflexivity].
  - unfold signer.Verify. by destruct (bool_decide (c = P256)).
Qed.

Definition test_run : list event := [Attempt enforce.test_request enforce.test_now wal.DiskOK; SinkDone 0].
Definition test_start : enforce.Proxy := enforce.test_state (Some enforce.test_wal).
Lemma test_exported : enforce.Export (run test_start test_run) = Ok verifier.test_export.
Proof. vm_compute. reflexivity. Qed.
Lemma test_careful : Forall (careful test_start) test_run.
Proof.
  constructor; [|by constructor]. right. intros d H. vm_compute in H. injection H as <-. reflexivity.
Qed.

Lemma honest_export_passes_witness :
  (exists res, verifier.Verify verifier.test_export verifier.test_inputs = Ok res /\ verifier.Pass res = true)
  \/ collision_in (presented test_run).
Proof.
  apply (honest_export_passes verifier.test_proxy export.test_policy chain.test_resolver
           (verifier.Status verifier.test_inputs) true (Some enforce.test_wal) test_start test_run verifier.test_export).
  - exact (enforce.test_state_new enforce.test_wal eq_refl).
  - reflexivity.
  - vm_compute. reflexivity.
  - exact empty_never_verifies.
  - exact test_careful.
  - constructor; [vm_compute; reflexivity|constructor].
  - exact test_exported.
Defined.

(** A routine payment with an approval nobody asked for. *)
Definition routine_request : enforce.Request :=
  enforce.mkRequest (Some chain.test_chain1) (policy.example_action "7") enforce.test_pop "did:web:nobody.example" [Byte.x09].
Definition routine_after : enforce.Proxy := (enforce.Handle test_start routine_request enforce.test_now wal.DiskOK).1.
Definition routine_result : enforce.Result :=
  Eval vm_compute in match (enforce.Handle test_start routine_request enforce.test_now wal.DiskOK).2 with
                     | inl r => r | inr _ => enforce.test_answer end.
Lemma routine_handled :
  enforce.Handle test_start routine_request enforce.test_now wal.DiskOK = (routine_after, inl routine_result).
Proof.
  assert (H : (enforce.Handle test_start routine_request enforce.test_now wal.DiskOK).2 = inl routine_result)
    by (vm_compute; reflexivity).
  rewrite <- H. unfold routine_after. by destruct (enforce.Handle _ _ _ _).
Qed.
Definition routine_export : export.Export :=
  export.mkExport export.Version chain.helper [enforce.Entry routine_result] verifier.test_set (Some export.test_policy) [Byte.x03].
Lemma routine_exported : enforce.Export routine_after = Ok routine_export.
Proof. vm_compute. reflexivity. Qed.
Definition routine_verdict : verifier.Result :=
  Eval vm_compute in match verifier.Verify routine_export verifier.test_inputs with
                     | Ok r => r | Err e => verifier.mkVerdict "" false (Some e) [] end.
Lemma routine_verified : verifier.Verify routine_export verifier.test_inputs = Ok routine_verdict.
Proof. vm_compute. reflexivity. Qed.

Lemma unread_approval_fails_witness :
  types.Allowed (enforce.Decision routine_result) = true /\ enforce.Export routine_after = Ok routine_export
  /\ verifier.Pass routine_verdict = false.
Proof.
  split; [reflexivity|]. split; [exact routine_exported|].
  apply (unread_approval_fails test_start routine_request enforce.test_now wal.DiskOK routine_after routine_result
           routine_export verifier.test_inputs).
  - exact routine_handled.
  - reflexivity.
  - discriminate.
  - intros key actor H. vm_compute in H. discriminate.
  - apply list_elem_of_here.
  - exact routine_verified.
Defined.

Lemma recovery_resumes_witness :
  exists w recs, enforce.wal_ (run test_start test_run) = Some w /\ wal.lines recs = Ok (wal.file w).
Proof.
  destruct (recovery_resumes verifier.test_proxy export.test_policy chain.test_resolver
              (verifier.Status verifier.test_inputs) true test_start test_run) as (w & recs & Hw & Hl & _).
  - exact (enforce.test_state_new enforce.test_wal eq_refl).
  - repeat constructor.
  - exists w, recs. exact (conj Hw Hl).
Defined.

Definition sync_error : wal.disk := wal.SyncFails (New "input/output error").
Definition after_failure : enforce.Proxy := (enforce.Handle test_start enforce.test_request enforce.test_now sync_error).1.
Definition failure_of_sync : enforce.failure :=
  Eval vm_compute in match (enforce.Handle test_start enforce.test_request enforce.test_now sync_error).2 with
                     | inr f => f | inl _ => enforce.Failure (New "") end.
Lemma failure_handled :
  enforce.Handle test_start enforce.test_request enforce.test_now sync_error = (after_failure, inr failure_of_sync).
Proof.
  assert (H : (enforce.Handle test_start enforce.test_request enforce.test_now sync_error).2 = inr failure_of_sync)
    by (vm_compute; reflexivity).
  rewrite <- H. unfold after_failure. by destruct (enforce.Handle _ _ _ _).
Qed.
Definition after_retry : enforce.Proxy := (enforce.Handle after_failure enforce.test_request enforce.test_now wal.DiskOK).1.
Lemma retry_handled :
  enforce.Handle after_failure enforce.test_request enforce.test_now wal.DiskOK = (after_retry, inl enforce.test_answer).
Proof.
  assert (H : (enforce.Handle after_failure enforce.test_request enforce.test_now wal.DiskOK).2 = inl enforce.test_answer)
    by (vm_compute; reflexivity).
  rewrite <- H. unfold after_retry. by destruct (enforce.Handle _ _ _ _).
Qed.
Lemma wal_changed : enforce.wal_ after_failure <> enforce.wal_ test_start.
Proof. intros H. apply (f_equal (option_map (fun w => len (wal.file w)))) in H. vm_compute in H. discriminate. Qed.

Lemma sync_failure_poisons_witness :
  exists w2 recs2, enforce.wal_ after_retry = Some w2 /\ wal.lines recs2 = Ok (wal.file w2)
    /\ forall q (decode : wal.decoder) path w', decode (wal.file w2) = (recs2, None) ->
         wal.OpenWAL decode path (Some (wal.file w2)) = Ok w' -> is_ok (enforce.recoverFrom q w') = false.
Proof.
  destruct (sync_failure_poisons verifier.test_proxy test_start enforce.test_wal [] enforce.test_request enforce.test_now
              (New "input/output error") enforce.test_request enforce.test_now after_failure failure_of_sync after_retry
              enforce.test_answer) as (w2 & recs2 & Hw & Hl & _ & Hq).
  - by constructor.
  - exact failure_handled.
  - exact wal_changed.
  - exact retry_handled.
  - exists w2, recs2. exact (conj Hw (conj Hl Hq)).
Defined.

End honest.
