(* ===== verification/Attempts.v ===== *)
(** What a proof of possession is good for, over runs of the chokepoint
    (internal/enforce) and the credentials presented to it
    (internal/credential): one slot of the log, once; and that a genuine
    attempt is answered. *)
From S2P Require Import Prelude GoFmt GoTime GoCrypto GoJson GoJsonText GoJsonInj Types Signer Did Status Policy Macaroon.
From S2P Require Import Credential Chain AuditLog Export Verifier Auditsink Wal Enforce Honest.

Module attempts.

(** ** The slot a proof binds *)

Section Slots.
Context {CR : Crypto} {UT : UnicodeTables}.

(** A signature made on one message, and forged for no other. *)
Definition signs_only (key : PublicKey) (sig input : bytes) : Prop :=
  forall m, signer.Verify key m sig = true -> m = input.

(** Every hash of the log is a digest. *)
Definition sized (p : enforce.Proxy) : Prop :=
  Forall (fun e => length (audit.EntryHash e) = 32%nat) (enforce.Entries p).

Lemma sized_tip p : sized p -> len (enforce.Tip p).2 = 32.
Proof.
  unfold sized, enforce.Entries, audit.Entries, enforce.Tip, audit.Tip. intros H.
  destruct (last (audit.entries (enforce.log p))) as [e|] eqn:El; [|by vm_compute].
  apply last_Some_elem_of in El. rewrite Forall_forall in H. unfold len. simpl. by rewrite (H e El).
Qed.

(** The slot of the next entry, while positions fit in 64 bits. *)
Lemma tip_position p q :
  len (enforce.Entries p) < 2 ^ 64 -> len (enforce.Entries q) < 2 ^ 64 ->
  be64 (enforce.Tip p).1 = be64 (enforce.Tip q).1 -> len (enforce.Entries p) = len (enforce.Entries q).
Proof.
  unfold enforce.Tip, enforce.Entries, audit.Entries. rewrite !audit.Tip_last_hash. cbn [fst].
  intros Hp Hq H. apply be64_inj in H; [done|..]; split; (apply len_nonneg || done).
Qed.

Lemma one_slot c pop a1 seq1 prev1 a2 seq2 prev2 key input :
  did.JWK_PublicKey (credential.HolderKey c) = Ok key -> signs_only key (elems (credential.Pop_Signature pop)) input ->
  len prev1 = len prev2 ->
  credential.VerifyPossession c pop a1 seq1 prev1 = Ok tt -> credential.VerifyPossession c pop a2 seq2 prev2 = Ok tt ->
  be64 seq1 = be64 seq2 /\ prev1 = prev2 /\ (types.valid_action a1 = true -> types.same_action a1 a2).
Proof.
  intros Hk Hs Hl H1 H2. unfold credential.VerifyPossession in *. destruct (credential.HolderKey c) as [j|]; [|done].
  rewrite Hk in *. cbn [wrap rbind] in *. gosimp H1. gosimp H2.
  repeat match goal with H : signer.Verify _ _ _ = true |- _ => apply Hs in H; subst end.
  
  match goal with
  | Hi1 : credential.popInput c _ a1 seq1 prev1 = Ok ?b, Hi2 : credential.popInput c _ a2 seq2 prev2 = Ok ?b |- _ =>
      by destruct (credential.pop_input_binds _ _ _ _ _ _ _ _ _ _ _ Hi1 Hi2 Hl eq_refl) as (_ & ? & ? & ?)
  end.
Qed.

(** A proof made with another key verifies nowhere. *)
Lemma forged_nowhere c actor n a seq prev pop key :
  did.JWK_PublicKey (credential.HolderKey c) = Ok key -> credential.ProvePossession c actor n a seq prev = Ok pop ->
  (forall m m' sig, signer.Sign actor m = Ok sig -> signer.Verify key m' sig = false) ->
  forall a' seq' prev', credential.VerifyPossession c pop a' seq' prev' <> Ok tt.
Proof.
  intros Hk Hpop Hforged a' seq' prev' H. unfold credential.ProvePossession in Hpop. gosimp Hpop. apply Ok_inj in Hpop as <-.
  unfold credential.VerifyPossession in H. destruct (credential.HolderKey c) as [j|]; [|done]. rewrite Hk in H. cbn [wrap rbind] in H.
  gosimp H. change (signer.Verify key a2 a1 = true) in H. by rewrite (Hforged a0 a2 a1 Ha0) in H.
Qed.

(** ** Runs only add to the log *)

Lemma Handle_grows p req now d :
  sized p -> sized (enforce.Handle p req now d).1
  /\ exists es, enforce.Entries (enforce.Handle p req now d).1 = enforce.Entries p ++ es.
Proof.
  unfold sized. intros Hs. pose proof (enforce.handled_entry p req now d) as H.
  destruct (enforce.Handle p req now d) as [p' [res|f]]; cbn [fst].
  - destruct H as (-> & _ & Hh%audit.entryHash_length & _). split; [|by eexists]. apply Forall_app. by repeat constructor.
  - rewrite H. split; [done|]. exists []. by rewrite app_nil_r.
Qed.

Lemma run_grows p evs :
  sized p -> sized (honest.run p evs) /\ exists es, enforce.Entries (honest.run p evs) = enforce.Entries p ++ es.
Proof.
  revert p. induction evs as [|ev evs IH]; intros p Hs; [split; [done|]; exists []; by rewrite app_nil_r|].
  assert (Hstep : sized (honest.step p ev) /\ exists es, enforce.Entries (honest.step p ev) = enforce.Entries p ++ es).
  { destruct ev as [req now d|n|n]; [by apply Handle_grows|..]; (split; [done|]; exists []; by rewrite app_nil_r). }
  destruct Hstep as (H1 & es1 & He1). destruct (IH _ H1) as (H2 & es2 & He2). split; [exact H2|].
  exists (es1 ++ es2). change (honest.run p (ev :: evs)) with (honest.run (honest.step p ev) evs). by rewrite He2, He1, app_assoc.
Qed.

(** C4: a proof of possession is good for one entry.  Take a request that was
    decided, whose holder's signature was made on one message only.  Whatever
    happens to the proxy afterwards, no request that carries the same proof for
    the same credential is ever decided again, whatever chain, action or approval
    comes with it, and it adds nothing to the log.  On no other proxy is it decided
    either, unless that proxy's log stands at the very same position and hash, and
    then only for the same action; positions are compared as they are signed, in 64
    bits. *)
Theorem proof_single_use p req now d p' r ch l key input :
  enforce.Handle p req now d = (p', inl r) -> sized p ->
  enforce.Chain req = Some ch -> last (elems (chain.Links ch)) = Some l ->
  did.JWK_PublicKey (credential.HolderKey (chain.Credential_ l)) = Ok key ->
  signs_only key (elems (credential.Pop_Signature (enforce.PoP req))) input ->
  forall q req' ch' l' now' d', sized q -> enforce.PoP req' = enforce.PoP req -> enforce.Chain req' = Some ch' ->
    last (elems (chain.Links ch')) = Some l' -> chain.Credential_ l' = chain.Credential_ l ->
    let '(q', r') := enforce.Handle q req' now' d' in
    (forall res, r' = inl res -> be64 (enforce.Tip q).1 = be64 (enforce.Tip p).1 /\ (enforce.Tip q).2 = (enforce.Tip p).2
       /\ (types.valid_action (enforce.Action req) = true -> types.same_action (enforce.Action req) (enforce.Action req')))
    /\ (forall evs, q = honest.run p' evs -> len (enforce.Entries q) < 2 ^ 64 ->
        enforce.Entries q' = enforce.Entries q /\ exists f, r' = inr f).
Proof.
  intros H Hs Hc Hl Hk Ho q req' ch' l' now' d' Hq Hpop Hc' Hl' Hcred.
  pose proof (enforce.handled_entry p req now d) as Hh. rewrite H in Hh.
  destruct Hh as (Hes & _ & Hsize & ch0 & l0 & Hc0 & Hl0 & _ & Hp). assert (ch0 = ch) as -> by congruence. assert (l0 = l) as -> by congruence.
  pose proof (enforce.handled_entry q req' now' d') as Hh'. destruct (enforce.Handle q req' now' d') as [q' [res|f]].
  2: { split; [done|]. intros evs _ _. split; [done|by exists f]. }
  destruct Hh' as (_ & _ & _ & ch1 & l1 & Hc1 & Hl1 & _ & Hp'). assert (ch1 = ch') as -> by congruence. assert (l1 = l') as -> by congruence.
  rewrite Hcred, Hpop in Hp'.
  destruct (one_slot _ _ _ _ _ _ _ _ _ _ Hk Ho (eq_trans (sized_tip _ Hs) (eq_sym (sized_tip _ Hq))) Hp Hp') as (Hseq & Hprev & Ha).
  split; [by intros _ _|]. intros evs -> Hlt. exfalso.
  assert (Hs' : sized p') by (by pose proof (proj1 (Handle_grows p req now d Hs)) as X; rewrite H in X).
  destruct (run_grows p' evs Hs') as (_ & es & He). rewrite Hes, <- app_assoc in He.
  apply tip_position in Hseq; [|rewrite He in Hlt; rewrite len_app in Hlt; pose proof (len_nonneg ([enforce.Entry r] ++ es)); lia|done].
  rewrite He, !len_app, len_cons in Hseq. pose proof (len_nonneg es). pose proof (len_nonneg (@nil audit.Entry)). lia.
Qed.
End Slots.

(** ** A genuine attempt is answered *)

Section Progress.
Context {CR : Crypto} {UT : UnicodeTables}.

Definition encodes (l : chain.Link) : Prop := exists j, credential.Credential_json (chain.Credential_ l) = Ok j.

Lemma verified_encodes r ch : chain.Verify r ch = Ok tt -> Forall encodes (elems (chain.Links ch)).
Proof.
  intros (_ & _ & H & _)%chain.chain_Ok. eapply Forall_impl; [exact H|]. intros l (ik & input & sk & _ & Hi & _).
  unfold chain.IssuanceInput, Marshal in Hi. gosimp Hi. by eexists.
Qed.

Lemma evidence_total s i seen links :
  Forall encodes links -> exists creds ids, enforce.evidence_from s i seen links = Ok (creds, ids)
    /\ exists js, wal.records_json creds = Ok js.
Proof.
  revert i seen. induction links as [|l links IH]; intros i seen; [intros _; by exists [], []; split; [|exists []]|].
  intros [[j Hj] Hl]%Forall_cons. cbn [enforce.evidence_from]. unfold export.CredentialID, Marshal. rewrite Hj. cbn [rbind wrap].
  destruct (_ && _).
  - match goal with |- context [enforce.evidence_from s (i + 1) ?sn links] =>
      destruct (IH (i + 1) sn Hl) as (creds & ids & He & js & Hjs) end. rewrite He. cbn [rbind fst snd].
    do 2 eexists. split; [reflexivity|]. cbn [wal.records_json]. unfold export.CredentialRecord_json.
    cbn [export.Credential_]. rewrite Hj. cbn [rbind]. rewrite Hjs. by eexists.
  - destruct (IH (i + 1) seen Hl) as (creds & ids & He & js & Hjs). rewrite He. cbn [rbind fst snd]. do 2 eexists. split; [reflexivity|by exists js].
Qed.

Lemma entry_encodes e a t : types.Action_json (audit.Action e) = Ok a -> j_time (audit.Timestamp e) = Ok t ->
  exists j, audit.Entry_json e = Ok j.
Proof. intros Ha Ht. unfold audit.Entry_json. rewrite Ha, Ht. by eexists. Qed.

(** The key signs whatever it is asked to. *)
Definition tireless (s : signer.Signer) : Prop := forall m, exists sig, signer.Sign s m = Ok sig.
Lemma seal_total lg r a t : types.Action_json (audit.d_Action r) = Ok a -> j_time (audit.d_Timestamp r) = Ok t ->
  tireless (audit.log_signer lg) -> exists e, audit.Seal lg r = Ok e
    /\ audit.Action e = audit.d_Action r /\ audit.Timestamp e = audit.d_Timestamp r.
Proof.
  intros Ha Ht Hs. destruct (audit.Tip lg) as [seq prev] eqn:Et.
  destruct (entry_encodes (audit.unsealed (audit.of_draft seq prev r)) a t Ha Ht) as [j Hj].
  assert (H : exists e, audit.Seal lg r = Ok e).
  { unfold audit.Seal. rewrite Et. unfold audit.entryHash, audit.hashInput, Marshal. rewrite Hj. cbn [wrap rbind].
    destruct (Hs (audit.sigInput (sha256.Sum256 (s2b audit.hashDomain ++ Byte.x00 :: encode j)))) as [sig Hsig].
    rewrite Hsig. by eexists. }
  destruct H as [e He]. exists e. split; [done|]. apply audit.Seal_Ok in He as (Hu & _).
  unfold audit.unsealed, audit.of_draft in Hu. by injection Hu.
Qed.

(** The durable log, where there is one, takes writes. *)
Definition writable (p : enforce.Proxy) (d : wal.disk) : Prop :=
  match enforce.wal_ p with None => True | Some w => wal.open w = true /\ d = wal.DiskOK end.

Lemma durable_works p e creds d js a t :
  wal.records_json creds = Ok js -> types.Action_json (audit.Action e) = Ok a -> j_time (audit.Timestamp e) = Ok t ->
  writable p d -> exists w, enforce.durable p e creds d = (enforce.set_wal p w, Ok tt).
Proof.
  intros Hc Ha Ht Hw. unfold enforce.durable, writable in *. destruct (enforce.wal_ p) as [w|] eqn:Ew.
  - destruct Hw as [Ho ->]. destruct (entry_encodes e a t Ha Ht) as [j Hj].
    unfold wal.Append, wal.line, wal.walRecord_json, Marshal. rewrite Ho. cbn [negb wal.Entry wal.Credentials].
    rewrite Hj, Hc. by eexists.
  - exists None. f_equal. destruct p. simpl in *. by subst.
Qed.

(** C13: a genuine attempt is answered.  A request whose chain verifies, whose
    evidence has the sizes the chokepoint accepts and whose proof is for the
    proxy's tip gets a decision, allowed or denied, and its entry in the log,
    provided the signing key, the clock and the durable log work: nothing about
    the action, the policy, the status lists or the approval can leave it
    unanswered. *)
Theorem attempt_answered p req now d ch l ts :
  enforce.Chain req = Some ch -> chain.Verify (enforce.dids p) ch = Ok tt -> last (elems (chain.Links ch)) = Some l ->
  enforce.checkEvidenceSize req = Ok tt ->
  credential.VerifyPossession (chain.Credential_ l) (enforce.PoP req) (enforce.Action req) (enforce.Tip p).1 (enforce.Tip p).2 = Ok tt ->
  tireless (audit.log_signer (enforce.log p)) -> j_time (UTC now) = Ok ts -> writable p d ->
  exists p' r, enforce.Handle p req now d = (p', inl r) /\ enforce.Entries p' = enforce.Entries p ++ [enforce.Entry r].
Proof.
  intros Hc Hv Hl Hsz Hp Hsig Hts Hw.
  assert (Hres : exists r, (enforce.Handle p req now d).2 = inl r).
  2: { destruct Hres as [r Hr]. pose proof (enforce.handled_entry p req now d) as Hh.
       destruct (enforce.Handle p req now d) as [p' r']. simpl in Hr. subst r'. exists p', r. by split; [|apply Hh]. }
  assert (Ha : exists a, types.Action_json (enforce.Action req) = Ok a).
  { unfold credential.VerifyPossession in Hp. destruct (credential.HolderKey _); [|done]. gosimp Hp.
    match goal with Hi : credential.popInput _ _ _ _ _ = Ok _ |- _ => unfold credential.popInput, Marshal in Hi; gosimp Hi end. by eexists. }
  destruct Ha as [a Ha]. pose proof (verified_encodes _ _ Hv) as Henc.
  destruct (evidence_total (enforce.set p) 0 ∅ _ Henc) as (creds & ids & He & js & Hjs).
  unfold enforce.Handle. rewrite Hc, Hsz, Hv.
  destruct (len (elems (chain.Links ch)) =? 0) eqn:E0.
  { apply Z.eqb_eq, len_zero in E0. by rewrite E0 in Hl. }
  unfold enforce.decideAndAppend, enforce.evidenceFor. rewrite He, Hl. unfold enforce.Tip in Hp.
  destruct (audit.Tip (enforce.log p)) as [seq prev] eqn:Et. cbn [fst snd] in Hp. rewrite Hp.
  match goal with |- context [audit.Seal _ ?dr] => destruct (seal_total (enforce.log p) dr a ts Ha Hts Hsig) as (e & Hs & Hea & Het) end.
  rewrite Hs. cbn [wrap]. destruct (durable_works p e creds d js a ts Hjs) as [w Hd]; [by rewrite Hea|by rewrite Het|done|].
  rewrite Hd, (enforce.commit_sealed _ _ _ _ Hs). cbn [wrap].
  destruct (enforce.add_all_Ok "proxy: record evidence: %w" (enforce.set p) creds) as (s' & Hs' & _).
  { eapply Forall_impl; [exact (proj1 (proj2 (enforce.evidence_from_Ok _ _ _ _ _ _ He)))|]. by intros x [? _]. }
  cbn [enforce.set enforce.set_log enforce.set_wal]. rewrite Hs'. by eexists.
Qed.
End Progress.

(** ** A concrete attempt, resubmitted *)

#[local] Existing Instance verifier.ascii_tables.
Definition test_start : enforce.Proxy := enforce.test_state (Some enforce.test_wal).
Definition test_input : bytes :=
  Eval vm_compute in match credential.popInput (chain.Credential_ chain.link1) [Byte.x2a] verifier.test_action 0 audit.GenesisHash with
                     | Ok b => b | Err _ => [] end.
(** Signatures of one byte 2 are proofs of possession: there is just one. *)
Definition one_proof : Crypto :=
  {| ed25519_Verify := fun _ d s => if bool_decide (s = [Byte.x02]) then d =?b test_input else true;
     ecdsa_VerifyASN1 := fun _ _ _ _ => false; p256_NewPublicKey_ok := fun _ => false |}.
#[local] Existing Instance one_proof.
Definition test_first : enforce.Proxy * (enforce.Result + enforce.failure) :=
  enforce.Handle test_start enforce.test_request enforce.test_now wal.DiskOK.
Definition test_again : enforce.Proxy * (enforce.Result + enforce.failure) :=
  enforce.Handle test_first.1 enforce.test_request enforce.test_now wal.DiskOK.
Example first_decided : (match test_first.2 with inl r => types.Allowed (enforce.Decision r) | _ => false end) = true.
Proof. vm_compute. reflexivity. Qed.
Example again_refused : (match test_again.2 with inr (enforce.Unattributable u) => enforce.Stage u =?s "possession" | _ => false end) = true.
Proof. vm_compute. reflexivity. Qed.

Lemma one_proof_once key : signs_only (Ed25519Key key) [Byte.x02] test_input.
Proof.
  intros m. unfold signer.Verify. destruct (negb _); [done|]. cbn [ed25519_Verify one_proof]. rewrite bool_decide_true by done.
  apply bytes_eqb_true.
Qed.

(** The same request again adds nothing. *)
Lemma proof_single_use_witness : enforce.Entries test_again.1 = enforce.Entries test_first.1.
Proof.
  assert (E : match test_first.2 with inl _ => true | _ => false end
              && forallb (fun e => Nat.eqb (length (audit.EntryHash e)) 32) (enforce.Entries test_first.1)
              && (len (enforce.Entries test_first.1) <? 2 ^ 64) = true) by (vm_compute; reflexivity).
  unfold test_again. destruct test_first as [p' [r|f]] eqn:Ef; [|discriminate E]. cbn [fst snd] in *.
  apply andb_true_iff in E as [E Hlt%Z.ltb_lt]. apply andb_true_iff in E as [_ Hs].
  assert (Hsz : sized p').
  { apply List.Forall_forall. intros e He. apply Nat.eqb_eq. exact (proj1 (forallb_forall _ _) Hs e He). }
  assert (Hs0 : sized test_start) by constructor.
  assert (Hk : did.JWK_PublicKey (credential.HolderKey (chain.Credential_ chain.link1)) = Ok (chain.test_key Byte.x02))
    by (vm_compute; reflexivity).
  pose proof (proof_single_use test_start enforce.test_request enforce.test_now wal.DiskOK p' r chain.test_chain1 chain.link1
                (chain.test_key Byte.x02) test_input Ef Hs0 eq_refl eq_refl Hk (one_proof_once _)
                p' enforce.test_request chain.test_chain1 chain.link1 enforce.test_now wal.DiskOK Hsz eq_refl eq_refl eq_refl eq_refl) as X.
  destruct (enforce.Handle p' enforce.test_request enforce.test_now wal.DiskOK) as [q r']. cbn [fst].
  exact (proj1 (proj2 X [] eq_refl Hlt)).
Defined.

Definition test_stamp : json := Eval vm_compute in match j_time (UTC enforce.test_now) with Ok j => j | Err _ => JNull end.
Lemma attempt_answered_witness :
  exists p' r, enforce.Handle test_start enforce.test_request enforce.test_now wal.DiskOK = (p', inl r)
    /\ enforce.Entries p' = enforce.Entries test_start ++ [enforce.Entry r].
Proof.
  apply (attempt_answered test_start enforce.test_request enforce.test_now wal.DiskOK chain.test_chain1 chain.link1 test_stamp).
  - reflexivity.
  - vm_compute. reflexivity.
  - reflexivity.
  - vm_compute. reflexivity.
  - vm_compute. reflexivity.
  - intros m. by eexists.
  - vm_compute. reflexivity.
  - by split.
Defined.

End attempts.
