(* ===== verification/Agent.v ===== *)
(** cmd/agent (main.go): the client end of the chokepoint, which holds a
    delegation chain and a key, binds an action to the proxy's next slot, and
    submits it; and what its exit code says of what the proxy did. *)
From S2P Require Import Prelude GoFmt GoTime GoCrypto GoPath GoJson GoJsonText Webhost GoNet Types Signer Keystore Did Status Policy Macaroon.
From S2P Require Import Version Credential Chain AuditLog Signerd Export Texts Issuer Verifier Auditsink Wal Enforce Ingress Flags Http Proxycmd Honest Attempts.

Module agent.

Definition exitAllowed : Z := 0.
Definition exitDenied : Z := 1.
Definition exitUsage : Z := 2.

(** The repeatable [--attr] flag: nil until the first pair. *)
Definition attrFlag : Type := option (gmap string string).
Definition attr_Set (a : attrFlag) (v : string) : result attrFlag :=
  match cut_pair v with
  | None => Err (Errorf "--attr %q must be key=value" [AStr v])
  | Some (k, val) => Ok (Some (<[k := val]> (default ∅ a)))
  end.
Fixpoint attr_SetAll (a : attrFlag) (vs : list string) : result attrFlag :=
  match vs with [] => Ok a | v :: vs => let! a := attr_Set a v in attr_SetAll a vs end.

(** The command line of [attempt]. *)
Record flags := mkFlags
  { proxyURL : string; chainPath : string; ksPath : string; agentSock : string; as_ : types.DID; approver : types.DID;
    actionType : string; target : string; nonce : string; tsStr : string; attrs : list string }.

(** What an attempt comes to: nothing was decided for lack of something, the
    proxy rejected it, or the proxy decided it. *)
Inductive report := Usage (e : error) | Rejected (reason : string) | Answered (res : enforce.Result).
Definition exit_code (r : report) : Z :=
  match r with
  | Usage _ => exitUsage
  | Rejected _ => exitDenied
  | Answered res => if types.Allowed (enforce.Decision res) then exitAllowed else exitDenied
  end.

Definition usage : list string :=
  ["usage: kessa-agent attempt --proxy <url> --chain <file> --keystore <file> --type <t> --target <r> [--attr k=v]...";
   "       kessa-agent --version"]%string.
(** What [run] does with its arguments: a line and exit code 0, the usage, or an attempt. *)
Inductive dispatch := PrintVersion (line : string) | UsageError (text : list string) | Attempt (args : list string).
Definition run (b : version.Build) (args : list string) : dispatch :=
  if version.Requested args then PrintVersion (version.String_ b "kessa-agent")
  else match args with
       | name :: args => if name =?s "attempt" then Attempt args else UsageError usage
       | [] => UsageError usage
       end.
(** What is printed on standard output. *)
Definition printed {UT : UnicodeTables} (a : types.Action) (r : report) : list string :=
  match r with
  | Usage _ => []
  | Rejected reason => [Sprintf "REJECTED  %s" [AStr reason]]
  | Answered res =>
      let args := [AStr (types.Type_ a); AStr (types.Target a); AStr (types.Reason (enforce.Decision res))] in
      [if types.Allowed (enforce.Decision res) then Sprintf "ALLOW  %s -> %s  (%s)" args else Sprintf "DENY   %s -> %s  (%s)" args]
  end.

(** What an attempt is made of before the proxy is asked anything. *)
Record plan := mkPlan
  { pl_chain : chain.Chain; pl_actor : signer.Signer; pl_approver : option signer.Signer; pl_action : types.Action }.

Section Attempt.
Context {CR : Crypto} {UT : UnicodeTables} {SK : signer.SeedKeys} {DE : proxycmd.Decoders}.

Definition loadChain (w : proxycmd.world) (path : string) : result chain.Chain :=
  let! data := wrap (fun e => Errorf "read chain %q: %w" [AStr path; AErr e]) (files.ReadFile (proxycmd.fs w) (s2b path)) in
  texts.Chain_Parse proxycmd.d_chain data.

(** From the daemon's socket when one is given, else from the keystore. *)
Definition signerFor (w : proxycmd.world) (fl : flags) (ks : keystore.Keystore) (d : types.DID) : result signer.Signer :=
  if negb (agentSock fl =?s "") then
    let wire := proxycmd.dial w (agentSock fl) in
    let! s := signerd.Dial proxycmd.d_response wire (agentSock fl) d in
    Ok (signerd.client proxycmd.d_response wire s)
  else keystore.Signer ks d.

Definition buildRequest (ch : option chain.Chain) (actor : signer.Signer) (approver : option signer.Signer)
  (action : types.Action) (nonce : string) (tip : Z * bytes) : result enforce.Request :=
  match (ch ← ch; l ← last (elems (chain.Links ch)); Some (ch, chain.Credential_ l)) with
  | None => Err (New "empty chain")
  | Some (ch, terminal) =>
      let! pop := credential.ProvePossession terminal actor (s2b nonce) action tip.1 tip.2 in
      match approver with
      | None => Ok (enforce.mkRequest (Some ch) action pop "" [])
      | Some human =>
          let! sig := audit.SignApproval human (credential.Subject terminal) action tip.1 tip.2 in
          Ok (enforce.mkRequest (Some ch) action pop (signer.DID human) sig)
      end
  end.

(** [cmdAttempt] up to the first message to the proxy. *)
Definition prepare (w : proxycmd.world) (fl : flags) : result plan :=
  let! m := attr_SetAll None (attrs fl) in
  check! reject_if ((chainPath fl =?s "") || (actionType fl =?s "") || ((ksPath fl =?s "") && (agentSock fl =?s "")))
    (New "--chain, --type, and one of --keystore/--agent-sock are required");
  let! ts := match parse_RFC3339 (tsStr fl) with
             | Some t => Ok t
             | None => Err (Errorf "bad --timestamp: %v" [AErr (New "parsing time")])
             end in
  let! ch := loadChain w (chainPath fl) in
  let! ks := if agentSock fl =?s "" then
               keystore.Load proxycmd.d_keystore (ksPath fl) (files.ReadFile (proxycmd.fs w) (s2b (ksPath fl)))
             else Ok ∅ in
  let actorDID := if as_ fl =?s "" then chain.Actor ch else as_ fl in
  let! actor := wrap (fun e => Errorf "signer for %q: %v" [AStr actorDID; AErr e]) (signerFor w fl ks actorDID) in
  let! human :=
    if negb (approver fl =?s "") then
      let! h := wrap (fun e => Errorf "approver %q: %v" [AStr (approver fl); AErr e]) (signerFor w fl ks (approver fl)) in
      Ok (Some h)
    else Ok None in
  Ok (mkPlan ch actor human (types.mkAction (actionType fl) (target fl) (default ∅ m) ts)).

(** [cmdAttempt]: [Get] and [Post] reach the proxy, the decoders are
    encoding/json's. *)
Definition cmdAttempt (Get : string -> result (Z * bytes)) (decode_tip : bytes -> result (Z * bytes))
  (Post : string -> bytes -> result (Z * bytes)) (decode_result : bytes -> result enforce.Result)
  (w : proxycmd.world) (fl : flags) : report :=
  match prepare w fl with
  | Err e => Usage e
  | Ok p =>
      match http.FetchTip Get decode_tip (proxyURL fl) with
      | Err e => Usage e
      | Ok tip =>
          match buildRequest (Some (pl_chain p)) (pl_actor p) (pl_approver p) (pl_action p) (nonce fl) tip with
          | Err e => Usage e
          | Ok req =>
              match http.Submit Post decode_result (proxyURL fl) req with
              | http.Decided res => Answered res
              | http.ErrRejected reason => Rejected reason
              | http.SubmitFailed e => Usage e
              end
          end
      end
  end.

(** ** An attempt and the proxy *)

Lemma buildRequest_Ok ch actor human action n tip req :
  buildRequest (Some ch) actor human action n tip = Ok req ->
  enforce.Chain req = Some ch /\ enforce.Action req = action
  /\ exists l, last (elems (chain.Links ch)) = Some l
       /\ credential.ProvePossession (chain.Credential_ l) actor (s2b n) action tip.1 tip.2 = Ok (enforce.PoP req).
Proof.
  unfold buildRequest. cbn [mbind option_bind]. destruct (last _) as [l|]; [|done]. cbn [mbind option_bind]. intros H. gosimp H.
  destruct human as [h|]; gosimp H; apply Ok_inj in H as <-; (split_and!; [done..|]); by exists l.
Qed.
End Attempt.

Section Faithful.
Context {CR : Crypto} {UT : UnicodeTables} {CT : CaseTables} {SK : signer.SeedKeys} {DE : proxycmd.Decoders}.
Context (first_value : bytes -> bool -> option (result enforce.Request)).

(** A GET of the tip, answered by the proxy's handler. *)
Definition tip_request : http_request := mkHttp "GET" "/tip" ∅ [] None.
Definition tip_transport (px : enforce.Proxy) (now : time) (d : wal.disk) (url : string) : result (Z * bytes) :=
  Ok match (http.Handler first_value px tip_request now d).2 with
     | http.Text s m => (s, s2b m ++ [Byte.x0a])
     | http.Json b => (http.StatusOK, b)
     | http.Mux => (404, [])
     end.
Definition tip_body (px : enforce.Proxy) : bytes := encode (http.Tip_json (enforce.Tip px)) ++ [Byte.x0a].

Lemma FetchTip_tip px now d decode base :
  decode (tip_body px) = Ok (enforce.Tip px) -> http.FetchTip (tip_transport px now d) decode base = Ok (enforce.Tip px).
Proof.
  intros H. unfold http.FetchTip, tip_transport. change (http.Handler first_value px tip_request now d).2 with (http.serve_tip px tip_request).
  unfold http.serve_tip. assert (Hi : ingress.checkIngress tip_request false = None) by (by apply ingress.checkIngress_None).
  rewrite Hi. unfold http.Encode, Marshal. cbn [rbind wrap fst snd]. rewrite Z.eqb_refl. cbn [negb reject_if rbind].
  change (encode (http.Tip_json (enforce.Tip px)) ++ [Byte.x0a]) with (tip_body px). by rewrite H.
Qed.

(** The wire carries this attempt: encoding/json reads back what it wrote, and
    the request fits the cap. *)
Definition carried (px0 px1 : enforce.Proxy) (now : time) (d : wal.disk) (decode_tip : bytes -> result (Z * bytes))
  (decode_result : bytes -> result enforce.Result) (req : enforce.Request) : Prop :=
  decode_tip (tip_body px0) = Ok (enforce.Tip px0)
  /\ (exists body, Marshal (http.Request_json req) = Ok body /\ len body <= http.maxRequestBody
        /\ first_value body true = Some (Ok req))
  /\ forall res b, (enforce.Handle px1 req now d).2 = inl res -> Marshal (http.Result_json res) = Ok b ->
       decode_result (b ++ [Byte.x0a]) = Ok res.

(** The chain verifies where the request arrives, and binds this key. *)
Definition holds (px : enforce.Proxy) (p : plan) (key : PublicKey) : Prop :=
  chain.Verify (enforce.dids px) (pl_chain p) = Ok tt
  /\ exists l, last (elems (chain.Links (pl_chain p))) = Some l
       /\ did.JWK_PublicKey (credential.HolderKey (chain.Credential_ l)) = Ok key.

(** C11: an attempt and the proxy agree.  The tip is read from the proxy as it is
    at one time, and the request arrives at the proxy as it is at another.  The
    agent then reports exactly what the proxy decided, and exits with 0 exactly
    when the proxy allowed it.  The holder of the bound key is never
    unattributable while the log stands where it was; once the log has moved, its
    request is turned away and leaves nothing; and so is, always, a request signed
    with a key that is not the one the credential binds. *)
Theorem attempt_faithful w fl px0 px1 now0 now d decode_tip decode_result p req key :
  prepare w fl = Ok p -> holds px1 p key ->
  buildRequest (Some (pl_chain p)) (pl_actor p) (pl_approver p) (pl_action p) (nonce fl) (enforce.Tip px0) = Ok req ->
  carried px0 px1 now d decode_tip decode_result req ->
  let said := cmdAttempt (tip_transport px0 now0 d) decode_tip (http.transport first_value px1 now d) decode_result w fl in
  let '(px', r) := enforce.Handle px1 req now d in
  (said = match r with
          | inl res => Answered res
          | inr f => Rejected (http.trimmed (s2b (Error (http.failure_error f))))
          end)
  /\ (exit_code said = exitAllowed <-> exists res, r = inl res /\ types.Allowed (enforce.Decision res) = true)
  /\ (signer.Sound (pl_actor p) -> signer.Public (pl_actor p) = key -> nonce fl <> ""%string ->
      (enforce.Tip px1 = enforce.Tip px0 -> forall u, r <> inr (enforce.Unattributable u))
      /\ (forall input, attempts.signs_only key (elems (credential.Pop_Signature (enforce.PoP req))) input ->
          attempts.sized px0 -> attempts.sized px1 -> len (enforce.Entries px1) < 2 ^ 64 ->
          len (enforce.Entries px0) < len (enforce.Entries px1) ->
          enforce.Entries px' = enforce.Entries px1 /\ exit_code said = exitDenied))
  /\ ((forall m m' sig, signer.Sign (pl_actor p) m = Ok sig -> signer.Verify key m' sig = false) ->
      enforce.Entries px' = enforce.Entries px1 /\ exit_code said = exitDenied).
Proof.
  intros Hp (Hv & l & Hl & Hk) Hb (Htip & (body & Hm & Hlen & Hread) & Hres). cbv zeta.
  destruct (buildRequest_Ok _ _ _ _ _ _ _ Hb) as (Hc & Ha & l' & Hl' & Hpop). assert (l' = l) as -> by congruence.
  unfold cmdAttempt. rewrite Hp, (FetchTip_tip _ _ _ _ _ Htip), Hb.
  rewrite (http.submit_is_handle first_value px1 now d (proxyURL fl) req decode_result body Hm Hlen Hread Hres).
  pose proof (enforce.handled_entry px1 req now d) as Hh. pose proof (enforce.attributable px1 req now d) as Hat.
  destruct (enforce.Handle px1 req now d) as [px' r]. cbn [snd].
  assert (Hdenied : (forall res, r <> inl res) ->
            enforce.Entries px' = enforce.Entries px1 /\ exit_code match r with
              | inl res => Answered res | inr f => Rejected (http.trimmed (s2b (Error (http.failure_error f)))) end = exitDenied).
  { intros Hn. destruct r as [res|f]; [by destruct (Hn res)|done]. }
  split_and!.
  - by destruct r.
  - destruct r as [res|f]; unfold exit_code; [|split; [discriminate|by intros (res & [=] & _)]].
    destruct (types.Allowed (enforce.Decision res)) eqn:Eal; (split; [|done || (intros (x & [= <-] & Hx); congruence)]);
      [intros _; by exists res|discriminate].
  - intros HS Hpub Hn.
    assert (Hver : credential.VerifyPossession (chain.Credential_ l) (enforce.PoP req) (pl_action p) (enforce.Tip px0).1 (enforce.Tip px0).2 = Ok tt).
    { refine (proj2 (credential.prove_verify _ (pl_actor p) _ _ _ _ _ _ _ Hpop)); [by rewrite Hpub|].
      intros E. apply Hn. by apply (inj s2b). }
    split.
    + intros Ht u ->. rewrite <- Ht in Hver. refine (Hat px' u (pl_chain p) l Hc Hv Hl _ eq_refl). rewrite Ha. exact Hver.
    + intros input Ho Hs0 Hs1 Hlt Hmoved.
      destruct r as [res|f]; [|by apply Hdenied]. exfalso. destruct Hh as (_ & _ & _ & ch & l1 & Hch & Hl1 & _ & Hp1).
      assert (ch = pl_chain p) as -> by congruence. assert (l1 = l) as -> by congruence.
      destruct (attempts.one_slot _ _ _ _ _ _ _ _ _ _ Hk Ho (eq_trans (attempts.sized_tip _ Hs0) (eq_sym (attempts.sized_tip _ Hs1)))
                  Hver Hp1) as (Hseq & _). apply attempts.tip_position in Hseq; lia.
  - intros Hforged. destruct r as [res|f]; [|by apply Hdenied]. exfalso.
    destruct Hh as (_ & _ & _ & ch & l1 & Hch & Hl1 & _ & Hp1).
    assert (ch = pl_chain p) as -> by congruence. assert (l1 = l) as -> by congruence.
    by apply (attempts.forged_nowhere _ _ _ _ _ _ _ _ Hk Hpop Hforged) in Hp1.
Qed.
End Faithful.

(** ** A concrete attempt

    The last holder of the issuer's example, against the proxy started over its
    files, approved by the agent. *)
#[local] Existing Instance issuer.accepting.
#[local] Existing Instance issuer.padded_keys.
#[local] Existing Instance proxycmd.printable.
#[local] Existing Instance proxycmd.test_decoders.
#[local] Instance same_case : CaseTables := Build_CaseTables (fun r => r).

Definition test_flags : flags :=
  mkFlags "http://127.0.0.1:8181" "/etc/chain.json" "/keys.json" "" "" chain.agent (types.Type_ proxycmd.test_action)
    (types.Target proxycmd.test_action) "nonce" "2026-07-09T12:00:00Z"
    (map (fun e => e.1 +:+ "=" +:+ e.2) (map_to_list (types.Attributes proxycmd.test_action))).
(** The plan, the proxy, the request and what the proxy decides. *)
Definition test_setup : option (plan * enforce.Proxy * enforce.Request * enforce.Result * PublicKey) :=
  px ← proxycmd.test_proxy;
  p ← match prepare proxycmd.test_world test_flags with Ok p => Some p | Err _ => None end;
  req ← match buildRequest (Some (pl_chain p)) (pl_actor p) (pl_approver p) (pl_action p) (nonce test_flags) (enforce.Tip px) with
        | Ok r => Some r | Err _ => None end;
  res ← match (enforce.Handle px req proxycmd.test_now wal.DiskOK).2 with inl r => Some r | inr _ => None end;
  Some (p, px, req, res, signer.Public (pl_actor p)).
Definition test_said (px : enforce.Proxy) (req : enforce.Request) (res : enforce.Result) : report :=
  let first_value := fun _ _ => Some (Ok req) in
  cmdAttempt (tip_transport first_value px proxycmd.test_now wal.DiskOK) (fun _ => Ok (enforce.Tip px))
    (http.transport first_value px proxycmd.test_now wal.DiskOK) (fun _ => Ok res) proxycmd.test_world test_flags.
Definition test_ready : bool :=
  match test_setup with
  | Some (p, px, req, res, key) =>
      types.Allowed (enforce.Decision res) && is_ok (chain.Verify (enforce.dids px) (pl_chain p))
      && match last (elems (chain.Links (pl_chain p))) with
         | Some l => match did.JWK_PublicKey (credential.HolderKey (chain.Credential_ l)) with
                     | Ok k => bool_decide (k = key) | Err _ => false end
         | None => false
         end
      && match Marshal (http.Request_json req) with Ok b => len b <=? http.maxRequestBody | Err _ => false end
  | None => false
  end.
Lemma attempt_faithful_witness :
  match test_setup with
  | Some (p, px, req, res, _) => exit_code (test_said px req res) = exitAllowed
  | None => False
  end.
Proof.
  assert (E : test_ready = true) by (vm_compute; reflexivity). unfold test_ready in E.
  destruct test_setup as [[[[[p px] req] res] key]|] eqn:Es; [|discriminate E].
  apply andb_true_iff in E as [E Hlen]. apply andb_true_iff in E as [E Hk]. apply andb_true_iff in E as [Hal Hv].
  apply is_ok_true in Hv as [[] Hv]. destruct (last _) as [l|] eqn:El; [|discriminate Hk].
  destruct (did.JWK_PublicKey _) as [k|] eqn:Ek; [|discriminate Hk]. apply bool_decide_eq_true in Hk. subst k.
  destruct (Marshal (http.Request_json req)) as [body|] eqn:Em; [|discriminate Hlen]. apply Z.leb_le in Hlen.
  unfold test_setup in Es. destruct proxycmd.test_proxy as [px0|]; [|discriminate Es]. cbn [mbind option_bind] in Es.
  destruct (prepare proxycmd.test_world test_flags) as [p0|] eqn:Ep; [|discriminate Es]. cbn [mbind option_bind] in Es.
  destruct (buildRequest _ _ _ _ _ _) as [req0|] eqn:Eb; [|discriminate Es]. cbn [mbind option_bind] in Es.
  destruct (enforce.Handle px0 req0 proxycmd.test_now wal.DiskOK) as [px' [res0|]] eqn:Eh; [|discriminate Es].
  cbn [snd mbind option_bind] in Es. injection Es as -> -> -> -> Hkey.
  pose proof (attempt_faithful (fun _ _ => Some (Ok req)) proxycmd.test_world test_flags px px proxycmd.test_now proxycmd.test_now
                wal.DiskOK (fun _ => Ok (enforce.Tip px)) (fun _ => Ok res) p req key Ep
                (conj Hv (ex_intro _ l (conj El Ek))) Eb) as X.
  rewrite Eh in X. unfold carried in X. rewrite Eh in X. destruct X as (_ & X & _).
  - split; [reflexivity|]. split; [exists body; split; [exact Em|by split]|]. intros res1 b Hr _. cbn [snd] in Hr. injection Hr as <-. reflexivity.
  - apply (proj2 X). exists res. split; [reflexivity|exact Hal].
Defined.
End agent.
