(* ===== verification/Verifycmd.v ===== *)
(** cmd/verify (main.go): the command line of the independent verifier: where its
    keys and status lists come from, what it prints, and its exit code. *)
From S2P Require Import Prelude GoFmt GoTime GoCrypto GoPath GoJson Webhost Types Signer Did Status Policy Macaroon.
From S2P Require Import Credential Chain AuditLog Export Texts Verifier Ingress Listeners Flags.

Module verifycmd.

Definition exitPass : Z := 0.
Definition exitFail : Z := 1.
Definition exitUsage : Z := 2.

(** ** The claim a clean verdict supports (internal/export, verify.go) *)

Definition WhatIsProven : string :=
  "For every ALLOWED action: it was within the delegated authority (caveats satisfied against the recorded action); the issuance chain is valid, reproduces the recorded principals, and covers each credential IN FULL, so no field of a presented credential differs from what its issuer signed; holder possession was proven (bound to the action and entry position); consequentiality, the rule that fired, and the policy version were all RE-DERIVED from the export's carried, signed policy and match the entry's own claims; and if that re-derivation says the action is consequential, every hop whose issuer published a status list was checked against a list signed by THAT CREDENTIAL'S NAMED REVOCATION AUTHORITY, not merely by whoever the list claims signed it, none is currently revoked, and a valid human approval (bound to the action and entry position) was obtained. The export's version, signer, policy identity, ENTRY COUNT and LOG TIP are covered by the enforcement point's envelope signature, so entries cannot be removed from a signed export after the fact.".
Definition KnownCaveats : list string :=
  ["The verdict is RELATIVE TO THE DID DOCUMENTS YOU SUPPLIED. Every signature this tool checks is checked against a key read from --dids (or fetched with --fetch-dids). That directory is the trust root and its provenance is YOUR problem: a fully fabricated export passes clean when the DID documents it names are fabricated to match. This is by design: anchoring to a Kessa service would defeat the point, but it means a PASS says 'consistent with these keys', not 'genuine'. If the export and the DID documents came from the same party, you have verified that party's internal consistency and nothing more. Obtain the DID documents independently.";
   "Consequentiality is re-derived from the policy CARRIED in the export (F1), not trusted as a bare bit, but that policy is an environment-defined, disclosed artifact. The verifier proves the allows are consistent with the policy the enforcement point published and signed; it cannot prove that policy is the 'right' one for the environment. Inspect the carried policy to judge that.";
   "Status is checked against the CURRENT status list, not the list as of action time (S1, deferred). Re-verifying an old export after a later revocation will flip previously-legitimate entries PASS -> FAIL.";
   "COMPLETENESS is bounded. The envelope signature covers the entry count and log tip, so nobody can shorten a signed export after the fact (R2-02). It does not prove the enforcement point logged everything it decided: a short log signed honestly and a short log signed by a proxy that declined to record something are indistinguishable from the file alone. Detecting that needs the tip anchored somewhere the enforcement point does not control, which this tool does not do.";
   "Denials are not independently re-derivable. A denial can stem from policy, so a denied entry PASSes when its hash, signature, and chain evidence are intact.";
   "The recorded action is what the caller ASSERTED it was about to do. Nothing binds an audit entry to a tool call that actually executed, so this proves what was authorized, not what happened."].

(** ** Reporting *)

Definition colorize (on : bool) (code s : string) : string := if on then code +:+ s +:+ b2s [Byte.x1b; Byte.x5b; Byte.x30; Byte.x6d] else s.
Definition ansiRed : string := b2s [Byte.x1b; Byte.x5b; Byte.x33; Byte.x31; Byte.x6d].
Definition ansiGreen : string := b2s [Byte.x1b; Byte.x5b; Byte.x33; Byte.x32; Byte.x6d].
Definition ansiYellow : string := b2s [Byte.x1b; Byte.x5b; Byte.x33; Byte.x33; Byte.x6d].

Definition outcomeColor (o : verifier.Outcome) : string :=
  match o with
  | verifier.OutcomePass | verifier.OutcomePassDeny => ansiGreen
  | verifier.OutcomeFail => ansiRed
  | _ => ansiYellow
  end.
Definition shortOutcome (o : verifier.Outcome) : string :=
  match o with
  | verifier.OutcomePass => "PASS"
  | verifier.OutcomePassDeny => "PASS/DENY"
  | verifier.OutcomeIntegrityOnly => "INTEGRITY"
  | verifier.OutcomeFail => "FAIL"
  | verifier.OutcomeUnverified => "UNVERIFIED"
  end.

(** strings.Fields: the maximal runs without white space. *)
Fixpoint fields_from (fuel : nat) (cur b : bytes) : list bytes :=
  let flush := match cur with [] => [] | _ => [rev cur] end in
  match fuel with
  | O => flush
  | S fuel =>
      match first_strip space_encodings b, b with
      | Some r, _ => flush ++ fields_from fuel [] r
      | None, [] => flush
      | None, c :: b => fields_from fuel (c :: cur) b
      end
  end.
Definition Fields (s : string) : list string := map b2s (fields_from (S (length (s2b s))) [] (s2b s)).

(** The lines of [wrapIndent]; [line] is the one being filled. *)
Fixpoint wrap_words (indent : string) (width : Z) (line : string) (words : list string) : list string :=
  match words with
  | [] => [line]
  | word :: words =>
      if (width <? Z.of_nat (String.length line) + Z.of_nat (String.length word) + 1) && negb (line =?s indent) then
        line :: wrap_words indent width (indent +:+ word) words
      else wrap_words indent width ((if line =?s indent then line else line +:+ " ") +:+ word) words
  end.
Definition newline : string := b2s [Byte.x0a].
Definition wrapIndent (s indent : string) (width : Z) : string :=
  Join (wrap_words indent width indent (Fields s)) newline.

Definition pad (s : string) (width : nat) : string := s +:+ b2s (repeat Byte.x20 (width - String.length s)).

Definition count (o : verifier.Outcome) (res : verifier.Result) : Z :=
  len (List.filter (fun e => bool_decide (verifier.Outcome_ e = o)) (verifier.Entries res)).

Definition verdict (res : verifier.Result) : string * string :=
  if bool_decide (verifier.FatalReason res <> None) then ("FAIL (envelope rejected)", ansiRed)
  else if negb (verifier.EvidenceCarried res) then ("DOWNGRADED (integrity-only, no evidence, not a clean pass)", ansiYellow)
  else if negb (verifier.Pass res) then ("FAIL", ansiRed)
  else ("PASS", ansiGreen).

Section Report.
Context {UT : UnicodeTables}.

(** The lines printed whatever the verbosity. *)
Definition security (trustRoot : string) (res : verifier.Result) : list string :=
  match verifier.FatalReason res with
  | Some e => ["  SECURITY: envelope rejected: " +:+ Error e]
  | None => []
  end
  ++ (if negb (verifier.EvidenceCarried res) then
        ["  SECURITY: evidence NONE: this is a v1 export. Integrity can be checked; delegated";
         "            authority CANNOT be re-derived. This is NOT an evidence-backed pass."]
      else [])
  ++ ["  TRUST ROOT: keys came from " +:+ trustRoot +:+ ". A PASS means 'consistent with those keys', not";
      "              'genuine'. Obtain them independently of whoever gave you the export."].

Definition printChain (chain : list types.DID) : list string :=
  imap (fun i p => if bool_decide (i = 0%nat) then "            chain: " +:+ p else "                -> " +:+ p) chain.
Definition entry_lines (color : bool) (e : verifier.EntryResult) : list string :=
  ("  entry " +:+ pad (Itoa (verifier.Seq e)) 3 +:+ " "
   +:+ colorize color (outcomeColor (verifier.Outcome_ e)) (pad (shortOutcome (verifier.Outcome_ e)) 9)
   +:+ " " +:+ Error (verifier.Reason e))
  :: printChain (elems (verifier.Chain e))
  ++ map (fun lim => "            LIMIT: " +:+ Error lim) (verifier.Limitations e).
Definition body_lines (path : string) (exp : export.Export) (res : verifier.Result) (color : bool) : list string :=
  ["" ; "kessa: independent verifier"; "";
   "  export           " +:+ path; "  format           " +:+ verifier.Version res;
   "  enforcement pt   " +:+ export.Signer exp; "  entries          " +:+ Itoa (len (verifier.Entries res))]
  ++ (if verifier.EvidenceCarried res then
        ["  evidence         " +:+ Itoa (Z.of_nat (size (export.Credentials exp))) +:+ " credentials embedded"]
      else
        ["  evidence         NONE: this is a v1 export.";
         "                   Integrity can be checked; delegated authority CANNOT be re-derived."])
  ++ [""] ++ concat (map (entry_lines color) (verifier.Entries res)) ++ [""].
Definition verdict_line (res : verifier.Result) (color : bool) : string :=
  "  VERDICT: " +:+ colorize color (verdict res).2 (verdict res).1
  +:+ Sprintf "  (%d allow verified, %d deny: evidence intact, %d integrity-only, %d failed, %d unverified)"
        [AInt (count verifier.OutcomePass res); AInt (count verifier.OutcomePassDeny res);
         AInt (count verifier.OutcomeIntegrityOnly res); AInt (count verifier.OutcomeFail res);
         AInt (count verifier.OutcomeUnverified res)].
Definition claim_lines : list string :=
  [""; "  What a PASS proves:"; wrapIndent WhatIsProven "    " 78; ""; "  Known limits of that claim:"]
  ++ map (fun c => "    - " +:+ TrimSpace (wrapIndent c "      " 78)) KnownCaveats.

Definition report (path trustRoot : string) (exp : export.Export) (res : verifier.Result) (quiet color : bool) : list string :=
  security trustRoot res ++ (if quiet then [] else body_lines path exp res color) ++ [verdict_line res color]
  ++ (if quiet then [] else claim_lines).
End Report.

(** [resolveColor]: the NO_COLOR variable, and whether the output is a
    character device. *)
Definition resolveColor (mode no_color : string) (device : bool) : result bool :=
  if mode =?s "never" then Ok false
  else if mode =?s "always" then Ok true
  else if mode =?s "auto" then Ok ((no_color =?s "") && device)
  else Err (Errorf "invalid --color %q (want auto, always, or never)" [AStr mode]).

(** ** Status lists *)

Definition statusFlag_Set (s : list string) (v : string) : result (list string) :=
  if v =?s "" then Err (New "empty --status value") else Ok (s ++ [v]).
Fixpoint set_all (s vs : list string) : result (list string) :=
  match vs with [] => Ok s | v :: vs => let! s := statusFlag_Set s v in set_all s vs end.

Record statusLists := mkLists { byURL : gmap string status.StatusList; fallback : option status.StatusList }.

Definition ResolveStatus (r : statusLists) : verifier.StatusResolver := fun listURL =>
  match byURL r !! listURL with
  | Some l => Ok l
  | None =>
      match fallback r with
      | Some l => Ok l
      | None => Err (Errorf "no status list supplied for %q (pass --status %s=<file>)" [AStr listURL; AStr listURL])
      end
  end.

(** [--did-hosts] *)
Definition splitHosts (s : string) : list string :=
  List.filter (fun h => negb (h =?s "")) (map TrimSpace (Split s comma)).

(** ** The command *)

Record flags := mkFlags
  { exportPath : string; didsDir : string; fetchDIDs : bool; didHosts : string; quiet : bool; colorMode : string;
    statuses : list string }.
Record env := mkEnv { fs : files.files; no_color : string; device : bool; serve : URL -> did.response }.

Inductive outcome :=
| Refused (e : error)
| Reported (trustRoot : string) (exp : export.Export) (res : verifier.Result) (color : bool).
Definition exit_code (o : outcome) : Z :=
  match o with
  | Refused _ => exitUsage
  | Reported _ _ res _ => if negb (verifier.Pass res) then exitFail else exitPass
  end.

(** What a verification is made of. *)
Record setup := mkSetup
  { su_export : export.Export; su_resolver : did.Resolver; su_trustRoot : string; su_lists : option statusLists; su_color : bool }.
Definition su_inputs (s : setup) : verifier.Inputs := verifier.mkInputs (su_resolver s) (ResolveStatus <$> su_lists s).

Section Command.
Context {CR : Crypto} {UT : UnicodeTables} {CT : CaseTables}.
(** The decoders of encoding/json: of an export, of a whole DID document and of
    the first value of a response body, and of a status list. *)
Context (d_export : bytes -> result export.Export) (d_document d_fetched : bytes -> result did.Document)
  (d_list : bytes -> result status.published).

Fixpoint add_lists (fs : files.files) (r : statusLists) (specs : list string) : result statusLists :=
  match specs with
  | [] => Ok r
  | spec :: specs =>
      let load p := wrap (fun e => Errorf "load status list %q: %w" [AStr p; AErr e]) (texts.Load d_list fs (s2b p)) in
      match cut_pair spec with
      | None => let! l := load spec in add_lists fs (mkLists (byURL r) (Some l)) specs
      | Some (url, path) => let! l := load path in add_lists fs (mkLists (<[url := l]> (byURL r)) (fallback r)) specs
      end
  end.
Definition resolver (fs : files.files) (specs : list string) : result (option statusLists) :=
  if bool_decide (specs = []) then Ok None
  else let! r := add_lists fs (mkLists ∅ None) specs in Ok (Some r).

Definition export_Parse (data : bytes) : result export.Export :=
  let! e := wrap (fun e => Errorf "export: parse: %w" [AErr e]) (d_export data) in export.Parse e.

Definition file_resolver (v : env) (fl : flags) : did.Resolver :=
  did.FileResolver_Resolve d_document (files.ReadFile (fs v)) (s2b (didsDir fl)).
Definition http_resolver (v : env) (hosts : list string) : did.Resolver :=
  fun d => (did.HTTP_Resolve d_fetched (did.mkHTTPResolver "" hosts) (serve v) d).1.

Definition trust_root (v : env) (fl : flags) : result (did.Resolver * string) :=
  if fetchDIDs fl then
    let hosts := splitHosts (didHosts fl) in
    check! reject_if (bool_decide (hosts = []))
      (New "--fetch-dids requires --did-hosts: name the did:web hosts this verification may contact, comma separated");
    Ok (http_resolver v hosts, "HTTPS fetches of " +:+ Join hosts ", " +:+ " (web PKI)")
  else
    check! reject_if (negb (didHosts fl =?s "")) (New "--did-hosts only applies with --fetch-dids");
    Ok (file_resolver v fl, "the directory " +:+ didsDir fl).

(** [run] of the verify subcommand, up to the verification. *)
Definition prepare (v : env) (fl : flags) : result setup :=
  let! specs := set_all [] (statuses fl) in
  check! reject_if (exportPath fl =?s "") (New "--export is required");
  check! reject_if ((didsDir fl =?s "") && negb (fetchDIDs fl))
    (New "--dids is required (or pass --fetch-dids to resolve them over HTTPS)");
  let! data := wrap (fun e => Errorf "read export: %v" [AErr e]) (files.ReadFile (fs v) (s2b (exportPath fl))) in
  let! exp := export_Parse data in
  let! root := trust_root v fl in
  let! lists := resolver (fs v) specs in
  let! color := resolveColor (colorMode fl) (no_color v) (device v) in
  Ok (mkSetup exp root.1 root.2 lists color).

Definition run (v : env) (fl : flags) : outcome :=
  match prepare v fl with
  | Err e => Refused e
  | Ok s =>
      match verifier.Verify (su_export s) (su_inputs s) with
      | Err e => Refused e
      | Ok res => Reported (su_trustRoot s) (su_export s) res (su_color s)
      end
  end.
Definition stdout (fl : flags) (o : outcome) : list string :=
  match o with
  | Refused _ => []
  | Reported root exp res color => report (exportPath fl) root exp res (quiet fl) color
  end.

(** ** What the exit code says *)

Lemma clean_outcomes exp inp broken i es :
  export.IsV1 exp = false ->
  Forall (fun r => verifier.Outcome_ r <> verifier.OutcomeIntegrityOnly) (verifier.entry_results exp inp broken i es).
Proof.
  intros Hv. revert i. induction es as [|e es IH]; intros i; cbn [verifier.entry_results]; constructor; [|apply IH].
  assert (He : verifier.Outcome_ (verifier.verifyEntry exp e inp) <> verifier.OutcomeIntegrityOnly).
  { unfold verifier.verifyEntry. rewrite Hv. destruct (verifier.judge exp e inp) as [r|err] eqn:E; [|done].
    apply verifier.judge_outcome in E as [-> _]. by destruct (types.Allowed _). }
  destruct broken as [[fi err]|]; [|done]. by repeat case_match.
Qed.

Lemma count_total res : count verifier.OutcomePass res + count verifier.OutcomePassDeny res + count verifier.OutcomeIntegrityOnly res
  + count verifier.OutcomeFail res + count verifier.OutcomeUnverified res = len (verifier.Entries res).
Proof.
  unfold count. induction (verifier.Entries res) as [|e es IH]; [done|]. rewrite len_cons, <- IH. cbn [List.filter].
  destruct (verifier.Outcome_ e) eqn:Eo; repeat (case_bool_decide; try congruence); rewrite ?len_cons; lia.
Qed.

Lemma count_zero o res : Forall (fun e => verifier.Outcome_ e <> o) (verifier.Entries res) -> count o res = 0.
Proof.
  unfold count. induction 1 as [|e es He _ IH]; [done|]. cbn [List.filter]. by rewrite bool_decide_false.
Qed.

Lemma Pass_clean res : verifier.Pass res = true ->
  verifier.FatalReason res = None /\ verifier.EvidenceCarried res = true
  /\ Forall (fun e => verifier.bad (verifier.Outcome_ e) = false) (verifier.Entries res).
Proof.
  unfold verifier.Pass. destruct (verifier.FatalReason res); [done|]. destruct (verifier.EvidenceCarried res); [|done].
  cbn. intros H%negb_true_iff. split_and!; [done..|]. apply Forall_forall. intros e He.
  apply not_true_iff_false. intros Hb. apply not_true_iff_false in H. apply H, existsb_exists. exists e.
  split; [by apply list_elem_of_In|done].
Qed.

Lemma Verify_shape exp inp res : verifier.Verify exp inp = Ok res ->
  verifier.EvidenceCarried res = negb (export.IsV1 exp)
  /\ (verifier.EvidenceCarried res = true -> Forall (fun r => verifier.Outcome_ r <> verifier.OutcomeIntegrityOnly) (verifier.Entries res))
  /\ (verifier.FatalReason res = None -> len (verifier.Entries res) = len (export.Entries exp)).
Proof.
  unfold verifier.Verify. intros H. gosimp H.
  destruct (if negb (export.IsV1 exp) then _ else _) as [[]|err] eqn:Ee; apply Ok_inj in H as <-.
  - split_and!; [done| |]; cbn [verifier.EvidenceCarried verifier.Entries].
    + intros Hv%negb_true_iff. by apply clean_outcomes.
    + intros _. unfold len. by rewrite verifier.length_entry_results.
  - by split_and!.
Qed.

Lemma verdict_PASS res : (verdict res).1 = "PASS"%string <-> verifier.Pass res = true.
Proof.
  unfold verdict. split.
  - case_bool_decide; [discriminate|]. destruct (verifier.EvidenceCarried res); [|discriminate].
    destruct (verifier.Pass res); [done|discriminate].
  - intros Hp. destruct (Pass_clean _ Hp) as (-> & -> & _). by rewrite Hp.
Qed.

Lemma Pass_counts exp inp res :
  verifier.Verify exp inp = Ok res -> verifier.Pass res = true ->
  len (verifier.Entries res) = len (export.Entries exp) /\ count verifier.OutcomeFail res = 0
  /\ count verifier.OutcomeUnverified res = 0 /\ count verifier.OutcomeIntegrityOnly res = 0.
Proof.
  intros (_ & Hint & Hlen)%Verify_shape Hp. destruct (Pass_clean _ Hp) as (Hf & Hc & Hall).
  split_and!; [by apply Hlen|..|exact (count_zero _ _ (Hint Hc))];
    apply count_zero; (eapply Forall_impl; [exact Hall|]); intros e He Ho; cbv beta in He; rewrite Ho in He; discriminate He.
Qed.

(** C12: what the exit code and the verdict line say.  The command exits with 0
    exactly when the export, the keys and the lists it was pointed at were read
    and the export is evidence-backed by them; the verdict reads PASS then and
    only then, and no entry is failed, unverified or merely intact.  It exits with
    2 exactly when nothing was verified.  The counts of the verdict line always
    add up to the entries, none of which is left out of the report, and the
    warnings about the envelope, the missing evidence and the trust root are
    printed however quiet the command is told to be. *)
Theorem verdict_is_exit v fl :
  let o := run v fl in
  (exit_code o = exitPass <-> exists s, prepare v fl = Ok s /\ verifier.evidence_backed (su_export s) (su_inputs s))
  /\ (exit_code o = exitUsage <-> exists e, o = Refused e)
  /\ forall root exp res color, o = Reported root exp res color ->
     ((verdict res).1 = "PASS"%string <-> exit_code o = exitPass)
     /\ count verifier.OutcomePass res + count verifier.OutcomePassDeny res + count verifier.OutcomeIntegrityOnly res
        + count verifier.OutcomeFail res + count verifier.OutcomeUnverified res = len (verifier.Entries res)
     /\ (exit_code o = exitPass -> len (verifier.Entries res) = len (export.Entries exp)
         /\ count verifier.OutcomeFail res = 0 /\ count verifier.OutcomeUnverified res = 0 /\ count verifier.OutcomeIntegrityOnly res = 0)
     /\ (exists rest, stdout fl o = security root res ++ rest) /\ In (verdict_line res color) (stdout fl o)
     /\ forall reason, verifier.FatalReason res = Some reason -> In ("  SECURITY: envelope rejected: " +:+ Error reason) (stdout fl o).
Proof.
  unfold run. destruct (prepare v fl) as [s|e] eqn:Ep; cbn [exit_code].
  2: { split_and!; [by split; [|intros (? & ? & _)]|split; [by exists e|done]|done]. }
  pose proof (verifier.Pass_backed (su_export s) (su_inputs s)) as Hpb.
  destruct (verifier.Verify (su_export s) (su_inputs s)) as [res|e] eqn:Ev; cbn [exit_code].
  2: { split_and!; [|split; [by exists e|done]|done]. split; [done|]. intros (s' & [= <-] & Hb).
       apply Hpb in Hb as (? & ? & _). congruence. }
  assert (Hexit : (if negb (verifier.Pass res) then exitFail else exitPass) = exitPass <-> verifier.Pass res = true).
  { by destruct (verifier.Pass res). }
  split_and!.
  - rewrite Hexit. split.
    + intros Hp. exists s. split; [done|]. apply Hpb. by exists res.
    + intros (s' & [= <-] & (res' & [= <-] & Hp)%Hpb). done.
  - split; [by destruct (verifier.Pass res)|by intros [? ?]].
  - intros root exp res' color [= <- <- <- <-]. rewrite Hexit.
    split_and!.
    + apply verdict_PASS.
    + apply count_total.
    + intros Hp. by eapply Pass_counts.
    + unfold stdout, report. by eexists.
    + unfold stdout, report. rewrite !in_app_iff. right; right; left. by left.
    + intros reason Hr. unfold stdout, report. apply in_app_iff. left. unfold security. rewrite Hr. by left.
Qed.

(** ** Where keys and lists come from *)

(** The files bound to a URL, and those given without one, in order. *)
Definition binding (url spec : string) : option string :=
  match cut_pair spec with Some (u, path) => if u =?s url then Some path else None | None => None end.
Definition bindings (url : string) (specs : list string) : list string := omap (binding url) specs.
Definition bares (specs : list string) : list string :=
  List.filter (fun s => match cut_pair s with None => true | _ => false end) specs.

Lemma add_lists_snoc fs r specs spec :
  add_lists fs r (specs ++ [spec]) = let! r' := add_lists fs r specs in add_lists fs r' [spec].
Proof.
  revert r. induction specs as [|s specs IH]; intros r; [done|]. cbn [app add_lists].
  destruct (cut_pair s) as [[url path]|]; destruct (wrap _ _) as [l|e]; cbn [rbind]; [by rewrite IH|done|by rewrite IH|done].
Qed.

Lemma bindings_snoc url specs spec : bindings url (specs ++ [spec]) = bindings url specs ++ match binding url spec with Some p => [p] | None => [] end.
Proof. unfold bindings. rewrite omap_app. simpl. by destruct (binding url spec). Qed.
Lemma bares_snoc specs spec :
  bares (specs ++ [spec]) = bares specs ++ match cut_pair spec with None => [spec] | _ => [] end.
Proof. unfold bares. rewrite List.filter_app. simpl. by destruct (cut_pair spec). Qed.

Definition loaded (fs : files.files) (path : option string) (l : option status.StatusList) : Prop :=
  match path with Some p => exists x, texts.Load d_list fs (s2b p) = Ok x /\ l = Some x | None => l = None end.

Lemma add_lists_Ok fs specs r :
  add_lists fs (mkLists ∅ None) specs = Ok r ->
  (forall url, loaded fs (last (bindings url specs)) (byURL r !! url)) /\ loaded fs (last (bares specs)) (fallback r).
Proof.
  revert r. induction specs as [|spec specs IH] using rev_ind; intros r H; [by apply Ok_inj in H as <-|].
  rewrite add_lists_snoc in H. gosimp H. destruct (IH _ Ha) as [IHp IHb]. cbn [add_lists] in H.
  setoid_rewrite bindings_snoc. rewrite bares_snoc. unfold binding. destruct (cut_pair spec) as [[url' path]|]; gosimp H; apply Ok_inj in H as <-.
  - split; [|by rewrite app_nil_r]. intros url. cbn [byURL]. unfold str_eqb. case_bool_decide as Hu.
    + subst url'. rewrite last_snoc, lookup_insert_eq. by exists a0.
    + rewrite app_nil_r, lookup_insert_ne by done. apply IHp.
  - split; [intros url; cbn [byURL]; rewrite app_nil_r; apply IHp|]. rewrite last_snoc. by exists a0.
Qed.

(** which list a URL is checked against: the last file bound to it on the
    command line, failing that the last one given without a URL, and otherwise
    none, which is an error; every file named is read beforehand, or the command
    does not run.  No file can be bound to a URL with an equals sign, as a pair is
    cut at its first one. *)
Theorem lists_bound fs specs :
  (forall r, resolver fs specs = Ok (Some r) -> forall url, ResolveStatus r url =
     match last (bindings url specs), last (bares specs) with
     | Some path, _ => texts.Load d_list fs (s2b path)
     | None, Some path => texts.Load d_list fs (s2b path)
     | None, None => Err (Errorf "no status list supplied for %q (pass --status %s=<file>)" [AStr url; AStr url])
     end)
  /\ (resolver fs specs = Ok None <-> specs = [])
  /\ (forall url path, In (url +:+ "=" +:+ path) specs -> equals ∉ s2b url -> In path (bindings url specs))
  /\ forall url, equals ∈ s2b url -> bindings url specs = [].
Proof.
  unfold resolver. split_and!.
  - intros r H url. case_bool_decide; [done|]. gosimp H. injection H as ->. destruct (add_lists_Ok _ _ _ Ha) as [Hp Hb].
    specialize (Hp url). unfold ResolveStatus. destruct (last (bindings url specs)) as [path|].
    + destruct Hp as (x & -> & ->). done.
    + rewrite Hp. destruct (last (bares specs)) as [path|]; [by destruct Hb as (x & -> & ->)|by rewrite Hb].
  - case_bool_decide as Hs; [done|]. split; [|done]. intros H. by gosimp H.
  - intros url path Hin Hu. unfold bindings. apply list_elem_of_In, list_elem_of_omap. eexists. split; [by apply list_elem_of_In|].
    unfold binding. rewrite (proj2 (cut_pair_Some _ url path)) by done. by rewrite str_eqb_refl.
  - intros url Hu. unfold bindings. induction specs as [|spec specs IH]; [done|]. cbn [omap list_omap].
    assert (Hb : binding url spec = None); [|by rewrite Hb]. unfold binding. destruct (cut_pair spec) as [[u p]|] eqn:E; [|done].
    apply cut_pair_Some in E as [_ Hpl]. destruct (u =?s url) eqn:Eu; [|done]. apply str_eqb_true in Eu as ->. by destruct Hpl.
Qed.

(** The only requests of a resolution over HTTPS. *)
Definition contacted (v : env) (fl : flags) (d : types.DID) : list URL :=
  if fetchDIDs fl then (did.HTTP_Resolve d_fetched (did.mkHTTPResolver "" (splitHosts (didHosts fl))) (serve v) d).2 else [].

Lemma splitHosts_in s h : h ∈ splitHosts s -> exists part, part ∈ Split s comma /\ h = TrimSpace part /\ h <> ""%string.
Proof.
  unfold splitHosts. rewrite list_elem_of_In, filter_In, in_map_iff. intros ((part & <- & Hp) & Hn%negb_true_iff%str_eqb_false).
  exists part. by split; [apply list_elem_of_In|].
Qed.

(** C20: the operator chooses the hosts, not the export.  Without --fetch-dids
    the verification is the same whatever any server would answer.  With it at
    least one host is named, and whatever identifiers the export carries, every
    request of every resolution goes to the host of the first, which is one of
    those named, and never falls back from https. *)
Theorem network_confined v fl s :
  prepare v fl = Ok s ->
  (fetchDIDs fl = false -> forall serve', run (mkEnv (fs v) (no_color v) (device v) serve') fl = run v fl)
  /\ (fetchDIDs fl = true -> splitHosts (didHosts fl) <> [] /\ forall d,
       su_resolver s d = (did.HTTP_Resolve d_fetched (did.mkHTTPResolver "" (splitHosts (didHosts fl))) (serve v) d).1
       /\ match contacted v fl d with
          | [] => True
          | origin :: _ =>
              did.chain_ok origin (contacted v fl d) /\ len (contacted v fl d) <= did.maxRedirects
              /\ exists part, part ∈ Split (didHosts fl) comma /\ TrimSpace part <> ""%string
                   /\ ToLower (s2b (TrimSpace (TrimSpace part))) = ToLower (Host origin)
          end).
Proof.
  intros H. split.
  - intros Hf serve'. assert (Hp : prepare (mkEnv (fs v) (no_color v) (device v) serve') fl = prepare v fl); [|unfold run; by rewrite Hp].
    unfold prepare, trust_root, file_resolver. by rewrite Hf.
  - intros Hf. unfold prepare in H. gosimp H. apply Ok_inj in H as <-. cbn [su_resolver]. unfold trust_root in *. rewrite Hf in *.
    match goal with Ht : _ = Ok ?root |- context [?root.1] => gosimp Ht; apply Ok_inj in Ht as <- end. cbn [fst].
    split; [by eapply bool_decide_eq_false|]. intros d. split; [done|]. unfold contacted. rewrite Hf.
    pose proof (did.http_resolution_confined d_fetched (did.mkHTTPResolver "" (splitHosts (didHosts fl))) (serve v) d) as X.
    destruct (did.HTTP_Resolve _ _ _ _) as [r made]. cbn [snd]. destruct made as [|origin made]; [done|].
    destruct X as ((Hc & Hl & _ & _ & h & Hh & Hlow) & _). split_and!; [done..|].
    apply splitHosts_in in Hh as (part & Hin & -> & Hn). by exists part.
Qed.
End Command.

(** ** A concrete verification over HTTPS *)

#[local] Existing Instance verifier.accepting.
#[local] Existing Instance verifier.ascii_tables.
#[local] Instance same_case : CaseTables := Build_CaseTables (fun r => r).
Definition test_env : env := mkEnv {[ "/export.json"%string := [] ]} "" false (fun _ => did.TransportError (New "connection refused")).
Definition test_flags : flags := mkFlags "/export.json" "" true "org.example, , agent.example" false "never" [].
Definition test_decode (b : bytes) : result export.Export := Ok verifier.test_export.
Definition undecodable {A} (b : bytes) : result A := Err (New "invalid character").
Definition test_ready : bool := is_ok (prepare test_decode undecodable undecodable undecodable test_env test_flags).

Lemma network_confined_witness :
  splitHosts (didHosts test_flags) <> []
  /\ contacted undecodable test_env test_flags "did:web:other.example" = [].
Proof.
  assert (E : test_ready = true) by (vm_compute; reflexivity). apply is_ok_true in E as [s E].
  split; [|vm_compute; reflexivity].
  exact (proj1 (proj2 (network_confined test_decode undecodable undecodable undecodable test_env test_flags s E) eq_refl)).
Defined.

Example hosts_named : splitHosts (didHosts test_flags) = ["org.example"; "agent.example"]%string.
Proof. vm_compute. reflexivity. Qed.
Example wrapped : wrap_words "    " 14 "    " (Fields "one two  three") = ["    one two"; "    three"]%string.
Proof. vm_compute. reflexivity. Qed.
End verifycmd.
