(* ===== verification/Issuermain.v ===== *)
(** cmd/issuer (main.go, enroll.go): the command line of kessa-issuer - its
    dispatch and usage, what each command prints when it is done, and the static
    server up to its first request.

    Module [issuermain]; the commands themselves are in [Issuercmd], the daemon
    in [Sockets]. *)
From S2P Require Import Prelude GoFmt GoTime GoCrypto GoPath GoJson GoJsonText GoIndent Webhost Types Signer Keystore Did Status Macaroon.
From S2P Require Import Credential Chain AuditLog Export Texts Enroll Issuer Verifier Ingress Listeners Issuercmd Flags Verifycmd Version.

Module issuermain.

Definition nl : string := b2s [Byte.x0a].
Definition usage : string :=
  "usage: kessa-issuer <command> [flags]" +:+ nl +:+ nl +:+
  "  publish  mint the delegation chain; write did:web docs + signed status list" +:+ nl +:+
  "  enroll   generate an on-device employee key, mint its org->employee credential" +:+ nl +:+
  "  revoke   flip a credential's bit in the published status list and re-sign" +:+ nl +:+
  "  serve    serve the publication root over HTTP (static files; demo only)" +:+ nl +:+
  "  daemon   run the on-device signing daemon (brokers keys over a local socket)" +:+ nl +:+ nl +:+
  "  --version  print the build version and exit" +:+ nl.

Inductive command := Publish | Enroll | Revoke | Serve | Daemon.
Definition commands : list (string * command) :=
  [("publish", Publish); ("enroll", Enroll); ("revoke", Revoke); ("serve", Serve); ("daemon", Daemon)]%string.
Inductive dispatch := PrintVersion (line : string) | UsageError (text : string) | Run (c : command) (args : list string).
Definition run (b : version.Build) (args : list string) : dispatch :=
  if version.Requested args then PrintVersion (version.String_ b "kessa-issuer")
  else
    match args with
    | [] => UsageError usage
    | name :: args => match (list_to_map commands : gmap string command) !! name with Some c => Run c args | None => UsageError usage end
    end.

Section Reports.
Context {UT : UnicodeTables}.

(** The line of a hop, and what publish prints. *)
Definition hop_line (i : nat) (h : issuer.HopSpec) (id : string) : string :=
  Sprintf "  hop %d  %s -> %s  status[%s]  %s"
    [AInt (Z.of_nat i); AStr (issuer.Issuer h); AStr (issuer.Subject h);
     AStr (match issuer.StatusIndex h with Some n => Sprintf "%d" [AInt n] | None => "-" end); AStr id].
(** The pair of the printed [--status], as the shell passes it on. *)
Definition hinted_pair (spec : issuer.Spec) (res : issuer.Result) : string :=
  issuer.URL (issuer.Status spec) +:+ "=" +:+ b2s (issuer.StatusPath res).
Definition publish_report (spec : issuer.Spec) (res : issuer.Result) (entries : result (list (string * bool))) : list string :=
  [Sprintf "published %d DID documents under %s/" [AInt (len (issuer.DIDDocs res)); AStr (issuer.Root res)]]
  ++ map (fun p => Sprintf "  %s" [AStr (b2s p)]) (issuer.DIDDocs res)
  ++ [Sprintf "status list  %s  (%s)" [AStr (b2s (issuer.StatusPath res)); AStr (issuer.URL (issuer.Status spec))];
      Sprintf "credentials  %s  (kept OUT of the public root)" [AStr (issuer.ChainPath res)]]
  ++ imap (fun i hid => hop_line i (fst hid) (snd hid)) (zip (issuer.Hops spec) (issuer.CredentialIDs res))
  ++ [""; "verify offline with:"; "  kessa verify --export <export.json> --dids " +:+ issuer.Root res +:+ " --status " +:+ dq (hinted_pair spec res)]%string
  ++ match issuercmd.SiteRoot (issuer.Root res) "" entries with
     | Ok site => [""; "or host it statically (the root is host-partitioned; serve one host's dir):"; "  " +:+ b2s site]%string
     | Err _ => []
     end.

Definition revoke_report (index : Z) (clear : bool) (path : bytes) : list string :=
  [Sprintf "%s index %d; re-signed and republished %s" [AStr (if clear then "un-revoked" else "revoked"); AInt index; AStr (b2s path)];
   "propagation is your static host's cache policy: nothing calls home"%string].

Definition enroll_report (statusIndex : Z) (res : enroll.Result) : list string :=
  [Sprintf "enrolled %s" [AStr (enroll.r_Identity res)];
   Sprintf "  device DID    %s" [AStr (enroll.r_DeviceDID res)];
   Sprintf "  key          %s (%s)" [AStr (enroll.KBackend (enroll.Key res)); AStr (enroll.Algorithm (enroll.Key res))];
   Sprintf "  fingerprint  %s" [AStr (enroll.Fingerprint_ (enroll.Key res))];
   Sprintf "  backend      %s" [AStr (enroll.BackendName res)];
   Sprintf "  DID document %s" [AStr (b2s (enroll.DIDDocPath res))];
   Sprintf "  credential   %s  (%s)" [AStr (enroll.r_CredentialOut res); AStr (enroll.r_CredentialID res)];
   Sprintf "  mapping      %s  (status[%d] revokes this device)" [AStr (enroll.r_MappingPath res); AInt statusIndex]]
  ++ if enroll.KBackend (enroll.Key res) =?s "software"
     then [""; "NOTE: this is a NON-PRODUCTION software key; it is not hardware-backed."]%string else [].

(** ** The static server: [stat] is whether the site is there, [listened] what
    ListenAndServe ends with, if it ends *)
Definition cmdServe (root host addr : string) (entries : result (list (string * bool))) (stat : bytes -> option error) (listened : option error)
  : list string * result unit :=
  match issuercmd.SiteRoot root host entries with
  | Err e => ([], Err e)
  | Ok site =>
      match stat site with
      | Some e => ([], Err e)
      | None =>
          ([Sprintf "serving %s at http://%s (static files only)" [AStr (b2s site); AStr addr]],
           match listened with Some e => Err e | None => Ok tt end)
      end
  end.

(** No command is reached but by its own name, and none by two. *)
Lemma dispatched b args c rest : run b args = Run c rest -> exists name, args = name :: rest /\ (name, c) ∈ commands /\ version.Requested args = false.
Proof.
  unfold run. destruct (version.Requested args); [done|]. destruct args as [|name args]; [done|].
  destruct (_ !! name) as [c'|] eqn:E; [|done]. intros [= -> ->]. exists name. split_and!; [done| |done]. by apply elem_of_list_to_map_2 in E.
Qed.
End Reports.

(** ** What is printed, done *)
Section Hint.
Context {CR : Crypto} {UT : UnicodeTables} {CT : CaseTables} {SK : signer.SeedKeys} {SL : signer.SeedLaws} (url_Parse : string -> result status.ParsedURL).

(** the command publish prints works.  After a completed publication, the pair
    printed as --status is one kessa verify accepts, and its lists are then the
    one just published, under the address the credentials refer to: accepted from
    the authority the specification names, and with nobody revoked.  The address
    must have no equals sign, at which the flag is cut. *)
Theorem published_hint_loads Unmarshal Unmarshal_list spec ks root out a fs fs' res :
  issuer.publish url_Parse spec ks root out a fs = (fs', Ok res) ->
  issuer.separate_paths root (issuer.principals spec) -> out <> b2s (issuer.StatusPath res) ->
  (forall p, p ∈ issuer.DIDDocs res -> p <> issuer.StatusPath res /\ b2s p <> out) ->
  (forall d s doc, keystore.Signer ks d = Ok s -> did.NewDocument d (signer.Public s) = Some doc -> texts.Reads Unmarshal doc) ->
  (forall s p, keystore.Signer ks (issuer.s_Issuer (issuer.Status spec)) = Ok s ->
     status.Marshal (status.Sign (status.New (issuer.Bits (issuer.Status spec))) s).1 = Ok p -> texts.ReadsList Unmarshal_list p) ->
  plain_url (issuer.URL (issuer.Status spec)) ->
  verifycmd.set_all [] [hinted_pair spec res] = Ok [hinted_pair spec res]
  /\ exists lists l k, verifycmd.resolver Unmarshal_list fs' [hinted_pair spec res] = Ok (Some lists)
       /\ verifycmd.ResolveStatus lists (issuer.URL (issuer.Status spec)) = Ok l
       /\ did.ResolveKey (did.FileResolver_Resolve Unmarshal (files.ReadFile fs') (s2b root)) (issuer.s_Issuer (issuer.Status spec)) = Ok k
       /\ status.Verify l (issuer.s_Issuer (issuer.Status spec)) k = Ok tt
       /\ forall i, 0 <= i < status.Len l -> status.Lookup l i = Ok false.
Proof.
  intros H Hsep Hout Hdocs Hread Hlist Hurl.
  destruct (issuer.publication_verifies url_Parse Unmarshal Unmarshal_list spec ks root out a fs fs' res H Hsep Hout Hdocs Hread Hlist)
    as (_ & _ & (l & k & Hl & Hk & Hv & _ & Hclear) & _).
  assert (Hc : cut_pair (hinted_pair spec res) = Some (issuer.URL (issuer.Status spec), b2s (issuer.StatusPath res))) by by apply cut_pair_Some.
  split.
  - cbn [verifycmd.set_all]. unfold verifycmd.statusFlag_Set. destruct (hinted_pair spec res =?s "") eqn:E; [|done].
    apply str_eqb_true in E. rewrite E in Hc. vm_compute in Hc. discriminate Hc.
  - unfold verifycmd.resolver. rewrite bool_decide_false by discriminate. cbn [verifycmd.add_lists]. rewrite Hc, s2b_b2s, Hl. cbn [wrap rbind].
    do 3 eexists. split_and!; [reflexivity| |exact Hk|exact Hv|exact Hclear].
    unfold verifycmd.ResolveStatus. cbn [verifycmd.byURL]. by rewrite lookup_insert_eq.
Qed.
End Hint.

#[local] Instance ascii_printable : UnicodeTables := Build_UnicodeTables (fun _ => true).
Example dispatches :
  run (version.mkBuild "v" "" false "go") ["revoke"; "--index"; "3"]%string = Run Revoke ["--index"; "3"]%string
  /\ run (version.mkBuild "v" "" false "go") ["Publish"]%string = UsageError usage
  /\ revoke_report 3 true (s2b "/srv/list.json") =
     ["un-revoked index 3; re-signed and republished /srv/list.json"; "propagation is your static host's cache policy: nothing calls home"]%string.
Proof. split_and!; vm_compute; reflexivity. Qed.
End issuermain.
