(* ===== verification/EndToEnd.v ===== *)
(** The whole path: from the start of the proxy command, over the requests it
    serves, to the exit code of the verifier command on what it exported; and
    that a verdict survives whatever a verifier learns besides. *)
From S2P Require Import Prelude GoFmt GoTime GoCrypto GoPath GoJson GoJsonText Webhost GoNet Config Types Signer Keystore Did Status Policy Macaroon.
From S2P Require Import Credential Chain AuditLog Signerd Export Texts Issuer Verifier Auditsink Wal Enforce Ingress Listeners Flags Proxycmd Honest Verifycmd.

Module endtoend.

(** ** Knowing more

    A verifier that resolves every document and every list the other resolves,
    and maybe more. *)
Definition more_documents (r1 r2 : did.Resolver) : Prop := forall d doc, r1 d = Ok doc -> r2 d = Ok doc.
Definition more_lists (s1 s2 : option verifier.StatusResolver) : Prop :=
  forall st1, s1 = Some st1 -> exists st2, s2 = Some st2 /\ forall url l, st1 url = Ok l -> st2 url = Ok l.
Definition knows_more (i1 i2 : verifier.Inputs) : Prop :=
  more_documents (verifier.DIDs i1) (verifier.DIDs i2) /\ more_lists (verifier.Status i1) (verifier.Status i2).

Section More.
Context {CR : Crypto} {UT : UnicodeTables}.

Lemma key_more r1 r2 d k : more_documents r1 r2 -> did.ResolveKey r1 d = Ok k -> did.ResolveKey r2 d = Ok k.
Proof. intros H Hk. unfold did.ResolveKey in *. gosimp Hk. by rewrite (H _ _ Ha). Qed.

Lemma chain_more r1 r2 ch : more_documents r1 r2 -> chain.Verify r1 ch = Ok tt -> chain.Verify r2 ch = Ok tt.
Proof.
  intros H (Hne & Hd & Hh & Hl)%chain.chain_Ok. apply chain.chain_Ok. split_and!; [done..| |done].
  eapply Forall_impl; [exact Hh|]. intros l (ik & input & sk & E1 & E2 & E3 & E4 & E5). exists ik, input, sk.
  split_and!; [by eapply key_more|done..|by eapply key_more|done].
Qed.

Lemma revoked_more i1 i2 c b : knows_more i1 i2 -> verifier.hopRevoked c i1 = Ok b -> verifier.hopRevoked c i2 = Ok b.
Proof.
  intros [Hd Hs] H. unfold verifier.hopRevoked in *. destruct (verifier.Status i1) as [st1|] eqn:E1; [|done].
  destruct (Hs st1 eq_refl) as (st2 & -> & Hst). gosimp H. rewrite (Hst _ _ Ha). cbn [rbind].
  rewrite (key_more _ _ _ _ Hd Ha0). cbn [wrap rbind]. rewrite Ha1. cbn [rbind]. exact H.
Qed.

Lemma approved_more i1 i2 c e : knows_more i1 i2 -> verifier.approved i1 c e -> verifier.approved i2 c e.
Proof. intros [Hd _] (Hb & Ha & key & Hk & Hv). split_and!; [done..|]. exists key. split; [by eapply key_more|done]. Qed.

Lemma entry_more exp i1 i2 e : knows_more i1 i2 -> verifier.entry_backed exp i1 e -> verifier.entry_backed exp i2 e.
Proof.
  intros Hi (links & (Hf & Hv & Hp) & Hj). exists links. split; [split_and!; [done|by eapply chain_more; [apply Hi|]|done]|].
  intros Ha. destruct (Hj Ha) as (l & d & Hl & Hr & Hs & Hc & Hpos & Hap). exists l, d. split_and!; [done..| |done|].
  - intros E. destruct (Hc E) as (Hn & Hrev & Happ). split_and!; [done| |by eapply approved_more].
    eapply Forall_impl; [exact Hrev|]. intros x Hx Hpub. by eapply revoked_more, Hx.
  - destruct Hap as [|Hap]; [by left|right; by eapply approved_more].
Qed.

Lemma backed_more exp i1 i2 : knows_more i1 i2 -> verifier.evidence_backed exp i1 -> verifier.evidence_backed exp i2.
Proof.
  intros Hi (Hv & key & Hk & He & Hl & Hf). split; [done|]. exists key. split_and!; [by eapply key_more; [apply Hi|]|done..|].
  eapply Forall_impl; [exact Hf|]. intros e. by apply entry_more.
Qed.

(** learning more never turns a clean verdict: a verifier that resolves every
    document and list that another resolves, to the same content, passes every
    export the other passes.  So nobody can make an export fail by publishing
    documents its evidence does not name. *)
Theorem verdict_monotone exp i1 i2 res1 :
  knows_more i1 i2 -> verifier.Verify exp i1 = Ok res1 -> verifier.Pass res1 = true ->
  exists res2, verifier.Verify exp i2 = Ok res2 /\ verifier.Pass res2 = true.
Proof. intros Hi Hv Hp. apply verifier.Pass_backed. eapply backed_more; [exact Hi|]. apply verifier.Pass_backed. by exists res1. Qed.
End More.

(** ** From the proxy's files to the verifier's *)

(** Every file of the proxy that holds anything is among the verifier's. *)
Definition kept (f1 f2 : files.files) : Prop := forall p d, f1 !! p = Some d -> d <> [] -> f2 !! p = Some d.

Lemma read_kept f1 f2 p d : kept f1 f2 -> files.ReadFile f1 p = Ok d -> d <> [] -> files.ReadFile f2 p = Ok d.
Proof.
  intros Hk. unfold files.ReadFile. destruct (f1 !! b2s p) as [x|] eqn:E; [|done]. intros [= ->] Hd. by rewrite (Hk _ _ E Hd).
Qed.

Section Files.
Context {CR : Crypto} {UT : UnicodeTables} {CT : CaseTables} {SK : signer.SeedKeys} {MO : proxycmd.MapOrder} {DE : proxycmd.Decoders}.
Context (HE : proxycmd.rejects_empty) (f1 f2 : files.files) (HK : kept f1 f2).

Lemma list_kept path l : texts.Load proxycmd.d_list f1 path = Ok l -> texts.Load proxycmd.d_list f2 path = Ok l.
Proof.
  unfold texts.Load. intros H. gosimp H. rewrite (read_kept f1 f2 _ _ HK Ha); [exact H|]. intros ->.
  unfold texts.status_Parse in H. pose proof (proxycmd.rejects_list HE) as Hr. by destruct (proxycmd.d_list []).
Qed.
Lemma document_kept dir : more_documents (proxycmd.dids_of dir f1) (proxycmd.dids_of dir f2).
Proof.
  intros d doc. unfold proxycmd.dids_of, did.FileResolver_Resolve. intros H. gosimp H. rewrite Ha. cbn [rbind].
  rewrite (read_kept f1 f2 _ _ HK Ha0); [exact H|]. intros ->.
  unfold did.parseDocument in H. pose proof (proxycmd.rejects_document HE) as Hr. by destruct (proxycmd.d_document []).
Qed.

(** The lists the proxy was started with load for the verifier, under the same
    addresses. *)
Definition same_lists (f : proxycmd.fileStatus) (r : verifycmd.statusLists) : Prop :=
  forall url path, f !! url = Some path -> exists l, texts.Load proxycmd.d_list f1 (s2b path) = Ok l /\ verifycmd.byURL r !! url = Some l.

Lemma lists_kept dids specs f f' r :
  proxycmd.add_statuses dids f1 f specs = Ok f' -> same_lists f r ->
  exists r', verifycmd.add_lists proxycmd.d_list f2 r specs = Ok r' /\ same_lists f' r'.
Proof.
  unfold proxycmd.fileStatus in *. revert f r. induction specs as [|spec specs IH]; intros f r; cbn [proxycmd.add_statuses verifycmd.add_lists].
  { intros [= <-] Hs. by exists r. }
  destruct (cut_pair spec) as [[url path]|]; [|done]. intros H Hs. gosimp H. rewrite (list_kept _ _ Ha). cbn [wrap rbind].
  apply (IH _ (verifycmd.mkLists (<[url := a]> (verifycmd.byURL r)) (verifycmd.fallback r)) H).
  unfold same_lists, proxycmd.fileStatus in *. intros u p. cbn [verifycmd.byURL]. destruct (decide (u = url)) as [->|Hne].
  - rewrite !lookup_insert_eq. intros [= <-]. by exists a.
  - rewrite !lookup_insert_ne by done. apply Hs.
Qed.
Lemma resolver_kept dids specs f :
  proxycmd.resolver specs dids f1 = Ok f ->
  exists r, verifycmd.resolver proxycmd.d_list f2 specs = Ok r
    /\ more_lists ((fun f => proxycmd.ResolveStatus f f1) <$> f) (verifycmd.ResolveStatus <$> r).
Proof.
  unfold proxycmd.resolver, verifycmd.resolver. case_bool_decide as Hs.
  - intros [= <-]. exists None. split; [done|]. by intros st.
  - intros H. gosimp H. apply Ok_inj in H as <-. destruct (lists_kept _ _ _ _ (verifycmd.mkLists ∅ None) Ha) as (r & -> & Hr).
    { intros url path Hx. cbv in Hx. discriminate Hx. }
    cbn [rbind]. exists (Some r). split; [done|]. intros st1 [= <-]. eexists. split; [done|]. intros url l. unfold proxycmd.ResolveStatus.
    destruct (a !! url) as [path|] eqn:E; [|done]. destruct (Hr _ _ E) as (l' & Hl' & Hu). unfold verifycmd.ResolveStatus.
    rewrite Hu. congruence.
Qed.
End Files.

(** ** From start to verdict *)

Section Whole.
Context {CR : Crypto} {UT : UnicodeTables} {CT : CaseTables} {SK : signer.SeedKeys} {MO : proxycmd.MapOrder} {DE : proxycmd.Decoders}.

(** A durable log that was not there has nothing to recover, whatever the audit
    log was created as. *)
Lemma opened_fresh w0 w1 w2 auditLog walPath sink log :
  proxycmd.buildSink w0 auditLog = (w1, Ok sink) -> proxycmd.buildWAL w1 walPath = (w2, Ok log) ->
  proxycmd.fs w0 !! walPath = None -> proxycmd.d_records [] = ([], None) -> honest.fresh log.
Proof.
  intros E1 E2 Hn Hd. pose proof (proxycmd.buildSink_grown w0 auditLog) as [Hg _]. rewrite E1 in Hg. cbn [fst] in Hg.
  revert E2. unfold proxycmd.buildWAL. destruct (walPath =?s ""); [by intros [= _ <-]|]. unfold wal.OpenWAL, wal.readWAL.
  destruct (Hg walPath) as [->|[_ ->]]; rewrite ?Hn, ?Hd; cbn [rbind]; destruct (proxycmd.open_refused w1 _); by intros [= _ <-].
Qed.

(** What a start comes to: an engine over the files it leaves, and, when its
    durable log is new, one with nothing to recover. *)
Lemma serve_started w0 pf w f p ls :
  proxycmd.serve w0 false pf = (w, proxycmd.Started f p ls) ->
  exists ep sink log, proxycmd.gates w0 pf = Ok ep /\ proxycmd.buildProxy w (proxycmd.policyPath pf) (proxycmd.didsDir pf) ep (proxycmd.statuses pf) sink log = Ok (f, p)
    /\ (proxycmd.fs w0 !! proxycmd.walPath pf = None -> proxycmd.d_records [] = ([], None) -> honest.fresh log).
Proof.
  unfold proxycmd.serve. destruct (proxycmd.gates w0 pf) as [ep|] eqn:Eg; [|done].
  destruct (proxycmd.buildSink w0 (proxycmd.auditLog pf)) as [w1 [sink|]] eqn:E1; [|done].
  destruct (proxycmd.buildWAL w1 (proxycmd.walPath pf)) as [w2 [log|]] eqn:E2; [|done].
  destruct (proxycmd.buildProxy w2 _ _ _ _ _ _) as [[f' p']|] eqn:E3; [|done].
  destruct (bool_decide _); [done|]. intros [= <- <- <- <-]. exists ep, sink, log. split_and!; [done|exact E3|].
  exact (opened_fresh _ _ _ _ _ _ _ E1 E2).
Qed.

Lemma built_engine w policyPath didsDir ep statuses sink log f p :
  proxycmd.buildProxy w policyPath didsDir ep statuses sink log = Ok (f, p) ->
  didsDir <> ""%string
  /\ exists pol, policy.Validate pol = Ok tt /\ proxycmd.resolver statuses (proxycmd.dids_of didsDir (proxycmd.fs w)) (proxycmd.fs w) = Ok f
     /\ enforce.NewProxy (enforce.mkConfig (Some ep) (Some (enforce.PolicyEvaluator pol)) (Some (proxycmd.dids_of didsDir (proxycmd.fs w)))
          ((fun f => proxycmd.ResolveStatus f (proxycmd.fs w)) <$> f) sink log) = Ok p.
Proof.
  unfold proxycmd.buildProxy. intros H. gosimp H. apply Ok_inj in H as [= <- <-]. split.
  - unfold proxycmd.missing_flags in Ha. apply check_all_Ok in Ha. rewrite proxycmd.ranging_perm in Ha.
    apply Forall_cons in Ha as [_ [Hd _]%Forall_cons]. apply reject_if_Ok in Hd. by apply str_eqb_false in Hd.
  - exists a. split_and!; [|done|done]. unfold texts.policy_Load, texts.policy_Parse in Ha0. gosimp Ha0. apply Ok_inj in Ha0 as <-. done.
Qed.

(** A proxy whose key comes from a keystore signs soundly. *)
Lemma keystore_sound {SL : signer.SeedLaws} w0 pf ep : proxycmd.sockPath pf = ""%string -> proxycmd.gates w0 pf = Ok ep -> signer.Sound ep.
Proof.
  intros Hsock. unfold proxycmd.gates. intros H. gosimp H. destruct (listeners.refuseRemoteBind _ _) as [msg ok]. gosimp H.
  unfold proxycmd.enforcementPointSigner in H. rewrite Hsock in H. cbn in H.
  destruct (proxycmd.ksPath pf =?s ""); [by repeat case_in H|]. cbn in H. repeat case_in H; try discriminate.
  unfold proxycmd.keystoreSigner in H. gosimp H. apply Ok_inj in H, Ha2. subst a0 ep. by apply keystore.Signer_Ok in Ha4 as (_ & ? & _).
Qed.

(** The pairs a proxy accepts are flags a verifier accepts. *)
Lemma flags_accepted dids fs f f' specs s :
  proxycmd.add_statuses dids fs f specs = Ok f' -> verifycmd.set_all s specs = Ok (s ++ specs).
Proof.
  revert f s. induction specs as [|spec specs IH]; intros f s; cbn [proxycmd.add_statuses verifycmd.set_all]; [by rewrite app_nil_r|].
  destruct (cut_pair spec) as [[url path]|] eqn:Ec; [|done]. intros H. gosimp H. unfold verifycmd.statusFlag_Set.
  destruct (spec =?s "") eqn:Es; [apply str_eqb_true in Es; subst spec; vm_compute in Ec; discriminate Ec|]. cbn [rbind].
  rewrite (IH _ (s ++ [spec]) H). by rewrite <- app_assoc.
Qed.

(** The verifier command is pointed at the proxy's documents and lists. *)
Record pointed (pf : proxycmd.flags) (vf : verifycmd.flags) : Prop := mkPointed
  { same_dids : verifycmd.didsDir vf = proxycmd.didsDir pf; same_statuses : verifycmd.statuses vf = proxycmd.statuses pf;
    no_fetch : verifycmd.fetchDIDs vf = false; no_hosts : verifycmd.didHosts vf = ""%string;
    an_export : verifycmd.exportPath vf <> ""%string;
    a_color : verifycmd.colorMode vf = "auto"%string \/ verifycmd.colorMode vf = "always"%string \/ verifycmd.colorMode vf = "never"%string }.

Context (d_export : bytes -> result export.Export) (d_fetched : bytes -> result did.Document).

Lemma prepared w pf ep sink log f p vf v data exp :
  proxycmd.rejects_empty ->
  proxycmd.buildProxy w (proxycmd.policyPath pf) (proxycmd.didsDir pf) ep (proxycmd.statuses pf) sink log = Ok (f, p) ->
  pointed pf vf -> kept (proxycmd.fs w) (verifycmd.fs v) ->
  files.ReadFile (verifycmd.fs v) (s2b (verifycmd.exportPath vf)) = Ok data -> d_export data = Ok exp -> export.Parse exp = Ok exp ->
  exists s, verifycmd.prepare d_export proxycmd.d_document d_fetched proxycmd.d_list v vf = Ok s /\ verifycmd.su_export s = exp
    /\ knows_more (verifier.mkInputs (proxycmd.dids_of (proxycmd.didsDir pf) (proxycmd.fs w)) ((fun f => proxycmd.ResolveStatus f (proxycmd.fs w)) <$> f))
                  (verifycmd.su_inputs s).
Proof.
  intros HE Hb [P1 P2 P3 P4 P5 P6] HK Hread Hdec Hparse. apply built_engine in Hb as (Hd & pol & _ & Hf & _).
  assert (Hset : verifycmd.set_all [] (proxycmd.statuses pf) = Ok (proxycmd.statuses pf)).
  { unfold proxycmd.resolver in Hf. case_bool_decide as Hs; [by rewrite Hs|]. gosimp Hf. exact (flags_accepted _ _ _ _ _ [] Ha). }
  destruct (resolver_kept HE _ _ HK _ _ _ Hf) as (r & Hr & Hl).
  assert (Hcol : exists c, verifycmd.resolveColor (verifycmd.colorMode vf) (verifycmd.no_color v) (verifycmd.device v) = Ok c).
  { unfold verifycmd.resolveColor. destruct P6 as [->|[->| ->]]; by eexists. }
  destruct Hcol as [c Hcol]. apply str_eqb_false in Hd, P5.
  eexists. split; [|split].
  - unfold verifycmd.prepare. rewrite P2, Hset. cbn [rbind]. rewrite P5, P1, Hd, P3. cbn [reject_if rbind andb].
    rewrite Hread. cbn [wrap rbind]. unfold verifycmd.export_Parse. rewrite Hdec. cbn [wrap rbind]. rewrite Hparse. cbn [rbind].
    unfold verifycmd.trust_root. rewrite P3, P4. cbn [reject_if rbind negb str_eqb]. rewrite str_eqb_refl. cbn [negb reject_if rbind].
    rewrite Hr, Hcol. reflexivity.
  - done.
  - split; [|exact Hl]. cbn [verifier.DIDs verifycmd.su_inputs verifycmd.su_resolver fst]. unfold verifycmd.file_resolver. rewrite P1.
    exact (document_kept HE _ _ HK (proxycmd.didsDir pf)).
Qed.

(** The export of a run carries its engine's policy, so reading it back accepts
    it. *)
Lemma exported_parses ep pol r st sk log p evs exp {HS : signer.Sound ep} :
  enforce.NewProxy (enforce.mkConfig (Some ep) (Some (enforce.PolicyEvaluator pol)) (Some r) st sk log) = Ok p -> honest.fresh log ->
  policy.Validate pol = Ok tt -> (forall key data, signer.Verify key data [] = false) -> Forall (honest.careful p) evs ->
  enforce.Export (honest.run p evs) = Ok exp -> export.Parse exp = Ok exp.
Proof.
  intros Hnew Hfresh Hval Hsig Hcare Hexp. destruct (honest.NewProxy_fresh _ _ _ _ _ _ _ Hnew Hfresh) as (id & _ & ->).
  match type of Hexp with enforce.Export (honest.run ?q _) = _ => set (p0 := q) in * end.
  destruct (honest.run_inv p0 evs (honest.fresh_inv p0 eq_refl eq_refl eq_refl) Hcare) as [_ (Hep & _ & Hcp & _)].
  unfold enforce.Export, audit.Entries in Hexp. rewrite Hep, Hcp in Hexp.
  apply honest.built_envelope in Hexp as (Ev & _ & _ & _ & Ep & _); [|done|done].
  unfold export.Parse. rewrite Ev, str_eqb_refl, Ep. cbn [enforce.carriedPolicy p0]. by rewrite Hval.
Qed.

Lemma passing_verdict res : verifier.Pass res = true -> (verifycmd.verdict res).1 = "PASS"%string.
Proof.
  intros Hp. unfold verifycmd.verdict. rewrite Hp. unfold verifier.Pass in Hp.
  destruct (bool_decide (verifier.FatalReason res <> None)); [done|]. by destruct (verifier.EvidenceCarried res).
Qed.

(** The verdict of the verifier command is PASS and its exit code says so. *)
Definition reports_pass (v : verifycmd.env) (vf : verifycmd.flags) (exp : export.Export) : Prop :=
  exists root res color,
    verifycmd.run d_export proxycmd.d_document d_fetched proxycmd.d_list v vf = verifycmd.Reported root exp res color
    /\ (verifycmd.verdict res).1 = "PASS"%string
    /\ verifycmd.exit_code (verifycmd.run d_export proxycmd.d_document d_fetched proxycmd.d_list v vf) = verifycmd.exitPass.

(** What an engine built over files, with a new log, exports after any run. *)
Lemma built_export_verifies w pf ep sink log f p evs exp v vf data {HS : signer.Sound ep} :
  proxycmd.buildProxy w (proxycmd.policyPath pf) (proxycmd.didsDir pf) ep (proxycmd.statuses pf) sink log = Ok (f, p) -> honest.fresh log ->
  proxycmd.rejects_empty ->
  did.ResolveKey (proxycmd.dids_of (proxycmd.didsDir pf) (proxycmd.fs w)) (signer.DID ep) = Ok (signer.Public ep) ->
  (forall key data, signer.Verify key data [] = false) ->
  Forall (honest.careful p) evs -> honest.valid_links (honest.presented evs) -> enforce.Export (honest.run p evs) = Ok exp ->
  pointed pf vf -> kept (proxycmd.fs w) (verifycmd.fs v) ->
  files.ReadFile (verifycmd.fs v) (s2b (verifycmd.exportPath vf)) = Ok data -> d_export data = Ok exp ->
  reports_pass v vf exp \/ honest.collision_in (honest.presented evs).
Proof.
  intros Hb Hfresh HE Hkey Hsig Hcare Hval Hexp Hpt HK Hread Hdec.
  destruct (built_engine _ _ _ _ _ _ _ _ _ Hb) as (_ & pol & Hpol & _ & Hnew).
  destruct (honest.honest_export_passes ep pol _ _ sink log p evs exp Hnew Hfresh Hkey Hsig Hcare Hval Hexp) as [(res1 & Hv & Hp)|]; [left|by right].
  pose proof (exported_parses _ _ _ _ _ _ _ _ _ Hnew Hfresh Hpol Hsig Hcare Hexp) as Hparse.
  destruct (prepared _ _ _ _ _ _ _ _ _ _ _ HE Hb Hpt HK Hread Hdec Hparse) as (s & Hs & Hexp' & Hmore).
  destruct (proj2 (verifier.Pass_backed exp (verifycmd.su_inputs s))) as (res & Hv2 & Hp2).
  { eapply backed_more; [exact Hmore|]. apply verifier.Pass_backed. by exists res1. }
  assert (Hrun : verifycmd.run d_export proxycmd.d_document d_fetched proxycmd.d_list v vf
                 = verifycmd.Reported (verifycmd.su_trustRoot s) exp res (verifycmd.su_color s)).
  { unfold verifycmd.run. by rewrite Hs, Hexp', Hv2. }
  unfold reports_pass. rewrite Hrun. eexists _, res, _. split_and!; [done|by apply passing_verdict|]. cbn [verifycmd.exit_code]. by rewrite Hp2.
Qed.
Lemma engine_key w pp dd ep st sink log f p :
  proxycmd.buildProxy w pp dd ep st sink log = Ok (f, p) -> honest.fresh log -> enforce.enforcementPoint p = ep.
Proof.
  intros Hb Hfresh. destruct (built_engine _ _ _ _ _ _ _ _ _ Hb) as (_ & pol & _ & _ & Hnew).
  by destruct (honest.NewProxy_fresh _ _ _ _ _ _ _ Hnew Hfresh) as (id & _ & ->).
Qed.

(** C1: from start to verdict.  kessa-proxy serve starts on a configuration with a
    new durable log, serves whatever requests arrive in whatever order and under
    whatever disk failures, and its export is written to a file.  kessa verify,
    pointed at the same documents and lists - of which its disk holds at least
    what the proxy's held - reads that file, prints PASS and exits with 0;
    provided the enforcement point's published key is its signing key, presented
    strings are valid UTF-8, and a request carries an approval only when the
    policy calls its action consequential; or two presented credentials exhibit a
    SHA-256 collision. *)
Theorem served_export_verifies w0 pf w f p ls evs exp v vf data {HS : signer.Sound (enforce.enforcementPoint p)} :
  proxycmd.serve w0 false pf = (w, proxycmd.Started f p ls) ->
  proxycmd.fs w0 !! proxycmd.walPath pf = None -> proxycmd.d_records [] = ([], None) -> proxycmd.rejects_empty ->
  did.ResolveKey (proxycmd.dids_of (proxycmd.didsDir pf) (proxycmd.fs w)) (signer.DID (enforce.enforcementPoint p))
    = Ok (signer.Public (enforce.enforcementPoint p)) ->
  (forall key data, signer.Verify key data [] = false) ->
  Forall (honest.careful p) evs -> honest.valid_links (honest.presented evs) -> enforce.Export (honest.run p evs) = Ok exp ->
  pointed pf vf -> kept (proxycmd.fs w) (verifycmd.fs v) ->
  files.ReadFile (verifycmd.fs v) (s2b (verifycmd.exportPath vf)) = Ok data -> d_export data = Ok exp ->
  reports_pass v vf exp
  \/ honest.collision_in (honest.presented evs).
Proof.
  intros Hserve Hwal Hrec HE Hkey Hsig Hcare Hval Hexp Hpt HK Hread Hdec.
  destruct (serve_started _ _ _ _ _ _ Hserve) as (ep & sink & log & _ & Hb & Hfresh). specialize (Hfresh Hwal Hrec).
  pose proof (engine_key _ _ _ _ _ _ _ _ _ Hb Hfresh) as Hep. rewrite Hep in *.
  exact (built_export_verifies _ _ _ _ _ _ _ _ _ _ _ _ Hb Hfresh HE Hkey Hsig Hcare Hval Hexp Hpt HK Hread Hdec).
Qed.
End Whole.

(** ** A concrete path

    The deployment of [Proxycmd]: one consequential request, approved. *)
#[local] Existing Instance issuer.accepting.
#[local] Existing Instance issuer.padded_keys.
#[local] Existing Instance issuer.padded_laws.
#[local] Existing Instance proxycmd.printable.
#[local] Existing Instance proxycmd.in_order.
#[local] Existing Instance proxycmd.test_decoders.
#[local] Instance same_case : CaseTables := Build_CaseTables (fun r => r).

Definition whole : Type := proxycmd.world * option proxycmd.fileStatus * enforce.Proxy * list listeners.listener * enforce.Request * export.Export.
(** One routine request from the start of the proxy to the export of its log. *)
Definition composed (w0 : proxycmd.world) (f0 : proxycmd.flags) (pend : option proxycmd.pending) (now : GoTime.time) : option whole :=
  match proxycmd.serve w0 false f0 with
  | (w, proxycmd.Started f p ls) =>
      pd ← pend;
      match proxycmd.build pd (enforce.Tip p) with
      | Ok req =>
          match enforce.Export (honest.run p [honest.Attempt req now wal.DiskOK]) with
          | Ok exp => Some (w, f, p, ls, req, exp)
          | Err _ => None
          end
      | Err _ => None
      end
  | _ => None
  end.
Lemma composed_Some w0 f0 pend now w f p ls req exp :
  composed w0 f0 pend now = Some (w, f, p, ls, req, exp) ->
  proxycmd.serve w0 false f0 = (w, proxycmd.Started f p ls)
  /\ enforce.Export (honest.run p [honest.Attempt req now wal.DiskOK]) = Ok exp.
Proof.
  unfold composed. destruct (proxycmd.serve w0 false f0) as [w1 [e| |f1 p1 ls1]] eqn:Es; try discriminate.
  destruct pend as [pd|]; [|discriminate]. cbn [mbind option_bind].
  destruct (proxycmd.build pd (enforce.Tip p1)) as [req1|]; [|discriminate].
  destruct (enforce.Export _) as [exp1|] eqn:Ex; [|discriminate]. injection 1 as -> -> -> -> -> ->. by split.
Qed.
Definition test_whole : option whole :=
  composed proxycmd.test_world proxycmd.test_flags proxycmd.test_pending proxycmd.test_now.
Definition test_verifier : verifycmd.flags :=
  verifycmd.mkFlags "/export.json" "/srv" false "" true "never" [proxycmd.test_pair].
Definition test_env (w : proxycmd.world) : verifycmd.env :=
  verifycmd.mkEnv (<["/export.json"%string := s2b "export"]> (proxycmd.fs w)) "" false (fun _ => did.TransportError (New "refused")).
Definition consequential_here (p : enforce.Proxy) (a : types.Action) : bool :=
  match enforce.evaluate p a with (d, None) => types.Consequential d | _ => true end.
Definition test_ready (x : option whole) : bool :=
  match x with
  | Some (w, f, p, ls, req, exp) =>
      match did.ResolveKey (proxycmd.dids_of "/srv" (proxycmd.fs w)) (signer.DID (enforce.enforcementPoint p)) with
      | Ok k => bool_decide (k = signer.Public (enforce.enforcementPoint p)) | Err _ => false end
      && consequential_here p (enforce.Action req)
      && forallb (fun l => credential.valid_credential (chain.Credential_ l)) (honest.presented [honest.Attempt req proxycmd.test_now wal.DiskOK])
      && bool_decide (proxycmd.fs w !! "/export.json"%string = None)
      && forallb (fun e => types.Allowed (audit.Decision e)) (export.Entries exp) && (len (export.Entries exp) =? 1)
  | None => false
  end.
Lemma test_whole_ready : test_ready test_whole = true.
Proof. vm_compute. reflexivity. Qed.
Example no_record : proxycmd.fs proxycmd.test_world !! proxycmd.walPath proxycmd.test_flags = None.
Proof. vm_compute. reflexivity. Qed.
Lemma kept_insert f d : f !! "/export.json"%string = None -> kept f (<["/export.json"%string := d]> f).
Proof.
  intros Hn p x Hp _. destruct (decide (p = "/export.json"%string)) as [->|Hne]; [congruence|].
  unfold files.files in *. by rewrite lookup_insert_ne.
Qed.
Lemma pointed_here : pointed proxycmd.test_flags test_verifier.
Proof. constructor; try reflexivity; [vm_compute; discriminate|by right; right]. Qed.
Lemma no_empty_signature key data : signer.Verify key data [] = false.
Proof. destruct key as [k|c x y|]; [|by unfold signer.Verify; repeat case_match|done]. unfold signer.Verify. by repeat case_match. Qed.

Lemma served_export_verifies_witness :
  match test_whole with
  | Some (w, _, _, _, req, exp) =>
      (exists root res color,
        verifycmd.run (fun _ => Ok exp) proxycmd.d_document (fun _ => Err (New "?")) proxycmd.d_list (test_env w) test_verifier
          = verifycmd.Reported root exp res color
        /\ (verifycmd.verdict res).1 = "PASS"%string
        /\ verifycmd.exit_code (verifycmd.run (fun _ => Ok exp) proxycmd.d_document (fun _ => Err (New "?")) proxycmd.d_list (test_env w) test_verifier)
           = verifycmd.exitPass)
      \/ honest.collision_in (honest.presented [honest.Attempt req proxycmd.test_now wal.DiskOK])
  | None => False
  end.
Proof.
  pose proof test_whole_ready as R. destruct test_whole as [[[[[[w f] p] ls] req] exp]|] eqn:Es; [|discriminate R].
  unfold test_ready in R. apply andb_true_iff in R as [R _]. apply andb_true_iff in R as [R _]. apply andb_true_iff in R as [R Hfree].
  apply andb_true_iff in R as [R Hval]. apply andb_true_iff in R as [Hkey Hcons]. apply bool_decide_eq_true in Hfree.
  destruct (did.ResolveKey _ _) as [k|] eqn:Ek; [|discriminate Hkey]. apply bool_decide_eq_true in Hkey. subst k.
  apply composed_Some in Es as [Eserve Eexp].
  destruct (serve_started _ _ _ _ _ _ Eserve) as (ep & sink & log & Hg & Hb & Hfresh).
  destruct (built_engine _ _ _ _ _ _ _ _ _ Hb) as (_ & pol & _ & _ & Hnew).
  assert (Hep : enforce.enforcementPoint p = ep)
    by (destruct (honest.NewProxy_fresh _ _ _ _ _ _ _ Hnew (Hfresh no_record eq_refl)) as (id & _ & ->); reflexivity).
  assert (HS : signer.Sound (enforce.enforcementPoint p)) by (rewrite Hep; exact (keystore_sound proxycmd.test_world proxycmd.test_flags ep eq_refl Hg)).
  refine (served_export_verifies (fun _ => Ok exp) (fun _ => Err (New "?")) proxycmd.test_world proxycmd.test_flags w f p ls
    [honest.Attempt req proxycmd.test_now wal.DiskOK] exp (test_env w) test_verifier (s2b "export")
    Eserve no_record eq_refl proxycmd.test_rejects Ek no_empty_signature _ _ Eexp pointed_here (kept_insert _ _ Hfree) _ eq_refl).
  - constructor; [|constructor]. right. intros d Hd. unfold consequential_here in Hcons. rewrite Hd in Hcons. exact Hcons.
  - apply Forall_forall. intros l Hl. rewrite forallb_forall in Hval. apply Hval, list_elem_of_In, Hl.
  - change (s2b (verifycmd.exportPath test_verifier)) with (s2b "/export.json"). 
    change "/export.json"%string with (b2s (s2b "/export.json")). apply files.ReadFile_eq.
Defined.
End endtoend.
