(* ===== verification/Runcmd.v ===== *)
(** cmd/proxy (main.go): the command itself - its dispatch, the batch command
    [run] from its flags to its exit code, and how [serve] ends.

    Module [runcmd] composes the operations of [Proxycmd] the way cmdRun does.
    Others may rewrite files while a batch runs: a request meets the files, the
    clock and the disk of its own moment.  The theorems say what a run leaves and
    that the export it writes is one kessa verify passes. *)
From S2P Require Import Prelude GoFmt GoTime GoCrypto GoPath GoJson GoJsonText Webhost GoNet Config Types Signer Keystore Did Status Policy Macaroon.
From S2P Require Import Credential Chain AuditLog Signerd Export Texts Issuer Verifier Auditsink Wal Enforce Ingress Listeners Flags Proxycmd Honest Verifycmd Version EndToEnd.

Module runcmd.

Definition exitOK : Z := 0.
Definition exitUsage : Z := 2.
Definition sinkFlushTimeout : Z := 2 * 1000000000.

(** ** run *)

Record flags := mkFlags
  { reqPath : string; policyPath : string; didsDir : string; epDID : string; ksPath : string; out : string;
    nowStr : string; auditLog : string; walPath : string; statuses : list string }.

Definition statusFlag_Set (s : list string) (v : string) : list string := s ++ [v].
Fixpoint verifyHint (s : list string) : string :=
  match s with [] => "" | spec :: s => " --status " +:+ dq spec +:+ verifyHint s end.

Definition failure_error (f : enforce.failure) : error :=
  match f with enforce.Unattributable u => enforce.UnattributableError_Error u | enforce.Failure e => e end.

Section Run.
Context {CR : Crypto} {UT : UnicodeTables} {SK : signer.SeedKeys} {MO : proxycmd.MapOrder} {DE : proxycmd.Decoders}.

(** The line printed for a request of the batch. *)
Definition report (i : Z) (pd : proxycmd.pending) (r : result (enforce.Result + enforce.failure)) : string :=
  match r with
  | Err e => Sprintf "req %d  REJECTED  %v" [AInt i; AErr e]
  | Ok (inr f) => Sprintf "req %d  REJECTED  %v" [AInt i; AErr (failure_error f)]
  | Ok (inl res) =>
      Sprintf "req %d  %s  %s -> %s  (%s)"
        [AInt i; AStr (proxycmd.verb (types.Allowed (enforce.Decision res))); AStr (types.Type_ (proxycmd.p_action pd));
         AStr (types.Target (proxycmd.p_action pd)); AStr (types.Reason (enforce.Decision res))]
  end.
Fixpoint reports (i : Z) (pend : list proxycmd.pending) (rs : list (result (enforce.Result + enforce.failure))) : list string :=
  match pend, rs with
  | pd :: pend, r :: rs => report i pd r :: reports (i + 1) pend rs
  | _, _ => []
  end.

(** What is checked before anything is created. *)
Definition preflight (fl : flags) : result (option time) :=
  check! reject_if (reqPath fl =?s "") (New "--requests is required");
  check! reject_if (epDID fl =?s "") (New "--enforcement-point is required");
  check! reject_if (ksPath fl =?s "") (New "--keystore is required");
  proxycmd.parseNow (nowStr fl).

(** What a run comes to: refused, or run over its requests, with the lines it
    printed and what became of the export. *)
Record ran := mkRan
  { r_status : option proxycmd.fileStatus; r_before : enforce.Proxy; r_after : enforce.Proxy; r_pending : list proxycmd.pending;
    r_answers : list (result (enforce.Result + enforce.failure)); r_lines : list string; r_written : files.files * result unit }.
Inductive outcome := Refused (e : error) | Ran (r : ran).

(** The clock of a request: the fixed one, if there is one. *)
Definition clocked (now : option time) (m : proxycmd.moment) : proxycmd.moment :=
  proxycmd.mkMoment (proxycmd.m_files m) (default (proxycmd.m_now m) now) (proxycmd.m_disk m).

(** [pace] is the moment each request meets; the export is written over the files
    [ending], and [a] is the disk's answer. *)
Definition cmdRun (w : proxycmd.world) (fl : flags) (pace : nat -> proxycmd.moment) (ending : files.files) (a : files.answer)
  : proxycmd.world * outcome :=
  match preflight fl with
  | Err e => (w, Refused e)
  | Ok now =>
      let '(w, sink) := proxycmd.buildSink w (auditLog fl) in
      match sink with
      | Err e => (w, Refused e)
      | Ok sink =>
          let '(w, log) := proxycmd.buildWAL w (walPath fl) in
          match log with
          | Err e => (w, Refused e)
          | Ok log =>
              match (let! k := proxycmd.keystoreSigner w (ksPath fl) (epDID fl) in
                     let! px := proxycmd.buildProxy w (policyPath fl) (didsDir fl) k.1 (statuses fl) sink log in
                     let! pend := proxycmd.loadRequests w (reqPath fl) k.2 in
                     Ok (px, pend)) with
              | Err e => (w, Refused e)
              | Ok (f, p, pend) =>
                  let '(p', answers) := proxycmd.run_batch (didsDir fl) f p (imap (fun i pd => (pd, clocked now (pace i))) pend) in
                  let written := proxycmd.writeExport ending p' (out fl) a in
                  let done :=
                    match written.2 with
                    | Ok _ => [""; Sprintf "wrote %s (%d entries)" [AStr (out fl); AInt (len (enforce.Entries p'))]; "verify it:";
                               "  kessa verify --export " +:+ out fl +:+ " --dids " +:+ didsDir fl +:+ verifyHint (statuses fl)]%string
                    | Err _ => []
                    end in
                  (w, Ran (mkRan f p p' pend answers (reports 0 pend answers ++ done) written))
              end
          end
      end
  end.
Definition exit_code (o : outcome) : Z :=
  match o with Ran r => if is_ok (r_written r).2 then exitOK else exitUsage | Refused _ => exitUsage end.

(** ** How serve ends

    Each listener answers on one channel; the first failure to arrive ends the
    command, which then writes the export when it was asked to. *)
Definition serveAll (arrivals : list (listeners.listener * error)) : option error :=
  match arrivals with
  | [] => None
  | (l, e) :: _ => Some (Errorf "%s listener: %w" [AStr (listeners.name l); AErr e])
  end.
Definition serve_ends (fs : files.files) (p : enforce.Proxy) (exportOut : string) (arrivals : list (listeners.listener * error)) (a : files.answer)
  : option (files.files * error * Z) :=
  e ← serveAll arrivals;
  Some (if exportOut =?s "" then fs else (proxycmd.writeExport fs p exportOut a).1, e, exitUsage).

(** ** The command line *)
Inductive dispatch := PrintVersion (line : string) | Usage (line : string) | CmdRun (args : list string) | CmdServe (args : list string).
Definition run (b : version.Build) (args : list string) : dispatch :=
  if version.Requested args then PrintVersion (version.String_ b "kessa-proxy")
  else
    match args with
    | [] => Usage "usage: kessa-proxy <run|serve> [flags]
       kessa-proxy --version"
    | cmd :: args =>
        if cmd =?s "run" then CmdRun args
        else if cmd =?s "serve" then CmdServe args
        else Usage (Sprintf "kessa-proxy: unknown command %q (want run or serve)" [AStr cmd])
    end.
End Run.

(** ** What a run leaves *)
Section Runs.
Context {CR : Crypto} {UT : UnicodeTables} {CT : CaseTables} {SK : signer.SeedKeys} {MO : proxycmd.MapOrder} {DE : proxycmd.Decoders}.

Lemma Handle_config p req now d : honest.same_config p (enforce.Handle p req now d).1.
Proof.
  pose proof (enforce.Handle_cases p req now d) as H. destruct (enforce.Handle p req now d) as [p' [r|f]]; cbn [fst].
  - destruct H as (ch & p1 & _ & _ & _ & Hd & ->). apply honest.decided_config in Hd as [Hc _].
    eapply honest.same_config_trans; [exact Hc|]. unfold enforce.forward. by destruct (enforce.sink p1).
  - destruct H as (w & _ & [->|(u & _ & ->)]); [done|]. unfold enforce.forwardUnattributable. by destruct (enforce.sink _).
Qed.

(** A proxy that reads the files [fs] as they are. *)
Definition reads_files (dir : string) (f : option proxycmd.fileStatus) (fs : files.files) (p : enforce.Proxy) : Prop :=
  proxycmd.on_files dir f fs p = p.
Lemma reads_config dir f fs p q : honest.same_config p q -> reads_files dir f fs p -> reads_files dir f fs q.
Proof.
  intros (_ & _ & _ & _ & Hd & Hs). unfold reads_files, proxycmd.on_files. destruct p, q. cbn in *. subst. intros H. injection H as H1 H2.
  by rewrite H1, H2.
Qed.

(** The requests a batch builds, each for the slot the proxy then offers. *)
Definition built_from (pd : proxycmd.pending) (ev : honest.event) : Prop :=
  match ev with
  | honest.Attempt req _ _ => exists tip, proxycmd.build pd tip = Ok req
  | _ => False
  end.

(** A batch over files that stay as they are is a run of the proxy over the
    requests it builds. *)
Lemma batch_is_run dir f fs p batch :
  reads_files dir f fs p -> Forall (fun pm => proxycmd.m_files pm.2 = fs) batch ->
  exists evs, (proxycmd.run_batch dir f p batch).1 = honest.run p evs
    /\ Forall (fun ev => exists pm, pm ∈ batch /\ built_from pm.1 ev) evs.
Proof.
  revert p. induction batch as [|[pd m] batch IH]; intros p Hr Hm; cbn [proxycmd.run_batch]; [exists []; by split|].
  apply Forall_cons in Hm as [Hm Hms]. cbn [snd] in Hm. rewrite Hm, Hr.
  assert (Hw : forall evs, Forall (fun ev => exists pm, pm ∈ batch /\ built_from pm.1 ev) evs ->
               Forall (fun ev => exists pm, pm ∈ (pd, m) :: batch /\ built_from pm.1 ev) evs).
  { intros evs H. eapply Forall_impl; [exact H|]. intros ev (pm & Hin & Hb). exists pm. split; [by right|done]. }
  destruct (proxycmd.build pd (enforce.Tip p)) as [req|e] eqn:Eb.
  - pose proof (Handle_config p req (proxycmd.m_now m) (proxycmd.m_disk m)) as Hc.
    destruct (enforce.Handle p req _ _) as [p1 r] eqn:Eh. cbn [fst] in Hc.
    destruct (IH p1 (reads_config _ _ _ _ _ Hc Hr) Hms) as (evs & He & Hf).
    destruct (proxycmd.run_batch dir f p1 batch) as [p' out]. cbn [fst] in *.
    exists (honest.Attempt req (proxycmd.m_now m) (proxycmd.m_disk m) :: evs). split.
    + unfold honest.run in *. cbn [foldl honest.step]. by rewrite Eh.
    + constructor; [|by apply Hw]. exists (pd, m). split; [by left|]. by exists (enforce.Tip p).
  - destruct (IH p Hr Hms) as (evs & He & Hf). destruct (proxycmd.run_batch dir f p batch) as [p' out]. cbn [fst] in *.
    exists evs. by split; [|apply Hw].
Qed.

(** The hops the requests of a batch name. *)
Definition named (pend : list proxycmd.pending) : list chain.Link := concat (map (fun pd => elems (chain.Links (proxycmd.p_chain pd))) pend).
(** A request asks for an approval only when the policy calls its action
    consequential, and presents valid UTF-8. *)
Definition asks_well (p : enforce.Proxy) (pd : proxycmd.pending) : Prop :=
  proxycmd.p_approver pd = None
  \/ forall d, enforce.evaluate p (proxycmd.p_action pd) = (d, None) -> types.Consequential d = true.

Lemma built_careful p pd ev : built_from pd ev -> asks_well p pd -> honest.careful p ev.
Proof.
  destruct ev as [req now d|n|n]; [|done..]. intros [tip Hb] Hw. pose proof (proxycmd.build_Ok _ _ _ Hb) as (_ & Ha & _).
  unfold honest.careful. rewrite Ha. destruct Hw as [Hn|Hc]; [left|by right].
  unfold proxycmd.build in Hb. rewrite Hn in Hb. gosimp Hb. by apply Ok_inj in Hb as <-.
Qed.
Lemma built_named pd ev : built_from pd ev -> honest.presented_by ev = elems (chain.Links (proxycmd.p_chain pd)).
Proof.
  destruct ev as [req now d|n|n]; [|done..]. intros [tip Hb]. apply proxycmd.build_Ok in Hb as (Hc & _).
  unfold honest.presented_by. by rewrite Hc.
Qed.
Lemma presented_named pend evs :
  Forall (fun ev => exists pd, pd ∈ pend /\ built_from pd ev) evs -> forall l, l ∈ honest.presented evs -> l ∈ named pend.
Proof.
  intros Hf l. unfold honest.presented, named. rewrite !list_elem_of_In, !in_concat. intros (ls & Hin & Hl).
  apply in_map_iff in Hin as (ev & <- & Hev). rewrite List.Forall_forall in Hf. destruct (Hf _ Hev) as (pd & Hpd & Hb).
  rewrite (built_named _ _ Hb) in Hl. exists (elems (chain.Links (proxycmd.p_chain pd))). split; [|done].
  apply (in_map (fun pd => elems (chain.Links (proxycmd.p_chain pd)))). by apply list_elem_of_In.
Qed.
Lemma collision_in_mono ls ls' : (forall l : chain.Link, l ∈ ls -> l ∈ ls') -> honest.collision_in ls -> honest.collision_in ls'.
Proof. intros H (l1 & l2 & b1 & b2 & H1 & H2 & Hr). exists l1, l2, b1, b2. split_and!; [by apply H..|apply Hr|apply Hr|apply Hr]. Qed.

(** What a run that was not refused has been through. *)
Record through (w0 : proxycmd.world) (fl : flags) (pace : nat -> proxycmd.moment) (ending : files.files) (a : files.answer)
  (w : proxycmd.world) (r : ran) (now : option time) (k : signer.Signer * keystore.Keystore) (sink : bool) (log : option wal.WAL) : Prop := mkThrough
  { t_preflight : preflight fl = Ok now;
    t_keys : proxycmd.keystoreSigner w (ksPath fl) (epDID fl) = Ok k;
    t_proxy : proxycmd.buildProxy w (policyPath fl) (didsDir fl) k.1 (statuses fl) sink log = Ok (r_status r, r_before r);
    t_requests : proxycmd.loadRequests w (reqPath fl) k.2 = Ok (r_pending r);
    t_batch : proxycmd.run_batch (didsDir fl) (r_status r) (r_before r) (imap (fun i pd => (pd, clocked now (pace i))) (r_pending r))
              = (r_after r, r_answers r);
    t_written : r_written r = proxycmd.writeExport ending (r_after r) (out fl) a;
    t_fresh : proxycmd.fs w0 !! walPath fl = None -> proxycmd.d_records [] = ([], None) -> honest.fresh log }.

Lemma cmdRun_through w0 fl pace ending a w r :
  cmdRun w0 fl pace ending a = (w, Ran r) -> exists now k sink log, through w0 fl pace ending a w r now k sink log.
Proof.
  unfold cmdRun. destruct (preflight fl) as [now|] eqn:E0; [|done].
  destruct (proxycmd.buildSink w0 (auditLog fl)) as [w1 [sink|]] eqn:E1; [|done].
  destruct (proxycmd.buildWAL w1 (walPath fl)) as [w2 [log|]] eqn:E2; [|done].
  destruct (proxycmd.keystoreSigner w2 _ _) as [k|] eqn:E3; cbn [rbind]; [|done].
  destruct (proxycmd.buildProxy w2 _ _ _ _ _ _) as [[f p]|] eqn:E4; cbn [rbind]; [|done].
  destruct (proxycmd.loadRequests w2 _ _) as [pend|] eqn:E5; cbn [rbind]; [|done].
  destruct (proxycmd.run_batch _ _ _ _) as [p' answers] eqn:E6. intros [= <- <-]. exists now, k, sink, log.
  constructor; [done..| |exact (endtoend.opened_fresh _ _ _ _ _ _ _ E1 E2)]. done.
Qed.

(** A run leaves the files as they were but for an audit log and a durable log
    that were not there: those are created, empty. *)
Lemma cmdRun_grown w0 fl pace ending a : proxycmd.grown (proxycmd.fs w0) (proxycmd.fs (cmdRun w0 fl pace ending a).1).
Proof.
  unfold cmdRun. destruct (preflight fl) as [now|]; [|apply proxycmd.grown_refl].
  pose proof (proxycmd.buildSink_grown w0 (auditLog fl)) as [G1 _].
  destruct (proxycmd.buildSink w0 (auditLog fl)) as [w1 [sink|]]; [|exact G1].
  pose proof (proxycmd.buildWAL_grown w1 (walPath fl)) as [G2 _]. pose proof (fun f => proxycmd.grown_trans _ _ f G1) as G.
  destruct (proxycmd.buildWAL w1 (walPath fl)) as [w2 [log|]]; cbn [fst] in *; [|by apply G].
  destruct (rbind _ _) as [[[f p] pend]|]; [destruct (proxycmd.run_batch _ _ _ _)|]; by apply G.
Qed.
End Runs.

(** ** From a batch to its verdict *)
Section Verdict.
Context {CR : Crypto} {UT : UnicodeTables} {CT : CaseTables} {SK : signer.SeedKeys} {SL : signer.SeedLaws} {MO : proxycmd.MapOrder} {DE : proxycmd.Decoders}.
Context (d_export : bytes -> result export.Export) (d_fetched : bytes -> result did.Document).

(** The verifier's flags in the command a run prints. *)
Definition hinted (fl : flags) (quiet : bool) (color : string) : verifycmd.flags :=
  verifycmd.mkFlags (out fl) (didsDir fl) false "" quiet color (statuses fl).
(** The flags of a proxy over the same files. *)
Definition as_serve (fl : flags) : proxycmd.flags :=
  proxycmd.mkFlags (policyPath fl) (didsDir fl) (epDID fl) (ksPath fl) "" "" "" (nowStr fl) (auditLog fl) (walPath fl) false (statuses fl).

Lemma started_reads w pp dir ep sts sink log f p :
  proxycmd.buildProxy w pp dir ep sts sink log = Ok (f, p) -> honest.fresh log -> reads_files dir f (proxycmd.fs w) p.
Proof.
  intros (_ & pol & _ & _ & Hn)%endtoend.built_engine Hf. by destruct (honest.NewProxy_fresh _ _ _ _ _ _ _ Hn Hf) as (id & _ & ->).
Qed.

(** What a written export leaves on the disk. *)
Lemma writeExport_Ok f p path a r :
  proxycmd.writeExport f p path a = r -> r.2 = Ok tt ->
  exists exp data, enforce.Export p = Ok exp /\ texts.Export_Marshal exp = Ok data /\ r.1 = <[path := data ++ [Byte.x0a]]> f.
Proof.
  unfold proxycmd.writeExport. intros <-. destruct (enforce.Export p) as [exp|] eqn:E1; cbn [wrap rbind]; [|done].
  destruct (texts.Export_Marshal exp) as [data|] eqn:E2; cbn [wrap rbind]; [|done]. destruct a as [|e|n e]; [|done..].
  intros _. by exists exp, data.
Qed.

(** C2: a batch and its verdict.  kessa-proxy run exits with 0, with a durable log
    that was not there before and no file rewritten meanwhile.  The command it
    prints - kessa verify, on the export it wrote and the same documents and
    lists - then reads that export, prints PASS and exits with 0; provided the
    enforcement point's published key is its signing key, presented strings are
    valid UTF-8, and the batch names an approver only where the policy calls the
    action consequential; or two credentials of the batch exhibit a SHA-256
    collision. *)
Theorem run_export_verifies w0 fl pace a w r v quiet color :
  cmdRun w0 fl pace (proxycmd.fs w) a = (w, Ran r) -> exit_code (Ran r) = exitOK ->
  (forall i, proxycmd.m_files (pace i) = proxycmd.fs w) ->
  proxycmd.fs w0 !! walPath fl = None -> proxycmd.d_records [] = ([], None) -> proxycmd.rejects_empty ->
  out fl <> ""%string -> proxycmd.fs w !! out fl = None -> verifycmd.fs v = (r_written r).1 ->
  color = "auto"%string \/ color = "always"%string \/ color = "never"%string ->
  did.ResolveKey (proxycmd.dids_of (didsDir fl) (proxycmd.fs w)) (epDID fl) = Ok (signer.Public (enforce.enforcementPoint (r_before r))) ->
  (forall key data, signer.Verify key data [] = false) ->
  Forall (asks_well (r_before r)) (r_pending r) -> honest.valid_links (named (r_pending r)) ->
  (forall exp data, enforce.Export (r_after r) = Ok exp -> texts.Export_Marshal exp = Ok data -> d_export (data ++ [Byte.x0a]) = Ok exp) ->
  (exists exp, enforce.Export (r_after r) = Ok exp /\ endtoend.reports_pass d_export d_fetched v (hinted fl quiet color) exp)
  \/ honest.collision_in (named (r_pending r)).
Proof.
  intros Hrun Hexit Hpace Hwal Hrec HE Hout Hfree Hv Hcol Hkey Hsig Hask Hval Hread.
  destruct (cmdRun_through _ _ _ _ _ _ _ Hrun) as (now & k & sink & log & [_ T1 T2 _ T4 T5 T6]). specialize (T6 Hwal Hrec).
  unfold proxycmd.keystoreSigner in T1. gosimp T1. apply Ok_inj in T1. subst k. cbn [fst] in T2.
  destruct (keystore.Signer_Ok _ _ _ Ha0) as (Hdid & HS & _). rewrite <- Hdid in Hkey.
  rewrite (endtoend.engine_key _ _ _ _ _ _ _ _ _ T2 T6) in Hkey.
  destruct (batch_is_run (didsDir fl) (r_status r) (proxycmd.fs w) (r_before r) (imap (fun i pd => (pd, clocked now (pace i))) (r_pending r)) (started_reads _ _ _ _ _ _ _ _ _ T2 T6))
    as (evs & He & Hf); [|rewrite T4 in He; cbn [fst] in He].
  { apply Forall_forall. intros [pd m]. rewrite elem_of_lookup_imap. intros (i & x & [= -> ->] & _). apply Hpace. }
  assert (Hf' : Forall (fun ev => exists pd, pd ∈ r_pending r /\ built_from pd ev) evs).
  { eapply Forall_impl; [exact Hf|]. intros ev ([pd m] & Hin & Hb). exists pd. split; [|done].
    apply elem_of_lookup_imap in Hin as (i & x & [= -> ->] & Hl). by eapply list_elem_of_lookup_2. }
  pose proof (presented_named _ _ Hf') as Hsub.
  destruct (r_written r) as [fs' res] eqn:Ew. cbn [fst snd exit_code] in *. unfold exit_code in Hexit. rewrite Ew in Hexit. cbn [snd] in Hexit.
  destruct res as [[]|]; [|done].
  destruct (writeExport_Ok _ _ _ _ _ (eq_sym T5) eq_refl) as (exp & data & Hexp & Hm & Hfs). cbn [fst] in Hfs.
  destruct (endtoend.built_export_verifies d_export d_fetched w (as_serve fl) a1 sink log (r_status r) (r_before r) evs exp v (hinted fl quiet color) (data ++ [Byte.x0a])
             T2 T6 HE Hkey Hsig) as [Hp|Hc].
  - eapply Forall_impl; [exact Hf'|]. intros ev (pd & Hin & Hb). eapply built_careful; [exact Hb|]. rewrite Forall_forall in Hask. by apply Hask.
  - apply Forall_forall. intros l Hl. unfold honest.valid_links in Hval. rewrite Forall_forall in Hval. by apply Hval, Hsub.
  - by rewrite <- He.
  - by constructor.
  - rewrite Hv, Hfs. intros x d Hx _. destruct (decide (x = out fl)) as [->|Hne]; [cbn in Hx; congruence|].
    unfold files.files in *. by rewrite lookup_insert_ne.
  - rewrite Hv, Hfs. cbn [verifycmd.exportPath hinted]. unfold files.ReadFile. rewrite b2s_s2b. unfold files.files in *. by rewrite lookup_insert_eq.
  - by apply Hread.
  - left. by exists exp.
  - right. by eapply collision_in_mono.
Qed.
End Verdict.

(** The files a run that opens both its logs leaves. *)
Lemma cmdRun_world {CR : Crypto} {UT : UnicodeTables} {SK : signer.SeedKeys} {MO : proxycmd.MapOrder} {DE : proxycmd.Decoders} w0 fl pace ending a w1 sink w2 log :
  is_ok (preflight fl) = true -> proxycmd.buildSink w0 (auditLog fl) = (w1, Ok sink) -> proxycmd.buildWAL w1 (walPath fl) = (w2, Ok log) ->
  (cmdRun w0 fl pace ending a).1 = w2.
Proof.
  unfold cmdRun. destruct (preflight fl); [|done]. intros _ -> ->.
  destruct (rbind _ _) as [[[f p] pend]|]; [by destruct (proxycmd.run_batch _ _ _ _)|done].
Qed.

(** ** A concrete batch

    The deployment of [Proxycmd]: one consequential request, approved. *)
#[local] Existing Instance issuer.accepting.
#[local] Existing Instance issuer.padded_keys.
#[local] Existing Instance issuer.padded_laws.
#[local] Existing Instance proxycmd.printable.
#[local] Existing Instance proxycmd.in_order.
#[local] Existing Instance proxycmd.test_decoders.
#[local] Existing Instance endtoend.same_case.

Definition run_flags : flags :=
  mkFlags "/requests.json" "/policy.json" "/srv" chain.org "/keys.json" "/export.json" "" "/audit.jsonl" "/wal.jsonl" [proxycmd.test_pair].
Definition run_opened : proxycmd.world * result (option wal.WAL) :=
  proxycmd.buildWAL (proxycmd.buildSink proxycmd.test_world "/audit.jsonl").1 "/wal.jsonl".
Definition run_pace (_ : nat) : proxycmd.moment := proxycmd.mkMoment (proxycmd.fs run_opened.1) proxycmd.test_now wal.DiskOK.
Definition test_cmd : proxycmd.world * outcome := cmdRun proxycmd.test_world run_flags run_pace (proxycmd.fs run_opened.1) files.Done.
Definition test_export (o : outcome) : option export.Export :=
  match o with
  | Ran r => match enforce.Export (r_after r) with Ok exp => Some exp | Err _ => None end
  | Refused _ => None
  end.
Definition run_ready (o : outcome) : bool :=
  match o with
  | Ran r =>
      is_ok (r_written r).2 && is_ok (enforce.Export (r_after r))
      && match did.ResolveKey (proxycmd.dids_of "/srv" (proxycmd.fs run_opened.1)) chain.org with
         | Ok k => bool_decide (k = signer.Public (enforce.enforcementPoint (r_before r))) | Err _ => false end
      && forallb (fun pd => endtoend.consequential_here (r_before r) (proxycmd.p_action pd)) (r_pending r)
      && forallb (fun l => credential.valid_credential (chain.Credential_ l)) (named (r_pending r))
      && bool_decide (proxycmd.fs run_opened.1 !! "/export.json"%string = None) && (len (r_pending r) =? 1)
  | Refused _ => false
  end.
Lemma test_run_ready : run_ready test_cmd.2 = true.
Proof. vm_compute. reflexivity. Qed.
Lemma run_world : test_cmd.1 = run_opened.1.
Proof.
  refine (cmdRun_world proxycmd.test_world run_flags run_pace (proxycmd.fs run_opened.1) files.Done (proxycmd.buildSink proxycmd.test_world "/audit.jsonl").1 true run_opened.1
            match run_opened.2 with Ok l => l | Err _ => None end eq_refl _ _); [reflexivity|].
  cbn [walPath run_flags]. change (run_opened = (run_opened.1, Ok match run_opened.2 with Ok l => l | Err _ => None end)).
  assert (E : is_ok run_opened.2 = true) by (vm_compute; reflexivity). destruct run_opened as [w [l|e]]; [reflexivity|discriminate E].
Qed.
Lemma run_no_record : proxycmd.fs proxycmd.test_world !! walPath run_flags = None.
Proof. vm_compute. reflexivity. Qed.

Lemma run_export_verifies_witness :
  match test_cmd.2 with
  | Ran r =>
      forall w2, let exp := enforce.Export (r_after r) in
      w2 = verifycmd.mkEnv (r_written r).1 "" false (fun _ => did.TransportError (New "refused")) ->
      (exists e, exp = Ok e /\ endtoend.reports_pass (fun _ => exp) (fun _ => Err (New "?")) w2 (hinted run_flags true "never") e)
      \/ honest.collision_in (named (r_pending r))
  | Refused _ => False
  end.
Proof.
  pose proof test_run_ready as R. pose proof run_world as W. destruct test_cmd as [w [e|r]] eqn:Ec; [discriminate R|]. cbn [fst snd] in *.
  unfold run_ready in R. apply andb_true_iff in R as [R _]. apply andb_true_iff in R as [R Hfree]. apply andb_true_iff in R as [R Hval].
  apply andb_true_iff in R as [R Hcons]. apply andb_true_iff in R as [R Hkey]. apply andb_true_iff in R as [Hw Hexp].
  apply bool_decide_eq_true in Hfree. subst w. intros v Hv.
  destruct (did.ResolveKey _ _) as [k|] eqn:Ek; [|discriminate Hkey]. apply bool_decide_eq_true in Hkey. subst k.
  refine (run_export_verifies (fun _ => enforce.Export (r_after r)) (fun _ => Err (New "?")) proxycmd.test_world run_flags run_pace files.Done run_opened.1 r v true "never"
    Ec _ (fun _ => eq_refl) run_no_record eq_refl proxycmd.test_rejects _ Hfree _ _ Ek endtoend.no_empty_signature _ _ _).
  - unfold exit_code. rewrite Hw. reflexivity.
  - discriminate.
  - rewrite Hv. reflexivity.
  - right. right. reflexivity.
  - apply Forall_forall. intros pd Hpd. right. intros d Hd. rewrite forallb_forall in Hcons. apply list_elem_of_In, Hcons in Hpd.
    unfold endtoend.consequential_here in Hpd. rewrite Hd in Hpd. exact Hpd.
  - apply Forall_forall. intros l Hl. rewrite forallb_forall in Hval. apply Hval, list_elem_of_In, Hl.
  - intros e data He _. exact He.
Defined.

(** What that run prints. *)
Example run_prints :
  match test_cmd.2 with
  | Ran r =>
      r_lines r = ["req 0  ALLOW  transfer -> acct  (gated)"; ""; "wrote /export.json (1 entries)"; "verify it:";
                   "  kessa verify --export /export.json --dids /srv --status " +:+ dq proxycmd.test_pair]%string
  | Refused _ => False
  end.
Proof. vm_compute. reflexivity. Qed.
End runcmd.
