(* ===== verification/Daemon.v ===== *)
(** cmd/issuer (daemon.go, config.go): how the signing daemon is put together:
    its configuration, the keys it brokers from a keystore and from the enrollment
    mapping, and the socket it listens on. *)
From S2P Require Import Prelude GoFmt GoTime GoCrypto GoPath GoJson Webhost Config Types Signer Keystore Did Status Policy Macaroon.
From S2P Require Import Credential Chain AuditLog Signerd Export Texts Enroll.

Module daemon.

(** ** The configuration file (config.go) *)

Record DaemonConfig := mkConfig { Sock : string; Keystore_ : string; Mapping_ : string; AttestationKeys : list types.DID }.
Definition fld (name json flag : string) (t : config.ty) (fs : config.fields) : config.fields :=
  config.FCons name json flag true false t fs.
Definition DaemonConfig_type : config.ty :=
  config.TStruct
    (fld "Comment" "comment,omitempty" "" config.TScalar
    (fld "Sock" "sock" "sock" config.TScalar
    (fld "Keystore" "keystore,omitempty" "keystore" config.TScalar
    (fld "Mapping" "mapping,omitempty" "mapping" config.TScalar
    (fld "AttestationKeys" "attestation_keys,omitempty" "attestation-key" (config.TSlice config.TScalar) config.FNil))))).
Definition daemonSchemaFlags : gset string := config.FlagNames DaemonConfig_type.
Definition daemonConflictingFlags (set_ : list string) : list string := config.Conflicting set_ daemonSchemaFlags.

Definition blank (s : string) : bool := TrimSpace s =?s "".
Definition validate (c : DaemonConfig) : result unit :=
  check! reject_if (blank (Sock c))
    (New "sock is required: name the Unix socket this daemon listens on. It has no default here because the flag's default is derived from the environment, and a proxy's broker_socket names a literal path that has to match it");
  check! reject_if (blank (Keystore_ c) && blank (Mapping_ c))
    (New "one of keystore or mapping is required: a daemon with no key source has nothing to broker");
  check! reject_if ((0 <? len (AttestationKeys c)) && blank (Keystore_ c))
    (New "attestation_keys names DIDs from keystore, which is not set");
  check_all (fun d => reject_if (blank d) (New "attestation_keys contains an empty DID")) (AttestationKeys c).

(** [loadDaemonConfig]; [None] when the strict reading does not return. *)
Definition loadDaemonConfig {FT : config.Folding} (tokens : bytes -> config.stream * error) (decode : bytes -> result (DaemonConfig * bool))
  (fuel : nat) (path : string) (data : result bytes) : option (result DaemonConfig) :=
  match config.Load (config.TPointer DaemonConfig_type) tokens decode fuel path data with
  | None => None
  | Some r =>
      Some (let! cfg := r in
            check! wrap (fun e => Errorf "config %q: %w" [AStr path; AErr e]) (validate cfg);
            Ok cfg)
  end.

(** [loadJSON] (publish.go), as it reads a keystore: a map has no names to
    check, and its keys still may not repeat. *)
Definition loadJSON_Keystore {FT : config.Folding} (tokens : bytes -> config.stream * error)
  (decode : bytes -> result (keystore.Keystore * bool)) (fuel : nat) (path : string) (data : result bytes)
  : option (result keystore.Keystore) :=
  match data with
  | Err e => Some (Err (Errorf "read %q: %w" [AStr path; AErr e]))
  | Ok data =>
      match config.DecodeStrict (config.TPointer (config.TMap config.TScalar)) tokens decode fuel data with
      | None => None
      | Some r => Some (wrap (fun e => Errorf "parse %q: %w" [AStr path; AErr e]) r)
      end
  end.

(** ** The keys (daemon.go) *)

(** The repeatable [--attestation-key]. *)
Definition didList_Set (l : list types.DID) (v : string) : result (list types.DID) :=
  if v =?s "" then Err (New "empty DID") else Ok (l ++ [v]).
Definition didList_set (l : list types.DID) : gset string := list_to_set l.

Section Keys.
Context {SK : signer.SeedKeys}.
(** [enclave.Load]: the key under a tag of the Secure Enclave. *)
Context (enclave_Load : types.DID -> bytes -> result signer.Signer).

Fixpoint keystore_signers (ks : keystore.Keystore) (attested : gset string) (ds : list types.DID) : result (list signerd.HeldKey) :=
  match ds with
  | [] => Ok []
  | d :: ds =>
      let! sg := keystore.Signer ks d in
      let policy := if bool_decide (d ∈ attested) then signerd.Attestation else signerd.Routine in
      let! rest := keystore_signers ks attested ds in
      Ok (signerd.mkHeldKey (Some (signerd.mkHeld sg None)) policy :: rest)
  end.
Definition keystoreKeys (ks : keystore.Keystore) (attest : list types.DID) : result (list signerd.HeldKey) :=
  check! check_all (fun d => reject_if (bool_decide (ks !! d = None)) (Errorf "--attestation-key %q is not in the keystore" [AStr d])) attest;
  keystore_signers ks (didList_set attest) (keystore.Principals ks).

(** The identities of the mapping, in order (internal/enroll, mapping.go). *)
Definition Identities (m : enroll.Mapping) : list string := merge_sort String.le (map_to_list (enroll.Employees m)).*1.
Definition records (m : enroll.Mapping) : list enroll.Credential :=
  concat (map (fun id => match enroll.Employees m !! id with Some e => enroll.Credentials e | None => [] end) (Identities m)).

(** One enrolled key: skipped when it is revoked. *)
Fixpoint enrolled_keys (cs : list enroll.Credential) : result (list signerd.HeldKey) :=
  match cs with
  | [] => Ok []
  | c :: cs =>
      if enroll.Revoked c then enrolled_keys cs
      else if enroll.KeyBackend c =?s enroll.backendSecureEnclave then
        let! sg := wrap (fun e => Errorf "load enrolled key %q (tag %q): %w" [AStr (enroll.DID c); AStr (enroll.KeyTag c); AErr e])
                     (enclave_Load (enroll.DID c) (s2b (enroll.KeyTag c))) in
        let! rest := enrolled_keys cs in
        Ok (signerd.mkHeldKey (Some (signerd.mkHeld sg (Some true))) signerd.Approval :: rest)
      else if enroll.KeyBackend c =?s enroll.backendSoftware then
        Err (Errorf "refusing to broker enrolled approval key %q: it was enrolled as a SOFTWARE key (--software-key), which cannot back the human approval/issuance control; re-enroll on hardware, or run a non-production daemon from --keystore instead"
               [AStr (enroll.DID c)])
      else Err (Errorf "enrolled key %q has unknown backend %q" [AStr (enroll.DID c); AStr (enroll.KeyBackend c)])
  end.
Definition loadEnrolledKeys (decode : bytes -> result enroll.Mapping) (path : string) (data : result (option bytes))
  : result (list signerd.HeldKey) :=
  let! m := enroll.LoadMapping decode path data in enrolled_keys (records m).

Definition heldKeysSorted (keys : list signerd.HeldKey) : list signerd.HeldKey :=
  let did k := match signerd.Signer_ k with Some h => signer.DID (signerd.key h) | None => ""%string end in
  merge_sort (fun a b => String.le (did a) (did b)) keys.

(** The parsed flags of [daemon]. *)
Record flags := mkFlags { ksPath : string; mapPath : string; sock : string; attest : list types.DID }.

(** [cmdDaemon] up to its key set; the keystore and the mapping as reading them
    answers. *)
Definition gather (fl : flags) (ks : result keystore.Keystore) (decode : bytes -> result enroll.Mapping)
  (mapping : result (option bytes)) (getuid : Z) : result (list signerd.HeldKey * signerd.Server) :=
  check! reject_if ((ksPath fl =?s "") && (mapPath fl =?s "")) (New "one of --keystore or --mapping is required");
  check! reject_if ((0 <? len (attest fl)) && (ksPath fl =?s ""))
    (New "--attestation-key names a DID from --keystore, which was not given");
  let! soft := if negb (ksPath fl =?s "") then let! ks := ks in keystoreKeys ks (attest fl) else Ok [] in
  let! hard := if negb (mapPath fl =?s "") then loadEnrolledKeys decode (mapPath fl) mapping else Ok [] in
  let keys := soft ++ hard in
  check! reject_if (len keys =? 0) (New "no keys to broker");
  let! srv := signerd.NewKeys keys getuid in
  Ok (keys, srv).
End Keys.

(** ** Which keys the daemon brokers *)

Definition keystore_key `{SK : signer.SeedKeys} (ks : keystore.Keystore) (attest : list types.DID) (d : types.DID) (k : signerd.HeldKey) : Prop :=
  exists sg, keystore.Signer ks d = Ok sg
    /\ k = signerd.mkHeldKey (Some (signerd.mkHeld sg None)) (if bool_decide (d ∈ attest) then signerd.Attestation else signerd.Routine).
Definition enrolled_key (enclave_Load : types.DID -> bytes -> result signer.Signer) (c : enroll.Credential) (k : signerd.HeldKey) : Prop :=
  enroll.KeyBackend c = enroll.backendSecureEnclave
  /\ exists sg, enclave_Load (enroll.DID c) (s2b (enroll.KeyTag c)) = Ok sg
       /\ k = signerd.mkHeldKey (Some (signerd.mkHeld sg (Some true))) signerd.Approval.
(** The signer a key offers for an identifier. *)
Definition offers (d : types.DID) (k : signerd.HeldKey) : option signer.Signer :=
  match signerd.Signer_ k with
  | Some h => if signer.DID (signerd.key h) =?s d then Some (signerd.key h) else None
  | None => None
  end.

Lemma add_keys_last keys m m' d :
  signerd.add_keys m keys = Ok m' -> m' !! d = from_option Some (m !! d) (last (omap (offers d) keys)).
Proof.
  revert m. induction keys as [|k keys IH]; intros m H; [by apply Ok_inj in H as <-|].
  apply signerd.add_keys_cons in H as (h & Hs & _ & H). rewrite (IH _ H). cbn [omap list_omap]. unfold offers at 2. rewrite Hs.
  destruct (String.eqb_spec (signer.DID (signerd.key h)) d) as [<-|Hne]; unfold str_eqb; case_bool_decide; try done.
  - rewrite last_cons, lookup_insert_eq. by destruct (last _).
  - by rewrite lookup_insert_ne.
Qed.

Section Brokered.
Context `{SK : signer.SeedKeys} (enclave_Load : types.DID -> bytes -> result signer.Signer).

Lemma keystore_signers_Ok ks attest ds keys :
  keystore_signers ks (didList_set attest) ds = Ok keys <-> Forall2 (keystore_key ks attest) ds keys.
Proof.
  unfold didList_set. revert keys. induction ds as [|d ds IH]; intros keys.
  { cbn. split; [intros [= <-]; constructor|intros ->%Forall2_nil_inv_l; done]. }
  cbn [keystore_signers]. split.
  - intros H. gosimp H. apply Ok_inj in H as <-. constructor; [|by apply IH]. exists a. split; [done|].
    by rewrite (bool_decide_ext _ _ (elem_of_list_to_set d attest)).
  - intros (k & keys' & (sg & E & ->) & Hk%IH & ->)%Forall2_cons_inv_l. rewrite E, Hk. cbn [rbind].
    by rewrite (bool_decide_ext _ _ (elem_of_list_to_set d attest)).
Qed.

Lemma keystoreKeys_Ok ks attest keys :
  keystoreKeys ks attest = Ok keys <->
  Forall (fun d => is_Some (ks !! d)) attest /\ Forall2 (keystore_key ks attest) (keystore.Principals ks) keys.
Proof.
  unfold keystoreKeys. rewrite <- keystore_signers_Ok. destruct (check_all _ attest) as [[]|e] eqn:E.
  - cbn [rbind]. split; [|by intros [_ ?]]. intros H. split; [|done]. apply Forall_forall. intros d Hd.
    apply check_all_Ok in E. rewrite Forall_forall in E. specialize (E d Hd). cbv beta in E. unfold reject_if in E. case_bool_decide; [done|].
    by destruct (ks !! d).
  - cbn [rbind]. split; [done|]. intros [H _]. exfalso. enough (check_all (fun d => reject_if (bool_decide (ks !! d = None)) (Errorf "--attestation-key %q is not in the keystore" [AStr d])) attest = Ok tt) by congruence.
    apply check_all_Ok. eapply Forall_impl; [exact H|]. intros d [s Hs]. cbv beta. by rewrite Hs.
Qed.

Lemma enrolled_keys_Ok cs keys :
  enrolled_keys enclave_Load cs = Ok keys <-> Forall2 (enrolled_key enclave_Load) (List.filter (fun c => negb (enroll.Revoked c)) cs) keys.
Proof.
  revert keys. induction cs as [|c cs IH]; intros keys.
  { cbn. split; [intros [= <-]; constructor|intros ->%Forall2_nil_inv_l; done]. }
  cbn [enrolled_keys List.filter]. destruct (enroll.Revoked c); cbn [negb]; [apply IH|]. unfold str_eqb.
  case_bool_decide as Hb; [|split; [case_bool_decide; discriminate|by intros (? & ? & [? _] & _)%Forall2_cons_inv_l]]. split.
  - intros H. gosimp H. apply Ok_inj in H as <-. constructor; [|by apply IH].
    split; [done|]. by exists a.
  - intros (k & keys' & (_ & sg & E & ->) & Hk%IH & ->)%Forall2_cons_inv_l. by rewrite E, Hk.
Qed.
End Brokered.

(** The two parts of a key set: one key for each DID of the keystore, and one for
    each unrevoked record of the mapping. *)
Definition from_keystore `{SK : signer.SeedKeys} (fl : flags) (ks : result keystore.Keystore) (keys : list signerd.HeldKey) : Prop :=
  if ksPath fl =?s "" then keys = [] /\ attest fl = []
  else exists k, ks = Ok k /\ Forall (fun d => is_Some (k !! d)) (attest fl)
       /\ Forall2 (keystore_key k (attest fl)) (keystore.Principals k) keys.
Definition from_mapping (enclave_Load : types.DID -> bytes -> result signer.Signer) (fl : flags)
  (m : result enroll.Mapping) (keys : list signerd.HeldKey) : Prop :=
  if mapPath fl =?s "" then keys = []
  else exists k, m = Ok k /\ Forall2 (enrolled_key enclave_Load) (List.filter (fun c => negb (enroll.Revoked c)) (records k)) keys.

Section Gathered.
Context `{SK : signer.SeedKeys} (enclave_Load : types.DID -> bytes -> result signer.Signer).

Lemma from_keystore_acceptable fl ks keys : from_keystore fl ks keys -> Forall signerd.acceptable keys.
Proof.
  unfold from_keystore. destruct (ksPath fl =?s ""); [by intros [-> _]; constructor|]. intros (k & _ & _ & H).
  eapply Forall2_Forall_r; [exact H|]. apply Forall_true. intros d y (sg & _ & ->). eexists. split; [done|]. cbn. case_bool_decide; auto.
Qed.
Lemma from_mapping_acceptable fl m keys : from_mapping enclave_Load fl m keys -> Forall signerd.acceptable keys.
Proof.
  unfold from_mapping. destruct (mapPath fl =?s ""); [intros ->; constructor|]. intros (k & _ & H).
  eapply Forall2_Forall_r; [exact H|]. apply Forall_true. intros c y (_ & sg & _ & ->). eexists. split; [done|]. auto.
Qed.

Lemma soft_Ok fl ks keys :
  (ksPath fl =?s "") && (0 <? len (attest fl)) = false ->
  (if negb (ksPath fl =?s "") then let! ks := ks in keystoreKeys ks (attest fl) else Ok []) = Ok keys <-> from_keystore fl ks keys.
Proof.
  unfold from_keystore. destruct (ksPath fl =?s ""); cbn [negb andb]; intros Ha.
  - assert (attest fl = []) as -> by (destruct (attest fl); [done|done]). split; [by intros [= <-]|by intros [-> _]].
  - split; [intros H; gosimp H; exists a; split; [done|by apply keystoreKeys_Ok]|intros (k & -> & H)]. by apply keystoreKeys_Ok.
Qed.
Lemma hard_Ok fl decode mapping keys :
  (if negb (mapPath fl =?s "") then loadEnrolledKeys enclave_Load decode (mapPath fl) mapping else Ok []) = Ok keys
  <-> from_mapping enclave_Load fl (enroll.LoadMapping decode (mapPath fl) mapping) keys.
Proof.
  unfold from_mapping, loadEnrolledKeys. destruct (mapPath fl =?s ""); cbn [negb]; [split; congruence|].
  split; [intros H; gosimp H; exists a; split; [done|by apply enrolled_keys_Ok]|intros (k & -> & H); by apply enrolled_keys_Ok].
Qed.

(** the daemon starts exactly from a non-empty key set that is, in order,
    one key for every DID of the keystore - under the attestation policy when it
    was named, which only a keystore entry can be, and the routine policy
    otherwise, and never as hardware - and one key for every unrevoked record of
    the enrollment mapping, all of them held by the Secure Enclave and all under
    the approval policy: one software or unrecognised record refuses the start.
    For such a set NewKeys has nothing left to refuse, and an identifier is
    brokered with the last of its keys, so an enrolled key prevails over a
    keystore seed. *)
Theorem daemon_keys fl ks decode mapping uid keys :
  ((exists srv, gather enclave_Load fl ks decode mapping uid = Ok (keys, srv)) <->
     keys <> [] /\ exists soft hard, keys = soft ++ hard /\ from_keystore fl ks soft
       /\ from_mapping enclave_Load fl (enroll.LoadMapping decode (mapPath fl) mapping) hard)
  /\ (forall srv d, gather enclave_Load fl ks decode mapping uid = Ok (keys, srv) ->
        signerd.lookup srv d = last (omap (offers d) keys)).
Proof.
  unfold gather. split; [split|].
  - intros [srv H]. gosimp H. apply Ok_inj in H as [= <- <-].
    apply soft_Ok in Ha1; [|apply andb_false_iff; destruct Ha0; [by right|left; by apply str_eqb_false]]. apply hard_Ok in Ha2.
    split; [|by eauto]. intros Hk. by rewrite Hk in Ha3.
  - intros (Hne & soft & hard & -> & Hs & Hh).
    assert (G1 : (ksPath fl =?s "") && (mapPath fl =?s "") = false).
    { apply not_true_iff_false. intros [E1 E2]%andb_true_iff. apply Hne. unfold from_keystore in Hs. unfold from_mapping in Hh. rewrite E1 in Hs. rewrite E2 in Hh.
      by destruct Hs as [-> _]; rewrite Hh. }
    assert (G2 : (0 <? len (attest fl)) && (ksPath fl =?s "") = false).
    { apply not_true_iff_false. intros [E1 E2]%andb_true_iff. unfold from_keystore in Hs. rewrite E2 in Hs. destruct Hs as [_ Ha]. by rewrite Ha in E1. }
    assert (Hacc : Forall signerd.acceptable (soft ++ hard)).
    { apply Forall_app. eauto using from_keystore_acceptable, from_mapping_acceptable. }
    apply (signerd.add_keys_Ok _ ∅) in Hacc as [m Hm].
    apply soft_Ok in Hs; [|by rewrite andb_comm]. apply hard_Ok in Hh. rewrite G1, G2, Hs, Hh. cbn [reject_if rbind].
    assert (G3 : (len (soft ++ hard) =? 0) = false) by (apply Z.eqb_neq; unfold len; destruct (soft ++ hard); done).
    rewrite G3. unfold signerd.NewKeys. rewrite Hm. by eexists.
  - intros srv d H. gosimp H. apply Ok_inj in H as [= <- <-]. unfold signerd.NewKeys in Ha4. gosimp Ha4. apply Ok_inj in Ha4 as <-.
    unfold signerd.lookup. cbn [signerd.signers]. erewrite add_keys_last by exact Ha5. rewrite lookup_empty. by destruct (last _).
Qed.
End Gathered.

(** ** A concrete daemon: a keystore of two, and an enclave key that replaces one
    of them *)

#[local] Instance padded_keys : signer.SeedKeys :=
  {| signer.ed25519_NewKeyFromSeed := fun seed => take 32 (seed ++ repeat Byte.x00 32);
     signer.ed25519_Sign := fun _ _ => [Byte.x01]; signer.p256_NewPrivateKey := fun _ => None;
     signer.ecdsa_SignASN1 := fun _ _ => Err (New "no key") |}.
Fixpoint hex_seed (n : nat) (b : string) : string := match n with O => "" | S n => b +:+ hex_seed n b end.
Definition ana : types.DID := "did:web:ana.example".
Definition proxy : types.DID := "did:web:proxy.example".
Definition test_keystore : keystore.Keystore := {[ ana := hex_seed 32 "01"; proxy := hex_seed 32 "02"; "_comment"%string := "test keys"%string ]}.
Definition test_flags : flags := mkFlags "keys.json" "mapping.json" "/run/kessa/issuer.sock" [proxy].
Definition record_ (revoked : bool) : enroll.Credential :=
  enroll.mkCredential ana "cred-1" "https://status.example/1" 0 "fp" enroll.backendSecureEnclave "tag-1" "ECDSA-P256" zero_time revoked.
Definition test_mapping : enroll.Mapping :=
  enroll.mkMapping enroll.mappingVersion {[ "ana"%string := enroll.mkEmployee "ana" [record_ true; record_ false] ]}.
Definition test_enclave (d : types.DID) (tag : bytes) : result signer.Signer :=
  Ok (signer.mkSigner d (Ed25519Key (take 32 (tag ++ repeat Byte.x00 32))) (fun _ => Ok [Byte.x02])).

Lemma daemon_keys_witness :
  exists keys srv,
    gather test_enclave test_flags (Ok test_keystore) (fun _ => Ok test_mapping) (Ok (Some [])) 501 = Ok (keys, srv)
    /\ map signerd.Policy keys = [signerd.Routine; signerd.Attestation; signerd.Approval]
    /\ option_map signer.Public (signerd.lookup srv ana) = Some (Ed25519Key (take 32 (s2b "tag-1" ++ repeat Byte.x00 32))).
Proof.
  destruct (gather test_enclave test_flags (Ok test_keystore) (fun _ => Ok test_mapping) (Ok (Some [])) 501) as [[keys srv]|e] eqn:E;
    [|vm_compute in E; discriminate].
  exists keys, srv. split; [reflexivity|].
  pose proof (proj2 (daemon_keys test_enclave test_flags (Ok test_keystore) (fun _ => Ok test_mapping) (Ok (Some [])) 501 keys) srv ana E) as H.
  assert (Hk : keys = match gather test_enclave test_flags (Ok test_keystore) (fun _ => Ok test_mapping) (Ok (Some [])) 501 with
                      | Ok (k, _) => k | Err _ => [] end) by (rewrite E; reflexivity).
  rewrite H, Hk. split; vm_compute; reflexivity.
Defined.

Example software_record_refused :
  is_ok (gather test_enclave test_flags (Ok test_keystore)
    (fun _ => Ok (enroll.mkMapping enroll.mappingVersion {[ "bo"%string := enroll.mkEmployee "bo"
       [enroll.mkCredential "did:web:bo.example" "cred-2" "https://status.example/1" 1 "fp" enroll.backendSoftware "" "Ed25519" zero_time false] ]}))
    (Ok (Some [])) 501) = false.
Proof. vm_compute. reflexivity. Qed.
End daemon.
