(* ===== verification/Sockets.v ===== *)
(** cmd/issuer (daemon.go): where the signing daemon puts its socket, and the
    daemon command from its flags to its listening socket.  The file system is a
    finite map from the paths the command names to what stands there, and a run
    keeps every tree it went through, since the moment between the bind and the
    chmod is what the directory is for. *)
From S2P Require Import Prelude GoFmt GoTime GoCrypto GoPath GoJson Webhost Config Types Signer Keystore Did Status Policy Macaroon.
From S2P Require Import Credential Chain AuditLog Signerd Export Texts Enroll Daemon.

Module sockets.

(** ** Files and system calls *)

(** What stands at a path: [mine] is a socket this process bound, [live] one that
    some process accepts on. *)
Inductive node := Directory (perm : Z) | Regular | Socket (perm : Z) (mine live : bool).
#[export] Instance node_eq_dec : EqDecision node.
Proof. solve_decision. Defined.
Notation tree := (gmap string node) (only parsing).
Record world := mkWorld { now : tree; past : list tree }.
Definition become (t : tree) (w : world) : world := mkWorld t (now w :: past w).

(** What the system answers beyond what the tree says: the umask, the refusal of
    a call, and the texts of the refusals that the tree entails. *)
Record system := mkSystem
  { umask : Z; mkdir_refused : option error; stat_refused : string -> option error; dial_refused : option error;
    remove_refused : option error; bind_refused : option error; chmod_refused : string -> option error;
    enoent : string -> error; enotdir : string -> error; eaddrinuse : error }.

Inductive mkdir_answer := MkdirOk | MkdirExist | MkdirFailed (e : error).
Inductive stat_answer := StatOk (n : node) | StatNotExist (e : error) | StatFailed (e : error).

Definition IsDir (n : node) : bool := match n with Directory _ => true | _ => false end.
Definition Perm (n : node) : Z := match n with Directory m => m | Regular => 0 | Socket m _ _ => m end.

Section Sys.
Context (sys : system).
Definition masked (mode : Z) : Z := Z.land mode (Z.lnot (umask sys)).

Definition Mkdir (p : string) (perm : Z) (w : world) : world * mkdir_answer :=
  match now w !! p with
  | Some _ => (w, MkdirExist)
  | None =>
      match now w !! b2s (filepath_Dir (s2b p)), mkdir_refused sys with
      | None, _ => (w, MkdirFailed (enoent sys p))
      | Some (Directory _), None => (become (<[p := Directory (masked perm)]> (now w)) w, MkdirOk)
      | Some (Directory _), Some e => (w, MkdirFailed e)
      | Some _, _ => (w, MkdirFailed (enotdir sys p))
      end
  end.
Definition Stat (p : string) (w : world) : stat_answer :=
  match stat_refused sys p, now w !! p with
  | Some e, _ => StatFailed e
  | None, Some n => StatOk n
  | None, None => StatNotExist (enoent sys p)
  end.
Definition Chmod (p : string) (perm : Z) (w : world) : world * result unit :=
  match chmod_refused sys p, now w !! p with
  | Some e, _ => (w, Err e)
  | None, Some (Directory _) => (become (<[p := Directory perm]> (now w)) w, Ok tt)
  | None, Some (Socket _ m l) => (become (<[p := Socket perm m l]> (now w)) w, Ok tt)
  | None, Some Regular => (w, Ok tt)
  | None, None => (w, Err (enoent sys p))
  end.
(** [net.DialTimeout]: somebody accepts. *)
Definition dials (p : string) (w : world) : bool :=
  match now w !! p, dial_refused sys with Some (Socket _ _ true), None => true | _, _ => false end.
(** [os.Remove]; that a directory is not empty is among what may refuse it. *)
Definition Remove (p : string) (w : world) : world * result unit :=
  match remove_refused sys with
  | Some e => (w, Err e)
  | None => (become (delete p (now w)) w, Ok tt)
  end.
(** [net.Listen]: the socket appears with the umask's permissions, at a path that
    must be free. *)
Definition Bind (p : string) (w : world) : world * result unit :=
  match bind_refused sys, now w !! p with
  | Some e, _ => (w, Err e)
  | None, Some _ => (w, Err (eaddrinuse sys))
  | None, None => (become (<[p := Socket (masked 511) true true]> (now w)) w, Ok tt)
  end.
(** Closing a listener unlinks its socket. *)
Definition Close (p : string) (w : world) : world := become (delete p (now w)) w.

(** ** The socket (daemon.go) *)

Definition checkSocketDir (dir : string) (fi : node) : result unit :=
  check! reject_if (negb (IsDir fi)) (Errorf "socket dir %q is not a directory" [AStr dir]);
  reject_if (negb (Perm fi =? 448))
    (Errorf "socket dir %q has mode %#o, want 0700: it holds a socket that brokers signing keys, and this daemon will not widen or narrow a directory it did not create.
  Point --sock at a directory of its own (the default is $XDG_RUNTIME_DIR/kessa), or chmod 0700 %s" [AStr dir; AInt (Perm fi); AStr dir]).

Definition prepareSocketDir (dir : string) (w : world) : world * result unit :=
  match Mkdir dir 448 w with
  | (w, MkdirOk) =>
      let '(w, r) := Chmod dir 448 w in (w, wrap (fun e => Errorf "secure socket dir %q: %w" [AStr dir; AErr e]) r)
  | (w, MkdirExist) =>
      match Stat dir w with
      | StatOk fi => (w, checkSocketDir dir fi)
      | StatNotExist e | StatFailed e => (w, Err (Errorf "socket dir %q: %w" [AStr dir; AErr e]))
      end
  | (w, MkdirFailed e) => (w, Err (Errorf "create socket dir %q: %w" [AStr dir; AErr e]))
  end.

Definition socketDirState (dir : string) (w : world) : result string :=
  match Stat dir w with
  | StatNotExist _ =>
      let parent := b2s (filepath_Dir (s2b dir)) in
      match Stat parent w with
      | StatOk _ => Ok (dir +:+ " will be created 0700")
      | StatNotExist e | StatFailed e =>
          Err (Errorf "socket dir %q does not exist and neither does %q, so it cannot be created: %w" [AStr dir; AStr parent; AErr e])
      end
  | StatFailed e => Err (Errorf "socket dir %q: %w" [AStr dir; AErr e])
  | StatOk fi => check! checkSocketDir dir fi; Ok (dir +:+ " exists, mode 0700, left as found")
  end.

Definition socketDir (sock : string) : string := b2s (filepath_Dir (s2b sock)).

(** The path as it must be for the bind: a daemon that answers is left alone, and
    anything else that stands there is removed. *)
Definition clear (sock : string) (w : world) : world * result unit :=
  match Stat sock w with
  | StatOk _ =>
      if dials sock w then (w, Err (Errorf "a daemon is already listening on %s" [AStr sock]))
      else let '(w, r) := Remove sock w in (w, wrap (fun e => Errorf "remove stale socket %q: %w" [AStr sock; AErr e]) r)
  | _ => (w, Ok tt)
  end.
Definition listen (sock : string) (w : world) : world * result unit :=
  match prepareSocketDir (socketDir sock) w with
  | (w, Err e) => (w, Err e)
  | (w, Ok _) =>
      match clear sock w with
      | (w, Err e) => (w, Err e)
      | (w, Ok _) =>
          match Bind sock w with
          | (w, Err e) => (w, Err (Errorf "listen on %q: %w" [AStr sock; AErr e]))
          | (w, Ok _) =>
              match Chmod sock 384 w with
              | (w, Err e) => (Close sock w, Err (Errorf "secure socket %q: %w" [AStr sock; AErr e]))
              | (w, Ok _) => (w, Ok tt)
              end
          end
      end
  end.
End Sys.

(** [defaultSockPath], given $XDG_RUNTIME_DIR, what [os.UserHomeDir] answers and
    [os.TempDir]. *)
Definition defaultSockPath (xdg : string) (home : result string) (tmp : string) : string :=
  if negb (xdg =?s "") then b2s (filepath_Join (map s2b [xdg; "kessa"%string; "issuer.sock"%string]))
  else let home := match home with Ok h => h | Err _ => tmp end in
       b2s (filepath_Join (map s2b [home; ".kessa"%string; "issuer.sock"%string])).

(** ** The command *)

Inductive outcome :=
| Refused (e : error)
| Checked (dirState : string) (keys : list signerd.HeldKey)
| Serving (keys : list signerd.HeldKey) (srv : signerd.Server).

Section Command.
Context {SK : signer.SeedKeys} (enclave_Load : types.DID -> bytes -> result signer.Signer).
(** What reading a keystore and a mapping answers, and the process's user. *)
Context (read_keystore : string -> result keystore.Keystore) (decode : bytes -> result enroll.Mapping)
  (read_mapping : string -> result (option bytes)) (getuid : Z) (sys : system).

(** [cmdDaemon] once its configuration is settled, up to the accept loop. *)
Definition start (w : world) (checkOnly : bool) (fl : daemon.flags) : world * outcome :=
  match daemon.gather enclave_Load fl (read_keystore (daemon.ksPath fl)) decode (read_mapping (daemon.mapPath fl)) getuid with
  | Err e => (w, Refused e)
  | Ok (keys, srv) =>
      if checkOnly then
        match socketDirState sys (socketDir (daemon.sock fl)) w with
        | Err e => (w, Refused e)
        | Ok dirState => (w, Checked dirState keys)
        end
      else
        match listen sys (daemon.sock fl) w with
        | (w, Err e) => (w, Refused e)
        | (w, Ok _) => (w, Serving keys srv)
        end
  end.
(** A file supplies the whole configuration. *)
Definition configured (cfg : daemon.DaemonConfig) : daemon.flags :=
  daemon.mkFlags (daemon.Keystore_ cfg) (daemon.Mapping_ cfg) (daemon.Sock cfg) (daemon.AttestationKeys cfg).
Definition cmdDaemon (w : world) (set_ : list string) (file : option (result daemon.DaemonConfig)) (checkOnly : bool)
  (fl : daemon.flags) : world * outcome :=
  match file with
  | None =>
      if checkOnly then (w, Refused (New "--check-config needs a --config file to check")) else start w checkOnly fl
  | Some loaded =>
      let bad := daemon.daemonConflictingFlags set_ in
      if 0 <? len bad then
        (w, Refused (New ("--config supplies the whole configuration, so these flags cannot also be given: --" +:+ Join bad ", --")))
      else
        match loaded with
        | Err e => (w, Refused e)
        | Ok cfg => start w checkOnly (configured cfg)
        end
  end.
End Command.

(** ** Where our socket can be seen *)

(** What may become of the tree [t0] while the socket is set up: only the socket's
    path and, if it was missing, its directory are touched; our socket stands
    only in a directory closed to everybody else; a daemon that answers keeps its
    socket. *)
Definition confined (sys : system) (sock : string) (t0 t : tree) : Prop :=
  (forall p, p <> sock -> p <> socketDir sock -> t !! p = t0 !! p)
  /\ (is_Some (t0 !! socketDir sock) -> t !! socketDir sock = t0 !! socketDir sock)
  /\ (forall m l, t !! sock = Some (Socket m true l) -> t !! socketDir sock = Some (Directory 448))
  /\ (forall m, t0 !! sock = Some (Socket m false true) -> dial_refused sys = None -> t !! sock = t0 !! sock).

Section Safety.
Context (sys : system) (sock : string) (t0 : tree).
Context (Hdir : socketDir sock <> sock) (Hmine : forall m l, t0 !! sock <> Some (Socket m true l)).
Let dir := socketDir sock.
Definition good (w : world) : Prop := Forall (confined sys sock t0) (now w :: past w).

Lemma good_now w : good w -> confined sys sock t0 (now w).
Proof. by intros [? _]%Forall_cons. Qed.
Lemma good_become t w : good w -> confined sys sock t0 t -> good (become t w).
Proof. intros. by constructor. Qed.

Lemma confined_dir t m :
  confined sys sock t0 t -> t0 !! dir = None -> (forall m l, t !! sock <> Some (Socket m true l)) ->
  confined sys sock t0 (<[dir := Directory m]> t).
Proof.
  intros (Ho & _ & _ & Hl) Hn Hs. assert (Hne : dir <> sock) by exact Hdir. split_and!.
  - intros p Hp Hp'. rewrite lookup_insert_ne by (intros <-; by apply Hp'). by apply Ho.
  - fold dir. rewrite Hn. by intros [? ?].
  - intros m' l. rewrite lookup_insert_ne by done. intros Hx. by destruct (Hs m' l).
  - intros m'. rewrite lookup_insert_ne by done. apply Hl.
Qed.
Lemma confined_sock t n :
  confined sys sock t0 t -> (forall m l, n = Some (Socket m true l) -> t !! dir = Some (Directory 448)) ->
  (forall m, t0 !! sock = Some (Socket m false true) -> dial_refused sys = None -> False) ->
  confined sys sock t0 (partial_alter (fun _ => n) sock t).
Proof.
  intros (Ho & Hd & _ & _) Hn Hlive. assert (Hne : sock <> dir) by (intros Hx; by apply Hdir). split_and!.
  - intros p Hp Hp'. rewrite lookup_partial_alter_ne by done. by apply Ho.
  - fold dir. rewrite lookup_partial_alter_ne by done. apply Hd.
  - intros m l. fold dir. rewrite lookup_partial_alter_eq, lookup_partial_alter_ne by done. apply Hn.
  - intros m Hm Hr. by destruct (Hlive m Hm Hr).
Qed.

Lemma prepare_good w w' r :
  prepareSocketDir sys dir w = (w', r) -> good w -> now w !! dir = t0 !! dir -> (forall m l, now w !! sock <> Some (Socket m true l)) ->
  good w' /\ now w' !! sock = now w !! sock /\ (r = Ok tt -> now w' !! dir = Some (Directory 448)).
Proof.
  intros H Hg Hd Hs. assert (Hne : dir <> sock) by exact Hdir. revert H. unfold prepareSocketDir, Mkdir.
  destruct (now w !! dir) as [n|] eqn:E.
  - unfold Stat. rewrite E. destruct (stat_refused sys dir) as [e|]; intros [= <- <-]; (split_and!; [done..|]); [done|].
    unfold checkSocketDir. intros H. gosimp H. destruct n as [m| |]; [|done..]. cbn [Perm] in H. rewrite E.
    apply Z.eqb_eq in H. by subst m.
  - destruct (now w !! b2s _) as [[]|], (mkdir_refused sys) as [e|]; try (intros [= <- <-]; by split_and!).
    set (w1 := become _ w). assert (Hg1 : good w1) by (apply good_become; [done|]; apply confined_dir; [by apply good_now|by rewrite <- Hd|done]).
    assert (Hs1 : now w1 !! sock = now w !! sock) by by apply lookup_insert_ne.
    unfold Chmod. replace (now w1 !! dir) with (Some (Directory (masked sys 448))) by (symmetry; apply lookup_insert_eq).
    destruct (chmod_refused sys dir) as [e|]; intros [= <- <-]; [by split_and!|]. split_and!.
    + apply good_become; [done|]. apply confined_dir; [exact (good_now _ Hg1)|by rewrite <- Hd|]. rewrite lookup_insert_ne by done. exact Hs.
    + cbn [now become]. by rewrite lookup_insert_ne by done.
    + intros _. apply lookup_insert_eq.
Qed.

Lemma clear_good w w' r :
  clear sys sock w = (w', r) -> good w -> now w !! sock = t0 !! sock -> now w !! dir = Some (Directory 448) ->
  good w' /\ now w' !! dir = Some (Directory 448) /\ (forall m l, now w' !! sock <> Some (Socket m true l)).
Proof.
  intros H Hg Hs Hd. assert (Hne : sock <> dir) by (intros Hx; by apply Hdir). revert H. unfold clear.
  assert (Hm : forall m l, now w !! sock <> Some (Socket m true l)) by (rewrite Hs; exact Hmine).
  destruct (Stat sys sock w) eqn:E; [|by intros [= <- <-]..].
  destruct (dials sys sock w) eqn:Hdial; [by intros [= <- <-]|]. unfold Remove.
  destruct (remove_refused sys) as [e|]; intros [= <- <-]; [done|]. split_and!.
  - apply good_become; [done|]. apply (confined_sock _ None); [by apply good_now|done|].
    intros m Hl Hr. unfold dials in Hdial. by rewrite Hs, Hl, Hr in Hdial.
  - cbn [now become]. by rewrite lookup_delete_ne by done.
  - intros m l. cbn [now become]. by rewrite lookup_delete_eq.
Qed.

(** Binding at a free path, and what is done to our own socket after it. *)
Lemma answering_kept w : good w -> (now w !! sock = None \/ exists m l, now w !! sock = Some (Socket m true l)) ->
  forall m, t0 !! sock = Some (Socket m false true) -> dial_refused sys = None -> False.
Proof.
  intros (_ & _ & _ & Hl)%good_now Hw m Hm Hr. rewrite (Hl m Hm Hr), Hm in Hw. destruct Hw as [?|(? & ? & ?)]; congruence.
Qed.

Lemma bind_good w w' r :
  Bind sys sock w = (w', r) -> good w -> now w !! dir = Some (Directory 448) -> (forall m l, now w !! sock <> Some (Socket m true l)) ->
  good w' /\ now w' !! dir = Some (Directory 448)
  /\ (if is_ok r then exists m, now w' !! sock = Some (Socket m true true) else forall m l, now w' !! sock <> Some (Socket m true l)).
Proof.
  intros H Hg Hd Hs. assert (Hne : sock <> dir) by (intros Hx; by apply Hdir). revert H. unfold Bind.
  destruct (bind_refused sys) as [e|]; [by intros [= <- <-]|]. destruct (now w !! sock) as [n|] eqn:E.
  - intros [= <- <-]. by rewrite E.
  - intros [= <- <-]. cbn [now become is_ok]. split_and!.
    + apply good_become; [done|]. apply (confined_sock _ (Some _)); [by apply good_now|done|]. apply (answering_kept w); auto.
    + by rewrite lookup_insert_ne by done.
    + eexists. apply lookup_insert_eq.
Qed.

Lemma secure_good w m :
  good w -> now w !! dir = Some (Directory 448) -> now w !! sock = Some (Socket m true true) ->
  match Chmod sys sock 384 w with
  | (w', Ok _) => good w' /\ now w' !! dir = Some (Directory 448) /\ now w' !! sock = Some (Socket 384 true true)
  | (w', Err _) => good (Close sock w') /\ forall m l, now (Close sock w') !! sock <> Some (Socket m true l)
  end.
Proof.
  intros Hg Hd Hs. assert (Hne : sock <> dir) by (intros Hx; by apply Hdir). unfold Chmod, Close. rewrite Hs.
  assert (Hk : forall n, (forall m l, n = Some (Socket m true l) -> now w !! dir = Some (Directory 448)) ->
            confined sys sock t0 (partial_alter (fun _ => n) sock (now w))).
  { intros n Hn. apply confined_sock; [by apply good_now|done|]. apply (answering_kept w); eauto. }
  destruct (chmod_refused sys sock) as [e|].
  - split; [by apply good_become, (Hk None)|]. intros m' l. cbn [now become]. by rewrite lookup_delete_eq.
  - cbn [now become]. split_and!; [by apply good_become, (Hk (Some _))|by rewrite lookup_insert_ne by done|apply lookup_insert_eq].
Qed.

(** C19: whatever the system refuses and whatever umask it runs under, setting up
    the daemon's socket goes only through trees in which its socket, once bound,
    stands in a directory closed to every other user, so the moment between the
    bind and the chmod exposes nothing; no other path changes, nor the directory
    when it was already there; and another daemon that answers keeps its socket
    throughout.  A success leaves the socket at 0600 in a 0700 directory, a
    failure leaves no socket of ours. *)
Theorem listen_safe w r :
  listen sys sock (mkWorld t0 []) = (w, r) ->
  Forall (confined sys sock t0) (now w :: past w)
  /\ match r with
     | Ok _ => now w !! sock = Some (Socket 384 true true) /\ now w !! socketDir sock = Some (Directory 448)
     | Err _ => forall m l, now w !! sock <> Some (Socket m true l)
     end
  /\ ((exists m, t0 !! sock = Some (Socket m false true)) -> dial_refused sys = None -> is_ok r = false).
Proof.
  intros H.
  assert (Hlive : good w -> is_ok r = true -> now w !! sock = Some (Socket 384 true true) ->
            (exists m, t0 !! sock = Some (Socket m false true)) -> dial_refused sys = None -> is_ok r = false).
  { intros Hg _ Hs [m Hm] Hr. destruct (answering_kept w Hg (or_intror (ex_intro _ _ (ex_intro _ _ Hs))) m Hm Hr). }
  assert (Hg0 : good (mkWorld t0 [])) by (constructor; [split_and!; try done; intros m l Hx; by destruct (Hmine m l)|constructor]).
  revert H. unfold listen. destruct (prepareSocketDir sys (socketDir sock) _) as [w1 [[]|e]] eqn:E1;
    destruct (prepare_good _ _ _ E1 Hg0 eq_refl Hmine) as (Hg1 & Hs1 & Hd1); cbn [now] in Hs1.
  2:{ intros [= <- <-]. split_and!; [exact Hg1|rewrite Hs1; exact Hmine|done]. }
  destruct (clear sys sock w1) as [w2 [[]|e]] eqn:E2; destruct (clear_good _ _ _ E2 Hg1 Hs1 (Hd1 eq_refl)) as (Hg2 & Hd2 & Hs2).
  2:{ intros [= <- <-]. by split_and!. }
  destruct (Bind sys sock w2) as [w3 [[]|e]] eqn:E3; destruct (bind_good _ _ _ E3 Hg2 Hd2 Hs2) as (Hg3 & Hd3 & Hs3); cbn [is_ok] in Hs3.
  2:{ intros [= <- <-]. by split_and!. }
  destruct Hs3 as [m Hs3]. pose proof (secure_good w3 m Hg3 Hd3 Hs3) as Hsec. destruct (Chmod sys sock 384 w3) as [w4 [[]|e]].
  - intros [= <- <-]. destruct Hsec as (Hg4 & Hd4 & Hs4). split_and!; [exact Hg4|exact Hs4|exact Hd4|by apply Hlive].
  - intros [= <- <-]. destruct Hsec as (Hg4 & Hs4). by split_and!.
Qed.
End Safety.

(** ** What --check-config predicts *)

Section Predicts.
Context {SK : signer.SeedKeys} (enclave_Load : types.DID -> bytes -> result signer.Signer).
Context (read_keystore : string -> result keystore.Keystore) (decode : bytes -> result enroll.Mapping)
  (read_mapping : string -> result (option bytes)) (getuid : Z).
Implicit Types sys : system.

Lemma state_prepare sys dir w :
  (forall p, stat_refused sys p = None) ->
  match socketDirState sys dir w with
  | Err _ => exists e, prepareSocketDir sys dir w = (w, Err e)
  | Ok _ =>
      now w !! dir = Some (Directory 448) /\ prepareSocketDir sys dir w = (w, Ok tt)
      \/ now w !! dir = None
         /\ (mkdir_refused sys = None -> chmod_refused sys dir = None ->
             (exists m, now w !! b2s (filepath_Dir (s2b dir)) = Some (Directory m)) -> exists w', prepareSocketDir sys dir w = (w', Ok tt))
  end.
Proof.
  intros Hst. unfold socketDirState, prepareSocketDir, Mkdir, Stat. rewrite !Hst. destruct (now w !! dir) as [n|] eqn:E.
  - rewrite E. destruct (checkSocketDir dir n) as [[]|e] eqn:Hc; cbn [rbind]; [|by eexists]. left. split; [|done].
    unfold checkSocketDir in Hc. gosimp Hc. destruct n as [m| |]; [|done..]. apply Z.eqb_eq in Hc. cbn in Hc. by subst m.
  - destruct (now w !! b2s (filepath_Dir (s2b dir))) as [n|]; [|by eexists]. right. split; [done|]. intros -> Hch [m [= ->]].
    unfold Chmod. rewrite Hch. cbn [now become]. rewrite lookup_insert_eq. by eexists.
Qed.

Lemma listen_after_prepare sys sock w w' :
  (forall p, stat_refused sys p = None) -> prepareSocketDir sys (socketDir sock) w = (w', Ok tt) -> socketDir sock <> sock ->
  now w !! sock = None -> bind_refused sys = None -> chmod_refused sys sock = None -> is_ok (listen sys sock w).2 = true.
Proof.
  intros Hst Hp Hne Hs Hb Hc. unfold listen. rewrite Hp.
  assert (Hs' : now w' !! sock = None).
  { revert Hp. unfold prepareSocketDir, Mkdir, Chmod.
    destruct (now w !! socketDir sock) as [n|].
    - destruct (Stat _ _ _); by intros Hp; simplify_eq.
    - destruct (now w !! b2s _) as [[]|], (mkdir_refused sys); try by intros Hp; simplify_eq.
      cbn [now become]. rewrite lookup_insert_eq. destruct (chmod_refused sys (socketDir sock)); intros Hp; simplify_eq; cbn [now become];
        by rewrite !lookup_insert_ne by done. }
  unfold clear, Stat. rewrite Hst, Hs'. unfold Bind. rewrite Hb, Hs'. unfold Chmod. rewrite Hc. cbn [now become].
  by rewrite lookup_insert_eq.
Qed.

(** The directory stands as it must, or can be made: nothing refuses the mkdir and
    its parent is a directory. *)
Definition placeable sys (dir : string) (w : world) : Prop :=
  now w !! dir = Some (Directory 448)
  \/ now w !! dir = None /\ mkdir_refused sys = None /\ exists m, now w !! b2s (filepath_Dir (s2b dir)) = Some (Directory m).
(** The socket's own path is free, and its bind and chmod are granted. *)
Definition bindable sys (sock : string) (w : world) : Prop :=
  socketDir sock <> sock /\ now w !! sock = None /\ bind_refused sys = None /\ forall p, chmod_refused sys p = None.

(** --check-config changes nothing on disk, and its answer is the start's up
    to the socket: what it refuses - a flag beside the file, the configuration,
    the keys, the directory - the start refuses with nothing touched; what it
    accepts, the start brokers with exactly the keys it reported as soon as the
    socket can be bound and its directory stands or can be made; and nothing
    starts that it refuses.  That a directory it reports as to be created can be
    made is not part of its answer: it only asks that something stands at the
    parent. *)
Theorem daemon_check_predicts sys w set_ file fl :
  (forall p, stat_refused sys p = None) ->
  let run := cmdDaemon enclave_Load read_keystore decode read_mapping getuid sys w set_ (Some file) in
  (run true fl).1 = w
  /\ (forall e, (run true fl).2 = Refused e -> exists e', run false fl = (w, Refused e'))
  /\ (forall dirState keys, (run true fl).2 = Checked dirState keys ->
        exists cfg, file = Ok cfg
        /\ (now w !! socketDir (daemon.Sock cfg) = Some (Directory 448)
            \/ now w !! socketDir (daemon.Sock cfg) = None /\ is_Some (now w !! b2s (filepath_Dir (s2b (socketDir (daemon.Sock cfg))))))
        /\ (bindable sys (daemon.Sock cfg) w -> placeable sys (socketDir (daemon.Sock cfg)) w ->
            exists srv, (run false fl).2 = Serving keys srv)).
Proof.
  intros Hst. cbv zeta. unfold cmdDaemon. destruct (0 <? len (daemon.daemonConflictingFlags set_)); [split_and!; [done|by eexists|done]|].
  destruct file as [cfg|e0]; [|split_and!; [done|by eexists|done]]. unfold start. cbn [daemon.ksPath daemon.mapPath daemon.sock configured].
  destruct (daemon.gather _ _ _ _ _ _) as [[keys srv]|e0]; [|split_and!; [done|by eexists|done]].
  pose proof (state_prepare sys (socketDir (daemon.Sock cfg)) w Hst) as Hp.
  destruct (socketDirState sys _ w) as [s|e0] eqn:Es; cbn [fst snd].
  - split_and!; [done..|]. intros ? ? [= <- <-]. exists cfg. split_and!; [done| |].
    + destruct Hp as [[Hd _]|[Hd _]]; [by left|right]. split; [done|]. revert Es. unfold socketDirState, Stat. rewrite !Hst, Hd.
      destruct (now w !! b2s _); [done|]. done.
    + intros (Hne & Hs & Hb & Hc) Hpl.
      assert (exists w', prepareSocketDir sys (socketDir (daemon.Sock cfg)) w = (w', Ok tt)) as [w' Hw'].
      { destruct Hp as [[_ Hp]|[Hd Hp]]; [by eexists|]. destruct Hpl as [Hpl|(_ & Hm & Hpar)]; [congruence|]. by apply Hp. }
      pose proof (listen_after_prepare _ _ _ _ Hst Hw' Hne Hs Hb (Hc _)) as Hok.
      destruct (listen sys _ w) as [w2 [[]|]]; [by eexists|done].
  - split_and!; [done| |done]. intros e [= <-]. destruct Hp as [e Hp]. unfold listen. rewrite Hp. by eexists.
Qed.
End Predicts.

(** ** A concrete start *)

Definition default_system : system :=
  mkSystem 18 None (fun _ => None) None None None (fun _ => None) (fun p => Errorf "%s: no such file or directory" [AStr p])
    (fun p => Errorf "%s: not a directory" [AStr p]) (New "bind: address already in use").
Definition test_sock : string := "/run/kessa/issuer.sock".
Definition test_tree : tree := {[ "/run"%string := Directory 493; "/etc/passwd"%string := Regular ]}.

Example default_path : defaultSockPath "/run" (Err (New "no home")) "/tmp" = test_sock /\ socketDir test_sock = "/run/kessa"%string
  /\ defaultSockPath "" (Ok "/home/ana"%string) "/tmp" = "/home/ana/.kessa/issuer.sock"%string.
Proof. split_and!; vm_compute; reflexivity. Qed.
(** A path that names some other file is taken for a stale socket. *)
Example bystander_removed :
  (listen default_system "/etc/passwd" (mkWorld (<["/etc"%string := Directory 448]> test_tree) [])).2 = Ok tt.
Proof. vm_compute. reflexivity. Qed.

Lemma listen_safe_witness :
  exists w, listen default_system test_sock (mkWorld test_tree []) = (w, Ok tt)
    /\ length (past w) = 4%nat /\ Forall (confined default_system test_sock test_tree) (now w :: past w).
Proof.
  destruct (listen default_system test_sock (mkWorld test_tree [])) as [w r] eqn:E.
  assert (Hr : r = (listen default_system test_sock (mkWorld test_tree [])).2) by (rewrite E; reflexivity).
  assert (Hl : length (past w) = length (past (listen default_system test_sock (mkWorld test_tree [])).1)) by (rewrite E; reflexivity).
  vm_compute in Hr. subst r. exists w. split; [reflexivity|]. split; [rewrite Hl; vm_compute; reflexivity|].
  assert (Hdir : socketDir test_sock <> test_sock) by (vm_compute; discriminate).
  assert (Hmine : forall m l, test_tree !! test_sock <> Some (Socket m true l)) by (intros m l; vm_compute; discriminate).
  exact (proj1 (listen_safe default_system test_sock test_tree Hdir Hmine w (Ok tt) E)).
Defined.

Definition test_config : daemon.DaemonConfig := daemon.mkConfig test_sock "keys.json" "" [daemon.proxy].
Lemma daemon_check_predicts_witness :
  exists s srv, cmdDaemon (SK := daemon.padded_keys) daemon.test_enclave (fun _ => Ok daemon.test_keystore) (fun _ => Err (New "no mapping")) (fun _ => Ok None) 501
      default_system (mkWorld test_tree []) ["config"%string] (Some (Ok test_config)) true daemon.test_flags = (mkWorld test_tree [], s)
    /\ (cmdDaemon (SK := daemon.padded_keys) daemon.test_enclave (fun _ => Ok daemon.test_keystore) (fun _ => Err (New "no mapping")) (fun _ => Ok None) 501
      default_system (mkWorld test_tree []) ["config"%string] (Some (Ok test_config)) false daemon.test_flags).2 = srv
    /\ exists d k v, s = Checked d k /\ srv = Serving k v.
Proof.
  pose proof (@daemon_check_predicts daemon.padded_keys daemon.test_enclave (fun _ => Ok daemon.test_keystore) (fun _ => Err (New "no mapping"))
    (fun _ => Ok None) 501 default_system (mkWorld test_tree []) ["config"%string] (Ok test_config) daemon.test_flags (fun _ => eq_refl)) as H.
  cbv zeta in H. destruct H as (H1 & _ & H3).
  set (c := cmdDaemon _ _ _ _ _ _ _ _ _ true _) in *. set (v := cmdDaemon _ _ _ _ _ _ _ _ _ false _) in *.
  assert (Hc : match c.2 with Checked _ _ => True | _ => False end) by (vm_compute; exact I).
  exists c.2, v.2. destruct c as [w [e|d k|k s]]; cbn [fst snd] in *; [destruct Hc| |destruct Hc]. subst w.
  split; [reflexivity|]. split; [reflexivity|]. destruct (H3 d k eq_refl) as (cfg & Hcfg & _ & Hrun). apply Ok_inj in Hcfg as <-.
  destruct Hrun as [srv Hsrv].
  - split; [vm_compute; discriminate|]. split; [vm_compute; reflexivity|]. split; [reflexivity|]. intros p. reflexivity.
  - right. split; [vm_compute; reflexivity|]. split; [reflexivity|]. exists 493. vm_compute. reflexivity.
  - exists d, k, srv. split; [reflexivity|exact Hsrv].
Defined.
End sockets.
