(* ===== verification/Shadow.v ===== *)
(** internal/shadow: passive policy evaluation, which says what a policy would
    decide about recorded or hand-written actions and enforces nothing. *)
From S2P Require Import Prelude GoFmt GoTime GoCrypto GoJson GoJsonText Types Signer Did Status Policy Macaroon.
From S2P Require Import Credential Chain AuditLog Export Verifier Auditsink Wal Enforce Honest.

Module shadow.

Inductive SourceKind := SourceExport | SourceActionsFile.
#[global] Instance SourceKind_eq_dec : EqDecision SourceKind.
Proof. solve_decision. Defined.
Definition kind_text (k : SourceKind) : string :=
  match k with SourceExport => "export" | SourceActionsFile => "actions-file" end.

Record Source := mkSource { Kind : SourceKind; Path : string; Index : Z }.
Record Input := mkInput { in_Source : Source; in_Action : types.Action; in_Actual : option types.Decision }.

(** [None] is a nil pointer. *)
Record Prediction := mkPrediction
  { Source_ : Source; Action : types.Action; Consequential : bool; PolicyDenies : bool; MatchedRule : string;
    Reason : string; PolicyVersion : string; PolicyID : string; Note : string;
    Actual : option types.Decision; ActualSourceVerified : option bool; Agreement : option bool }.

Definition predictionNote : string :=
  "kessa-shadow prediction; nothing was enforced and this is not an audit record".

Section Shadow.
Context {UT : UnicodeTables}.

Definition Predict (pol : policy.Policy) (policyID : string) (i : Input) : result Prediction :=
  let! dec := wrap (fun e => Errorf "shadow: classify %s entry %d: %w"
                               [AStr (kind_text (Kind (in_Source i))); AInt (Index (in_Source i)); AErr e])
                (policy.Evaluate pol (in_Action i)) in
  Ok (mkPrediction (in_Source i) (in_Action i) (types.Consequential dec) (negb (types.Allowed dec))
        (types.RuleFired dec) (types.Reason dec) (types.PolicyVersion dec) policyID predictionNote
        (in_Actual i)
        (match in_Actual i with Some _ => Some false | None => None end)
        (match in_Actual i with
         | Some actual => Some (Bool.eqb (types.Consequential actual) (types.Consequential dec))
         | None => None
         end)).

Fixpoint PredictAll (pol : policy.Policy) (policyID : string) (inputs : list Input) : result (list Prediction) :=
  match inputs with
  | [] => Ok []
  | i :: inputs =>
      let! p := Predict pol policyID i in
      let! ps := PredictAll pol policyID inputs in
      Ok (p :: ps)
  end.

(** ** Inputs from an export *)

(** The conversion [int(seq)] of an unsigned 64-bit number. *)
Definition int_of_uint64 (z : Z) : Z := if z <? 2 ^ 63 then z else z - 2 ^ 64.

(** [exp] is what encoding/json decodes of the file. *)
Definition FromExport (exp : export.Export) (path : string) : result (list Input) :=
  let! e := wrap (fun err => Errorf "shadow: read export %q: %w" [AStr path; AErr err]) (export.Parse exp) in
  Ok (map (fun x => mkInput (mkSource SourceExport path (int_of_uint64 (audit.Seq x))) (audit.Action x)
                      (Some (audit.Decision x))) (export.Entries e)).

(** ** Inputs from a file of actions *)

Record SkippedLine := mkSkipped { Line : Z; Err_ : error }.

Definition maxLineBytes : Z := 8 * 1024 * 1024.

(** The tokens of [bufio.ScanLines]: no token after a final newline, and a
    trailing carriage return is dropped. *)
Definition dropCR (l : bytes) : bytes :=
  match last l with Some Byte.x0d => take (pred (length l)) l | _ => l end.
Definition lines_of (data : bytes) : list bytes :=
  let ls := split_bytes Byte.x0a data in
  match last ls with Some [] => take (pred (length ls)) ls | _ => ls end.

(** The scanner ends with an error when a line does not fit its buffer. *)
Definition scan (data : bytes) : result (list bytes) :=
  check! reject_if (existsb (fun l => maxLineBytes <=? len l) (lines_of data)) (New "bufio.Scanner: token too long");
  Ok (map dropCR (lines_of data)).

(** One line: nothing for a blank one, an action, or the reason it is skipped.
    The strict decoder of an action is the JSON library's. *)
Definition read_line (decode : string -> result types.Action) (l : bytes) : option (result types.Action) :=
  let raw := TrimSpace (b2s l) in
  if raw =?s "" then None
  else Some (let! a := decode raw in
             check! reject_if (TrimSpace (types.Type_ a) =?s "") (New ("action has no " +:+ dq "type"));
             Ok a).

Fixpoint read_lines (decode : string -> result types.Action) (path : string) (line : Z) (ls : list bytes)
  : list Input * list SkippedLine :=
  match ls with
  | [] => ([], [])
  | l :: ls =>
      let '(inputs, skipped) := read_lines decode path (line + 1) ls in
      match read_line decode l with
      | None => (inputs, skipped)
      | Some (Err e) => (inputs, mkSkipped line e :: skipped)
      | Some (Ok a) => (mkInput (mkSource SourceActionsFile path line) a None :: inputs, skipped)
      end
  end.

(** The stream is its bytes, and the error that ends it if it is not the end of
    the file. *)
Definition FromActions (decode : string -> result types.Action) (data : bytes) (broken : option error) (path : string)
  : result (list Input * list SkippedLine) :=
  let! ls := wrap (fun e => Errorf "shadow: read actions %q: %w" [AStr path; AErr e])
               (let! ls := scan data in
                match broken with Some e => Err e | None => Ok ls end) in
  Ok (read_lines decode path 1 ls).

(** ** Summary *)

Record Summary := mkSummary
  { Total : Z; Consequential_ : Z; Routine : Z; PolicyDenied : Z; Compared : Z; Agreed : Z;
    UnderPredicted : Z; OverPredicted : Z; Skipped : Z }.

Definition tally (s : Summary) (p : Prediction) : Summary :=
  let '(mkSummary t c r d cm ag un ov sk) := s in
  let '(c, r) := if Consequential p then (c + 1, r) else (c, r + 1) in
  let d := if PolicyDenies p then d + 1 else d in
  match Agreement p with
  | None => mkSummary t c r d cm ag un ov sk
  | Some agreed =>
      let cm := cm + 1 in
      if agreed then mkSummary t c r d cm (ag + 1) un ov sk
      else if negb (Consequential p) then mkSummary t c r d cm ag (un + 1) ov sk
      else mkSummary t c r d cm ag un (ov + 1) sk
  end.
Definition Summarize (preds : list Prediction) (skipped : Z) : Summary :=
  fold_left tally preds (mkSummary (len preds) 0 0 0 0 0 0 0 skipped).

(** ** Output *)

Definition Source_json (s : Source) : json :=
  JObj (field "kind" (JStr (kind_text (Kind s))) ++ field "path" (JStr (Path s)) ++ field "index" (JInt (Index s))).
Definition opt_field {A} (k : string) (f : A -> json) (o : option A) : list (string * json) :=
  match o with Some a => field k (f a) | None => [] end.
Definition Prediction_json (p : Prediction) : result json :=
  let! a := types.Action_json (Action p) in
  Ok (JObj (field "source" (Source_json (Source_ p)) ++ field "action" a
            ++ field "consequential" (JBool (Consequential p)) ++ field "policyDenies" (JBool (PolicyDenies p))
            ++ field "matchedRule" (JStr (MatchedRule p)) ++ field "reason" (JStr (Reason p))
            ++ field "policyVersion" (JStr (PolicyVersion p)) ++ field "policyID" (JStr (PolicyID p))
            ++ field "_note" (JStr (Note p)) ++ opt_field "actual" types.Decision_json (Actual p)
            ++ opt_field "actualSourceVerified" JBool (ActualSourceVerified p)
            ++ opt_field "agreement" JBool (Agreement p))).

(** What a writer that accepts everything has received, and the error that
    stopped the loop. *)
Fixpoint write_lines (i : Z) (preds : list Prediction) : bytes * option error :=
  match preds with
  | [] => ([], None)
  | p :: preds =>
      match Marshal (Prediction_json p) with
      | Err e => ([], Some (Errorf "shadow: encode prediction %d: %w" [AInt i; AErr e]))
      | Ok body => let '(out, err) := write_lines (i + 1) preds in (body ++ Byte.x0a :: out, err)
      end
  end.
Definition WriteJSONLines (preds : list Prediction) : bytes * option error := write_lines 0 preds.

Definition truncate (s : string) (n : Z) : string :=
  if len (s2b s) <=? n then s
  else if n <=? 1 then b2s (take (Z.to_nat n) (s2b s))
  else b2s (take (Z.to_nat (n - 1)) (s2b s) ++ [Byte.xe2; Byte.x80; Byte.xa6]).

(** ** What the figures count *)

Definition under (p : Prediction) : bool :=
  match Actual p with Some d => types.Consequential d && negb (Consequential p) | None => false end.
Definition over (p : Prediction) : bool :=
  match Actual p with Some d => negb (types.Consequential d) && Consequential p | None => false end.
Definition agrees (p : Prediction) : bool :=
  match Actual p with Some d => Bool.eqb (types.Consequential d) (Consequential p) | None => false end.
Definition compared (p : Prediction) : bool := match Actual p with Some _ => true | None => false end.
Definition count (f : Prediction -> bool) (l : list Prediction) : Z := len (List.filter f l).

Lemma count_cons f p l : count f (p :: l) = (if f p then 1 else 0) + count f l.
Proof. unfold count. simpl. destruct (f p); rewrite ?len_cons; lia. Qed.

(** The shape of a prediction. *)
Lemma Predict_Ok pol pid i p :
  Predict pol pid i = Ok p ->
  exists dec, policy.Evaluate pol (in_Action i) = Ok dec /\ Consequential p = types.Consequential dec
    /\ PolicyDenies p = negb (types.Allowed dec) /\ MatchedRule p = types.RuleFired dec
    /\ Actual p = in_Actual i /\ Source_ p = in_Source i /\ Action p = in_Action i
    /\ Agreement p = (if compared p then Some (agrees p) else None)
    /\ ActualSourceVerified p = (if compared p then Some false else None).
Proof.
  unfold Predict. intros H. gosimp H. apply Ok_inj in H. subst p. exists a. unfold compared, agrees. simpl.
  by destruct (in_Actual i).
Qed.

Lemma PredictAll_Forall2 pol pid ins ps :
  PredictAll pol pid ins = Ok ps <-> Forall2 (fun i p => Predict pol pid i = Ok p) ins ps.
Proof.
  revert ps. induction ins as [|i ins IH]; intros ps; cbn [PredictAll].
  - split; [by intros [= <-]|]. intros H. inversion H. done.
  - rewrite rbind_Ok. split.
    + intros (p & Hp & (qs & Hqs & [= <-])%rbind_Ok). constructor; [done|by apply IH].
    + intros H. inversion H as [|? p ? qs Hp Hq]; subst. exists p. split; [done|]. apply IH in Hq. by rewrite Hq.
Qed.

Lemma PredictAll_total pol pid ins : exists ps, PredictAll pol pid ins = Ok ps /\ length ps = length ins.
Proof.
  induction ins as [|i ins (ps & Hps & Hl)]; [by exists []|]. cbn [PredictAll]. unfold Predict.
  destruct (policy.Evaluate_ok pol (in_Action i)) as [d ->]. cbn [wrap rbind]. rewrite Hps. cbn [rbind].
  eexists. split; [done|]. simpl. by rewrite Hl.
Qed.

Lemma tally_eq s p :
  Agreement p = (if compared p then Some (agrees p) else None) ->
  tally s p =
  mkSummary (Total s) (Consequential_ s + (if Consequential p then 1 else 0))
    (Routine s + (if negb (Consequential p) then 1 else 0))
    (PolicyDenied s + (if PolicyDenies p then 1 else 0)) (Compared s + (if compared p then 1 else 0))
    (Agreed s + (if agrees p then 1 else 0)) (UnderPredicted s + (if under p then 1 else 0))
    (OverPredicted s + (if over p then 1 else 0)) (Skipped s).
Proof.
  intros Ha. destruct s as [t c r d cm ag un ov sk]. unfold tally. rewrite Ha. unfold compared, agrees, under, over.
  destruct (Actual p) as [[? ac ? ? ? ?]|], (Consequential p), (PolicyDenies p); try destruct ac;
    cbn [types.Consequential Bool.eqb negb andb]; f_equal; cbn; lia.
Qed.

Lemma summary_from s ps :
  Forall (fun p => Agreement p = (if compared p then Some (agrees p) else None)) ps ->
  fold_left tally ps s =
  mkSummary (Total s) (Consequential_ s + count Consequential ps)
    (Routine s + count (fun p => negb (Consequential p)) ps)
    (PolicyDenied s + count PolicyDenies ps) (Compared s + count compared ps) (Agreed s + count agrees ps)
    (UnderPredicted s + count under ps) (OverPredicted s + count over ps) (Skipped s).
Proof.
  revert s. induction ps as [|p ps IH]; intros s H; cbn [fold_left].
  - destruct s. unfold count, len. simpl. f_equal; lia.
  - apply Forall_cons in H as [Hp H]. rewrite IH, tally_eq by done. rewrite !count_cons. simpl. f_equal; lia.
Qed.

Lemma predicted_shape pol pid ins ps :
  PredictAll pol pid ins = Ok ps -> Forall (fun p => Agreement p = (if compared p then Some (agrees p) else None)) ps.
Proof.
  intros H%PredictAll_Forall2. induction H as [|i p ins ps Hp _ IH]; [done|]. constructor; [|done].
  by apply Predict_Ok in Hp as (? & ? & ? & ? & ? & ? & ? & ? & ? & ?).
Qed.

Lemma count_partition (f g h : Prediction -> bool) l :
  (forall p, (if f p then 1 else 0) = (if g p then 1 else 0) + (if h p then 1 else 0) :> Z) ->
  count f l = count g l + count h l.
Proof. intros H. induction l as [|p l IH]; [done|]. rewrite !count_cons, H. lia. Qed.

Lemma compared_inputs pol pid ins ps :
  PredictAll pol pid ins = Ok ps ->
  count compared ps = len (List.filter (fun i => bool_decide (is_Some (in_Actual i))) ins).
Proof.
  intros H%PredictAll_Forall2. induction H as [|i p ins ps Hp _ IH]; [done|]. rewrite count_cons, IH.
  apply Predict_Ok in Hp as (d & _ & _ & _ & _ & E & _). unfold compared at 1. rewrite E. simpl.
  destruct (in_Actual i); simpl; [by rewrite len_cons, Z.add_comm|done].
Qed.

(** The actions that the policy lets pass as routine and that were gated. *)
Definition let_through (pol : policy.Policy) (i : Input) : bool :=
  match in_Actual i, policy.Evaluate pol (in_Action i) with
  | Some actual, Ok d => types.Consequential actual && negb (types.Consequential d)
  | _, _ => false
  end.
Lemma under_inputs pol pid ins ps :
  PredictAll pol pid ins = Ok ps -> count under ps = len (List.filter (let_through pol) ins).
Proof.
  intros H%PredictAll_Forall2. induction H as [|i p ins ps Hp _ IH]; [done|]. rewrite count_cons, IH.
  apply Predict_Ok in Hp as (d & He & Hc & _ & _ & E & _).
  replace (under p) with (let_through pol i) by (unfold under, let_through; rewrite E, He, Hc; by destruct (in_Actual i)).
  simpl. destruct (let_through pol i); [by rewrite len_cons, Z.add_comm|done].
Qed.

(** the summary of a run accounts for every input: it never fails, every
    action is counted once as consequential or routine, every recorded decision
    once as agreed, under-predicted or over-predicted, and the dangerous figure
    is exactly the number of recorded actions that were treated as consequential
    and that the candidate policy calls routine. *)
Theorem summary_accounts pol pid ins skipped :
  exists ps, PredictAll pol pid ins = Ok ps
    /\ let s := Summarize ps skipped in
       Total s = len ins /\ Consequential_ s + Routine s = Total s /\ Skipped s = skipped
       /\ Compared s = len (List.filter (fun i => bool_decide (is_Some (in_Actual i))) ins)
       /\ Agreed s + UnderPredicted s + OverPredicted s = Compared s
       /\ UnderPredicted s = len (List.filter (let_through pol) ins).
Proof.
  destruct (PredictAll_total pol pid ins) as (ps & Hps & Hl). exists ps. split; [done|]. unfold Summarize.
  rewrite summary_from by (by eapply predicted_shape). cbn [Total Consequential_ Routine Skipped Compared Agreed UnderPredicted OverPredicted].
  assert (Ht : len ps = len ins) by (unfold len; by rewrite Hl). rewrite !Z.add_0_l. split_and!.
  - done.
  - pose proof (count_partition (fun _ => true) Consequential (fun p => negb (Consequential p)) ps) as Hc.
    rewrite <- Hc by (intros p; by destruct (Consequential p)). unfold count. by rewrite List.filter_true.
  - done.
  - by eapply compared_inputs.
  - rewrite (count_partition compared (fun p => agrees p || under p) over ps), (count_partition (fun p => agrees p || under p) agrees under ps); [done| |];
      intros p; unfold compared, agrees, under, over; destruct (Actual p) as [[? [] ? ? ? ?]|], (Consequential p); done.
  - by eapply under_inputs.
Qed.

(** ** Files of actions *)

Lemma read_lines_spec decode path n ls ins sk :
  read_lines decode path n ls = (ins, sk) ->
  len ins + len sk = len (List.filter (fun l => negb (policy.blank (b2s l))) ls)
  /\ Forall (fun i => n <= Index (in_Source i) < n + len ls /\ in_Actual i = None
               /\ exists l, ls !! Z.to_nat (Index (in_Source i) - n) = Some l /\ decode (TrimSpace (b2s l)) = Ok (in_Action i)
                    /\ policy.blank (types.Type_ (in_Action i)) = false) ins.
Proof.
  revert n ins sk. induction ls as [|l ls IH]; intros n ins sk; cbn [read_lines].
  { intros [= <- <-]. by split. }
  destruct (read_lines decode path (n + 1) ls) as [ins' sk'] eqn:E. destruct (IH _ _ _ E) as [Hc Hf].
  assert (Hf' : Forall (fun i => n <= Index (in_Source i) < n + len (l :: ls) /\ in_Actual i = None
               /\ exists l', (l :: ls) !! Z.to_nat (Index (in_Source i) - n) = Some l' /\ decode (TrimSpace (b2s l')) = Ok (in_Action i)
                    /\ policy.blank (types.Type_ (in_Action i)) = false) ins').
  { eapply Forall_impl; [exact Hf|]. intros i (Hr & Ha & l' & Hl & Hd). rewrite len_cons. split_and!; [lia|lia|done|].
    exists l'. split; [|done].
    by replace (Z.to_nat (Index (in_Source i) - n)) with (S (Z.to_nat (Index (in_Source i) - (n + 1)))) by lia. }
  unfold read_line, policy.blank in *. simpl. destruct (TrimSpace (b2s l) =?s "") eqn:Eb; simpl.
  { intros [= <- <-]. by split. }
  rewrite len_cons. destruct (decode (TrimSpace (b2s l))) as [a|e] eqn:Ed; cbn [rbind].
  - destruct (TrimSpace (types.Type_ a) =?s "") eqn:Et; cbn [reject_if rbind]; intros [= <- <-].
    + rewrite len_cons. split; [lia|done].
    + rewrite len_cons. split; [lia|]. constructor; [|done]. simpl. rewrite len_cons, Z.sub_diag.
      pose proof (len_nonneg ls). split_and!; [lia|lia|done|]. exists l. by split_and!.
  - intros [= <- <-]. rewrite len_cons. split; [lia|done].
Qed.

(** reading a file of actions loses nothing silently: an error is returned only
    when the stream breaks or a line does not fit the scanner's buffer;
    otherwise every line that is not blank yields exactly one action or one
    reported skip, every action carries the number of the line it was decoded
    from, and none of them claims a recorded decision. *)
Theorem actions_accounted decode data broken path :
  (is_ok (FromActions decode data broken path) = true
   <-> broken = None /\ Forall (fun l => len l < maxLineBytes) (lines_of data))
  /\ forall ins sk, FromActions decode data broken path = Ok (ins, sk) ->
     let ls := map dropCR (lines_of data) in
     len ins + len sk = len (List.filter (fun l => negb (policy.blank (b2s l))) ls)
     /\ Forall (fun i => in_Actual i = None
          /\ exists l, ls !! Z.to_nat (Index (in_Source i) - 1) = Some l
               /\ decode (TrimSpace (b2s l)) = Ok (in_Action i)) ins.
Proof.
  assert (Hs : existsb (fun l => maxLineBytes <=? len l) (lines_of data) = false
               <-> Forall (fun l => len l < maxLineBytes) (lines_of data)).
  { rewrite <- not_true_iff_false, existsb_exists, Forall_forall. split.
    - intros Hn x Hx. apply Z.nle_gt. intros Hle. apply Hn. exists x. split; [by apply list_elem_of_In|by apply Z.leb_le].
    - intros Hall (x & Hx%list_elem_of_In & Hle%Z.leb_le). apply Hall in Hx. lia. }
  unfold FromActions, scan. split.
  - rewrite <- Hs. destruct (existsb _ _); cbn [reject_if rbind wrap is_ok]; [split; [done|by intros [_ ?]]|].
    destruct broken as [e|]; cbn; [|done]. split; [done|by intros [? _]].
  - intros ins sk H. gosimp H. destruct broken; [done|].
    apply Ok_inj in Ha, H. subst a. apply Ok_inj in Ha0. subst a0.
    destruct (read_lines_spec _ _ _ _ _ _ H) as [Hc Hf]. split; [exact Hc|].
    eapply Forall_impl; [exact Hf|]. intros i (_ & Hn & l & Hl & Hd & _). split; [done|]. by exists l.
Qed.
End Shadow.

(** ** Replaying an honest log *)

Section Replay.
Context {CR : Crypto} {UT : UnicodeTables}.

(** Whatever a decision ends in, it keeps the classification the evaluator gave. *)
Lemma decide_classification p req ch terminal seq prevHash :
  let d := (enforce.evaluate p (enforce.Action req)).1 in
  let dec := enforce.decide p req ch terminal seq prevHash in
  types.Consequential dec = types.Consequential d /\ types.RuleFired dec = types.RuleFired d
  /\ (types.Allowed dec = true -> types.Allowed d = true).
Proof.
  unfold enforce.decide. destruct (enforce.evaluate p (enforce.Action req)) as [d [e|]]; cbn [fst]; [by split_and!|].
  destruct (types.Allowed d) eqn:Ea; cbn [negb]; [|split_and!; try done; congruence].
  destruct (macaroon.Satisfies _ _); [|split_and!; try done; simpl; congruence].
  destruct (types.Consequential d) eqn:Ec; cbn [negb]; [|split_and!; try done; simpl; congruence].
  destruct (enforce.status_ p); [|split_and!; try done; simpl; congruence].
  destruct (enforce.anyHopRevoked _ _ _) as [[[w|] n]|e]; [split_and!; try done; simpl; congruence| |split_and!; try done; simpl; congruence].
  destruct (enforce.verifyApproval _ _ _ _ _); split_and!; try done; simpl; congruence.
Qed.

(** What replay compares. *)
Definition classified (p : enforce.Proxy) (e : audit.Entry) : Prop :=
  let d := (enforce.evaluate p (audit.Action e)).1 in
  types.Consequential (audit.Decision e) = types.Consequential d
  /\ types.RuleFired (audit.Decision e) = types.RuleFired d
  /\ (types.Allowed (audit.Decision e) = true -> types.Allowed d = true).

Lemma step_classified p ev :
  enforce.evaluator (honest.step p ev) = enforce.evaluator p
  /\ enforce.carriedPolicy (honest.step p ev) = enforce.carriedPolicy p
  /\ (Forall (classified p) (audit.entries (enforce.log p)) ->
      Forall (classified p) (audit.entries (enforce.log (honest.step p ev)))).
Proof.
  destruct ev as [req now d|n|n]; [|done..]. cbn [honest.step].
  pose proof (enforce.Handle_cases p req now d) as H. destruct (enforce.Handle p req now d) as [p' [r|f]]; cbn [fst].
  - destruct H as (ch & p1 & _ & _ & _ & Hd & ->).
    destruct (honest.decided_config _ _ _ _ _ _ _ _ Hd) as ((_ & He & Hc & _) & _).
    destruct (enforce.decided_entry _ _ _ _ _ _ _ _ Hd) as (_ & _ & Ha & _ & Hdec & _ & _ & _ & _ & _ & Hl).
    destruct Hd as (? & ? & l & ? & _ & _ & _ & E & _).
    destruct (enforce.forward_log p1 (enforce.Entry r)) as (-> & _). rewrite Hl. split_and!.
    + rewrite <- He. unfold enforce.forward. by destruct (enforce.sink p1).
    + rewrite <- Hc. unfold enforce.forward. by destruct (enforce.sink p1).
    + intros Hf. apply Forall_app. split; [done|]. constructor; [|done]. unfold classified. rewrite Hdec, Ha, E.
      apply decide_classification.
  - destruct H as (w & _ & [->|(u & _ & ->)]); [done|].
    destruct (enforce.forwardUnattributable_log (enforce.set_wal p w) now u) as (-> & _).
    unfold enforce.forwardUnattributable. by destruct (enforce.sink _).
Qed.

Lemma run_classified p evs :
  audit.entries (enforce.log p) = [] ->
  enforce.evaluator (honest.run p evs) = enforce.evaluator p
  /\ enforce.carriedPolicy (honest.run p evs) = enforce.carriedPolicy p
  /\ Forall (classified p) (audit.entries (enforce.log (honest.run p evs))).
Proof.
  intros H0. induction evs as [|ev evs (He & Hc & Hf)] using rev_ind; [change (honest.run p []) with p; by rewrite H0|]. rewrite honest.run_snoc.
  destruct (step_classified (honest.run p evs) ev) as (He' & Hc' & Hf'). rewrite He', Hc'. split_and!; [done..|].
  assert (Hq : forall e, classified p e <-> classified (honest.run p evs) e).
  { intros e. unfold classified, enforce.evaluate. by rewrite He. }
  eapply Forall_impl; [apply Hf'; eapply Forall_impl; [exact Hf|]|]; intros e; apply Hq.
Qed.

(** replaying what a proxy recorded under the policy it enforced reports no
    difference: every recorded decision is compared, every comparison agrees
    (so nothing is under- or over-predicted), the same rule is named, and what
    the policy is predicted to forbid was denied. *)
Theorem replay_agrees ep pol r st sk w p evs exp path ins pid ps :
  enforce.NewProxy (enforce.mkConfig (Some ep) (Some (enforce.PolicyEvaluator pol)) (Some r) st sk w) = Ok p ->
  honest.fresh w -> enforce.Export (honest.run p evs) = Ok exp -> FromExport exp path = Ok ins ->
  PredictAll pol pid ins = Ok ps ->
  let s := Summarize ps 0 in
  Total s = len (export.Entries exp) /\ Compared s = Total s /\ Agreed s = Total s
  /\ UnderPredicted s = 0 /\ OverPredicted s = 0
  /\ Forall2 (fun p e => Agreement p = Some true /\ MatchedRule p = types.RuleFired (audit.Decision e)
                /\ (PolicyDenies p = true -> types.Allowed (audit.Decision e) = false)) ps (export.Entries exp).
Proof.
  intros Hnew Hfresh Hexp Hins Hps. destruct (honest.NewProxy_fresh _ _ _ _ _ _ _ Hnew Hfresh) as (id & _ & ->).
  destruct (run_classified (enforce.mkProxy ep (enforce.PolicyEvaluator pol) (Some pol) id r st (audit.NewLog ep) ∅ sk [] [] w) evs eq_refl)
    as (_ & _ & Hf).
  unfold enforce.Export, export.Build, audit.Entries in Hexp. gosimp Hexp. apply Ok_inj in Hexp.
  assert (He : export.Entries exp = audit.entries (enforce.log (honest.run (enforce.mkProxy ep (enforce.PolicyEvaluator pol) (Some pol) id r st (audit.NewLog ep) ∅ sk [] [] w) evs))) by by rewrite <- Hexp.
  rewrite <- He in Hf. clear He Hexp. unfold FromExport in Hins. gosimp Hins. apply Ok_inj in Hins. subst ins.
  apply export.Parse_same in Ha1. subst a1. pose proof (predicted_shape _ _ _ _ Hps) as Hshape. apply PredictAll_Forall2 in Hps.
  assert (H2 : Forall2 (fun p e => compared p = true /\ agrees p = true /\ MatchedRule p = types.RuleFired (audit.Decision e)
                /\ (PolicyDenies p = true -> types.Allowed (audit.Decision e) = false)) ps (export.Entries exp)).
  { pose proof (proj1 (Forall2_fmap_l _ _ _ _) Hps) as Hps'. clear Hps. rename Hps' into Hps. apply Forall2_flip. rewrite Forall2_same_length_lookup. split.
    - by apply Forall2_length in Hps.
    - intros i e q Hi Hq. pose proof (Forall2_lookup_lr _ _ _ _ _ _ Hps Hi Hq) as Hp.
      rewrite Forall_lookup in Hf. destruct (Hf i e Hi) as (C1 & C2 & C3).
      apply Predict_Ok in Hp as (d & Hev & P1 & P2 & P3 & P4 & _). unfold enforce.evaluate in *.
      cbn [enforce.evaluator in_Action] in *. rewrite Hev in *. cbn [fst] in *.
      unfold compared, agrees. rewrite P4, P1, P2, P3, C2. cbn [in_Actual]. rewrite C1. split_and!; [done|by rewrite eqb_reflx|done|].
      intros Hn%negb_true_iff. destruct (types.Allowed (audit.Decision e)); [|done]. by rewrite C3 in Hn. }
  assert (Hlen : len ps = len (export.Entries exp)) by (apply Forall2_length in H2; unfold len; by rewrite H2).
  assert (Hall : Forall (fun q => compared q = true /\ agrees q = true) ps).
  { eapply Forall2_Forall_l; [exact H2|]. apply Forall_forall. intros. naive_solver. }
  unfold Summarize. rewrite summary_from by done. cbn [Total Compared Agreed UnderPredicted OverPredicted].
  assert (Hcount : count compared ps = len ps /\ count agrees ps = len ps /\ count under ps = 0 /\ count over ps = 0).
  { clear -Hall. induction Hall as [|q ps [Hc Ha] _ (I1 & I2 & I3 & I4)]; [done|]. rewrite !count_cons, len_cons, Hc, Ha.
    assert (Hu : under q = false /\ over q = false).
    { unfold compared, agrees, under, over in *. destruct (Actual q) as [[? [] ? ? ? ?]|], (Consequential q); done. }
    destruct Hu as [-> ->]. lia. }
  destruct Hcount as (-> & -> & -> & ->). split_and!; try lia.
  rewrite Forall2_same_length_lookup in H2 |- *. destruct H2 as [Hle H2]. split; [done|]. intros i q e Hq He.
  destruct (H2 i q e Hq He) as (Hc & Hg & Hm & Hd). rewrite Forall_lookup in Hshape. rewrite (Hshape i q Hq), Hc, Hg.
  done.
Qed.
End Replay.

(** ** Concrete runs *)

#[local] Existing Instance verifier.accepting.
#[local] Existing Instance verifier.ascii_tables.

Definition test_inputs : list Input :=
  Eval vm_compute in match FromExport verifier.test_export "audit.json" with Ok l => l | Err _ => [] end.
Definition test_predictions : list Prediction :=
  Eval vm_compute in match PredictAll export.test_policy "pid" test_inputs with Ok l => l | Err _ => [] end.

Lemma replay_agrees_witness :
  let s := Summarize test_predictions 0 in
  Total s = len (export.Entries verifier.test_export) /\ Compared s = Total s /\ Agreed s = Total s
  /\ UnderPredicted s = 0 /\ OverPredicted s = 0
  /\ Forall2 (fun p e => Agreement p = Some true /\ MatchedRule p = types.RuleFired (audit.Decision e)
                /\ (PolicyDenies p = true -> types.Allowed (audit.Decision e) = false))
       test_predictions (export.Entries verifier.test_export).
Proof.
  apply (replay_agrees verifier.test_proxy export.test_policy chain.test_resolver
           (verifier.Status verifier.test_inputs) true (Some enforce.test_wal) honest.test_start honest.test_run
           verifier.test_export "audit.json" test_inputs "pid" test_predictions).
  - exact (enforce.test_state_new enforce.test_wal eq_refl).
  - reflexivity.
  - exact honest.test_exported.
  - vm_compute. reflexivity.
  - vm_compute. reflexivity.
Defined.

(** A decoder that knows one line. *)
Definition test_decode (s : string) : result types.Action :=
  if s =?s "one" then Ok (policy.example_action "7") else Err (New "invalid character").
Definition test_file : bytes := s2b "one" ++ Byte.x0d :: Byte.x0a :: Byte.x0a :: s2b "two".
Lemma actions_accounted_witness :
  let ls := map dropCR (lines_of test_file) in
  1 + 1 = len (List.filter (fun l => negb (policy.blank (b2s l))) ls)
  /\ Forall (fun i => in_Actual i = None
       /\ exists l, ls !! Z.to_nat (Index (in_Source i) - 1) = Some l /\ test_decode (TrimSpace (b2s l)) = Ok (in_Action i))
       [mkInput (mkSource SourceActionsFile "a.jsonl" 1) (policy.example_action "7") None].
Proof.
  apply (proj2 (actions_accounted test_decode test_file None "a.jsonl")
           [mkInput (mkSource SourceActionsFile "a.jsonl" 1) (policy.example_action "7") None]
           [mkSkipped 3 (New "invalid character")]).
  vm_compute. reflexivity.
Defined.
Example summary_of_test : Summarize test_predictions 2 = mkSummary 1 1 0 0 1 1 0 0 2.
Proof. vm_compute. reflexivity. Qed.

End shadow.
