(* ===== verification/Shadowcmd.v ===== *)
(** cmd/shadow (main.go) and the text report of internal/shadow: passive policy
    evaluation from its command line to its output and exit code. *)
From S2P Require Import Prelude GoFmt GoTime GoCrypto GoPath GoJson GoJsonText Types Signer Did Status Policy Macaroon.
From S2P Require Import Credential Chain AuditLog Export Texts Verifier Auditsink Wal Enforce Honest Shadow.

Module shadowcmd.

Definition exitOK : Z := 0.
Definition exitUsage : Z := 2.

(** ** The text report (internal/shadow) *)

(** A width of fmt counts runes, an invalid byte as one. *)
Fixpoint rune_count (fuel : nat) (b : bytes) : nat :=
  match fuel, b with
  | S fuel, _ :: _ =>
      let w := match decode_rune b with Some (_, w) => w | None => 1%nat end in
      S (rune_count fuel (drop w b))
  | _, _ => O
  end.
Definition left_pad (s : string) (width : nat) : string :=
  s +:+ b2s (repeat Byte.x20 (width - rune_count (String.length s) (s2b s))).

Definition class (p : shadow.Prediction) : string :=
  if shadow.PolicyDenies p then "POLICY-DENIED" else if shadow.Consequential p then "CONSEQUENTIAL" else "routine".
Definition mark (p : shadow.Prediction) : string :=
  match shadow.Agreement p with
  | Some false =>
      if negb (shadow.Consequential p) then "  <-- differs from recorded (UNDER-predicted)" else "  <-- differs from recorded"
  | _ => ""
  end.
Definition row (p : shadow.Prediction) : string :=
  "  " +:+ left_pad (Itoa (shadow.Index (shadow.Source_ p))) 4 +:+ " " +:+ left_pad (class p) 14 +:+ " "
  +:+ left_pad (shadow.truncate (types.Type_ (shadow.Action p)) 18) 18 +:+ " "
  +:+ left_pad (shadow.truncate (types.Target (shadow.Action p)) 22) 22 +:+ " rule=" +:+ shadow.MatchedRule p +:+ mark p.

Section Text.
Context {UT : UnicodeTables}.

Definition by_line (a b : shadow.SkippedLine) : Prop := shadow.Line a <= shadow.Line b.
#[global] Instance by_line_dec : RelDecision by_line := fun a b => Z_le_dec (shadow.Line a) (shadow.Line b).

Definition comparison (s : shadow.Summary) : list string :=
  if 0 <? shadow.Compared s then
    [""; Sprintf "  Compared against %d recorded decisions:" [AInt (shadow.Compared s)];
     Sprintf "    agreed            %d" [AInt (shadow.Agreed s)];
     Sprintf "    under-predicted   %d  (policy says routine, enforcement treated it as consequential)" [AInt (shadow.UnderPredicted s)];
     Sprintf "    over-predicted    %d  (policy says consequential, enforcement treated it as routine)" [AInt (shadow.OverPredicted s)]]
    ++ (if 0 <? shadow.UnderPredicted s then
          [""; "    NOTE: under-prediction is the direction that matters. This candidate policy"%string;
           Sprintf "          would let %d action(s) proceed unapproved that the recorded policy gated." [AInt (shadow.UnderPredicted s)]]
        else [])
    ++ [""; "    Agreement compares CONSEQUENTIALITY only. An action a policy allows can still"%string;
        "    be denied at enforcement time for reasons policy does not decide (delegated"%string;
        "    authority, revocation, proof of possession, approval)."%string]
  else [].
Definition skipped_lines (skipped : list shadow.SkippedLine) : list string :=
  if 0 <? len skipped then
    ["" ; Sprintf "  %d input line(s) skipped:" [AInt (len skipped)]]
    ++ map (fun sk => Sprintf "    line %d: %v" [AInt (shadow.Line sk); AErr (shadow.Err_ sk)]) (merge_sort by_line skipped)
  else [].
Definition WriteText (preds : list shadow.Prediction) (s : shadow.Summary) (skipped : list shadow.SkippedLine) : list string :=
  [""; "kessa-shadow: PREDICTIONS ONLY, nothing was enforced"%string; ""]
  ++ (if len preds =? 0 then ["  no actions classified"%string] else [])
  ++ map row preds
  ++ [""; Sprintf "  %d classified: %d consequential, %d routine, %d denied by policy"
            [AInt (shadow.Total s); AInt (shadow.Consequential_ s); AInt (shadow.Routine s); AInt (shadow.PolicyDenied s)]]
  ++ comparison s ++ skipped_lines skipped
  ++ [""; "  These are PREDICTIONS from a policy file. Nothing here was authorized,"%string;
      "  gated, or signed, and none of it is an audit record."%string; ""].

(** ** The command *)

Record flags := mkFlags { policyPath : string; exportPath : string; actionsPath : string; format : string; outPath : string }.
(** What the operating system answers: a read of the actions file that breaks
    off, the creation of the output, and the writing to it. *)
Record answers := mkAnswers { broken : option error; create : option error; write : files.answer }.

Context (d_policy : bytes -> result texts.policy_fields) (d_export : bytes -> result export.Export)
  (d_action : string -> result types.Action).

(** What is classified: the actions of an export, or of a file of them. *)
Definition inputs_of (fs : files.files) (a : answers) (fl : flags) : result (list shadow.Input * list shadow.SkippedLine) :=
  if negb (exportPath fl =?s "") then
    let! data := wrap (fun e => Errorf "read export: %v" [AErr e]) (files.ReadFile fs (s2b (exportPath fl))) in
    let! exp := wrap (fun e => Errorf "shadow: read export %q: %w" [AStr (exportPath fl); AErr (Errorf "export: parse: %w" [AErr e])]) (d_export data) in
    let! ins := shadow.FromExport exp (exportPath fl) in Ok (ins, [])
  else
    let! data := wrap (fun e => Errorf "read actions: %v" [AErr e]) (files.ReadFile fs (s2b (actionsPath fl))) in
    shadow.FromActions d_action data (broken a) (actionsPath fl).

Definition text_bytes (lines : list string) : bytes := concat (map (fun l => s2b l ++ [Byte.x0a]) lines).

(** What is to be written, and the error that stops it. *)
Definition output (fl : flags) (preds : list shadow.Prediction) (skipped : list shadow.SkippedLine) : bytes * option error :=
  if format fl =?s "text" then (text_bytes (WriteText preds (shadow.Summarize preds (len skipped)) skipped), None)
  else shadow.WriteJSONLines preds.

(** [run] up to its output. *)
Definition predictions (fs : files.files) (a : answers) (fl : flags)
  : result (list shadow.Input * list shadow.Prediction * list shadow.SkippedLine) :=
  check! reject_if (policyPath fl =?s "") (New "-policy is required");
  check! reject_if ((exportPath fl =?s "") && (actionsPath fl =?s "")) (New "exactly one of -export or -actions is required");
  check! reject_if (negb (exportPath fl =?s "") && negb (actionsPath fl =?s "")) (New "-export and -actions are mutually exclusive; pass exactly one");
  check! reject_if (negb (format fl =?s "json") && negb (format fl =?s "text")) (Errorf "unknown -format %q (want json or text)" [AStr (format fl)]);
  let! pol := texts.policy_Load d_policy fs (policyPath fl) in
  let! policyID := export.PolicyID pol in
  let! ins := inputs_of fs a fl in
  let! preds := shadow.PredictAll pol policyID ins.1 in
  Ok (ins.1, preds, ins.2).

(** The files after the run, what went to standard output, and the exit code. *)
Definition run (fs : files.files) (a : answers) (fl : flags) : files.files * bytes * Z :=
  match predictions fs a fl with
  | Err _ => (fs, [], exitUsage)
  | Ok (_, preds, skipped) =>
      let '(text, stopped) := output fl preds skipped in
      let written := match write a with files.Done => text | files.Refused _ => [] | files.Partial n _ => take n text end in
      let code := match stopped, write a with None, files.Done => exitOK | _, _ => exitUsage end in
      if outPath fl =?s "" then (fs, written, code)
      else match create a with
           | Some _ => (fs, [], exitUsage)
           | None => (<[outPath fl := written]> fs, [], code)
           end
  end.
End Text.

(** ** What a run does *)

Lemma json_lines i preds out :
  shadow.write_lines i preds = (out, None) ->
  exists js, Forall2 (fun p j => shadow.Prediction_json p = Ok j) preds js /\ out = concat (map (fun j => encode j ++ [Byte.x0a]) js).
Proof.
  revert i out. induction preds as [|p preds IH]; intros i out; cbn [shadow.write_lines].
  - intros [= <-]. by exists [].
  - unfold Marshal. destruct (shadow.Prediction_json p) as [j|e] eqn:E; cbn [rbind]; [|done].
    destruct (shadow.write_lines (i + 1) preds) as [t err] eqn:E2. intros [= <- ->]. destruct (IH _ _ E2) as (js & Hjs & ->).
    exists (j :: js). split; [by constructor|]. cbn [map concat]. by rewrite <- app_assoc.
Qed.

Section Runs.
Context {UT : UnicodeTables} (d_policy : bytes -> result texts.policy_fields) (d_export : bytes -> result export.Export)
  (d_action : string -> result types.Action).

Lemma predictions_all fs a fl ins preds skipped :
  predictions d_policy d_export d_action fs a fl = Ok (ins, preds, skipped) ->
  exists pol id, texts.policy_Load d_policy fs (policyPath fl) = Ok pol /\ shadow.PredictAll pol id ins = Ok preds
    /\ inputs_of d_export d_action fs a fl = Ok (ins, skipped) /\ (exportPath fl = ""%string <-> actionsPath fl <> ""%string).
Proof.
  unfold predictions. intros H. gosimp H. apply Ok_inj in H as [= <- <- <-]. destruct a2 as [i s]. exists a0, a1.
  split_and!; [done..|]. split; [intros E1 E2; destruct Ha0; naive_solver|]. intros E. destruct Ha1 as [|E']; naive_solver.
Qed.

Lemma predicted_note pol id ins preds :
  shadow.PredictAll pol id ins = Ok preds ->
  length preds = length ins /\ Forall (fun p => shadow.Note p = shadow.predictionNote /\ shadow.ActualSourceVerified p <> Some true) preds.
Proof.
  intros H%shadow.PredictAll_Forall2. split; [symmetry; by eapply Forall2_length|]. eapply Forall2_Forall_r; [exact H|].
  apply Forall_true. intros i p Hp. unfold shadow.Predict in Hp. gosimp Hp. apply Ok_inj in Hp as <-. cbn. by destruct (shadow.in_Actual i).
Qed.

(** a run of kessa-shadow only ever writes the file it was told to, and that
    only once every action is classified: whatever it refuses - the flags, the
    policy the proxy would refuse, an export that does not parse, a file of
    actions it cannot read to the end - it refuses with nothing written.  When it
    exits with 0 the output is whole: in the JSON form one line for each action
    that was read, in order, each carrying the note that nothing was enforced, and
    no recorded decision in it is marked as verified. *)
Theorem shadow_run fs a fl :
  let '(fs', stdout, code) := run d_policy d_export d_action fs a fl in
  (forall p, p <> outPath fl \/ outPath fl = ""%string -> fs' !! p = fs !! p)
  /\ (is_ok (predictions d_policy d_export d_action fs a fl) = false -> fs' = fs /\ stdout = [] /\ code = exitUsage)
  /\ (code = exitOK -> exists ins preds skipped,
        predictions d_policy d_export d_action fs a fl = Ok (ins, preds, skipped) /\ length preds = length ins
        /\ (if outPath fl =?s "" then stdout else default [] (fs' !! outPath fl)) = (output fl preds skipped).1
        /\ Forall (fun p => shadow.Note p = shadow.predictionNote /\ shadow.ActualSourceVerified p <> Some true) preds
        /\ (format fl = "json"%string -> exists js, Forall2 (fun p j => shadow.Prediction_json p = Ok j) preds js
              /\ (output fl preds skipped).1 = concat (map (fun j => encode j ++ [Byte.x0a]) js))).
Proof.
  unfold run. destruct (predictions d_policy d_export d_action fs a fl) as [[[ins preds] skipped]|e] eqn:Hp;
    [|by split_and!].
  destruct (predictions_all _ _ _ _ _ _ Hp) as (pol & id & _ & Hall & _). apply predicted_note in Hall as [Hlen Hnote].
  destruct (output fl preds skipped) as [text stopped] eqn:Ho.
  assert (Hdone : forall written, match stopped, write a with None, files.Done => exitOK | _, _ => exitUsage end = exitOK ->
            written = match write a with files.Done => text | files.Refused _ => [] | files.Partial n _ => take n text end ->
            written = text /\ (format fl = "json"%string -> exists js, Forall2 (fun p j => shadow.Prediction_json p = Ok j) preds js
              /\ text = concat (map (fun j => encode j ++ [Byte.x0a]) js))).
  { intros written. destruct stopped; [done|]. destruct (write a); [|done..]. intros _ ->. split; [done|]. intros Hf.
    unfold output in Ho. rewrite Hf in Ho. by apply json_lines in Ho. }
  destruct (outPath fl =?s "") eqn:Hout.
  - split_and!; [done|done|]. intros Hc. destruct (Hdone _ Hc eq_refl) as [Hw Hj]. exists ins, preds, skipped. rewrite Ho. by split_and!.
  - apply str_eqb_false in Hout. destruct (create a) as [e|]; [by split_and!|]. split_and!; [|done|].
    + intros p [Hpn| ]; [|done]. by apply (lookup_insert_ne (M := gmap string)).
    + intros Hc. destruct (Hdone _ Hc eq_refl) as [Hw Hj]. exists ins, preds, skipped. rewrite Ho. split_and!; [done..| |done|done].
      etransitivity; [refine (f_equal (default []) _); apply (lookup_insert_eq (M := gmap string))|exact Hw].
Qed.
End Runs.

(** ** A concrete run *)

#[local] Instance no_tables : UnicodeTables := {| IsPrint := fun _ => false |}.
Definition test_policy : texts.policy_fields :=
  ("v1"%string, Some [policy.mkRule "wire" (Some [policy.mkCondition "action.type" "==" "payment.wire"]) true false "no wires"],
   Some (policy.mkDefault true false "routine")).
Definition test_files : files.files := {[ "policy.json"%string := []; "actions.jsonl"%string := s2b "wire" ++ [Byte.x0a] ++ s2b "junk" ++ [Byte.x0a] ]}.
Definition test_action (s : string) : result types.Action :=
  if s =?s "wire" then Ok (types.mkAction "payment.wire" "acct/1" ∅ (Date 2026 6 1 12 0 0 0)) else Err (New "invalid character").
Definition test_flags : flags := mkFlags "policy.json" "" "actions.jsonl" "text" "".
Definition test_answers : answers := mkAnswers None None files.Done.
Definition test_run : files.files * bytes * Z :=
  run (fun _ => Ok test_policy) (fun _ => Err (New "?")) test_action test_files test_answers test_flags.

Example test_table :
  has_prefix (s2b (row (shadow.mkPrediction (shadow.mkSource shadow.SourceActionsFile "actions.jsonl" 1)
     (types.mkAction "payment.wire" "acct/1" ∅ zero_time) false true "wire" "no wires" "v1" "" shadow.predictionNote None None None)))
   (s2b "  1    POLICY-DENIED  payment.wire       acct/1                 rule=wire") = true.
Proof. vm_compute. reflexivity. Qed.

Lemma shadow_run_witness :
  exists fs' out, test_run = (fs', out, exitOK) /\ (forall p, fs' !! p = test_files !! p).
Proof.
  assert (Hc : test_run.2 = exitOK) by (vm_compute; reflexivity).
  pose proof (shadow_run (fun _ => Ok test_policy) (fun _ => Err (New "?")) test_action test_files test_answers test_flags) as H.
  change (run (fun _ => Ok test_policy) (fun _ => Err (New "?")) test_action test_files test_answers test_flags) with test_run in H.
  destruct test_run as [[fs' out] code]. cbn [snd] in Hc. subst code. exists fs', out. split; [reflexivity|].
  intros p. apply (proj1 H). right. reflexivity.
Defined.
End shadowcmd.
