(* ===== verification/Reusetoml.v ===== *)
(** scripts/reusecheck (reusetoml.go): the reader of REUSE.toml.

    Module [reusetoml] has the scanner's passes over a line, the values, the state
    the reader carries from line to line and the whole reader; and the text a
    list of annotations is written as, which the reader reads back. *)
From S2P Require Import Prelude GoFmt Webhost GoPath Ingress Listeners.

Module reusetoml.

Record annotation := mkAnnotation { paths : list string; license : string; copyright : string; block : Z }.

Definition trim (b : bytes) : bytes := trim_right (trim_left b).
Definition quote : Byte.byte := Byte.x22.
Definition nl : string := b2s [Byte.x0a].

(** ** Lines and values *)

Fixpoint strip_comment (inStr : bool) (line : bytes) : bytes :=
  match line with
  | [] => []
  | c :: r =>
      if byte_is c 34 then c :: strip_comment (negb inStr) r
      else if byte_is c 35 && negb inStr then []
      else c :: strip_comment inStr r
  end.
Definition stripComment (line : bytes) : bytes := strip_comment false line.

Fixpoint depth_after (depth : Z) (inStr : bool) (s : bytes) : Z :=
  match s with
  | [] => depth
  | c :: r =>
      if byte_is c 34 then depth_after depth (negb inStr) r
      else if byte_is c 91 && negb inStr then depth_after (depth + 1) inStr r
      else if byte_is c 93 && negb inStr then depth_after (depth - 1) inStr r
      else depth_after depth inStr r
  end.
Definition balanced (s : bytes) : bool := depth_after 0 false s =? 0.

Section Toml.
Context {UT : UnicodeTables}.

Definition unquote (s : bytes) : result string :=
  if (len s <? 2) || negb (has_prefix [quote] s) || negb (has_prefix [quote] (rev s)) then
    Err (Errorf "expected a quoted string, got %q" [AStr (b2s s)])
  else Ok (b2s (take (length s - 2) (drop 1 s))).

(** The loop over the inside of an array; [cur] is the element being read. *)
Fixpoint elements (inStr : bool) (cur : bytes) (inner : bytes) : result (list string) :=
  match inner with
  | [] => if bool_decide (trim cur = []) then Ok [] else let! s := unquote (trim cur) in Ok [s]
  | c :: r =>
      if byte_is c 34 then elements (negb inStr) (cur ++ [c]) r
      else if byte_is c 44 && negb inStr then
        let! s := unquote (trim cur) in let! out := elements inStr [] r in Ok (s :: out)
      else elements inStr (cur ++ [c]) r
  end.

Definition parseValue (v : bytes) : result (list string) :=
  let v := trim v in
  if bool_decide (v = []) then Err (New "empty value")
  else if negb (has_prefix [Byte.x5b] v) then let! s := unquote v in Ok [s]
  else if negb (has_prefix [Byte.x5d] (rev v)) then Err (New "array is not closed")
  else
    let inner := trim (take (length v - 2) (drop 1 v)) in
    if bool_decide (inner = []) then Ok [] else elements false [] inner.

(** ** The reader's state *)

Record state := mkState
  { anns : list annotation; cur : option annotation; pending : bytes; lineNo : Z; stmtNo : Z }.
Definition with_cur (st : state) (c : option annotation) : state := mkState (anns st) c (pending st) (lineNo st) (stmtNo st).
Definition with_pending (st : state) (p : bytes) : state := mkState (anns st) (cur st) p (lineNo st) (stmtNo st).

(** What a statement's key may be, where it stands. *)
Definition check_key (path : string) (st : state) (key : string) : result bool :=
  let no := stmtNo st in
  if key =?s "version" then
    match cur st with
    | Some _ => Err (Errorf "%s:%d: version must be top level, not inside [[annotations]]" [AStr path; AInt no])
    | None => Ok false
    end
  else if (key =?s "path") || (key =?s "SPDX-FileCopyrightText") || (key =?s "SPDX-License-Identifier") then
    match cur st with
    | None => Err (Errorf "%s:%d: %q outside any [[annotations]] block" [AStr path; AInt no; AStr key])
    | Some _ => Ok true
    end
  else if key =?s "precedence" then
    Err (Errorf ("%s:%d: this file sets `precedence`, which changes which licence" +:+ nl +:+
      "  statement wins when two disagree. scripts/reusecheck deliberately treats a" +:+ nl +:+
      "  disagreement as an error rather than resolving one, so it cannot honour this" +:+ nl +:+
      "  key. Decide which behaviour you want and teach the checker, do not leave both.") [AStr path; AInt no])
  else
    Err (Errorf ("%s:%d: unknown key %q. This parser covers the subset REUSE.toml" +:+ nl +:+
      "  uses here and fails on the rest on purpose, so an unsupported key cannot be" +:+ nl +:+
      "  silently ignored. Extend scripts/reusecheck if the key is intended.") [AStr path; AInt no; AStr key]).

(** What a key's values do to the open block. *)
Definition assign (path : string) (no : Z) (a : annotation) (key : string) (values : list string) : result annotation :=
  if key =?s "path" then Ok (mkAnnotation (paths a ++ values) (license a) (copyright a) (block a))
  else if key =?s "SPDX-FileCopyrightText" then
    match values with
    | [v] => Ok (mkAnnotation (paths a) (license a) v (block a))
    | _ => Err (Errorf "%s:%d: SPDX-FileCopyrightText takes one string" [AStr path; AInt no])
    end
  else
    match values with
    | [v] => Ok (mkAnnotation (paths a) v (copyright a) (block a))
    | _ => Err (Errorf "%s:%d: SPDX-License-Identifier takes one string" [AStr path; AInt no])
    end.

Definition flush (path : string) (st : state) : result state :=
  let stmt := trim (pending st) in
  let st := with_pending st [] in
  if bool_decide (stmt = []) then Ok st
  else
    match cut_at Byte.x3d stmt with
    | (_, None) => Err (Errorf "%s:%d: not a key/value statement: %q" [AStr path; AInt (stmtNo st); AStr (b2s stmt)])
    | (key, Some value) =>
        let key := b2s (trim key) in
        let! kept := check_key path st key in
        match kept, cur st with
        | true, Some a =>
            let! values := wrap (fun e => Errorf "%s:%d: %s: %w" [AStr path; AInt (stmtNo st); AStr key; AErr e]) (parseValue (trim value)) in
            let! a := assign path (stmtNo st) a key values in
            Ok (with_cur st (Some a))
        | _, _ => Ok st
        end
    end.

Definition closeBlock (path : string) (st : state) : result state :=
  match cur st with
  | None => Ok st
  | Some a =>
      check! reject_if (bool_decide (paths a = [])) (Errorf "%s: [[annotations]] block %d has no path" [AStr path; AInt (block a)]);
      check! reject_if (license a =?s "") (Errorf "%s: [[annotations]] block %d has no SPDX-License-Identifier" [AStr path; AInt (block a)]);
      check! reject_if (copyright a =?s "") (Errorf "%s: [[annotations]] block %d has no SPDX-FileCopyrightText" [AStr path; AInt (block a)]);
      Ok (mkState (anns st ++ [a]) None (pending st) (lineNo st) (stmtNo st))
  end.

Definition flush_balanced (path : string) (st : state) : result state :=
  if balanced (pending st) then flush path st else Ok st.

(** One line of the file. *)
Definition read_one (path : string) (st : state) (raw : bytes) : result state :=
  let st := mkState (anns st) (cur st) (pending st) (lineNo st + 1) (stmtNo st) in
  let line := trim (stripComment raw) in
  if bool_decide (line = []) && bool_decide (pending st = []) then Ok st
  else if negb (bool_decide (pending st = [])) then flush_balanced path (with_pending st (pending st ++ s2b " " ++ line))
  else if bool_decide (line = s2b "[[annotations]]") then
    let! st := closeBlock path st in
    Ok (with_cur st (Some (mkAnnotation [] "" "" (len (anns st) + 1))))
  else if has_prefix (s2b "[") line then
    Err (Errorf "%s:%d: unsupported table %q; only [[annotations]] is handled" [AStr path; AInt (lineNo st); AStr (b2s line)])
  else flush_balanced path (mkState (anns st) (cur st) line (lineNo st) (lineNo st)).
Fixpoint read_all (path : string) (st : state) (raws : list bytes) : result state :=
  match raws with
  | [] => Ok st
  | raw :: raws => let! st := read_one path st raw in read_all path st raws
  end.

Definition start : state := mkState [] None [] 0 0.
Definition parseREUSE (path : string) (file : result bytes) : result (list annotation) :=
  let! data := wrap (fun e => Errorf "reading %s: %w" [AStr path; AErr e]) file in
  let! st := read_all path start (split_bytes Byte.x0a data) in
  check! reject_if (negb (bool_decide (pending st = []))) (Errorf "%s: unterminated value at end of file" [AStr path]);
  let! st := closeBlock path st in
  check! reject_if (bool_decide (anns st = [])) (Errorf "%s: no [[annotations]] blocks found; expected at least one" [AStr path]);
  Ok (anns st).

(** ** What is accepted *)

(** An annotation that says everything it has to. *)
Definition complete (a : annotation) : Prop := paths a <> [] /\ license a <> ""%string /\ copyright a <> ""%string.
Definition numbered (l : list annotation) : Prop := forall i a, l !! i = Some a -> complete a /\ block a = Z.of_nat i + 1.
Record wf (st : state) : Prop := mkWf
  { wf_anns : numbered (anns st); wf_cur : forall a, cur st = Some a -> block a = len (anns st) + 1 }.

Lemma assign_block path no a key values a' : assign path no a key values = Ok a' -> block a' = block a.
Proof. unfold assign. repeat case_goal; try done; by intros [= <-]. Qed.
Lemma flush_wf path st st' : wf st -> flush path st = Ok st' -> wf st'.
Proof.
  intros [Wa Wc]. unfold flush. case_bool_decide as Hs; [by intros [= <-]|]. clear Hs. destruct (cut_at _ _) as [key [value|]]; [|done].
  assert (W' : wf (with_pending st [])) by by constructor.
  intros H. gosimp H. destruct a; [|by apply Ok_inj in H as <-]. cbn [cur with_pending] in H.
  destruct (cur st) as [a|] eqn:Ec; [|by apply Ok_inj in H as <-].
  gosimp H. apply Ok_inj in H as <-. constructor; [exact Wa|]. intros x [= <-]. rewrite (assign_block _ _ _ _ _ _ Ha1). by apply Wc.
Qed.
Lemma close_wf path st st' : wf st -> closeBlock path st = Ok st' -> wf st' /\ cur st' = None.
Proof.
  intros W. pose proof W as [Wa Wc]. unfold closeBlock. destruct (cur st) as [a|] eqn:Ec; [|by intros [= <-]].
  intros H. gosimp H. apply Ok_inj in H as <-. apply bool_decide_eq_false in Ha.
  split; [|done]. constructor; [|done]. cbn [anns]. intros i x Hi.
  apply lookup_app_Some in Hi as [Hi|[Hl Hi]]; [by apply Wa|]. apply list_lookup_singleton_Some in Hi as [Hz <-].
  split; [by split_and!|]. rewrite (Wc _ eq_refl). unfold len. lia.
Qed.
Lemma read_one_wf path st raw st' : wf st -> read_one path st raw = Ok st' -> wf st'.
Proof.
  intros W. assert (Hf : forall p l s st', flush_balanced path (mkState (anns st) (cur st) p l s) = Ok st' -> wf st').
  { intros p l s x. unfold flush_balanced. destruct W as [Wa Wc]. destruct (balanced _); [apply flush_wf; by constructor|]. intros [= <-]. by constructor. }
  unfold read_one. destruct (_ && _); [intros [= <-]; by destruct W|]. destruct (negb _); [apply Hf|].
  case_bool_decide as Hl; [clear Hl|destruct (has_prefix _ _); [done|apply Hf]].
  intros H'. gosimp H'. apply Ok_inj in H' as <-. apply close_wf in Ha as [[Wa' _] _]; [|by destruct W].
  constructor; [done|]. by intros a' [= <-].
Qed.

(** what the reader accepts says everything it has to: there is an annotation,
    each has a path, a licence and a copyright, and they are numbered as they
    come. *)
Theorem accepted_complete path file l : parseREUSE path file = Ok l -> l <> [] /\ numbered l.
Proof.
  unfold parseREUSE. intros H. gosimp H. apply Ok_inj in H as <-. apply bool_decide_eq_false in Ha3.
  split; [done|]. eapply close_wf; [|done]. clear - Ha0. assert (W : wf start) by by constructor.
  revert W Ha0. generalize start. induction (split_bytes Byte.x0a a) as [|raw raws IH]; intros st W; cbn [read_all]; [by intros [= <-]|].
  intros H. gosimp H. eapply IH; [|exact H]. by eapply read_one_wf.
Qed.
End Toml.

(** ** Trimming between solid edges *)

Definition solid (c : Byte.byte) : bool := (33 <=? bz c) && (bz c <=? 126).
Lemma strip_solid c r : solid c = true -> first_strip space_encodings (c :: r) = None /\ first_strip (map (@rev Z) space_encodings) (c :: r) = None.
Proof. intros H. split; destruct c; (discriminate H || reflexivity). Qed.
Lemma trim_left_solid c r : solid c = true -> trim_left (c :: r) = c :: r.
Proof. intros H. unfold trim_left. cbn [length trim_with]. by rewrite (proj1 (strip_solid c r H)). Qed.
Lemma trim_right_solid b d : solid d = true -> trim_right (b ++ [d]) = b ++ [d].
Proof.
  intros H. unfold trim_right. rewrite rev_app_distr, length_app. cbn [rev app length]. rewrite Nat.add_1_r. cbn [trim_with].
  rewrite (proj2 (strip_solid d (rev b) H)). cbn [rev]. by rewrite rev_involutive.
Qed.
Lemma trim_left_space b : trim_left (Byte.x20 :: b) = trim_left b.
Proof. reflexivity. Qed.
Lemma trim_right_space b : trim_right (b ++ [Byte.x20]) = trim_right b.
Proof. unfold trim_right. rewrite rev_app_distr, length_app. cbn [rev app length]. by rewrite Nat.add_1_r. Qed.

(** What starts and ends with something to see. *)
Definition edged (b : bytes) : Prop := exists c m d, b = c :: m ++ [d] /\ solid c = true /\ solid d = true.
Lemma trim_edged b : edged b -> trim b = b.
Proof. intros (c & m & d & -> & Hc & Hd). unfold trim. rewrite trim_left_solid by done. by apply (trim_right_solid (c :: m)). Qed.
Lemma trim_padded n m b : edged b -> trim (repeat Byte.x20 n ++ b ++ repeat Byte.x20 m) = b.
Proof.
  intros Hb. rewrite <- (trim_edged b Hb) at 2. unfold trim. induction n as [|n IH]; [|exact IH]. cbn [repeat app].
  destruct Hb as (c & r & d & -> & Hc & Hd). cbn [app]. rewrite !trim_left_solid by done.
  change (c :: (r ++ [d]) ++ repeat Byte.x20 m) with ((c :: r ++ [d]) ++ repeat Byte.x20 m).
  induction m as [|m IH]; [by rewrite app_nil_r|]. replace (S m) with (m + 1)%nat by lia.
  rewrite repeat_app, app_assoc. cbn [repeat]. rewrite trim_right_space. exact IH.
Qed.
Lemma edged_nonempty b : edged b -> b <> [].
Proof. by intros (c & m & d & -> & _). Qed.

(** ** Strings without quotes pass through the scanners *)

Definition plain (s : string) : Prop := quote ∉ s2b s /\ Byte.x0a ∉ s2b s.
Definition quoted (s : string) : bytes := quote :: s2b s ++ [quote].
Lemma not_quote c : byte_is c 34 = true -> c = quote.
Proof. unfold byte_is. rewrite Z.eqb_eq. intros H. apply (inj Z_of_byte). exact H. Qed.
Lemma skip_quote {A} (c : Byte.byte) (x y : A) b : quote ∉ c :: b -> (if byte_is c 34 then x else y) = y.
Proof. rewrite not_elem_of_cons. intros [Hc _]. destruct (byte_is c 34) eqn:E; [|done]. apply not_quote in E. congruence. Qed.

Lemma strip_inside a b : quote ∉ a -> strip_comment true (a ++ b) = a ++ strip_comment true b.
Proof.
  induction a as [|c a IH]; [done|]. intros H. cbn [app strip_comment]. rewrite (skip_quote _ _ _ _ H). cbn [negb]. rewrite andb_false_r.
  f_equal. apply IH. by apply not_elem_of_cons in H as [_ H].
Qed.
Lemma depth_inside z a b : quote ∉ a -> depth_after z true (a ++ b) = depth_after z true b.
Proof.
  induction a as [|c a IH]; [done|]. intros H. cbn [app depth_after]. rewrite (skip_quote _ _ _ _ H). cbn [negb]. rewrite !andb_false_r.
  apply IH. by apply not_elem_of_cons in H as [_ H].
Qed.
Lemma elements_inside {UT : UnicodeTables} cur a b : quote ∉ a -> elements true cur (a ++ b) = elements true (cur ++ a) b.
Proof.
  revert cur. induction a as [|c a IH]; intros cur; [by rewrite app_nil_r|]. intros H. cbn [app elements]. rewrite (skip_quote _ _ _ _ H).
  cbn [negb]. rewrite !andb_false_r, IH; [by rewrite <- app_assoc|]. by apply not_elem_of_cons in H as [_ H].
Qed.
Lemma strip_quoted s b : plain s -> strip_comment false (quoted s ++ b) = quoted s ++ strip_comment false b.
Proof. intros [Hq _]. unfold quoted. cbn [app]. rewrite <- app_assoc. cbn. rewrite strip_inside by done. cbn. by rewrite <- app_assoc. Qed.
Lemma depth_quoted z s b : plain s -> depth_after z false (quoted s ++ b) = depth_after z false b.
Proof. intros [Hq _]. unfold quoted. cbn [app]. rewrite <- app_assoc. cbn. by rewrite depth_inside. Qed.
Lemma quoted_edged s : edged (quoted s).
Proof. by exists quote, (s2b s), quote. Qed.
Lemma unquote_quoted {UT : UnicodeTables} s : unquote (quoted s) = Ok s.
Proof.
  unfold unquote, quoted, len. assert (H2 : has_prefix [quote] (rev (quote :: s2b s ++ [quote])) = true) by (cbn [rev]; rewrite rev_app_distr; reflexivity).
  rewrite H2. cbn [has_prefix]. rewrite bool_decide_true by done. cbn [andb negb orb].
  assert (Hl : length (quote :: s2b s ++ [quote]) = S (S (length (s2b s)))) by (cbn [length]; rewrite length_app; cbn [length]; lia).
  rewrite Hl. destruct (Z.ltb_spec (Z.of_nat (S (S (length (s2b s))))) 2); [lia|]. cbn [orb skipn].
  replace (S (S (length (s2b s))) - 2)%nat with (length (s2b s)) by lia. rewrite drop_0, take_app_length. by rewrite b2s_s2b.
Qed.

(** ** The text of a list of annotations *)

Definition key_line (key : bytes) (v : string) : bytes := key ++ s2b " = " ++ quoted v.
Definition path_line (p : string) : bytes := s2b "  " ++ quoted p ++ [Byte.x2c].
Definition block_lines (a : annotation) : list bytes :=
  s2b "[[annotations]]" :: s2b "path = [" :: map path_line (paths a)
  ++ [s2b "]"; key_line (s2b "SPDX-FileCopyrightText") (copyright a); key_line (s2b "SPDX-License-Identifier") (license a)].
Definition file_lines (l : list annotation) : list bytes :=
  s2b "version = 1" :: concat (map (fun a => [] :: block_lines a) l) ++ [[]].
Definition text (l : list annotation) : bytes := join_bytes Byte.x0a (file_lines l).

(** What can be written: every string on one line and without a quote. *)
Definition printable (a : annotation) : Prop := Forall plain (paths a) /\ plain (license a) /\ plain (copyright a).

Lemma split_joined sep ls : ls <> [] -> Forall (fun l => sep ∉ l) ls -> split_bytes sep (join_bytes sep ls) = ls.
Proof.
  assert (H1 : forall x, sep ∉ x -> split_bytes sep x = [x]).
  { induction x as [|c x IH]; [done|]. rewrite not_elem_of_cons. intros [Hc Hx]. cbn [split_bytes]. rewrite bool_decide_false by congruence. by rewrite IH. }
  assert (H2 : forall x r, sep ∉ x -> split_bytes sep (x ++ sep :: r) = x :: split_bytes sep r).
  { induction x as [|c x IH]; intros r; [intros _; cbn [app split_bytes]; by rewrite bool_decide_true|]. rewrite not_elem_of_cons. intros [Hc Hx].
    cbn [app split_bytes]. rewrite bool_decide_false by congruence. by rewrite IH. }
  induction ls as [|l ls IH]; [done|]. intros _ [Hl Hls]%Forall_cons. destruct ls as [|l' ls]; [by apply H1|].
  change (join_bytes sep (l :: l' :: ls)) with (l ++ sep :: join_bytes sep (l' :: ls)). rewrite H2 by done. by rewrite IH.
Qed.

Section Print.
Context {UT : UnicodeTables} (file : string).

Lemma read_all_app st l1 l2 : read_all file st (l1 ++ l2) = let! st := read_all file st l1 in read_all file st l2.
Proof. revert st. induction l1 as [|x l1 IH]; intros st; [done|]. cbn [app read_all]. destruct (read_one file st x); [apply IH|done]. Qed.

Definition items (ps : list string) : bytes := concat (map (fun p => Byte.x20 :: quoted p ++ [Byte.x2c]) ps).
Lemma path_line_read p : plain p -> trim (stripComment (path_line p)) = quoted p ++ [Byte.x2c].
Proof.
  intros Hp. assert (E : stripComment (path_line p) = repeat Byte.x20 2 ++ (quoted p ++ [Byte.x2c]) ++ repeat Byte.x20 0).
  { unfold stripComment, path_line. change (strip_comment false (s2b "  " ++ quoted p ++ [Byte.x2c])) with (Byte.x20 :: Byte.x20 :: strip_comment false (quoted p ++ [Byte.x2c])).
    rewrite strip_quoted by done.
    change (repeat Byte.x20 0) with (@nil Byte.byte). rewrite app_nil_r. reflexivity. }
  rewrite E. apply trim_padded. exists quote, (s2b p ++ [quote]), Byte.x2c. unfold quoted. cbn [app]. by rewrite <- app_assoc.
Qed.

(** An array that stays open keeps its entries. *)
Definition opened (P : bytes) : Prop := P <> [] /\ forall b, depth_after 0 false (P ++ b) = depth_after 1 false b.
Lemma opened_item P p : opened P -> plain p -> opened (P ++ Byte.x20 :: quoted p ++ [Byte.x2c]).
Proof.
  intros [Hn Hd] Hp. split; [by destruct P|]. intros b. rewrite <- app_assoc, Hd. cbn [app depth_after]. cbn -[quoted].
  rewrite <- app_assoc. by rewrite depth_quoted.
Qed.
Lemma entries_read A c P n s ps : opened P -> Forall plain ps ->
  read_all file (mkState A c P n s) (map path_line ps) = Ok (mkState A c (P ++ items ps) (n + len ps) s).
Proof.
  intros HP Hps. revert P n HP. induction Hps as [|p ps Hp _ IH]; intros P n HP.
  { cbn. rewrite app_nil_r. unfold len. cbn. by rewrite Z.add_0_r. }
  cbn [map read_all]. unfold read_one. cbn [anns cur pending lineNo stmtNo]. rewrite path_line_read by done.
  destruct HP as [Hn Hd]. rewrite (bool_decide_false (P = [])) by done. rewrite andb_false_r. cbn [negb].
  unfold flush_balanced, with_pending. cbn [anns cur pending lineNo stmtNo].
  pose proof (opened_item P p (conj Hn Hd) Hp) as Ho. change (s2b " " ++ quoted p ++ [Byte.x2c]) with (Byte.x20 :: quoted p ++ [Byte.x2c]).
  unfold balanced. pose proof (proj2 Ho []) as H1. rewrite app_nil_r in H1. rewrite H1. cbn [depth_after Z.eqb rbind].
  rewrite IH by done. unfold items. cbn [map concat]. rewrite len_cons, <- (app_assoc P). f_equal. f_equal. lia.
Qed.
Lemma elements_items p ps pre : plain p -> Forall plain ps -> pre = [] \/ pre = [Byte.x20] ->
  elements false [] (pre ++ quoted p ++ Byte.x2c :: items ps) = Ok (p :: ps).
Proof.
  intros Hp Hps. revert p pre Hp.
  assert (H : forall p pre r, plain p -> pre = [] \/ pre = [Byte.x20] ->
            elements false [] (pre ++ quoted p ++ Byte.x2c :: r) = let! out := elements false [] r in Ok (p :: out)).
  { intros p pre r [Hq _] Hpre. assert (E : elements false [] (pre ++ quoted p ++ Byte.x2c :: r) = elements true (pre ++ [quote]) (s2b p ++ quote :: Byte.x2c :: r)).
    { unfold quoted. destruct Hpre as [-> | ->]; cbn [app]; rewrite <- app_assoc; reflexivity. }
    rewrite E, elements_inside by done. rewrite <- app_assoc. cbn [app].
    change (elements true ?c (quote :: Byte.x2c :: r)) with (let! s := unquote (trim (c ++ [quote])) in let! out := elements false [] r in Ok (s :: out)).
    assert (Et : trim ((pre ++ quote :: s2b p) ++ [quote]) = quoted p).
    { replace ((pre ++ quote :: s2b p) ++ [quote]) with (pre ++ quoted p) by (unfold quoted; rewrite <- app_assoc; reflexivity).
      destruct Hpre as [-> | ->]; [by apply trim_edged, quoted_edged|]. pose proof (trim_padded 1 0 (quoted p) (quoted_edged p)) as Ht.
      change (repeat Byte.x20 0) with (@nil Byte.byte) in Ht. rewrite app_nil_r in Ht. exact Ht. }
    by rewrite Et, unquote_quoted. }
  induction Hps as [|p' ps Hp' _ IH]; intros p pre Hp Hpre; rewrite H by done; [reflexivity|].
  unfold items. cbn [map concat].
  pose proof (IH p' [Byte.x20] Hp' (or_intror eq_refl)) as IH'. cbn [app] in *. rewrite <- app_assoc. cbn [app].
  unfold items in IH'. by rewrite IH'.
Qed.

(** A value that starts and ends with its brackets. *)
Lemma parse_array ps : ps <> [] -> Forall plain ps -> parseValue (s2b "[" ++ items ps ++ s2b " ]") = Ok ps.
Proof.
  intros Hne Hps. destruct Hps as [|p ps Hp Hps]; [done|]. set (v := s2b "[" ++ items (p :: ps) ++ s2b " ]").
  assert (Ev : v = Byte.x5b :: (items (p :: ps) ++ [Byte.x20]) ++ [Byte.x5d]) by (unfold v; rewrite <- app_assoc; reflexivity).
  assert (Hv : edged v) by (exists Byte.x5b, (items (p :: ps) ++ [Byte.x20]), Byte.x5d; by rewrite Ev).
  unfold parseValue. rewrite trim_edged by done. rewrite bool_decide_false by by apply edged_nonempty.
  assert (Hr : has_prefix [Byte.x5d] (rev v) = true) by (rewrite Ev; cbn [rev]; rewrite rev_app_distr; reflexivity).
  rewrite Hr. assert (Hl : has_prefix [Byte.x5b] v = true) by (rewrite Ev; reflexivity). rewrite Hl. cbn [negb].
  assert (Ein : take (length v - 2) (drop 1 v) = items (p :: ps) ++ [Byte.x20]).
  { rewrite Ev. cbn [length skipn]. rewrite drop_0, length_app. cbn [length].
    replace (S (_ + 1) - 2)%nat with (length (items (p :: ps) ++ [Byte.x20])) by lia. apply take_app_length. }
  assert (Ed : exists c m, items (p :: ps) = Byte.x20 :: m ++ [Byte.x2c] /\ m = quote :: c).
  { clear. assert (H : forall q, exists m, items (q :: ps) = Byte.x20 :: quote :: m ++ [Byte.x2c]).
    { induction ps as [|p' ps' IH]; intros q; unfold items, quoted in *; cbn [map concat] in *.
      - exists (s2b q ++ [quote]). by rewrite app_nil_r.
      - destruct (IH p') as [m Hm]. exists ((s2b q ++ [quote]) ++ Byte.x2c :: Byte.x20 :: quote :: m). rewrite Hm. cbn [app]. by rewrite <- !app_assoc. }
    destruct (H p) as [m Hm]. exists m, (quote :: m). by split. }
  destruct Ed as (c & m & Ei & Em).
  assert (Et : trim (items (p :: ps) ++ [Byte.x20]) = m ++ [Byte.x2c]).
  { rewrite Ei. apply (trim_padded 1 1). exists quote, c, Byte.x2c. by rewrite Em. }
  rewrite Ein, Et. rewrite bool_decide_false by (rewrite Em; discriminate).
  assert (Eq : m ++ [Byte.x2c] = [] ++ quoted p ++ Byte.x2c :: items ps).
  { unfold items in Ei. cbn [map concat] in Ei. injection Ei as Ei. rewrite <- Ei, <- app_assoc. done. }
  rewrite Eq. apply elements_items; [done..|by left].
Qed.

Lemma flush_array A a ps n s : ps <> [] -> Forall plain ps ->
  flush file (mkState A (Some a) (s2b "path = [" ++ items ps ++ s2b " ]") n s)
  = Ok (mkState A (Some (mkAnnotation (paths a ++ ps) (license a) (copyright a) (block a))) [] n s).
Proof.
  intros Hne Hps. set (st := s2b "path = [" ++ items ps ++ s2b " ]").
  assert (Et : trim st = st).
  { apply trim_edged. exists Byte.x70, (s2b "ath = [" ++ items ps ++ [Byte.x20]), Byte.x5d. split; [|done]. unfold st. cbn. by rewrite <- app_assoc. }
  assert (Ec : cut_at Byte.x3d st = (s2b "path ", Some (s2b " [" ++ items ps ++ s2b " ]"))) by reflexivity.
  assert (Ev : trim (s2b " [" ++ items ps ++ s2b " ]") = s2b "[" ++ items ps ++ s2b " ]").
  { pose proof (trim_padded 1 0 (s2b "[" ++ items ps ++ s2b " ]")) as H. change (repeat Byte.x20 0) with (@nil Byte.byte) in H. rewrite app_nil_r in H.
    apply H. exists Byte.x5b, (items ps ++ [Byte.x20]), Byte.x5d. split; [|done]. cbn. by rewrite <- app_assoc. }
  unfold flush. cbn [pending with_pending anns cur lineNo stmtNo]. rewrite Et. rewrite bool_decide_false by discriminate. rewrite Ec, Ev, parse_array by done.
  reflexivity.
Qed.

(** A line that gives one string. *)
Definition string_key (key : string) : Prop := key = "SPDX-FileCopyrightText"%string \/ key = "SPDX-License-Identifier"%string.
Definition assigned (key v : string) (a : annotation) : annotation :=
  if key =?s "SPDX-FileCopyrightText" then mkAnnotation (paths a) (license a) v (block a) else mkAnnotation (paths a) v (copyright a) (block a).
Lemma key_line_read A a n s key v : string_key key -> plain v ->
  read_one file (mkState A (Some a) [] n s) (key_line (s2b key) v) = Ok (mkState A (Some (assigned key v a)) [] (n + 1) (n + 1)).
Proof.
  intros Hkey Hv. assert (E : exists k, s2b key = Byte.x53 :: k /\ trim (s2b key ++ s2b " ") = s2b key
    /\ (forall b, strip_comment false (s2b key ++ s2b " = " ++ b) = s2b key ++ s2b " = " ++ strip_comment false b)
    /\ (forall b, depth_after 0 false (s2b key ++ s2b " = " ++ b) = depth_after 0 false b)
    /\ (forall b, cut_at Byte.x3d (s2b key ++ s2b " = " ++ b) = (s2b key ++ s2b " ", Some (s2b " " ++ b)))
    /\ check_key file (mkState A (Some a) [] (n + 1) (n + 1)) key = Ok true
    /\ assign file (n + 1) a key [v] = Ok (assigned key v a)).
  { destruct Hkey as [-> | ->]; (eexists; split; [reflexivity|]); by split_and!. }
  destruct E as (k & Ek & Etk & Est & Ed & Ecut & Eck & Eas).
  assert (Hedge : edged (key_line (s2b key) v)).
  { exists Byte.x53, (k ++ s2b " = " ++ quote :: s2b v), quote. unfold key_line, quoted. rewrite Ek. split; [|done]. cbn [app]. by rewrite <- !app_assoc. }
  assert (El : trim (stripComment (key_line (s2b key) v)) = key_line (s2b key) v).
  { unfold stripComment, key_line in *. rewrite Est. pose proof (strip_quoted v [] Hv) as H. cbn [strip_comment] in H. rewrite !app_nil_r in H. rewrite H. by apply trim_edged. }
  assert (Ev : trim (s2b " " ++ quoted v) = quoted v).
  { pose proof (trim_padded 1 0 (quoted v) (quoted_edged v)) as H. change (repeat Byte.x20 0) with (@nil Byte.byte) in H. by rewrite app_nil_r in H. }
  unfold read_one. cbn [anns cur pending lineNo stmtNo]. rewrite El. rewrite bool_decide_false by by apply edged_nonempty.
  rewrite (bool_decide_true ([] = [])) by done. cbn [andb negb].
  rewrite (bool_decide_false (_ = s2b "[[annotations]]")) by (unfold key_line; rewrite Ek; discriminate).
  assert (Hp : has_prefix (s2b "[") (key_line (s2b key) v) = false) by (unfold key_line; rewrite Ek; reflexivity). rewrite Hp.
  unfold flush_balanced, balanced. cbn [pending]. unfold key_line at 1. rewrite Ed.
  pose proof (depth_quoted 0 v [] Hv) as Hd. rewrite app_nil_r in Hd. rewrite Hd. cbn [depth_after Z.eqb].
  unfold flush, with_pending. cbn [pending anns cur lineNo stmtNo]. rewrite trim_edged, bool_decide_false by (done || by apply edged_nonempty).
  unfold key_line. rewrite Ecut, Etk, b2s_s2b, Ev, Eck. cbn [rbind].
  assert (Epv : parseValue (quoted v) = Ok [v]).
  { unfold parseValue. rewrite trim_edged by apply quoted_edged. rewrite bool_decide_false by discriminate.
    change (has_prefix [Byte.x5b] (quoted v)) with false. cbn [negb]. by rewrite unquote_quoted. }
  rewrite Epv. cbn [wrap rbind]. rewrite Eas. reflexivity.
Qed.

(** What a line does that opens a block, or its array. *)
Lemma blank_read A c n s : read_one file (mkState A c [] n s) [] = Ok (mkState A c [] (n + 1) s).
Proof. reflexivity. Qed.
Lemma version_read n s : read_one file (mkState [] None [] n s) (s2b "version = 1") = Ok (mkState [] None [] (n + 1) (n + 1)).
Proof. reflexivity. Qed.
Lemma header_read A c n s : (forall x, c = Some x -> complete x) ->
  read_one file (mkState A c [] n s) (s2b "[[annotations]]")
  = Ok (mkState (A ++ option_list c) (Some (mkAnnotation [] "" "" (len (A ++ option_list c) + 1))) [] (n + 1) s).
Proof.
  intros Hc. unfold read_one. change (trim (stripComment (s2b "[[annotations]]"))) with (s2b "[[annotations]]"). cbn [pending cur anns lineNo stmtNo].
  rewrite bool_decide_false by discriminate. rewrite (bool_decide_true ([] = [])), bool_decide_true by done. cbn [andb negb].
  unfold closeBlock. cbn [cur anns]. destruct c as [x|]; cbn [option_list from_option]; [|rewrite app_nil_r; reflexivity].
  destruct (Hc x eq_refl) as (Hp & Hl & Hr). rewrite bool_decide_false by done. apply str_eqb_false in Hl, Hr. rewrite Hl, Hr. reflexivity.
Qed.
Lemma array_read A a n s : read_one file (mkState A (Some a) [] n s) (s2b "path = [") = Ok (mkState A (Some a) (s2b "path = [") (n + 1) (n + 1)).
Proof. reflexivity. Qed.
Lemma array_opened : opened (s2b "path = [").
Proof. by split. Qed.
Lemma bracket_read A a ps n s : ps <> [] -> Forall plain ps ->
  read_one file (mkState A (Some a) (s2b "path = [" ++ items ps) n s) (s2b "]")
  = Ok (mkState A (Some (mkAnnotation (paths a ++ ps) (license a) (copyright a) (block a))) [] (n + 1) s).
Proof.
  intros Hne Hps. unfold read_one. cbn [pending cur anns lineNo stmtNo]. rewrite (bool_decide_false (_ ++ items ps = [])) by discriminate.
  rewrite andb_false_r. cbn [negb]. unfold flush_balanced, with_pending. cbn [pending cur anns lineNo stmtNo].
  change (s2b " " ++ trim (stripComment (s2b "]"))) with (s2b " ]"). rewrite <- app_assoc. unfold balanced.
  rewrite (proj2 array_opened). assert (Hi : forall qs b, Forall plain qs -> depth_after 1 false (items qs ++ b) = depth_after 1 false b).
  { clear. intros qs b. induction 1 as [|q qs Hq _ IH]; [done|]. unfold items in *. cbn [map concat]. rewrite <- app_assoc. cbn [app].
    change (depth_after 1 false (Byte.x20 :: ?x)) with (depth_after 1 false x). rewrite <- app_assoc, depth_quoted by done. exact IH. }
  rewrite Hi by done. cbn [s2b String.list_byte_of_string]. change (depth_after 1 false (s2b " ]") =? 0) with true. cbv iota.
  by apply flush_array.
Qed.

Lemma block_read A c n s a : (forall x, c = Some x -> complete x) -> complete a -> printable a -> block a = len (A ++ option_list c) + 1 ->
  exists n' s', read_all file (mkState A c [] n s) ([] :: block_lines a) = Ok (mkState (A ++ option_list c) (Some a) [] n' s').
Proof.
  intros Hc (Hne & _ & _) (Hps & Hl & Hr) Hb. do 2 eexists. unfold block_lines. cbn [read_all]. rewrite blank_read. cbn [rbind].
  rewrite header_read by done. cbn [rbind]. rewrite array_read. cbn [rbind]. rewrite read_all_app, entries_read by (done || apply array_opened).
  cbn [rbind read_all]. rewrite bracket_read by done. cbn [rbind paths license copyright block app].
  rewrite (key_line_read _ _ _ _ "SPDX-FileCopyrightText") by (done || by left). cbn [rbind].
  rewrite (key_line_read _ _ _ _ "SPDX-License-Identifier") by (done || by right). cbn [rbind]. unfold assigned. cbn -[len].
  rewrite <- Hb. by destruct a.
Qed.

Lemma numbered_snoc l a : numbered (l ++ [a]) -> numbered l /\ complete a /\ block a = len l + 1.
Proof.
  intros H. split; [intros i x Hi; apply H; by apply lookup_app_l_Some|].
  destruct (H (length l) a) as [Hc Hb]; [by rewrite lookup_app_r, Nat.sub_diag by lia|]. split; [done|]. unfold len. lia.
Qed.
(** The blocks, read one after the other: all but the last are closed. *)
Lemma blocks_read n s l a : numbered (l ++ [a]) -> Forall printable (l ++ [a]) ->
  exists n' s', read_all file (mkState [] None [] n s) (concat (map (fun a => [] :: block_lines a) (l ++ [a]))) = Ok (mkState l (Some a) [] n' s').
Proof.
  revert a. induction l as [|x l IH] using rev_ind; intros a Hn Hp; apply Forall_app in Hp as [Hp Ha]; apply Forall_cons in Ha as [Ha _];
    apply numbered_snoc in Hn as (Hn & Hc & Hb).
  - cbn [map app concat]. rewrite app_nil_r. apply (block_read [] None); [intros y Hy; discriminate|exact Hc|exact Ha|exact Hb].
  - destruct (IH x Hn Hp) as (n' & s' & Hr). rewrite map_app, concat_app, read_all_app, Hr. cbn [rbind map concat]. rewrite app_nil_r.
    apply (block_read l (Some x)); [|done..]. intros y [= <-]. by apply numbered_snoc in Hn as (_ & ? & _).
Qed.

Lemma line_notin (l : list annotation) : Forall printable l -> Forall (fun x => Byte.x0a ∉ x) (file_lines l).
Proof.
  assert (Hs : forall s, negb (existsb (fun c => byte_is c 10) (s2b s)) = true -> Byte.x0a ∉ s2b s).
  { intros s H Hin. apply negb_true_iff in H. assert (E : existsb (fun c => byte_is c 10) (s2b s) = true); [|congruence].
    apply existsb_exists. exists Byte.x0a. split; [by apply list_elem_of_In|done]. }
  assert (Hq : forall s, plain s -> Byte.x0a ∉ quoted s).
  { intros s [_ H] Hin. unfold quoted in Hin. apply elem_of_cons in Hin as [|Hin]; [done|]. apply elem_of_app in Hin as [|Hin]; [done|].
    by apply list_elem_of_singleton in Hin. }
  intros Hl. unfold file_lines. constructor; [by apply Hs|]. apply Forall_app. split; [|by repeat constructor; apply not_elem_of_nil].
  apply Forall_concat, Forall_map. eapply Forall_impl; [exact Hl|]. intros a (Hp & Hli & Hc). cbn.
  constructor; [apply not_elem_of_nil|]. unfold block_lines. constructor; [by apply Hs|]. constructor; [by apply Hs|].
  apply Forall_app. split.
  - apply Forall_map. eapply Forall_impl; [exact Hp|]. intros p Hpl. unfold compose, path_line. rewrite !not_elem_of_app.
    split_and!; [by apply Hs|by apply Hq|by apply (Hs ",")].
  - repeat constructor; [by apply (Hs "]")| |]; unfold key_line; rewrite !not_elem_of_app; split_and!; (by apply Hs) || (by apply Hq).
Qed.

(** reading what is written.  A numbered list of complete annotations, whose
    strings have no quote and no newline, is read back from its text exactly:
    whatever else they contain - hashes, brackets, commas, equals signs, spaces -
    is taken for what it is. *)
Theorem text_roundtrip l : l <> [] -> numbered l -> Forall printable l -> parseREUSE file (Ok (text l)) = Ok l.
Proof.
  intros Hne Hn Hp. unfold parseREUSE, text. cbn [wrap rbind]. rewrite split_joined by (done || by apply line_notin).
  destruct (exists_last Hne) as (l' & a & ->). unfold file_lines, start. cbn [read_all]. rewrite version_read. cbn [rbind].
  rewrite read_all_app. destruct (blocks_read (0 + 1) (0 + 1) l' a Hn Hp) as (n & s & ->). cbn [rbind read_all]. rewrite blank_read. cbn [rbind pending].
  rewrite bool_decide_true by done. cbn [negb reject_if rbind]. apply numbered_snoc in Hn as (_ & (Hpa & Hl & Hc) & _).
  unfold closeBlock. cbn [cur anns]. rewrite bool_decide_false by done. apply str_eqb_false in Hl, Hc. rewrite Hl, Hc. cbn [reject_if rbind anns].
  by rewrite bool_decide_false.
Qed.
End Print.

(** ** Concrete files *)
#[local] Instance all_printable : UnicodeTables := Build_UnicodeTables (fun _ => true).

Definition test_annotations : list annotation :=
  [mkAnnotation ["README.md"; "docs/[a]#1.md"; "docs/**"] "Apache-2.0" "2026, Gneiss Group Inc." 1;
   mkAnnotation ["perf/*"] "AGPL-3.0-only" "2026 = #1" 2].
Lemma text_roundtrip_witness : parseREUSE "REUSE.toml" (Ok (text test_annotations)) = Ok test_annotations.
Proof.
  apply (text_roundtrip "REUSE.toml" test_annotations); [discriminate| |].
  - intros i a Hi. destruct i as [|[|i]]; [injection Hi as <-..|discriminate Hi]; (split; [split; [discriminate|split; discriminate]|reflexivity]).
  - repeat constructor; apply (bool_decide_unpack _); vm_compute; exact I.
Defined.
Lemma accepted_complete_witness : test_annotations <> [] /\ numbered test_annotations.
Proof. apply (accepted_complete "REUSE.toml" (Ok (text test_annotations)) test_annotations). vm_compute. reflexivity. Defined.

Definition lines_text (ls : list string) : bytes := join_bytes Byte.x0a (map s2b ls).
(** A comment inside an array, and after a value. *)
Example comments_skipped :
  parseREUSE "R" (Ok (lines_text ["[[annotations]]"; "path = [  # the docs"; "  # all of them"; "  " +:+ dq "docs/#a" +:+ "]"; "";
     "SPDX-FileCopyrightText = " +:+ dq "x" +:+ " # who"; "SPDX-License-Identifier = " +:+ dq "MIT"]%string))
  = Ok [mkAnnotation ["docs/#a"%string] "MIT" "x" 1].
Proof. vm_compute. reflexivity. Qed.
(** A key given twice: the later one wins, silently. *)
Example later_key_wins :
  parseREUSE "R" (Ok (lines_text ["[[annotations]]"; "path = " +:+ dq "a"; "SPDX-FileCopyrightText = " +:+ dq "x";
     "SPDX-License-Identifier = " +:+ dq "MIT"; "SPDX-License-Identifier = " +:+ dq "Apache-2.0"]%string))
  = Ok [mkAnnotation ["a"%string] "Apache-2.0" "x" 1].
Proof. vm_compute. reflexivity. Qed.
(** Two strings with the comma missing: one path, with the quotes in it. *)
Example joined_elements :
  parseREUSE "R" (Ok (lines_text ["[[annotations]]"; "path = [" +:+ dq "a" +:+ " " +:+ dq "b" +:+ "]"; "SPDX-FileCopyrightText = " +:+ dq "x";
     "SPDX-License-Identifier = " +:+ dq "MIT"]%string))
  = Ok [mkAnnotation ["a" +:+ dq " " +:+ "b"]%string "MIT" "x" 1].
Proof. vm_compute. reflexivity. Qed.
(** The key that would change which statement wins is refused, as is one that
    is not known. *)
Example precedence_refused :
  forallb (fun key => negb (is_ok (parseREUSE "R" (Ok (lines_text ["[[annotations]]"; key +:+ " = " +:+ dq "override"]%string)))))
    ["precedence"; "SPDX-PackageName"; "path.x"]%string = true.
Proof. vm_compute. reflexivity. Qed.
End reusetoml.
