(* ===== verification/Reuse.v ===== *)
(** scripts/reusecheck (main.go): every tracked file states exactly one licence,
    and the repository never states two.

    Module [reusecheck] has the matching of annotation paths, the reading of a
    file's own header, the check with its problems and its summary, the
    explanation of one file, and the command's exit code.  What git lists, the
    directory LICENSES and the opening of files are answers of the environment. *)
From S2P Require Import Prelude GoFmt GoPath GoJsonInj Webhost Shadow Reusetoml.

Module reusecheck.

Definition nl : string := b2s [Byte.x0a].

(** ** Paths

    The pattern is turned into a regular expression, anchored at both ends: one
    piece per star, pair of stars, question mark or other byte.  The expression
    always compiles.  package regexp reads the path rune by rune, an invalid byte
    as U+FFFD, and a byte of the pattern stands for the rune of its value. *)
Inductive piece := Across | Within | One | Lit (c : Z).
Fixpoint pieces (pattern : bytes) : list piece :=
  match pattern with
  | [] => []
  | c :: r =>
      if byte_is c 42 then
        match r with
        | d :: r' => if byte_is d 42 then Across :: pieces r' else Within :: pieces r
        | [] => [Within]
        end
      else if byte_is c 63 then One :: pieces r
      else Lit (bz c) :: pieces r
  end.

(** The runes a starred piece repeats: [.] is any rune but a newline. *)
Definition repeats (p : piece) (r : Z) : bool :=
  match p with Across => negb (r =? 10) | Within => negb (r =? 47) | _ => false end.
Fixpoint accepts (ps : list piece) (rs : list Z) {struct ps} : bool :=
  match ps with
  | [] => bool_decide (rs = [])
  | Lit c :: ps => match rs with r :: rs => (r =? c) && accepts ps rs | [] => false end
  | One :: ps => match rs with r :: rs => negb (r =? 47) && accepts ps rs | [] => false end
  | star :: ps =>
      (fix skip (rs : list Z) : bool :=
         accepts ps rs || match rs with r :: rs => repeats star r && skip rs | [] => false end) rs
  end.
Definition runes_of (s : string) : list Z := map (default 65533) (string_runes s).
Definition matchPath (pattern path : string) : bool := accepts (pieces (s2b pattern)) (runes_of path).

(** ** A file's own header *)

Definition headerLines : nat := 16.
Definition maxToken : Z := 1024 * 1024.
Definition spdx : bytes := s2b "SPDX-License-Identifier:".
Definition is_blank (c : Byte.byte) : bool := byte_is c 9 || byte_is c 10 || byte_is c 12 || byte_is c 13 || byte_is c 32.
Definition is_ident (c : Byte.byte) : bool := alnum c || byte_is c 46 || byte_is c 43 || byte_is c 45.
Fixpoint drop_while (f : Byte.byte -> bool) (b : bytes) : bytes :=
  match b with [] => [] | c :: r => if f c then drop_while f r else b end.
Fixpoint take_while (f : Byte.byte -> bool) (b : bytes) : bytes :=
  match b with [] => [] | c :: r => if f c then c :: take_while f r else [] end.

(** spdxTag at the front of a text, and its leftmost match. *)
Definition tag_at (b : bytes) : option bytes :=
  if has_prefix spdx b then
    let id := take_while is_ident (drop_while is_blank (drop (length spdx) b)) in
    if bool_decide (id = []) then None else Some id
  else None.
Fixpoint spdxTag (b : bytes) : option bytes :=
  match tag_at b with
  | Some id => Some id
  | None => match b with [] => None | _ :: r => spdxTag r end
  end.
Fixpoint contains (p b : bytes) : bool :=
  has_prefix p b || match b with [] => false | _ :: r => contains p r end.

Definition comment_start (trimmed : bytes) : bool :=
  existsb (fun p => has_prefix (s2b p) trimmed) ["#"; "//"; "<!--"; "/*"; "*"; ";"]%string.
(** Whether a block comment is open after a line. *)
Definition block_after (inBlock : bool) (line : bytes) : bool :=
  let has s := contains (s2b s) line in
  let b := if has "<!--" && negb (has "-->") then true else inBlock in
  let b := if has "/*" && negb (has "*/") then true else b in
  if has "-->" || has "*/" then false else b.
(** The loop over the first lines; a line that does not fit the scanner's buffer
    ends it. *)
Fixpoint header (n : nat) (inBlock : bool) (lines : list bytes) : option string :=
  match n, lines with
  | S n, raw :: lines =>
      if maxToken <=? len raw then None
      else
        let line := shadow.dropCR raw in
        let commented := inBlock || comment_start (reusetoml.trim line) in
        match spdxTag line with
        | Some id => if commented then Some (b2s id) else header n (block_after inBlock line) lines
        | None => header n (block_after inBlock line) lines
        end
  | _, _ => None
  end.

(** What opening and reading a file comes to: it does not open, the loop comes to
    a read that fails after the bytes [b], or it has contents. *)
Inductive opened := Unopened (e : error) | Broken (b : bytes) (e : error) | Contents (b : bytes).

Section Check.
Context {UT : UnicodeTables}.

(** The empty string is no licence. *)
Definition inlineLicense (o : opened) : result string :=
  match o with
  | Unopened e => Err e
  | Broken b e =>
      match header headerLines false (shadow.lines_of b) with
      | Some id => Ok id
      | None => if contains (s2b "token too long") (s2b (Error e)) then Ok ""%string else Err e
      end
  | Contents b => Ok (default ""%string (header headerLines false (shadow.lines_of b)))
  end.

(** ** What is checked *)

Definition exemptFromLicensing (path : string) : bool := (path =?s "LICENSE") || HasPrefix path "LICENSES/".

Record repo := mkRepo
  { root : string; ls_files : result bytes; reuse_toml : result bytes; licenses_dir : result (list string); open_ : string -> opened }.

Definition trackedFiles (r : repo) : result (list string) :=
  let! out := wrap (fun e => Errorf "git ls-files in %s: %w" [AStr (root r); AErr e]) (ls_files r) in
  Ok (merge_sort String.le (List.filter (fun f => negb (f =?s "")) (map b2s (split_bytes Byte.x00 out)))).
Definition TrimSuffix (s p : string) : string := b2s (take (length (s2b s) - length (s2b p)) (s2b s)).
Definition availableLicenses (r : repo) : result (gset string) :=
  let! names := wrap (fun e => Errorf "reading LICENSES/: %w" [AErr e]) (licenses_dir r) in
  Ok (list_to_set (map (fun n => TrimSuffix n ".txt") (List.filter (fun n => HasSuffix n ".txt") names))).
Definition annotations (r : repo) : result (list reusetoml.annotation) :=
  reusetoml.parseREUSE (b2s (filepath_Join [s2b (root r); s2b "REUSE.toml"])) (reuse_toml r).

Definition sortedKeys (set : gset string) : list string := merge_sort String.le (base.elements set).
Definition sortedList (set : gset string) : string := Join (sortedKeys set) " and ".
Definition onlyKey (set : gset string) : string := default ""%string (head (sortedKeys set)).

Fixpoint claims_said (seen : list string) (claims : list string) : list string :=
  match claims with
  | [] => []
  | c :: claims =>
      if bool_decide (c ∈ seen) then claims_said seen claims
      else Sprintf "REUSE.toml says %s" [AStr c] :: claims_said (c :: seen) claims
  end.
Definition describeSources (inline : string) (claims : list string) : string :=
  Join ((if inline =?s "" then [] else [Sprintf "its own header says %s" [AStr inline]]) ++ claims_said [] claims) "; ".

(** The licences of the annotations that claim a file, in their order; and every
    licence anyone claims for it. *)
Definition claimed (anns : list reusetoml.annotation) (f : string) : list string :=
  map reusetoml.license (List.filter (fun a => existsb (fun pat => matchPath pat f) (reusetoml.paths a)) anns).
Definition distinct (inline : string) (claims : list string) : gset string :=
  (if inline =?s "" then ∅ else {[inline]}) ∪ list_to_set claims.

(** What the loop over the files accumulates. *)
Record tally := mkTally { problems : list string; used : gset string; resolved : Z; matched : list (list bool) }.
Definition mark (anns : list reusetoml.annotation) (f : string) (rows : list (list bool)) : list (list bool) :=
  zip_with (fun a row => zip_with (fun pat b => b || matchPath pat f) (reusetoml.paths a) row) anns rows.

Definition unlicensed (f : string) : string :=
  Sprintf ("UNLICENSED: %s" +:+ nl +:+ "  No SPDX header in its first %d lines and no REUSE.toml annotation covers it." +:+ nl +:+
    "  Add a header, or annotate it in REUSE.toml if its format has no comments (JSON, images).") [AStr f; AInt (Z.of_nat headerLines)].
Definition contradictory (f : string) (ds : gset string) (inline : string) (claims : list string) : string :=
  Sprintf ("CONTRADICTORY LICENCE: %s is given %s" +:+ nl +:+ "  %s" +:+ nl +:+
    "  One file, one licence. REUSE would silently resolve this (the inline header" +:+ nl +:+
    "  wins over an annotation), which is why it has to fail here instead: a reader" +:+ nl +:+
    "  cannot tell which statement the project meant.") [AStr f; AStr (sortedList ds); AStr (describeSources inline claims)].
Definition unknown (f lic : string) : string :=
  Sprintf ("UNKNOWN LICENCE: %s declares %q, which has no text in LICENSES/." +:+ nl +:+
    "  Either the identifier is wrong, or LICENSES/%s.txt is missing.") [AStr f; AStr lic; AStr lic].
Definition stale (a : reusetoml.annotation) (pat : string) : string :=
  Sprintf ("STALE ANNOTATION: REUSE.toml block %d (%s) lists %q, which matches no tracked file." +:+ nl +:+
    "  A path nobody matches is a claim about files that are gone, and it rots" +:+ nl +:+
    "  quietly: the block keeps working because its other paths still match.") [AInt (reusetoml.block a); AStr (reusetoml.license a); AStr pat].
Definition unused (lic : string) : string :=
  Sprintf ("UNUSED LICENCE TEXT: LICENSES/%s.txt is not used by any tracked file." +:+ nl +:+
    "  Remove it, or find the file that was supposed to declare it.") [AStr lic].

(** One file. *)
Definition check_file (r : repo) (anns : list reusetoml.annotation) (available : gset string) (t : tally) (f : string) : result tally :=
  if exemptFromLicensing f then Ok t
  else
    let! inline := wrap (fun e => Errorf "reading %s: %w" [AStr f; AErr e]) (inlineLicense (open_ r f)) in
    let rows := mark anns f (matched t) in
    let claims := claimed anns f in
    let ds := distinct inline claims in
    if Z.of_nat (size ds) =? 0 then Ok (mkTally (problems t ++ [unlicensed f]) (used t) (resolved t) rows)
    else if 1 <? Z.of_nat (size ds) then Ok (mkTally (problems t ++ [contradictory f ds inline claims]) (used t) (resolved t) rows)
    else
      let lic := onlyKey ds in
      Ok (mkTally (problems t ++ (if bool_decide (lic ∈ available) then [] else [unknown f lic])) ({[lic]} ∪ used t) (resolved t + 1) rows).
Fixpoint check_files (r : repo) (anns : list reusetoml.annotation) (available : gset string) (t : tally) (files : list string) : result tally :=
  match files with
  | [] => Ok t
  | f :: files => let! t := check_file r anns available t f in check_files r anns available t files
  end.

Definition stale_of (a : reusetoml.annotation) (row : list bool) : list string :=
  concat (zip_with (fun pat (b : bool) => if b then [] else [stale a pat]) (reusetoml.paths a) row).
Definition check (r : repo) : result (list string * string) :=
  let! files := trackedFiles r in
  check! reject_if (bool_decide (files = [])) (Errorf "git ls-files returned nothing in %s; not a repository?" [AStr (root r)]);
  let! anns := annotations r in
  let! available := availableLicenses r in
  let! t := check_files r anns available (mkTally [] ∅ 0 (map (fun a => map (fun _ => false) (reusetoml.paths a)) anns)) files in
  let found := problems t ++ concat (zip_with stale_of anns (matched t)) ++ map unused (base.elements (available ∖ used t)) in
  Ok (merge_sort String.le found,
      Sprintf ("reuse-check: OK: %d tracked files, %d licensed (%d licence texts exempt);" +:+ nl +:+
               "             no file carries two licences; licences in use: %s" +:+ nl)
        [AInt (len files); AInt (resolved t); AInt (len files - resolved t); AStr (Join (sortedKeys (used t)) ", ")]).

(** ** One file explained *)
Definition via (a : reusetoml.annotation) (path : string) : option string :=
  pat ← head (List.filter (fun pat => matchPath pat path) (reusetoml.paths a));
  Some (Sprintf "REUSE.toml block %d says %s, via the entry %q" [AInt (reusetoml.block a); AStr (reusetoml.license a); AStr pat]).
Definition explain (r : repo) (path : string) : result (list string) :=
  let path := TrimPrefix path "./" in
  if exemptFromLicensing path then
    Ok [path; "  is a licence text, which REUSE exempts: it needs no licence of its own."%string]
  else
    let! files := trackedFiles r in
    check! reject_if (negb (bool_decide (path ∈ files)))
             (Errorf "%s is not tracked by git in %s (only tracked files are licensed)" [AStr path; AStr (root r)]);
    let! anns := annotations r in
    let! inline := inlineLicense (open_ r path) in
    let licenses := distinct inline (claimed anns path) in
    let sources := (if inline =?s "" then [] else [Sprintf "its own SPDX header says %s" [AStr inline]]) ++ omap (fun a => via a path) anns in
    let verdict :=
      if Z.of_nat (size licenses) =? 0 then
        ["  has NO licence: no SPDX header and no REUSE.toml annotation covers it."%string;
         "  This is a build failure; add a header, or annotate it in REUSE.toml."%string]
      else if Z.of_nat (size licenses) =? 1 then [Sprintf "  is licensed %s" [AStr (onlyKey licenses)]]
      else [Sprintf "  is given CONTRADICTORY licences (%s), which is a build failure." [AStr (sortedList licenses)]] in
    Ok (path :: verdict ++ map (fun s => Sprintf "    - %s" [AStr s]) sources).

(** ** The command: what it prints, on which stream it fails, its exit code *)
Record printed := mkPrinted { stdout : list string; stderr : list string; exit : Z }.
Definition failed (e : error) : printed := mkPrinted [] [Sprintf "reuse-check: %v" [AErr e]] 2.
Definition checked (c : result (list string * string)) : printed :=
  match c with
  | Err e => failed e
  | Ok (problems, summary) =>
      if bool_decide (problems = []) then mkPrinted [summary] [] 0
      else mkPrinted (problems ++ [nl +:+ Sprintf "reuse-check: FAILED (%d problem(s))" [AInt (len problems)]]) [] 1
  end.
Definition main (repo_at : string -> repo) (args : list string) : printed :=
  match args with
  | a :: rest =>
      if a =?s "-explain" then
        match rest with
        | [] => mkPrinted [] ["usage: reusecheck -explain <path> [repo-root]"%string] 2
        | path :: rest =>
            match explain (repo_at (default "."%string (head rest))) path with
            | Ok ls => mkPrinted ls [] 0
            | Err e => failed e
            end
        end
      else checked (check (repo_at a))
  | [] => checked (check (repo_at "."%string))
  end.
End Check.

(** ** What a pattern means

    The language of the expression. *)
Inductive lang : list piece -> list Z -> Prop :=
| lang_end : lang [] []
| lang_lit c ps rs : lang ps rs -> lang (Lit c :: ps) (c :: rs)
| lang_one r ps rs : r <> 47 -> lang ps rs -> lang (One :: ps) (r :: rs)
| lang_star p ps skipped rs : p = Across \/ p = Within -> Forall (fun r => repeats p r = true) skipped -> lang ps rs -> lang (p :: ps) (skipped ++ rs).

Lemma accepts_star p ps rs : p = Across \/ p = Within ->
  accepts (p :: ps) rs = accepts ps rs || match rs with r :: rs => repeats p r && accepts (p :: ps) rs | [] => false end.
Proof. intros [-> | ->]; by destruct rs. Qed.
Lemma star_skips p ps rs : p = Across \/ p = Within ->
  accepts (p :: ps) rs = true <-> exists skipped rest, rs = skipped ++ rest /\ Forall (fun r => repeats p r = true) skipped /\ accepts ps rest = true.
Proof.
  intros Hp. induction rs as [|r rs IH]; rewrite accepts_star by done.
  - rewrite orb_false_r. split; [intros H; by exists [], []|]. intros (sk & rest & E & _ & H). symmetry in E. by apply app_eq_nil in E as [-> ->].
  - rewrite orb_true_iff, andb_true_iff, IH. split.
    + intros [H|(Hr & sk & rest & -> & Hs & H)]; [by exists [], (r :: rs)|]. exists (r :: sk), rest. split_and!; [done|by constructor|done].
    + intros ([|x sk] & rest & E & Hs & H); [left; by rewrite E|right]. injection E as -> ->. apply Forall_cons in Hs as [Hx Hs].
      split; [done|]. by exists sk, rest.
Qed.
Lemma accepts_lang ps rs : accepts ps rs = true <-> lang ps rs.
Proof.
  revert rs. induction ps as [|p ps IH]; intros rs.
  { cbn. rewrite bool_decide_eq_true. split; [intros ->; constructor|by inversion 1]. }
  assert (Hstar : p = Across \/ p = Within -> accepts (p :: ps) rs = true <-> lang (p :: ps) rs).
  { intros Hp. rewrite star_skips by done. split.
    - intros (sk & rest & -> & Hs & H). constructor; [done..|by apply IH].
    - intros H. inversion H as [|c ? ?|? ? ?|q qs sk rest Hq Hs Hl]; subst; [by destruct Hp|by destruct Hp|]. exists sk, rest. split_and!; [done..|by apply IH]. }
  destruct p as [| | |c]; [apply Hstar; by left|apply Hstar; by right| |]; clear Hstar; destruct rs as [|r rs]; cbn [accepts].
  - split; [done|]. inversion 1 as [| |?|q ? ? ? [? | ?]]; by subst.
  - rewrite andb_true_iff, IH, negb_true_iff, Z.eqb_neq. split; [intros [? ?]; by constructor|].
    inversion 1 as [| |?|q ? ? ? [? | ?]]; by subst.
  - split; [done|]. inversion 1 as [| |?|q ? ? ? [? | ?]]; by subst.
  - rewrite andb_true_iff, IH, Z.eqb_eq. split; [intros [-> ?]; by constructor|]. inversion 1 as [| |?|q ? ? ? [? | ?]]; by subst.
Qed.

(** The globs of REUSE: two stars for any text, one for any text within a
    directory, a question mark for one character of a name. *)
Definition star : Byte.byte := Byte.x2a.
Inductive glob : bytes -> bytes -> Prop :=
| glob_end : glob [] []
| glob_across p skipped s : glob p s -> glob (star :: star :: p) (skipped ++ s)
| glob_within p skipped s : head p <> Some star -> slash ∉ skipped -> glob p s -> glob (star :: p) (skipped ++ s)
| glob_one c p s : c <> slash -> glob p s -> glob (Byte.x3f :: p) (c :: s)
| glob_char c p s : c <> star -> c <> Byte.x3f -> glob p s -> glob (c :: p) (c :: s).

Definition ascii (b : bytes) : Prop := Forall (fun c => bz c < 128) b.
Lemma runes_ascii s : ascii (s2b s) -> runes_of s = map bz (s2b s).
Proof.
  unfold runes_of, string_runes. generalize (s2b s). intros b. induction 1 as [|c b Hc _ IH]; [done|]. cbn [length runes].
  unfold decode_rune. cbv zeta. destruct (Z.ltb_spec (bz c) 128); [|lia]. cbn [map default]. f_equal. rewrite drop_0 || idtac. exact IH.
Qed.
Lemma bz_inj c d : bz c = bz d -> c = d.
Proof. apply (inj Z_of_byte). Qed.
Lemma byte_is_eq c d : byte_is c (bz d) = true <-> c = d.
Proof. unfold byte_is. rewrite Z.eqb_eq. split; [apply bz_inj|by intros ->]. Qed.
Lemma byte_is_ne c d : byte_is c (bz d) = false <-> c <> d.
Proof. rewrite <- not_true_iff_false, byte_is_eq. done. Qed.

Lemma pieces_across r : pieces (star :: star :: r) = Across :: pieces r.
Proof. reflexivity. Qed.
Lemma pieces_within r : head r <> Some star -> pieces (star :: r) = Within :: pieces r.
Proof.
  destruct r as [|d r]; [done|]. intros H. cbn [pieces]. change (byte_is star 42) with true. cbv iota.
  assert (E : byte_is d 42 = false) by (apply (byte_is_ne d star); intros ->; by apply H). by rewrite E.
Qed.
Lemma pieces_one r : pieces (Byte.x3f :: r) = One :: pieces r.
Proof. reflexivity. Qed.
Lemma pieces_char c r : c <> star -> c <> Byte.x3f -> pieces (c :: r) = Lit (bz c) :: pieces r.
Proof.
  intros H1 H2. cbn [pieces]. rewrite (proj2 (byte_is_ne c star) H1 : byte_is c 42 = false), (proj2 (byte_is_ne c Byte.x3f) H2 : byte_is c 63 = false). done.
Qed.

Lemma repeats_across s : Forall (fun r => repeats Across r = true) (map bz s) <-> Byte.x0a ∉ s.
Proof.
  rewrite Forall_map. induction s as [|c s IH]; [split; [intros _; apply not_elem_of_nil|constructor]|].
  rewrite Forall_cons, IH, not_elem_of_cons. unfold compose. cbn [repeats]. rewrite negb_true_iff, (byte_is_ne c Byte.x0a). naive_solver.
Qed.
Lemma repeats_within s : Forall (fun r => repeats Within r = true) (map bz s) <-> slash ∉ s.
Proof.
  rewrite Forall_map. induction s as [|c s IH]; [split; [intros _; apply not_elem_of_nil|constructor]|].
  rewrite Forall_cons, IH, not_elem_of_cons. unfold compose. cbn [repeats]. rewrite negb_true_iff, (byte_is_ne c slash). naive_solver.
Qed.
Lemma lang_skips p ps rs : p = Across \/ p = Within ->
  lang (p :: ps) rs <-> exists skipped rest, rs = skipped ++ rest /\ Forall (fun r => repeats p r = true) skipped /\ lang ps rest.
Proof. intros Hp. rewrite <- accepts_lang, star_skips by done. by setoid_rewrite accepts_lang. Qed.

Lemma lang_glob pat path : Byte.x0a ∉ path -> lang (pieces pat) (map bz path) <-> glob pat path.
Proof.
  remember (length pat) as n eqn:En. revert pat path En. induction (lt_wf n) as [n _ IH]. intros pat path -> Hnl.
  assert (Hsub : forall sk rest, path = sk ++ rest -> Byte.x0a ∉ sk /\ Byte.x0a ∉ rest) by (intros sk rest ->; by apply not_elem_of_app in Hnl).
  assert (Hcut : forall p r' (K : bytes -> Prop), (length r' < length pat)%nat -> p = Across \/ p = Within ->
            (forall s, Byte.x0a ∉ s -> Forall (fun r => repeats p r = true) (map bz s) <-> K s) ->
            lang (p :: pieces r') (map bz path) <-> exists sk rest, path = sk ++ rest /\ K sk /\ glob r' rest).
  { intros p r' K Hl Hp HK. rewrite lang_skips by done. split.
    - intros (sk & rest & E & Hs & Hla). apply map_eq_app in E as (sk' & rest' & -> & <- & <-). destruct (Hsub _ _ eq_refl) as [Hn1 Hn2].
      exists sk', rest'. split_and!; [done|by apply HK|by apply (IH _ Hl)].
    - intros (sk & rest & -> & Hk & Hg). destruct (Hsub _ _ eq_refl) as [Hn1 Hn2]. exists (map bz sk), (map bz rest).
      split_and!; [by rewrite map_app|by apply HK|by apply (IH _ Hl)]. }
  destruct pat as [|c r].
  { split; [|inversion 1; constructor]. intros H. destruct path; [constructor|inversion H]. }
  destruct (decide (c = star)) as [->|Hs].
  { destruct (decide (head r = Some star)) as [Hh|Hh].
    - destruct r as [|d r]; [done|]. injection Hh as ->. rewrite pieces_across, (Hcut Across r (fun _ => True)); [|cbn; lia|by left|intros s Hs; split; [done|intros _; by apply repeats_across]].
      split; [intros (sk & rest & -> & _ & Hg); by constructor|]. inversion 1; subst; [by eexists _, _|done|done].
    - rewrite pieces_within by done. rewrite (Hcut Within r (fun s => slash ∉ s)); [|cbn; lia|by right|intros s _; apply repeats_within].
      split; [intros (sk & rest & -> & Hk & Hg); by constructor|]. inversion 1; subst; [done|by eexists _, _|done]. }
  assert (Hone : forall rs x, map bz path = x :: rs -> exists d s, path = d :: s /\ x = bz d /\ rs = map bz s).
  { intros rs x E. destruct path as [|d s]; [done|]. injection E as <- <-. by exists d, s. }
  destruct (decide (c = Byte.x3f)) as [->|Hq]; [rewrite pieces_one|rewrite pieces_char by done]; (split;
    [intros H; inversion H as [|? ? ? Hl E1 E2|? ? ? Hr Hl E1 E2|q ? ? ? [? | ?]]; subst; try done; symmetry in E2; destruct (Hone _ _ E2) as (d & s & -> & Hd & ->)
    |intros H; inversion H as [|? ? ? Hg|? ? ? ? Hn Hg|d ? s Hd Hg|d ? s Hd1 Hd2 Hg]; subst; try done]); apply not_elem_of_cons in Hnl as [_ Hnl].
  - constructor; [intros ->; by apply Hr; rewrite Hd|]. apply (IH (length r)); [cbn; lia|done..].
  - cbn [map]. constructor; [intros E; apply Hd, bz_inj; by rewrite E|]. apply (IH (length r)); [cbn; lia|done..].
  - apply bz_inj in Hd as ->. apply glob_char; [done..|]. apply (IH (length r)); [cbn; lia|done..].
  - cbn [map]. constructor. apply (IH (length r)); [cbn; lia|done..].
Qed.

Lemma map_lit rs ps : accepts (map Lit ps) rs = true <-> rs = ps.
Proof.
  revert rs. induction ps as [|c ps IH]; intros rs; cbn [map accepts]; [apply bool_decide_eq_true|]. destruct rs as [|r rs]; [done|].
  rewrite andb_true_iff, Z.eqb_eq, IH. split; [by intros [-> ->]|by intros [= -> ->]].
Qed.
Lemma pieces_named p : star ∉ p -> Byte.x3f ∉ p -> pieces p = map Lit (map bz p).
Proof.
  induction p as [|c p IH]; [done|]. rewrite !not_elem_of_cons. intros [H1 H1'] [H2 H2']. rewrite pieces_char by congruence. cbn [map]. by rewrite IH.
Qed.
Lemma runes_length fuel b : (length (runes fuel b) <= length b)%nat.
Proof.
  revert b. induction fuel as [|fuel IH]; intros b; [cbn; lia|]. destruct b as [|c r]; [cbn; lia|]. cbn [runes].
  destruct (decode_rune (c :: r)) as [[rune w]|] eqn:E; cbn [length].
  - pose proof (decode_rune_cases _ _ _ E) as Hc. assert (Hw : (1 <= w)%nat) by (destruct Hc as [(? & ? & _ & _ & _ & ->)|(_ & ? & _)]; lia).
    pose proof (IH (drop w (c :: r))) as H. rewrite length_drop in H. cbn [length] in *. lia.
  - pose proof (IH r). cbn. lia.
Qed.
Lemma decode_wide c r rune w : 128 <= bz c -> decode_rune (c :: r) = Some (rune, w) -> (2 <= w <= S (length r))%nat.
Proof.
  intros Hc. unfold decode_rune. cbv zeta. destruct (Z.ltb_spec (bz c) 128); [lia|]. repeat case_match; try done; intros [= _ <-]; subst; cbn [length]; lia.
Qed.
(** Bytes that are their own runes are ASCII. *)
Lemma runes_own b fuel : (length b <= fuel)%nat -> map (default 65533) (runes fuel b) = map bz b -> ascii b.
Proof.
  revert fuel. induction b as [|c r IH]; intros fuel Hf E; [constructor|]. destruct fuel as [|fuel]; [cbn in Hf; lia|].
  cbn [length] in Hf. cbn [runes] in E. destruct (Z.lt_ge_cases (bz c) 128) as [Hc|Hc].
  - assert (Ed : decode_rune (c :: r) = Some (bz c, 1%nat)) by (unfold decode_rune; cbv zeta; destruct (Z.ltb_spec (bz c) 128); [done|lia]).
    rewrite Ed in E. cbn [map default skipn] in E. rewrite drop_0 in E. injection E as E. constructor; [done|]. eapply IH; [|exact E]. lia.
  - exfalso. destruct (decode_rune (c :: r)) as [[rune w]|] eqn:Ed.
    + apply decode_wide in Ed; [|done]. apply (f_equal length) in E. rewrite !length_map in E. cbn [length] in E.
      pose proof (runes_length fuel (drop w (c :: r))) as H. rewrite length_drop in H. cbn [length] in H. lia.
    + injection E as E _. cbn in E. pose proof (Byte.to_N_bounded c) as Hb. unfold bz, Z_of_byte in E. lia.
Qed.

(** C36: the paths of an annotation.  On a path in ASCII a pattern means what REUSE
    says: two stars cross directories, one star stays within one, a question mark
    is one character of a name, anything else is itself.  Outside ASCII it does
    not: a path without stars or question marks matches itself exactly when all
    of it is ASCII, so a file whose name is not cannot be annotated by name. *)
Theorem glob_semantics :
  (forall pattern path, ascii (s2b path) -> Byte.x0a ∉ s2b path -> matchPath pattern path = true <-> glob (s2b pattern) (s2b path))
  /\ (forall path, star ∉ s2b path -> Byte.x3f ∉ s2b path -> matchPath path path = true <-> ascii (s2b path)).
Proof.
  split.
  - intros pattern path Ha Hn. unfold matchPath. by rewrite accepts_lang, runes_ascii, lang_glob.
  - intros path Hs Hq. unfold matchPath. rewrite pieces_named, map_lit by done. split; [|apply runes_ascii]. by apply runes_own.
Qed.

(** ** What the check decides *)
Section Clean.
Context {UT : UnicodeTables} (r : repo) (anns : list reusetoml.annotation) (available : gset string).

(** A licence that someone states for a file: its own header, or an annotation
    one of whose paths matches it. *)
Definition states (f lic : string) : Prop :=
  (inlineLicense (open_ r f) = Ok lic /\ lic <> ""%string)
  \/ exists a pat, a ∈ anns /\ pat ∈ reusetoml.paths a /\ matchPath pat f = true /\ reusetoml.license a = lic.
Definition states_only (f lic : string) : Prop := forall x, states f x <-> x = lic.
Definition licensed (f : string) : Prop := exists lic, lic ∈ available /\ states_only f lic.

Lemma claimed_spec f lic :
  lic ∈ claimed anns f <-> exists a pat, a ∈ anns /\ pat ∈ reusetoml.paths a /\ matchPath pat f = true /\ reusetoml.license a = lic.
Proof.
  unfold claimed. rewrite list_elem_of_In, in_map_iff. split.
  - intros (a & <- & Ha). apply filter_In in Ha as [Ha Hm]. apply existsb_exists in Hm as (pat & Hp & Hm).
    exists a, pat. by rewrite !list_elem_of_In.
  - intros (a & pat & Ha & Hp & Hm & <-). exists a. split; [done|]. apply filter_In. rewrite <- list_elem_of_In. split; [done|].
    apply existsb_exists. exists pat. by rewrite <- list_elem_of_In.
Qed.
Lemma distinct_spec f inline lic : inlineLicense (open_ r f) = Ok inline -> lic ∈ distinct inline (claimed anns f) <-> states f lic.
Proof.
  intros Hi. unfold distinct, states. rewrite elem_of_union, elem_of_list_to_set, claimed_spec, Hi. apply or_iff_compat_r.
  destruct (inline =?s "") eqn:E; [apply str_eqb_true in E|apply str_eqb_false in E].
  - subst. split; [set_solver|]. by intros [[= <-] ?].
  - rewrite elem_of_singleton. split; [by intros ->|by intros [[= <-] _]].
Qed.
Lemma only_spec f inline lic : inlineLicense (open_ r f) = Ok inline ->
  states_only f lic <-> distinct inline (claimed anns f) = {[lic]}.
Proof.
  intros Hi. unfold states_only. setoid_rewrite <- (distinct_spec f inline _ Hi). split.
  - intros H. apply set_eq. intros x. by rewrite H, elem_of_singleton.
  - intros -> x. by rewrite elem_of_singleton.
Qed.
Lemma onlyKey_singleton lic : onlyKey {[lic]} = lic.
Proof. unfold onlyKey, sortedKeys. by rewrite elements_singleton. Qed.

(** One file that is not exempt adds no problem exactly when it is licensed, and
    counts as used the one licence it states. *)
Lemma check_file_spec t f t' :
  exemptFromLicensing f = false -> check_file r anns available t f = Ok t' ->
  (problems t' = [] <-> problems t = [] /\ licensed f)
  /\ (forall lic, lic ∈ used t' <-> lic ∈ used t \/ states_only f lic)
  /\ matched t' = mark anns f (matched t).
Proof.
  intros Hx H. unfold check_file in H. rewrite Hx in H. gosimp H. pose proof (fun lic => only_spec f a lic Ha) as Hs.
  set (ds := distinct a (claimed anns f)) in *.
  destruct (Z.eqb_spec (Z.of_nat (size ds)) 0) as [E0|E0].
  { apply Ok_inj in H as <-. cbn [problems used matched]. assert (E : ds = ∅) by (apply leibniz_equiv, size_empty_inv; lia).
    assert (Hn : forall lic, ~ states_only f lic) by (intros lic Hl%Hs; rewrite E in Hl; set_solver).
    split_and!; [|intros lic; pose proof (Hn lic); tauto|done].
    split; [intros Hp; by apply app_eq_nil in Hp as [_ ?]|intros [_ (lic & _ & Hl)]; by destruct (Hn lic)]. }
  destruct (Z.ltb_spec 1 (Z.of_nat (size ds))) as [E1|E1].
  { apply Ok_inj in H as <-. cbn [problems used matched].
    assert (Hn : forall lic, ~ states_only f lic) by (intros lic Hl%Hs; rewrite Hl, size_singleton in E1; lia).
    split_and!; [|intros lic; pose proof (Hn lic); tauto|done].
    split; [intros Hp; by apply app_eq_nil in Hp as [_ ?]|intros [_ (lic & _ & Hl)]; by destruct (Hn lic)]. }
  apply Ok_inj in H as <-. cbn [problems used matched]. assert (Hsz : size ds = 1%nat) by lia.
  apply size_1_elem_of in Hsz as [lic Hlic]. apply leibniz_equiv in Hlic. rewrite Hlic in *. rewrite onlyKey_singleton.
  assert (Hu : forall x, states_only f x <-> x = lic) by (intros x; rewrite Hs; split; [intros E; set_solver|by intros ->]).
  split_and!; [|intros x; rewrite elem_of_union, elem_of_singleton, Hu; tauto|done].
  case_bool_decide as Hav.
  - rewrite app_nil_r. split; [intros ->; split; [done|]; exists lic; by rewrite Hu|by intros [? _]].
  - split; [intros Hp; by apply app_eq_nil in Hp as [_ ?]|]. intros [_ (x & Hxa & Hxs)]. apply Hu in Hxs. by subst.
Qed.

Lemma exempt_skips t f : exemptFromLicensing f = true -> check_file r anns available t f = Ok t.
Proof. intros Hx. unfold check_file. by rewrite Hx. Qed.
Definition checked_file (files : list string) (f : string) : Prop := f ∈ files /\ exemptFromLicensing f = false.

Lemma check_files_spec files t t' :
  check_files r anns available t files = Ok t' ->
  (problems t' = [] <-> problems t = [] /\ forall f, checked_file files f -> licensed f)
  /\ (forall lic, lic ∈ used t' <-> lic ∈ used t \/ exists f, checked_file files f /\ states_only f lic)
  /\ matched t' = foldl (fun rows f => if exemptFromLicensing f then rows else mark anns f rows) (matched t) files.
Proof.
  unfold checked_file. revert t. induction files as [|f files IH]; intros t; cbn [check_files foldl].
  { intros [= <-]. split_and!; [|intros lic|done]; [split; [intros ->; split; [done|]; by intros f [?%not_elem_of_nil _]|by intros [? _]]|].
    split; [by left|]. intros [?|(f & [?%not_elem_of_nil _] & _)]; done. }
  intros H. gosimp H. destruct (IH _ H) as (Hp & Hu & Hm). destruct (exemptFromLicensing f) eqn:Ex.
  - rewrite exempt_skips in Ha by done. apply Ok_inj in Ha as <-. split_and!; [|intros lic|done].
    + rewrite Hp. apply and_iff_compat_l. split; intros Hall g [Hg Hgx]; (apply Hall; split; [|done]); [|by right].
      apply elem_of_cons in Hg as [->|]; [congruence|done].
    + rewrite Hu. apply or_iff_compat_l. split; intros (g & [Hg Hgx] & Hs); exists g; (split; [split; [|done]|done]); [by right|].
      apply elem_of_cons in Hg as [->|]; [congruence|done].
  - destruct (check_file_spec _ _ _ Ex Ha) as (Hp1 & Hu1 & Hm1). split_and!; [|intros lic|by rewrite Hm, Hm1].
    + rewrite Hp, Hp1. split.
      * intros [[Hn Hf] Hall]. split; [done|]. intros g [Hg Hgx]. apply elem_of_cons in Hg as [->|Hg]; [done|]. by apply Hall.
      * intros [Hn Hall]. split; [split; [done|]; apply Hall; split; [by left|done]|]. intros g [Hg Hgx]. apply Hall. split; [by right|done].
    + rewrite Hu, Hu1. split.
      * intros [[?|Hf]|(g & [Hg Hgx] & Hs)]; [by left|right; exists f; split; [split; [by left|done]|done]|right; exists g; split; [split; [by right|done]|done]].
      * intros [?|(g & [Hg Hgx] & Hs)]; [by left; left|]. apply elem_of_cons in Hg as [->|Hg]; [by left; right|]. right. by exists g.
Qed.

(** The matched marks, path by path. *)
Definition marks (g : string -> bool) : list (list bool) := map (fun a => map g (reusetoml.paths a)) anns.
Lemma zip_map_self {A B C} (f : A -> B -> C) (g : A -> B) l : zip_with f l (map g l) = map (fun x => f x (g x)) l.
Proof. induction l as [|x l IH]; [done|]. cbn. by rewrite IH. Qed.
Lemma mark_marks f g : mark anns f (marks g) = marks (fun pat => g pat || matchPath pat f).
Proof. unfold mark, marks. rewrite zip_map_self. apply map_ext. intros a. apply zip_map_self. Qed.
Definition matches_one (files : list string) (pat : string) : bool :=
  existsb (fun f => negb (exemptFromLicensing f) && matchPath pat f) files.
Lemma marks_ext g h : (forall pat, g pat = h pat) -> marks g = marks h.
Proof. intros H. apply map_ext. intros a. by apply map_ext. Qed.
Lemma matched_marks files g :
  foldl (fun rows f => if exemptFromLicensing f then rows else mark anns f rows) (marks g) files = marks (fun pat => g pat || matches_one files pat).
Proof.
  revert g. induction files as [|f files IH]; intros g; cbn [foldl].
  { apply marks_ext. intros pat. by rewrite orb_false_r. }
  unfold matches_one in *. cbn [existsb]. destruct (exemptFromLicensing f); cbn [negb andb orb]; [apply IH|].
  rewrite mark_marks, IH. apply marks_ext. intros pat. by rewrite orb_assoc.
Qed.
Lemma concat_nil {A} (l : list (list A)) : concat l = [] <-> Forall (fun x => x = []) l.
Proof.
  induction l as [|x l IH]; [by split|]. cbn [concat]. rewrite Forall_cons, <- IH. split; [by apply app_eq_nil|by intros [-> ->]].
Qed.
Lemma stale_none g : concat (zip_with stale_of anns (marks g)) = [] <-> forall a pat, a ∈ anns -> pat ∈ reusetoml.paths a -> g pat = true.
Proof.
  unfold marks. rewrite zip_map_self, concat_nil, Forall_map, Forall_forall. unfold compose, stale_of.
  split.
  - intros H a pat Ha Hpat. specialize (H a Ha). rewrite zip_map_self, concat_nil, Forall_map, Forall_forall in H.
    specialize (H pat Hpat). unfold compose in H. by destruct (g pat).
  - intros H a Ha. rewrite zip_map_self, concat_nil, Forall_map, Forall_forall. intros pat Hpat. unfold compose. by rewrite (H a pat).
Qed.
Lemma matches_one_spec files pat : matches_one files pat = true <-> exists f, checked_file files f /\ matchPath pat f = true.
Proof.
  unfold matches_one, checked_file. rewrite existsb_exists. setoid_rewrite <- list_elem_of_In. setoid_rewrite andb_true_iff. setoid_rewrite negb_true_iff.
  naive_solver.
Qed.
End Clean.

Section Verdict.
Context {UT : UnicodeTables}.

(** What the repository's guard promises, over what is tracked, annotated and
    available. *)
Record clean (r : repo) (files : list string) (anns : list reusetoml.annotation) (available : gset string) : Prop := mkClean
  { every_file_licensed : forall f, checked_file files f -> licensed r anns available f;
    every_path_matches : forall a pat, a ∈ anns -> pat ∈ reusetoml.paths a -> exists f, checked_file files f /\ matchPath pat f = true;
    every_text_used : forall lic, lic ∈ available -> exists f, checked_file files f /\ states_only r anns f lic }.

Lemma sorted_nil l : merge_sort String.le l = [] <-> l = [].
Proof. split; [|by intros ->]. intros H. apply Permutation_nil. rewrite <- H. apply merge_sort_Permutation. Qed.

(** C35: the licence check.  A check that gets an answer from git, REUSE.toml and
    the directory LICENSES finds no problem exactly when every tracked file that
    is no licence text is given one licence, by its header or by annotations, and
    never two, that licence has its text, every path of every annotation matches
    such a file and every text is the licence of one. *)
Theorem check_clean_iff r ps summary :
  check r = Ok (ps, summary) ->
  exists files anns available, trackedFiles r = Ok files /\ annotations r = Ok anns /\ availableLicenses r = Ok available
    /\ (ps = [] <-> clean r files anns available).
Proof.
  unfold check. intros H. gosimp H. apply Ok_inj in H. injection H as <- _. rename a into files, a0 into anns, a1 into available, a2 into t.
  exists files, anns, available. split_and!; [done..|].
  destruct (check_files_spec _ _ _ _ _ _ Ha3) as (Hp & Hu & Hm). cbn [matched] in Hm.
  change (map (fun a => map (fun _ => false) (reusetoml.paths a)) anns) with (marks anns (fun _ => false)) in Hm. rewrite (matched_marks anns files (fun _ => false)) in Hm.
  cbn [problems used] in Hp, Hu. cbn [orb] in Hm. rewrite sorted_nil, Hm. split.
  - intros H. apply app_eq_nil in H as [H1 H2]. apply app_eq_nil in H2 as [H2 H3]. apply Hp in H1 as [_ H1].
    pose proof (proj1 (stale_none _ _) H2) as Hst. constructor; [done| |].
    + intros a pat Ha' Hpat. apply matches_one_spec. by apply (Hst a).
    + intros lic Hlic. destruct (decide (lic ∈ used t)) as [Hin|Hout].
      * apply Hu in Hin as [Hin|Hin]; [set_solver|done].
      * exfalso. assert (Hel : lic ∈ base.elements (available ∖ used t)) by set_solver. apply map_eq_nil in H3. rewrite H3 in Hel. by apply not_elem_of_nil in Hel.
  - intros [C1 C2 C3]. rewrite (proj2 Hp) by done. cbn [app].
    rewrite (proj2 (stale_none anns _)) by (intros a pat Ha' Hpat; apply matches_one_spec; by eapply C2). cbn [app].
    assert (E : available ∖ used t = ∅) by (apply leibniz_equiv; intros lic; rewrite elem_of_difference, Hu; split; [|set_solver]; intros [Hl Hn]; exfalso; apply Hn; right; by apply C3).
    by rewrite E, elements_empty.
Qed.
End Verdict.

(** ** The explanation of one file *)
Section Explain.
Context {UT : UnicodeTables}.

Definition licensed_line (lic : string) : string := Sprintf "  is licensed %s" [AStr lic].
Lemma licensed_line_text lic : licensed_line lic = "  is licensed " +:+ lic +:+ "".
Proof. reflexivity. Qed.
Lemma licensed_line_inj x y : licensed_line x = licensed_line y -> x = y.
Proof.
  rewrite !licensed_line_text. intros H. apply (f_equal s2b) in H. rewrite !s2b_append, !app_nil_r in H. apply app_inv_head in H.
  by apply (inj s2b).
Qed.

(** what -explain answers.  For a tracked file that is no licence text, whatever
    it answers, it says that the file is licensed under a licence exactly when
    that is the one licence the check counts for it. *)
Theorem explain_agrees r path ls :
  explain r path = Ok ls -> exemptFromLicensing (TrimPrefix path "./") = false ->
  exists anns, annotations r = Ok anns
    /\ forall lic, ls !! 1%nat = Some (licensed_line lic) <-> states_only r anns (TrimPrefix path "./") lic.
Proof.
  unfold explain. intros H Hx. rewrite Hx in H. gosimp H. apply Ok_inj in H as <-. eexists. split; [done|]. intros lic.
  rewrite (only_spec r _ _ _ lic Ha2). set (ds := distinct _ _).
  destruct (Z.eqb_spec (Z.of_nat (size ds)) 0) as [E0|E0]; [|destruct (Z.eqb_spec (Z.of_nat (size ds)) 1) as [E1|E1]]; cbn [app lookup list_lookup].
  - split; [intros [= E]; rewrite licensed_line_text in E; discriminate E|]. intros E. rewrite E, size_singleton in E0. lia.
  - assert (Hsz : size ds = 1%nat) by lia. apply size_1_elem_of in Hsz as [x Hx1]. apply leibniz_equiv in Hx1. rewrite Hx1, onlyKey_singleton. split.
    + intros E. by apply (inj Some), licensed_line_inj in E as ->.
    + intros E. assert (x = lic) as -> by set_solver. done.
  - split; [|intros E; rewrite E, size_singleton in E1; lia]. intros E. apply (inj Some) in E. rewrite licensed_line_text in E. discriminate E.
Qed.
End Explain.

(** ** A concrete repository *)
#[local] Existing Instance reusetoml.all_printable.
Definition tag_line (lic : string) : string := "// SPDX-License-" +:+ "Identifier: " +:+ lic.
Definition test_files (f : string) : opened :=
  if f =?s "src/a.go" then Contents (reusetoml.lines_text [tag_line "MIT"; "package a"]%string)
  else if f =?s "doc.md" then Contents (reusetoml.lines_text ["<!--"; "SPDX-License-Identifier: MIT"; "-->"]%string)
  else Contents (s2b "hello").
Definition test_repo (names : list string) (anns : list reusetoml.annotation) : repo :=
  mkRepo "." (Ok (concat (map (fun n => s2b n ++ [Byte.x00]) names))) (Ok (reusetoml.text anns)) (Ok ["MIT.txt"; "README"]%string) test_files.
Definition test_anns : list reusetoml.annotation := [reusetoml.mkAnnotation ["README.md"; "assets/**"] "MIT" "x" 1].
Definition test_names : list string := ["src/a.go"; "README.md"; "LICENSES/MIT.txt"; "assets/img/b.png"; "doc.md"].
Definition test_check : result (list string * string) := check (test_repo test_names test_anns).
Definition test_summary : string := match test_check with Ok (_, s) => s | Err _ => "" end.
Lemma test_clean : check (test_repo test_names test_anns) = Ok ([], test_summary).
Proof. vm_compute. reflexivity. Qed.
Example test_summary_text : test_summary =
  ("reuse-check: OK: 5 tracked files, 4 licensed (1 licence texts exempt);" +:+ nl +:+
   "             no file carries two licences; licences in use: MIT" +:+ nl)%string.
Proof. vm_compute. reflexivity. Qed.
Lemma check_clean_iff_witness :
  exists files anns available, availableLicenses (test_repo test_names test_anns) = Ok available
    /\ clean (test_repo test_names test_anns) files anns available.
Proof.
  destruct (check_clean_iff (test_repo test_names test_anns) [] test_summary test_clean) as (files & anns & available & _ & _ & H & C).
  exists files, anns, available. exact (conj H (proj1 C eq_refl)).
Defined.
Lemma explain_agrees_witness :
  exists anns, annotations (test_repo test_names test_anns) = Ok anns /\ states_only (test_repo test_names test_anns) anns "src/a.go" "MIT".
Proof.
  destruct (explain_agrees (test_repo test_names test_anns) "./src/a.go"
              ["src/a.go"; "  is licensed MIT"; "    - its own SPDX header says MIT"]%string) as (anns & Ha & Hs); [vm_compute; reflexivity|reflexivity|].
  exists anns. split; [exact Ha|]. assert (E : TrimPrefix "./src/a.go" "./" = "src/a.go"%string) by (vm_compute; reflexivity).
  rewrite E in Hs. apply Hs. reflexivity.
Defined.

(** What the problems look like: a file nobody licenses, one that two statements
    disagree about, a path that matches nothing. *)
Definition first_line (p : string) : string := default ""%string (head (Split p Byte.x0a)).
Example test_problems :
  match check (test_repo ["src/a.go"; "README.md"; "x.png"]%string
                 [reusetoml.mkAnnotation ["README.md"; "src/?"] "MIT" "x" 1; reusetoml.mkAnnotation ["src/**"] "AGPL-3.0-only" "x" 2]) with
  | Ok (ps, _) =>
      map first_line ps = ["CONTRADICTORY LICENCE: src/a.go is given AGPL-3.0-only and MIT";
        "STALE ANNOTATION: REUSE.toml block 1 (MIT) lists " +:+ dq "src/?" +:+ ", which matches no tracked file.";
        "UNLICENSED: x.png"]%string
  | Err _ => False
  end.
Proof. vm_compute. reflexivity. Qed.

(** A header that contradicts itself: only its first tag is read. *)
Example second_tag_unread :
  inlineLicense (Contents (reusetoml.lines_text [tag_line "MIT"; tag_line "AGPL-3.0-only"])) = Ok "MIT"%string
  /\ inlineLicense (Contents (reusetoml.lines_text [tag_line "MIT OR AGPL-3.0-only"])) = Ok "MIT"%string
  /\ inlineLicense (Broken (reusetoml.lines_text [tag_line "MIT"]) (New "input/output error")) = Ok "MIT"%string
  /\ is_ok (inlineLicense (Broken (s2b "package a") (New "input/output error"))) = false.
Proof. split_and!; vm_compute; reflexivity. Qed.
(** The bytes of U+00E9, as a name. *)
Example not_ascii : let name := b2s [Byte.xc3; Byte.xa9] in matchPath name name = false /\ matchPath "*" name = true.
Proof. split; vm_compute; reflexivity. Qed.
End reusecheck.
