(* ===== verification/Stories.v ===== *)
(** scripts/stories (render.go): the story cards, drawn from the lines the agent
    printed.

    Module [stories] has the reading of a captured run, the two ways of breaking
    text into lines, the escaping of text for SVG, and the card. *)
From S2P Require Import Prelude GoFmt GoPath GoJsonInj Webhost Texts Types Enforce Agent Shadow Reusetoml Reuse Verifycmd.

Module stories.

Definition nl : string := b2s [Byte.x0a].
(** Markup is written here with single quotes for its double ones. *)
Definition svg (f : string) : string := b2s (map (fun c => if byte_is c 39 then Byte.x22 else c) (s2b f)).

(** ** Captured runs *)

Record attempt := mkAttempt { decision : bytes; typ : bytes; target : bytes; reason : bytes }.
Definition allowed (a : attempt) : bool := decision a =?b s2b "ALLOW".

Definition is_space (c : Byte.byte) : bool := reusecheck.is_blank c.
Definition not_space (c : Byte.byte) : bool := negb (is_space c).
(** The dot of an expression stops at a line feed. *)
Definition not_nl (c : Byte.byte) : bool := negb (byte_is c 10).
(** A run of one or more bytes that satisfy [f], and what is left. *)
Definition some_of (f : Byte.byte -> bool) (b : bytes) : option (bytes * bytes) :=
  let w := reusecheck.take_while f b in
  if bool_decide (w = []) then None else Some (w, drop (length w) b).
Definition literal (w b : bytes) : option bytes := if has_prefix w b then Some (drop (length w) b) else None.

(** lineRe.  Its starred classes end where the next one starts, so there is one
    way to match. *)
Definition lineRe (line : bytes) : option attempt :=
  '(d, b) ← match literal (s2b "ALLOW") line with
            | Some b => Some (s2b "ALLOW", b)
            | None => b ← literal (s2b "DENY") line; Some (s2b "DENY", b)
            end;
  '(_, b) ← some_of is_space b;
  '(ty, b) ← some_of not_space b;
  b ← literal (s2b " -> ") b;
  '(tg, b) ← some_of not_space b;
  '(_, b) ← some_of is_space b;
  b ← literal (s2b "(") b;
  let r := take (length b - 1) b in
  if has_prefix (s2b ")") (rev b) && forallb not_nl r then Some (mkAttempt d ty tg r) else None.

Definition tab : Byte.byte := Byte.x09.
Section Stories.
Context {UT : UnicodeTables}.

(** The loop over the lines; the last outcome of an id prevails. *)
Fixpoint parse_lines (out : gmap string attempt) (lines : list bytes) : result (gmap string attempt) :=
  match lines with
  | [] => Ok out
  | raw :: lines =>
      if reusecheck.maxToken <=? len raw then Err (New "bufio.Scanner: token too long")
      else
        let line := shadow.dropCR raw in
        if bool_decide (reusetoml.trim line = []) then parse_lines out lines
        else
          match cut_at tab line with
          | (_, None) => Err (Errorf "no tab in line: %q" [AStr (b2s line)])
          | (id, Some rest) =>
              match lineRe rest with
              | None => Err (Errorf "unparseable agent line for %q: %q" [AStr (b2s id); AStr (b2s rest)])
              | Some a => parse_lines (<[b2s id := a]> out) lines
              end
          end
  end.
Definition parse (file : result bytes) : result (gmap string attempt) :=
  let! data := file in parse_lines ∅ (shadow.lines_of data).
End Stories.

(** ** Text in lines *)

Definition runes_of (b : bytes) : list Z := map (default 65533) (runes (length b) b).
Definition of_runes (rs : list Z) : bytes := concat (map encode_rune rs).
Definition width (b : bytes) : nat := length (runes_of b).

(** The pieces of [n] runes cut off a word that is longer, and its rest. *)
Fixpoint cut_word (fuel n : nat) (word : bytes) : list bytes * bytes :=
  match fuel with
  | O => ([], word)
  | S fuel =>
      let r := runes_of word in
      if (n <? length r)%nat then
        let '(out, rest) := cut_word fuel n (of_runes (drop n r)) in (of_runes (take n r) :: out, rest)
      else ([], word)
  end.
Definition hard (n : nat) (word : bytes) : list bytes * bytes := cut_word (width word) n word.
Definition flushed (cur : bytes) : list bytes := if bool_decide (cur = []) then [] else [cur].

Fixpoint wrap_words (n : nat) (cur : bytes) (words : list bytes) : list bytes :=
  match words with
  | [] => flushed cur
  | word :: words =>
      let '(pieces, word) := hard n word in
      let before := if bool_decide (pieces = []) then [] else flushed cur ++ pieces in
      let cur := if bool_decide (pieces = []) then cur else [] in
      before ++
      (if bool_decide (cur = []) then wrap_words n word words
       else if (width cur + 1 + width word <=? n)%nat then wrap_words n (cur ++ Byte.x20 :: word) words
       else cur :: wrap_words n word words)
  end.
Definition wrap (s : bytes) (n : nat) : list bytes := wrap_words n [] (map s2b (verifycmd.Fields (b2s s))).

(** The segments of a path, each with its slash. *)
Fixpoint segments (s : bytes) : list bytes :=
  match s with
  | [] => [[]]
  | c :: r =>
      if byte_is c 47 then [c] :: segments r
      else match segments r with seg :: segs => (c :: seg) :: segs | [] => [[c]] end
  end.
Fixpoint wrap_segments (n : nat) (cur : bytes) (segs : list bytes) : list bytes :=
  match segs with
  | [] => flushed cur
  | seg :: segs =>
      let '(pieces, seg) := hard n seg in
      let before := if bool_decide (pieces = []) then [] else flushed cur ++ pieces in
      let cur := if bool_decide (pieces = []) then cur else [] in
      before ++
      (if (width cur + width seg <=? n)%nat then wrap_segments n (cur ++ seg) segs
       else flushed cur ++ wrap_segments n seg segs)
  end.
Definition wrapPath (s : bytes) (n : nat) : list bytes := wrap_segments n [] (segments s).

Definition esc_byte (c : Byte.byte) : bytes :=
  if byte_is c 38 then s2b "&amp;" else if byte_is c 60 then s2b "&lt;" else if byte_is c 62 then s2b "&gt;"
  else if byte_is c 34 then s2b "&quot;" else if byte_is c 39 then s2b "&#39;" else [c].
Definition esc (b : bytes) : bytes := concat (map esc_byte b).

(** ** The card *)

Record lane := mkLane { id : string; intent : string }.
Record card := mkCard { file : string; tag : string; title : string; allow : lane; deny : lane }.
Definition subtitle : string :=
  "Dana's revenue-pack agent " +:+ b2s [Byte.xc2; Byte.xb7] +:+ " granted: READ finance/revenue " +:+ b2s [Byte.xc2; Byte.xb7]
  +:+ " READ/WRITE finance-reporting workbook".
Definition cards : list card :=
  [mkCard "story-a-least-authority-read.svg" "LEAST AUTHORITY" "An agent reads only the data it was granted"
     (mkLane "A-allow" "Pulls the revenue figures it was asked for") (mkLane "A-deny" "Reaches for another team's data");
   mkCard "story-b-least-authority-write.svg" "LEAST AUTHORITY" "An agent writes only inside its own workspace"
     (mkLane "B-allow" "Writes the pack into its own workbook") (mkLane "B-deny" "Tries to write into the exec-board space")].

Definition cardBG : string := "#12241c".
Definition nodeBG : string := "#1a3a2e".
Definition chipBG : string := "#0d1a14".
Definition textCol : string := "#eef4f0".
Definition mutedCol : string := "#9db8ab".
Definition hairline : string := "#2d6a4f".
Definition greenFill : string := "#2d6a4f".
Definition greenStroke : string := "#40916c".
Definition greenBright : string := "#52b788".
Definition amberFill : string := "#3a2a1a".
Definition amberStroke : string := "#8a5a2d".
Definition amberBright : string := "#c98a4b".

Definition W : Z := 1040.
Definition H : Z := 560.
Definition laneH : Z := 176.
Definition lane1Y : Z := 168.
Definition lane2Y : Z := lane1Y + laneH + 8.
Definition reqX : Z := 40.
Definition reqW : Z := 250.
Definition gateX : Z := 330.
Definition gateW : Z := 150.
Definition outX : Z := 520.
Definition nodeTop : Z := 42.
Definition nodeH : Z := 118.
Definition mono : string := "ui-monospace, SFMono-Regular, Menlo, monospace".

Section Draw.
Context {UT : UnicodeTables}.

Definition draw (f : string) (args : list fmtarg) : string := Sprintf (svg f) args.
Definition AEsc (b : bytes) : fmtarg := AStr (b2s (esc b)).
(** [strokeOp] is the opacity to two decimals. *)
Definition node (x y w h : Z) (fill stroke strokeOp : string) : string :=
  draw "<rect x='%d' y='%d' width='%d' height='%d' rx='10' fill='%s' stroke='%s' stroke-opacity='%s'/>"
    [AInt x; AInt y; AInt w; AInt h; AStr fill; AStr stroke; AStr strokeOp] +:+ nl.
Definition label (x y : Z) (t : string) : string :=
  draw "<text x='%d' y='%d' fill='%s' font-size='10' font-weight='700' letter-spacing='1.5'>%s</text>"
    [AInt x; AInt y; AStr mutedCol; AEsc (s2b t)] +:+ nl.
Definition arrow (x1 y1 x2 y2 : Z) : string :=
  draw "<line x1='%d' y1='%d' x2='%d' y2='%d' stroke='%s' stroke-width='2'/>" [AInt x1; AInt y1; AInt (x2 - 8); AInt y2; AStr hairline]
  +:+ draw "<path d='M %d %d l -9 -5 l 0 10 z' fill='%s'/>" [AInt x2; AInt y2; AStr hairline] +:+ nl.
Definition shield (cx top : Z) (col : string) : string :=
  draw "<path d='M %d %d l 13 5 l 0 10 q 0 11 -13 17 q -13 -6 -13 -17 l 0 -10 z' fill='none' stroke='%s' stroke-width='2'/>"
    [AInt cx; AInt top; AStr col] +:+ nl.
Definition joined (l : list string) : string := foldr (fun a b => a +:+ b) "" l.

Definition renderLane (y : Z) (intent : string) (at_ : attempt) : string :=
  let '(fill, stroke, bright) :=
    if allowed at_ then (greenFill, greenStroke, greenBright) else (amberFill, amberStroke, amberBright) in
  let nodeY := y + nodeTop in
  let mid := nodeY + Z.quot nodeH 2 in
  joined
    ([draw "<rect x='24' y='%d' width='%d' height='%d' rx='12' fill='#ffffff' fill-opacity='0.02' stroke='%s' stroke-opacity='0.25'/>"
        [AInt y; AInt (W - 48); AInt laneH; AStr stroke];
      draw "<rect x='24' y='%d' width='6' height='%d' rx='3' fill='%s'/>" [AInt y; AInt laneH; AStr bright]; nl;
      draw "<text x='%d' y='%d' fill='%s' font-size='14' font-weight='600'>%s</text>" [AInt reqX; AInt (y + 28); AStr textCol; AEsc (s2b intent)]; nl;
      node reqX nodeY reqW nodeH nodeBG "#ffffff" "0.06"; label (reqX + 14) (nodeY + 20) "REQUEST";
      draw ("<text x='%d' y='%d' fill='%s' font-size='17' font-family='" +:+ mono +:+ "' font-weight='600'>%s</text>")
        [AInt (reqX + 14); AInt (nodeY + 52); AStr textCol; AEsc (typ at_)]]
     ++ imap (fun i ln => draw ("<text x='%d' y='%d' fill='%s' font-size='12.5' font-family='" +:+ mono +:+ "'>%s</text>")
                            [AInt (reqX + 14); AInt (nodeY + 76 + Z.of_nat i * 17); AStr mutedCol; AEsc ln]) (wrapPath (target at_) 28)
     ++ [arrow (reqX + reqW + 4) mid (gateX - 4) mid;
         node gateX nodeY gateW nodeH chipBG stroke "1.00"; shield (gateX + Z.quot gateW 2) (nodeY + 40) bright;
         draw "<text x='%d' y='%d' fill='%s' font-size='12.5' font-weight='600' text-anchor='middle'>kessa-proxy</text>"
           [AInt (gateX + Z.quot gateW 2); AInt (nodeY + 78); AStr textCol];
         draw "<text x='%d' y='%d' fill='%s' font-size='10.5' text-anchor='middle'>verifies the grant</text>"
           [AInt (gateX + Z.quot gateW 2); AInt (nodeY + 96); AStr mutedCol];
         arrow (gateX + gateW + 4) mid (outX - 4) mid;
         draw "<rect x='%d' y='%d' width='%d' height='30' rx='15' fill='%s' stroke='%s'/>" [AInt outX; AInt (nodeY + 2); AInt 92; AStr fill; AStr stroke];
         draw "<text x='%d' y='%d' fill='%s' font-size='15' font-weight='700' text-anchor='middle' letter-spacing='0.5'>%s %s</text>"
           [AInt (outX + Z.quot 92 2); AInt (nodeY + 23); AStr "#ffffff";
            AStr (b2s (if allowed at_ then [Byte.xe2; Byte.x9c; Byte.x93] else [Byte.xe2; Byte.x9c; Byte.x97])); AStr (b2s (decision at_))]; nl]
     ++ imap (fun i ln => draw ("<text x='%d' y='%d' fill='%s' font-size='12' font-family='" +:+ mono +:+ "'>%s</text>")
                            [AInt outX; AInt (nodeY + 56 + Z.of_nat i * 17); AStr textCol; AEsc ln]) (wrap (reason at_) 64)
     ++ [nl]).

Definition renderCard (c : card) (a b : attempt) : string :=
  let tagW := 10 * Z.of_nat (width (s2b (tag c))) + 20 in
  joined
    [draw "<svg xmlns='http://www.w3.org/2000/svg' viewBox='0 0 %d %d' font-family='ui-sans-serif, system-ui, -apple-system, Segoe UI, Roboto, sans-serif'>"
       [AInt W; AInt H]; nl;
     draw "<rect x='0' y='0' width='%d' height='%d' rx='18' fill='%s'/>" [AInt W; AInt H; AStr cardBG]; nl;
     draw "<text x='40' y='56' fill='%s' font-size='27' font-weight='700'>%s</text>" [AStr textCol; AEsc (s2b (title c))]; nl;
     draw "<rect x='40' y='72' width='%d' height='22' rx='11' fill='none' stroke='%s'/>" [AInt tagW; AStr greenStroke];
     draw "<text x='%d' y='87' fill='%s' font-size='11' font-weight='700' letter-spacing='1.2'>%s</text>" [AInt (40 + 11); AStr greenBright; AEsc (s2b (tag c))]; nl;
     draw "<text x='%d' y='52' fill='%s' font-size='15' font-weight='700' text-anchor='end' letter-spacing='0.5'>kessa</text>" [AInt (W - 40); AStr mutedCol];
     draw "<text x='%d' y='88' fill='%s' font-size='11' text-anchor='end'>enforcement point</text>" [AInt (W - 40); AStr mutedCol]; nl;
     draw "<text x='40' y='127' fill='%s' font-size='13'>%s</text>" [AStr mutedCol; AEsc (s2b subtitle)]; nl;
     draw "<line x1='40' y1='146' x2='%d' y2='146' stroke='%s' stroke-opacity='0.5'/>" [AInt (W - 40); AStr hairline]; nl;
     renderLane lane1Y (intent (allow c)) a; renderLane lane2Y (intent (deny c)) b;
     "</svg>" +:+ nl].

(** ** The command: a card is written only when both its outcomes were captured *)
Fixpoint render_all (runs : gmap string attempt) (outDir : bytes) (fs : files.files) (l : list (card * files.answer)) : files.files * result unit :=
  match l with
  | [] => (fs, Ok tt)
  | (c, ans) :: l =>
      match runs !! id (allow c), runs !! id (deny c) with
      | Some a, Some b =>
          let '(fs, r) := files.WriteFile fs (b2s (filepath_Join [outDir; s2b (file c)])) (s2b (renderCard c a b)) ans in
          match r with Ok _ => render_all runs outDir fs l | Err e => (fs, Err e) end
      | _, _ => (fs, Err (Errorf "%s: missing captured outcome for %s/%s" [AStr (file c); AStr (id (allow c)); AStr (id (deny c))]))
      end
  end.
Definition main (args : list string) (read : string -> result bytes) (answers : list files.answer) (fs : files.files) : files.files * Z :=
  match args with
  | [runsPath; outDir] =>
      match parse (read runsPath) with
      | Err _ => (fs, 1)
      | Ok runs => let '(fs, r) := render_all runs (s2b outDir) fs (zip cards answers) in (fs, if is_ok r then 0 else 1)
      end
  | _ => (fs, 2)
  end.
End Draw.

(** ** Runes and their text *)

Definition all_runes (rs : list Z) : Prop := Forall is_rune rs.
(** Text that is valid UTF-8. *)
Definition utf8 (b : bytes) : Prop := exists rs, all_runes rs /\ b = of_runes rs.

Lemma encode_runes fuel r b : is_rune r -> (length (encode_rune r ++ b) <= fuel)%nat ->
  exists fuel', runes fuel (encode_rune r ++ b) = Some r :: runes fuel' b /\ (length b <= fuel')%nat.
Proof.
  intros (x & w & Hd) Hf. pose proof (encode_decode _ _ _ Hd) as He. pose proof (decode_width _ _ _ Hd) as Hw.
  rewrite He in *. assert (Hl : length (take w x) = w) by (rewrite length_take; lia). rewrite length_app, Hl in Hf.
  destruct fuel as [|fuel]; [lia|]. exists fuel. split; [|lia]. destruct (take w x ++ b) as [|c t] eqn:E.
  { apply (f_equal length) in E. rewrite length_app, Hl in E. cbn in E. lia. }
  pose proof (decode_prefix _ _ _ b Hd) as Hp. rewrite E in Hp. cbn [runes]. rewrite Hp. f_equal. rewrite <- E, drop_app_le by lia.
  by rewrite drop_ge by lia.
Qed.
Lemma runes_fuel fuel rs : all_runes rs -> (length (of_runes rs) <= fuel)%nat -> runes fuel (of_runes rs) = map Some rs.
Proof.
  intros Hr. revert fuel. induction Hr as [|r rs Hr _ IH]; intros fuel Hf; [by destruct fuel|].
  unfold of_runes in *. cbn [map concat] in *. destruct (encode_runes fuel r _ Hr Hf) as (fuel' & -> & Hf'). by rewrite IH.
Qed.
Lemma runes_of_text rs : all_runes rs -> runes_of (of_runes rs) = rs.
Proof.
  intros Hr. unfold runes_of. rewrite runes_fuel by done. rewrite map_map. cbn. apply map_id.
Qed.
Lemma width_text rs : all_runes rs -> width (of_runes rs) = length rs.
Proof. intros Hr. unfold width. by rewrite runes_of_text. Qed.
Lemma of_runes_app a b : of_runes (a ++ b) = of_runes a ++ of_runes b.
Proof. unfold of_runes. by rewrite map_app, concat_app. Qed.
Lemma of_runes_nil rs : all_runes rs -> of_runes rs = [] <-> rs = [].
Proof. intros Hr. split; [|by intros ->]. intros E. rewrite <- (runes_of_text rs Hr), E. done. Qed.
Lemma utf8_app a b : utf8 a -> utf8 b -> utf8 (a ++ b) /\ width (a ++ b) = (width a + width b)%nat.
Proof.
  intros (ra & Ha & ->) (rb & Hb & ->). rewrite <- of_runes_app. assert (all_runes (ra ++ rb)) by by apply Forall_app.
  split; [by exists (ra ++ rb)|]. by rewrite !width_text, length_app.
Qed.
Lemma utf8_nil : utf8 [].
Proof. exists []. split; [constructor|done]. Qed.
Lemma utf8_ascii b : reusecheck.ascii b -> utf8 b.
Proof.
  intros Ha. exists (map bz b). split.
  - apply Forall_map. eapply Forall_impl; [exact Ha|]. intros c Hc. exists [c], 1%nat. unfold decode_rune. cbv zeta. unfold compose.
    by rewrite (proj2 (Z.ltb_lt _ _) Hc).
  - induction Ha as [|c b Hc _ IH]; [done|]. unfold of_runes in *. cbn [map concat]. rewrite <- IH.
    unfold encode_rune. pose proof (Z_of_byte_range c) as Hr. fold (bz c) in Hr.
    rewrite (proj2 (Z.leb_le _ _)), (proj2 (Z.ltb_lt _ _)) by lia. cbn [andb map app]. by rewrite (byte_eq_of c).
Qed.
Lemma width_nil b : utf8 b -> width b = 0%nat <-> b = [].
Proof. intros (rs & Hr & ->). rewrite width_text, of_runes_nil by done. split; [apply nil_length_inv|by intros ->]. Qed.

(** ** Breaking words *)
Section Break.
Context (n : nat) (Hn : (1 <= n)%nat).

(** A line that fits, and is not empty. *)
Definition fits (b : bytes) : Prop := utf8 b /\ b <> [] /\ (width b <= n)%nat.
Lemma flushed_fits cur : utf8 cur -> (width cur <= n)%nat -> Forall fits (flushed cur).
Proof. intros Hu Hw. unfold flushed. case_bool_decide; [constructor|]. by repeat constructor. Qed.
Lemma concat_flushed cur : concat (flushed cur) = cur.
Proof. unfold flushed. case_bool_decide as E; [by rewrite E|]. cbn. by rewrite app_nil_r. Qed.

Lemma cut_word_spec fuel word pieces rest :
  utf8 word -> (width word <= fuel)%nat -> cut_word fuel n word = (pieces, rest) ->
  concat pieces ++ rest = word /\ Forall fits pieces /\ utf8 rest /\ (width rest <= n)%nat /\ (word <> [] -> rest <> []).
Proof.
  revert word pieces rest. induction fuel as [|fuel IH]; intros word pieces rest Hu Hw; cbn [cut_word].
  { intros [= <- <-]. split_and!; [done|constructor|done|lia|done]. }
  change (length (runes_of word)) with (width word). destruct (Nat.ltb_spec n (width word)) as [Hlt|Hge].
  2: { intros [= <- <-]. split_and!; [done|constructor|done|lia|done]. }
  destruct Hu as (rs & Hr & ->). rewrite runes_of_text by done. rewrite width_text in * by done.
  assert (Hd : all_runes (drop n rs)) by by apply Forall_drop. assert (Ht : all_runes (take n rs)) by by apply Forall_take.
  destruct (cut_word fuel n (of_runes (drop n rs))) as [out rest'] eqn:E. intros [= <- <-].
  apply IH in E as (E1 & E2 & E3 & E4 & E5); [|by exists (drop n rs)|rewrite width_text by done; rewrite length_drop; lia].
  split_and!; [|constructor; [|done]|done|done|].
  - cbn [concat]. rewrite <- app_assoc, E1, <- of_runes_app. by rewrite take_drop.
  - split_and!; [by exists (take n rs)| |rewrite width_text by done; rewrite length_take; lia].
    rewrite of_runes_nil by done. intros E. apply (f_equal length) in E. rewrite length_take in E. cbn in E. lia.
  - intros _. apply E5. rewrite of_runes_nil by done. intros E. apply (f_equal length) in E. rewrite length_drop in E. cbn in E. lia.
Qed.
Lemma hard_spec word pieces rest :
  utf8 word -> hard n word = (pieces, rest) ->
  concat pieces ++ rest = word /\ Forall fits pieces /\ utf8 rest /\ (width rest <= n)%nat /\ (word <> [] -> rest <> []).
Proof. intros Hu. apply cut_word_spec; [done|lia]. Qed.

(** Segments: nothing is lost, every line fits. *)
Lemma wrap_segments_spec cur segs :
  utf8 cur -> (width cur <= n)%nat -> Forall utf8 segs ->
  concat (wrap_segments n cur segs) = cur ++ concat segs /\ Forall fits (wrap_segments n cur segs).
Proof.
  intros Hu Hw Hs. revert cur Hu Hw. induction Hs as [|seg segs Hseg _ IH]; intros cur Hu Hw; cbn [wrap_segments].
  { rewrite concat_flushed, app_nil_r. split; [done|by apply flushed_fits]. }
  destruct (hard n seg) as [pieces rest] eqn:E. destruct (hard_spec _ _ _ Hseg E) as (E1 & E2 & E3 & E4 & _). rewrite <- E1.
  pose proof utf8_nil as Hnil.
  assert (Hstep : forall c, utf8 c -> (width c <= n)%nat ->
    let l := if (width c + width rest <=? n)%nat then wrap_segments n (c ++ rest) segs else flushed c ++ wrap_segments n rest segs in
    concat l = c ++ rest ++ concat segs /\ Forall fits l).
  { intros c Hc Hcw. cbv zeta. destruct (utf8_app c rest Hc E3) as [Ha Hl]. destruct (Nat.leb_spec (width c + width rest) n) as [Hle|Hgt].
    - rewrite app_assoc. apply IH; [done|lia].
    - destruct (IH rest E3 E4) as [I1 I2]. split; [by rewrite concat_app, concat_flushed, I1|]. apply Forall_app. split; [by apply flushed_fits|done]. }
  cbn [concat]. case_bool_decide as Ep.
  - subst pieces. cbn [concat app]. by apply Hstep.
  - destruct (Hstep [] Hnil) as [I1 I2]; [cbn; lia|]. split.
    + rewrite !concat_app, concat_flushed, I1. by rewrite <- !app_assoc.
    + rewrite <- app_assoc. apply Forall_app. split; [by apply flushed_fits|]. apply Forall_app. by split.
Qed.
End Break.

(** Bytes of UTF-8 text above the ASCII range belong to longer runes, so cutting at slashes keeps text whole. *)
Lemma rune_slash r : is_rune r -> encode_rune r = [Byte.x2f] \/ Forall (fun c => byte_is c 47 = false) (encode_rune r).
Proof.
  intros Hr. destruct (is_rune_cases r Hr) as [Ha|(_ & b & w & _ & -> & Hf & _)].
  - unfold encode_rune. rewrite (proj2 (Z.leb_le _ _)), (proj2 (Z.ltb_lt _ _)) by lia. cbn [andb map].
    destruct (decide (r = 47)) as [->|Hne]; [by left|right]. constructor; [|done]. unfold byte_is. rewrite bz_byte_of_Z by lia. lia.
  - right. eapply Forall_impl; [exact Hf|]. intros c Hc. cbv beta in Hc. unfold byte_is. lia.
Qed.
Lemma segments_through w b : Forall (fun c => byte_is c 47 = false) w ->
  exists seg segs, segments b = seg :: segs /\ segments (w ++ b) = (w ++ seg) :: segs.
Proof.
  intros Hw. destruct (segments b) as [|seg segs] eqn:E.
  { exfalso. destruct b as [|c b]; cbn [segments] in E; [done|]. destruct (byte_is c 47), (segments b); done. }
  exists seg, segs. split; [done|]. induction Hw as [|c w Hc _ IH]; [done|]. cbn [app segments]. by rewrite Hc, IH.
Qed.
Lemma concat_segments b : concat (segments b) = b.
Proof.
  induction b as [|c b IH]; [done|]. cbn [segments]. destruct (byte_is c 47); cbn [concat app]; [by rewrite IH|].
  destruct (segments b); cbn [concat app] in *; by rewrite <- IH.
Qed.
Lemma segments_utf8 b : utf8 b -> Forall utf8 (segments b).
Proof.
  intros (rs & Hr & ->). induction Hr as [|r rs Hr _ IH]; [constructor; [apply utf8_nil|done]|].
  unfold of_runes in *. cbn [map concat]. assert (H1 : utf8 (encode_rune r)) by (exists [r]; split; [by constructor|by rewrite <- app_nil_r at 1]).
  destruct (rune_slash r Hr) as [E|Hs].
  - rewrite E in *. cbn [app segments]. by constructor.
  - destruct (segments_through _ (concat (map encode_rune rs)) Hs) as (seg & segs & E1 & ->). rewrite E1 in IH.
    apply Forall_cons in IH as [I1 I2]. constructor; [|done]. by apply utf8_app.
Qed.

(** A target drawn on its lines reads as the target: only line ends are added, and no line is wider than asked. *)
Theorem wrapPath_spec s n : (1 <= n)%nat -> utf8 s ->
  concat (wrapPath s n) = s /\ Forall (fits n) (wrapPath s n).
Proof.
  intros Hn Hs. destruct (wrap_segments_spec n Hn [] (segments s)) as [E1 E2]; [apply utf8_nil|cbn; lia|by apply segments_utf8|].
  split; [|exact E2]. unfold wrapPath. by rewrite E1, concat_segments.
Qed.

(** ** Words: a wrapped reason has the words of the reason *)
Definition spaceless (b : bytes) : bytes := filter (fun c => byte_is c 32 = false) b.
Lemma spaceless_app a b : spaceless (a ++ b) = spaceless a ++ spaceless b.
Proof. apply filter_app. Qed.
Lemma wrap_words_spec n cur words : (1 <= n)%nat -> utf8 cur -> (width cur <= n)%nat -> Forall utf8 words ->
  spaceless (concat (wrap_words n cur words)) = spaceless cur ++ spaceless (concat words) /\ Forall (fits n) (wrap_words n cur words).
Proof.
  intros Hn Hu Hw Hs. revert cur Hu Hw. induction Hs as [|word words Hword _ IH]; intros cur Hu Hw; cbn [wrap_words].
  { rewrite concat_flushed, app_nil_r. split; [done|by apply flushed_fits]. }
  destruct (hard n word) as [pieces rest] eqn:E. destruct (hard_spec n Hn _ _ _ Hword E) as (E1 & E2 & E3 & E4 & _). rewrite <- E1.
  pose proof utf8_nil as Hnil.
  assert (Hstep : forall c, utf8 c -> (width c <= n)%nat ->
    let l := if bool_decide (c = []) then wrap_words n rest words
             else if (width c + 1 + width rest <=? n)%nat then wrap_words n (c ++ Byte.x20 :: rest) words else c :: wrap_words n rest words in
    spaceless (concat l) = spaceless c ++ spaceless rest ++ spaceless (concat words) /\ Forall (fits n) l).
  { intros c Hc Hcw. cbv zeta. destruct (IH rest E3 E4) as [I1 I2]. case_bool_decide as Ec; [by subst c|].
    assert (Hsp : utf8 [Byte.x20]) by by apply utf8_ascii; constructor.
    destruct (utf8_app _ _ Hsp E3) as [Ha Hl]. destruct (utf8_app _ _ Hc Ha) as [Ha' Hl']. rewrite Hl in Hl'.
    change (width [Byte.x20]) with 1%nat in Hl'. cbn [app] in Ha', Hl'.
    destruct (Nat.leb_spec (width c + 1 + width rest) n) as [Hle|Hgt].
    - destruct (IH _ Ha') as [J1 J2]; [lia|]. split; [|done]. rewrite J1, spaceless_app. cbn [spaceless]. by rewrite <- app_assoc.
    - cbn [concat]. rewrite spaceless_app, I1. split; [done|]. by repeat constructor. }
  cbn [concat]. rewrite !spaceless_app. case_bool_decide as Ep.
  - subst pieces. cbn [concat app]. rewrite app_assoc. rewrite <- app_assoc. by apply Hstep.
  - destruct (Hstep [] Hnil) as [I1 I2]; [cbn; lia|]. split.
    + rewrite !concat_app, !spaceless_app, concat_flushed, I1. by rewrite <- !app_assoc.
    + rewrite <- app_assoc. apply Forall_app. split; [by apply flushed_fits|]. apply Forall_app. by split.
Qed.
Lemma strip_prefix_drop p b r : strip_prefix p b = Some r -> exists w, b = w ++ r.
Proof.
  revert b. induction p as [|z p IH]; intros [|c b]; cbn [strip_prefix]; try by intros [= <-]; exists [].
  destruct (byte_is c z); [|done]. intros E. apply IH in E as [w ->]. by exists (c :: w).
Qed.
Lemma first_strip_drop ps b r : first_strip ps b = Some r -> exists w, b = w ++ r.
Proof.
  induction ps as [|p ps IH]; cbn [first_strip]; [done|]. destruct (strip_prefix p b) eqn:E; [|done].
  intros [= <-]. by eapply strip_prefix_drop.
Qed.
(** Words are made of the bytes of the text. *)
Lemma fields_bytes (P : Byte.byte -> Prop) fuel cur b : Forall P cur -> Forall P b -> Forall (Forall P) (verifycmd.fields_from fuel cur b).
Proof.
  revert cur b. induction fuel as [|fuel IH]; intros cur b Hc Hb; cbn [verifycmd.fields_from];
    (assert (Hfl : Forall (Forall P) (match cur with [] => [] | _ => [rev cur] end))
      by (destruct cur; constructor; [by apply Forall_rev|constructor])); [done|].
  destruct (first_strip space_encodings b) as [r|] eqn:E.
  - apply first_strip_drop in E as [w ->]. apply Forall_app in Hb as [_ Hb]. apply Forall_app. split; [done|]. by apply IH.
  - destruct b as [|c b]; [done|]. apply Forall_cons in Hb as [Hb1 Hb2]. apply IH; [by constructor|done].
Qed.
Definition words (s : bytes) : list bytes := map s2b (verifycmd.Fields (b2s s)).
Theorem wrap_spec s n : (1 <= n)%nat -> reusecheck.ascii s ->
  spaceless (concat (wrap s n)) = spaceless (concat (words s)) /\ Forall (fits n) (wrap s n).
Proof.
  intros Hn Hs. unfold wrap. fold (words s). destruct (wrap_words_spec n [] (words s)) as [E1 E2]; [done|apply utf8_nil|cbn; lia| |done].
  unfold words, verifycmd.Fields. apply Forall_map, Forall_map.
  eapply Forall_impl; [apply (fields_bytes (fun c => bz c < 128)); [constructor|by rewrite s2b_b2s]|].
  intros w Hw. cbv beta. rewrite s2b_b2s. by apply utf8_ascii.
Qed.

(** ** The agent's line *)
Definition line_of (a : attempt) (gap : bytes) : bytes :=
  decision a ++ gap ++ typ a ++ s2b " -> " ++ target a ++ s2b "  (" ++ reason a ++ s2b ")".
Definition word (b : bytes) : Prop := b <> [] /\ Forall (fun c => not_space c = true) b.
Lemma some_of_word f w b : w <> [] -> Forall (fun c => f c = true) w -> match b with c :: _ => f c = false | [] => True end -> some_of f (w ++ b) = Some (w, b).
Proof.
  intros Hne Hw Hb. unfold some_of. assert (E : reusecheck.take_while f (w ++ b) = w).
  { clear Hne. induction Hw as [|c w Hc _ IH]; [|cbn; by rewrite Hc, IH]. destruct b as [|c b]; [done|]. cbn. by rewrite Hb. }
  rewrite E, bool_decide_false by done. by rewrite drop_app_length.
Qed.
Lemma literal_app w b : literal w (w ++ b) = Some b.
Proof.
  unfold literal. assert (E : has_prefix w (w ++ b) = true) by (induction w as [|c w IH]; cbn; [by destruct b|by rewrite bool_decide_true]).
  by rewrite E, drop_app_length.
Qed.
(** The line printed for an outcome is read back as that outcome: the gap is two blanks after ALLOW and three after DENY. *)
Theorem lineRe_line a gap :
  decision a = s2b "ALLOW" \/ decision a = s2b "DENY" -> gap <> [] -> Forall (fun c => is_space c = true) gap ->
  word (typ a) -> word (target a) -> forallb not_nl (reason a) = true -> lineRe (line_of a gap) = Some a.
Proof.
  intros Hd Hg Hgap [Ht Htf] [Hr Hrf] Hnl. unfold line_of, lineRe.
  assert (Hread : forall d, match some_of is_space (gap ++ typ a ++ s2b " -> " ++ target a ++ s2b "  (" ++ reason a ++ s2b ")") with
     | Some (_, b) => '(ty, b) ← some_of not_space b; b ← literal (s2b " -> ") b; '(tg, b) ← some_of not_space b;
                      '(_, b) ← some_of is_space b; b ← literal (s2b "(") b;
                      let r := take (length b - 1) b in
                      if has_prefix (s2b ")") (rev b) && forallb not_nl r then Some (mkAttempt d ty tg r) else None
     | None => None end = Some (mkAttempt d (typ a) (target a) (reason a))).
  { intros d. rewrite some_of_word; [|done|done|].
    2: { destruct (typ a) as [|c t]; [done|]. apply Forall_cons in Htf as [Hc _]. unfold not_space in Hc. cbn. by apply negb_true_iff. }
    rewrite some_of_word by done. cbn [mbind option_bind]. rewrite literal_app. cbn [mbind option_bind].
    rewrite some_of_word by done. cbn [mbind option_bind].
    change (s2b "  (") with (s2b "  " ++ s2b "("). rewrite <- app_assoc, some_of_word; [|done|by repeat constructor|done]. cbn [mbind option_bind].
    rewrite literal_app. cbn [mbind option_bind]. rewrite rev_app_distr. cbn [s2b rev app has_prefix].
    assert (E : has_prefix (s2b ")") (rev (s2b ")") ++ rev (reason a)) = true) by (cbn; by destruct (rev (reason a))).
    rewrite E. rewrite length_app. cbn [length s2b]. cbv zeta. rewrite Nat.add_sub, take_app_length, Hnl. done. }
  destruct a as [d t tg r]. cbn [decision typ target reason] in *. destruct Hd as [->| ->].
  - rewrite literal_app. cbn [mbind option_bind]. apply Hread.
  - replace (literal (s2b "ALLOW") _) with (None : option bytes) by done. rewrite literal_app. cbn [mbind option_bind]. apply Hread.
Qed.

(** What the agent prints of an answered attempt is what the card shows of it:
    the decision of the proxy, the action and the reason. *)
Definition outcome (a : types.Action) (d : types.Decision) : attempt :=
  mkAttempt (s2b (if types.Allowed d then "ALLOW" else "DENY")) (s2b (types.Type_ a)) (s2b (types.Target a)) (s2b (types.Reason d)).
Lemma printed_line {UT : UnicodeTables} a res :
  agent.printed a (agent.Answered res) =
  [b2s (line_of (outcome a (enforce.Decision res)) (if types.Allowed (enforce.Decision res) then s2b "  " else s2b "   "))].
Proof.
  unfold line_of, outcome, agent.printed. cbn [decision typ target reason]. f_equal. apply (inj s2b). rewrite s2b_b2s. destruct (types.Allowed _).
  - change (Sprintf _ _) with ("ALLOW  " +:+ types.Type_ a +:+ " -> " +:+ types.Target a +:+ "  (" +:+ types.Reason (enforce.Decision res) +:+ ")").
    by rewrite !s2b_append.
  - change (Sprintf _ _) with ("DENY   " +:+ types.Type_ a +:+ " -> " +:+ types.Target a +:+ "  (" +:+ types.Reason (enforce.Decision res) +:+ ")").
    by rewrite !s2b_append.
Qed.
(** A card shows what the proxy decided: the line the agent prints of an answered
    attempt is read back as its decision, action and reason, when the type and
    the target have no blank and the reason no line feed. *)
Theorem agent_line_read {UT : UnicodeTables} a res line :
  agent.printed a (agent.Answered res) = [line] ->
  word (s2b (types.Type_ a)) -> word (s2b (types.Target a)) -> forallb not_nl (s2b (types.Reason (enforce.Decision res))) = true ->
  lineRe (s2b line) = Some (outcome a (enforce.Decision res)) /\ allowed (outcome a (enforce.Decision res)) = types.Allowed (enforce.Decision res).
Proof.
  rewrite printed_line. intros [= <-] Ht Hg Hr. rewrite s2b_b2s. split.
  - apply lineRe_line; try done; unfold outcome; cbn [decision]; destruct (types.Allowed _); first [by left|by right|by repeat constructor|done].
  - unfold allowed, outcome. cbn [decision]. by destruct (types.Allowed _).
Qed.

(** ** Escaping *)
Definition markup (c : Byte.byte) : bool := byte_is c 34 || byte_is c 39 || byte_is c 60 || byte_is c 62.

(** A reader of escaped text. *)
Definition entities : list (bytes * Byte.byte) :=
  [(s2b "amp;", Byte.x26); (s2b "lt;", Byte.x3c); (s2b "gt;", Byte.x3e); (s2b "quot;", Byte.x22); (s2b "#39;", Byte.x27)].
Fixpoint entity (l : list (bytes * Byte.byte)) (b : bytes) : option (Byte.byte * bytes) :=
  match l with
  | [] => None
  | (w, c) :: l => if has_prefix w b then Some (c, drop (length w) b) else entity l b
  end.
Definition unesc_one (b : bytes) : option (Byte.byte * bytes) :=
  match b with [] => None | c :: r => if byte_is c 38 then entity entities r else Some (c, r) end.
Lemma unesc_esc_byte c b : unesc_one (esc_byte c ++ b) = Some (c, b).
Proof. destruct c; reflexivity. Qed.
Lemma esc_byte_clean c : forallb (fun d => negb (markup d)) (esc_byte c) = true.
Proof. destruct c; reflexivity. Qed.
(** Captured text cannot open markup or leave an attribute. *)
Theorem esc_clean b : Forall (fun c => markup c = false) (esc b).
Proof.
  unfold esc. apply Forall_concat, Forall_map, Forall_true. intros c. pose proof (esc_byte_clean c) as H1. rewrite forallb_forall in H1.
  apply List.Forall_forall. intros d Hd. by apply negb_true_iff, H1.
Qed.
(** Distinct texts are drawn as distinct texts. *)
Theorem esc_inj a b : esc a = esc b -> a = b.
Proof.
  revert b. induction a as [|c a IH]; intros [|d b] E; [done| | |].
  - apply (f_equal unesc_one) in E. unfold esc in E. cbn [map concat] in E. by rewrite unesc_esc_byte in E.
  - apply (f_equal unesc_one) in E. unfold esc in E. cbn [map concat] in E. by rewrite unesc_esc_byte in E.
  - unfold esc in E. cbn [map concat] in E. apply (f_equal unesc_one) in E. rewrite !unesc_esc_byte in E.
    apply (inj Some) in E. injection E as -> E. f_equal. by apply IH.
Qed.

Definition read_line_of : attempt :=
  mkAttempt (s2b "DENY") (s2b "data.read") (s2b "datalake:hr/salaries") (s2b "resource not in the grant's scope, refused").
Lemma lineRe_line_witness :
  lineRe (s2b "DENY   data.read -> datalake:hr/salaries  (resource not in the grant's scope, refused)") = Some read_line_of.
Proof.
  refine (lineRe_line read_line_of (s2b "   ") (or_intror eq_refl) _ _ _ _ eq_refl); [done|by repeat constructor| |]; (split; [done|by repeat constructor]).
Defined.
Lemma wrapPath_spec_witness :
  concat (wrapPath (s2b "workbook:finance-reporting/q3/summary-of-revenue") 28) = s2b "workbook:finance-reporting/q3/summary-of-revenue"
  /\ Forall (fits 28) (wrapPath (s2b "workbook:finance-reporting/q3/summary-of-revenue") 28).
Proof. apply wrapPath_spec; [lia|]. apply utf8_ascii. by repeat constructor. Defined.

Example wrapped_path : map b2s (wrapPath (s2b "workbook:finance-reporting/q3/summary-of-revenue") 28)
  = ["workbook:finance-reporting/"; "q3/summary-of-revenue"]%string.
Proof. vm_compute. reflexivity. Qed.
Example wrapped_reason : map b2s (wrap (s2b "the grant does  not cover abcdefghij") 8) = ["the"; "grant"; "does not"; "cover"; "abcdefgh"; "ij"]%string.
Proof. vm_compute. reflexivity. Qed.
Example two_lines {UT : UnicodeTables} :
  parse (Ok (s2b "a" ++ tab :: s2b "ALLOW  t -> x  (ok)" ++ s2b nl ++ s2b nl ++ s2b "a" ++ tab :: s2b "DENY   t -> y  (no)" ++ s2b nl))
  = Ok {[ "a"%string := mkAttempt (s2b "DENY") (s2b "t") (s2b "y") (s2b "no") ]}.
Proof. vm_compute. reflexivity. Qed.
End stories.
